(* ===== verification/_CoqProject ===== *)
-Q . S2P
Prelude.v
Excessive.v
Memory.v
Transaction.v
Registry.v
StateOverride.v
ChainDesign.v
TestChainDesign.v
MEVBuilder.v
BlockTimestampTracker.v
FileCache.v
EpochFile.v
EpochCapacity.v
Journal.v
EpochCache.v
TornAppend.v
SharedCursor.v
CatalogFile.v
Catalog.v
CatalogTasks.v
CatalogContents.v
CatalogStats.v
CatalogCache.v
SumIndex.v
Backend.v
BackendCorrect.v
Frontend.v
TestBackend.v
Progress.v
TornMempool.v
Crash.v
Lifetime.v
SumChain.v
SumFrontend.v
Ledger.v
Sharing.v
LedgerRefinement.v
DesignChain.v
FullStack.v
Drain.v
Upgrade.v
CommitReads.v
PowerLoss.v
TestSuite.v
