(* ===== verification/Prelude.v ===== *)
(** * LibMagelessChain: verification development

    LibMagelessChain (src/) is a C++ library for single-writer blockchains.  An
    application supplies transactions, indexes over the chain's state and override
    families (the state of a block in progress); the library keeps the mempool, builds
    and commits blocks, stores them in a journal and stores the indexes' segments in a
    catalog.  This development translates the library into Gallina functions, file by
    file, and proves what makes each part correct.

    ** The program and the files of the development

    - Prelude.v (this file): machine integers with their wrap-around, the result type
      [outcome] (value, C++ exception, undefined behaviour, fuel exhausted), the
      state-passing monad [prog] in which the state at the time of an exception is kept,
      and lemmas on lists.
    - Excessive.v: libexcessive is a separate library, of which the repository holds no
      code.  What the chain uses of it enters as classes: [BTree] with [Comparator],
      [FreeSpaceFile]; their laws are the documented behaviour.  Each class has a
      concrete instance.  [FreeSpaceHeader] is the one assumption on the layout of a
      catalog file: regions lie behind its first page.
    - Memory.v: little-endian fields, and the interfaces of libexcessive's [MmapHandle]
      and [FdHandle].
    - Transaction.v: blockchain/Transaction.h, TransactionTypeRegistry.h and .cpp.  The
      virtual interface is the class [Transaction]; what a design promises about its
      serialization is the class [TransactionCodec].
    - Registry.v: blockchain/TypeKey.h, IndexFamily.h, BackendRegistry.h and
      StateOverrideRegistry.h.  A registry is filled by registrations; ids are 8 bits wide.
    - StateOverride.v: blockchain/StateOverride.h and .cpp, IndexOverride.h.
    - ChainDesign.v: blockchain/ChainDesign.h, the registration hooks as a record, and what a
      design registers as three lists.
    - TestChainDesign.v: testutil/TestChainDesign.h and .cpp, the application of the test
      suite, which instantiates the classes above.
    - MEVBuilder.v: blockchain/MEVBuilder.h and .cpp, on IEEE binary32 values.
    - BlockTimestampTracker.v: storage/BlockTimestampTracker.h and .cpp.
    - FileCache.v: storage/CustomizableFileCache.h.
    - EpochFile.v: storage/EpochFile.h and .cpp, on the bytes of the mapped file.
    - EpochCapacity.v: how many blocks fit into the mapping of an epoch file.
    - Journal.v: [getEpochFile] of blockchain/BlockchainBackend.cpp and the calls of
      [appendBlock] and [readBlock]: all epochs together.  The class [Journal] with its
      laws is the contract for the backend, and the epoch files are an instance.
    - EpochCache.v: the same calls through the cache of FileCache.v, as the backend makes
      them: accessors made, evicted and made again.  A second instance of [Journal].
    - TornAppend.v: an append that stops between two of its writes.
    - SharedCursor.v: an append and a read of one file by two threads.
    - CatalogFile.v: storage/CatalogFile.h and .cpp, reader and writer.
    - Catalog.v: storage/Catalog.h and .cpp: TOC, bloom filters, choice of a file,
      range scan, segment writes.  A catalog file enters through the class
      [SegmentFile]; CatalogFile.v is an instance.
    - CatalogTasks.v: the catalog with its background tasks as a transition system, with
      the history of the accepted calls as a ghost component.
    - CatalogContents.v: what the files of the catalog hold, against that history.
    - CatalogStats.v: what the TOC says about each file, exactly; and what a process that
      dies leaves of a catalog.
    - CatalogCache.v: the same catalog with its files behind the cache of FileCache.v and its
      marks on accessors, as the code has them, and the simulation by Catalog.v.
    - SumIndex.v: the read path of testutil/TestChainDesign.cpp ([readLatestSegment]).
    - Backend.v: blockchain/BlockchainBackend.h and .cpp, BlockchainConfig.h and
      BlockchainIndex.h.  The journal and the catalog enter through [Journal] and
      [SegmentSink].
    - BackendCorrect.v: the theorems on Backend.v, through the relation [backend_rep]
      between a backend and the list of its blocks.
    - Frontend.v: blockchain/BlockchainFrontend.h and .cpp, the builder thread and the
      application's calls interleaved as a step relation.
    - TestBackend.v: the test design on a whole backend and frontend, where the theorems
      of the last two are evaluated.
    - Progress.v: one pass of the builder thread, from the mempool to the rebuilt state.
    - TornMempool.v: mempool.bin when the process dies while it is written.
    - Crash.v: the stages of a commit as a machine, stopped anywhere and reopened.
    - Lifetime.v: mempool.bin and the mempool over the runs of a program.
    - SumChain.v: the test design with the real catalog as the backend's sink, its
      thread pool and restarts: the layers together.
    - SumFrontend.v: the frontend and its builder thread on top of SumChain.v.
    - Ledger.v: an abstract ledger with its events and answers, the contract of the whole
      library; LedgerRefinement.v: the library implements it, with the commit stage by stage
      and ends of the program inside it.
    - DesignChain.v: any design, with any number of indexes, on the real catalog, while the
      pool works, writes fail and processes end.
    - FullStack.v: the same with both caches of open files: the layers as the constructor of
      the backend puts them together.
    - Sharing.v: forks of a pending state (StateOverride.v) with their copy-on-write
      pointers; the pointer of libexcessive is the class [SharedPointer].
    - Drain.v: many passes of the builder thread.
    - Upgrade.v: a chain reopened with a design that registers more.
    - CommitReads.v: queries while a commit is under way.
    - PowerLoss.v: what is on the disk when the power fails.
    - TestSuite.v: the unit tests of the repository, run on the model.

    ** What the theorems show

    - The contract.  [LedgerRefinement.ledger_refinement]: frontend, builder thread, backend,
      journal and mempool.bin do what an abstract ledger does, event by event and answer by
      answer, over runs that are closed or killed, inside a commit too, and with queries
      between the stages of a commit; so [answers_are_final].  Left to Crash.v and
      CommitReads.v is the stage between the height and the append: a run that ends in it, and
      a query for the number that is then counted. [BackendCorrect.getBlock_correct],
      [getTransactionsByTimeWindow_correct] and [Frontend.getTransactionById_correct] are the
      queries one by one.
    - End to end.  [FullStack.full_stack]: with every layer behind its cache, the blocks and
      the segments of every index read back, whatever is evicted, fails or is restarted, but
      for segments that a process left without their TOC update;
      [DesignChain.index_reads_sealed] is that for the layers without the caches.
      [SumChain.sum_recovered]: the state of the application, read back from the catalog, is
      the sum over all committed blocks, after any run in which blocks are sealed with an idle
      pool; [seal_reads_committed] is what happens otherwise. [SumFrontend.speculative_sum]:
      what an application reads through the speculative state is the sum of everything it has
      sent.
    - Crashes.  A commit is a machine of stages, which is [addBlock] when it runs to its end
      ([Crash.addBlock_stages]); [crash_recovery] and [recovered_chain] say what is there
      after a kill at any stage, [TornAppend.append_interrupted] inside the append,
      [CatalogStats.pool_crash] in the pool, [TornMempool.torn_mempool] while the mempool is
      saved. [PowerLoss.power_loss]: any number of commits whose pages had not been written
      when the power failed, between commits or inside one.  Losses:
      [interrupted_commit_overwrites], [SumChain.crash_forgets_block] and
      [LedgerRefinement.killed_run], for a run that ends anywhere but in its destructor.
    - Threads.  [SharedCursor.exclusive_run]: appends and reads of an epoch file that exclude
      each other are right in every interleaving; [race_overwrites] shows the interleaving
      that the code, which has no lock there, allows, and the block it destroys.
      [CommitReads.reads_during_commit]: what queries answer at each stage of a commit.
    - Commit.  [BackendCorrect.addBlock_commits]: a block that passes the cadence check and
      verification is appended to the chain, entered in the timestamp index, its families
      sealed and the segments handed to the catalog in family order. [addBlock_refused],
      [cadence], [addBlock_stuck], [addBlock_full_block_crash] and [addBlock_catalog_failure]
      are the other branches, [openBackend_wired] the initial state, [openBackend_typed] typed
      access to it, [Upgrade.design_grows] the ids that stay when the design grows.
    - Journal.  [EpochFile.epoch_journal] and [readBlock_appended]: what was appended is read
      back, block by block, transaction by transaction; [Journal.journal_roundtrip] lifts it
      to a chain of any length across epoch files, and [EpochCache.cached_journal] to any
      sequence of appends and reads on files that are evicted and reopened; [append_wraps] is
      the 32-bit limit of an epoch file, [EpochCapacity.epoch_capacity] that of its mapping.
    - Catalog.  [CatalogFile.createEntry_interleaved]: whatever the interleaving of writers, a
      file keeps every payload intact and disjoint.  [CatalogTasks] proves by rule induction
      over interleavings that the TOC never under-reports what its files hold, so
      [rangeScan_complete]: a scan misses no file that holds an indexed segment.
      [CatalogContents.segments_durable]: files and history describe each other.
      [CatalogStats.toc_statistics]: the entry of an idle file counts and bounds its segments.
      [SumIndex.readLatestSegment_correct]: a reader finds the newest segment.
    - Block building.  [MEVBuilder.buildBlock_greedy] refines the loops to a relation that
      states the greedy choice and when it may end; partition, maximality and ordered removal
      follow.
    - Frontend.  [no_transaction_lost]: at every point of every interleaving the transactions
      sent are those in the mempool, in the block under construction and committed;
      [mempool_roundtrip] through the file at shutdown, and [Lifetime.clean_lifetimes] over
      any number of runs.  [Progress.builder_progress]: a pass of the loop commits when there
      is something worth committing and the cadence allows, and [Drain.mempool_drains] counts
      the passes until there is nothing left; [addBlock_stuck] is the case in which no pass
      ever does.
    - Registries and overrides.  Ids are allocated alike in both registries, accessors return
      what was registered, copies are exact.  [Sharing.forks_isolated]: forks behave as
      values; [fork_of_fork_leaks]: those of a fork that has been written do not.
    - File cache.  [open_shares]: a file that is in use is never opened a second time; so
      [EpochCache.cached_journal] and [CatalogCache.cached_catalog]: neither the journal nor
      the catalog shows what the cache evicts.

    ** Conventions, bounds and fuel

    An integer of a fixed width is a [Z], with [u8] ... [u64], [i32] written where the C++
    code converts or wraps.  A loop whose end depends on data takes fuel, and the theorems
    ask for a stated amount and conclude with the result: a scan of a BTree needs one unit
    more than the entries in its range (or the tree), the greedy pass one more than the
    mempool.  [enough_fuel] covers the table of contents and every file. [NoFuel] is thus
    never the answer in a theorem except in [CatalogFile.forEachSegment_diverges], whose
    content is that no fuel is enough. A division by zero or a read of a null pointer is
    [Undef]; an exception is [Throw], with the state the code leaves behind.

    ** Not modelled

    The logger and the creation of directories have no counterpart.  Mutexes are represented
    by the granularity of steps: one critical section is one step; reads of the mempool or of
    the speculative state without the mutex are not.  A query to the backend falls between two
    stages of a commit; SharedCursor.v has one inside an append, with what it may destroy.  In
    DesignChain.v and FullStack.v a commit is one step, and the process ends between two
    calls, with the tasks of the pool at any of their sections.  A crash is one of the
    process, except in PowerLoss.v: what it has stored through a mapping is there afterwards,
    whole stores in program order.  PowerLoss.v has the pages of the epoch files since any
    moment at which they were all on the disk, and the three values of the metadata header,
    which fits a page, during a commit; the directory itself is taken to be there. The msync
    and fsync of mempool.bin have no counterpart.  The BTrees are intact after a crash, their
    nodes being library state; for the same reason the memory that the BTree and the
    free-space tree of a catalog file take for their nodes is not among the regions of
    CatalogFile.v.  The reference counts of [sp] appear only where eviction reads them
    (FileCache.v, CatalogCache.v), and its copy-on-write states only in Sharing.v.
    [mergeSegments] is never called; there is no compaction and no replay of the journal in
    the code.

    ** Open extensions

    A crash inside the [write] of a transaction; the loss of catalog pages when the power
    fails, which needs the order in which a BTree writes its nodes. *)

From Stdlib Require Import Ascii.
From Stdlib Require Export ZArith Lia.
From stdpp Require Export base list gmap strings sorting pretty.

#[global] Open Scope Z_scope.

(** ** Machine integers

    Values of [uint8_t] ... [uint64_t] are integers in range; every place where the
    C++ code converts or wraps is written with one of these functions. *)

Definition U8_MAX : Z := 255.
Definition U16_MAX : Z := 65535.
Definition U32_MAX : Z := 4294967295.
Definition U64_MAX : Z := 18446744073709551615.

Definition u8 (z : Z) : Z := z mod 256.
Definition u16 (z : Z) : Z := z mod 65536.
Definition u32 (z : Z) : Z := z mod 4294967296.
Definition u64 (z : Z) : Z := z mod 18446744073709551616.

(** Conversion to a 32-bit signed [int] (two's complement). *)
Definition i32 (z : Z) : Z := (z + 2147483648) mod 4294967296 - 2147483648.

Definition in_u8 (z : Z) : Prop := 0 <= z <= U8_MAX.
Definition in_u16 (z : Z) : Prop := 0 <= z <= U16_MAX.
Definition in_u32 (z : Z) : Prop := 0 <= z <= U32_MAX.
Definition in_u64 (z : Z) : Prop := 0 <= z <= U64_MAX.

#[global] Instance in_u8_dec z : Decision (in_u8 z).
Proof. unfold in_u8. apply _. Defined.
#[global] Instance in_u16_dec z : Decision (in_u16 z).
Proof. unfold in_u16. apply _. Defined.
#[global] Instance in_u32_dec z : Decision (in_u32 z).
Proof. unfold in_u32. apply _. Defined.
#[global] Instance in_u64_dec z : Decision (in_u64 z).
Proof. unfold in_u64. apply _. Defined.

(** Closes a decidable closed goal by evaluating its decision procedure. *)
Ltac by_compute := apply (bool_decide_unpack _); vm_compute; exact I.

(** [lia] with the widths unfolded and [mod]/[div] by constants eliminated. *)
Ltac word_unfold :=
  unfold in_u8, in_u16, in_u32, in_u64, u8, u16, u32, u64, i32,
    U8_MAX, U16_MAX, U32_MAX, U64_MAX in *.
Ltac word := word_unfold; Z.div_mod_to_equations; lia.

Lemma u8_small z : in_u8 z -> u8 z = z.
Proof. intros; word. Qed.
Lemma u16_small z : in_u16 z -> u16 z = z.
Proof. intros; word. Qed.
Lemma u32_small z : in_u32 z -> u32 z = z.
Proof. intros; word. Qed.
Lemma u64_small z : in_u64 z -> u64 z = z.
Proof. intros; word. Qed.
Lemma i32_small z : -2147483648 <= z < 2147483648 -> i32 z = z.
Proof. intros; word. Qed.
Lemma u8_range z : in_u8 (u8 z).
Proof. word. Qed.
Lemma u16_range z : in_u16 (u16 z).
Proof. word. Qed.
Lemma u32_range z : in_u32 (u32 z).
Proof. word. Qed.
Lemma u64_range z : in_u64 (u64 z).
Proof. word. Qed.

Create HintDb word discriminated.
Create Rewrite HintDb word.
#[export] Hint Resolve u8_range u16_range u32_range u64_range : word.
#[export] Hint Rewrite u8_small u16_small u32_small u64_small using (word) : word.

(** Clearing the low twelve bits, [x & ~4095] on 64 bits, rounds down to a page. *)
Lemma land_page_mask x : in_u64 x -> Z.land x 18446744073709547520 = 4096 * (x / 4096).
Proof.
  intros Hx. change 18446744073709547520 with (Z.shiftl (Z.ones 52) 12).
  assert (Z.land x (Z.shiftl (Z.ones 52) 12) = Z.shiftl (Z.land (Z.shiftr x 12) (Z.ones 52)) 12) as ->.
  { apply Z.bits_inj'. intros n Hn. rewrite Z.land_spec, !Z.shiftl_spec by lia.
    destruct (Z_lt_dec n 12); [rewrite !(Z.testbit_neg_r _ (n - 12)) by lia; apply andb_false_r|].
    rewrite Z.land_spec, Z.shiftr_spec by lia. by replace (n - 12 + 12) with n by lia. }
  rewrite Z.land_ones, Z.shiftr_div_pow2, Z.shiftl_mul_pow2 by lia.
  change (2 ^ 12) with 4096. change (2 ^ 52) with 4503599627370496. word.
Qed.

(** ** Strings *)

Lemma length_string_app (s1 s2 : string) : String.length (s1 +:+ s2) = (String.length s1 + String.length s2)%nat.
Proof. induction s1 as [|ch s1 IH]; [done|]. cbn. by rewrite <- IH. Qed.

Lemma string_app_inj_l (s1 s2 t : string) : s1 +:+ t = s2 +:+ t -> s1 = s2.
Proof.
  revert s2. induction s1 as [|c s1 IH]; intros [|c' s2] H; [done| | |].
  - apply (f_equal String.length) in H. rewrite !length_string_app in H. cbn in H. lia.
  - apply (f_equal String.length) in H. rewrite !length_string_app in H. cbn in H. lia.
  - cbn in H. injection H as -> H. f_equal. by apply IH.
Qed.

(** A number prints without a slash, so a name that starts with one is a relative path. *)
Lemma pretty_N_no_slash x s s' : s <> "/" +:+ s' -> pretty_N_go x s <> "/" +:+ s'.
Proof.
  revert s. induction (N.lt_wf_0 x) as [x _ IH]. intros s Hs. destruct (decide (x = 0)%N) as [->|Hx]; [by rewrite pretty_N_go_0|].
  rewrite pretty_N_go_step by lia. apply IH; [apply N.div_lt; lia|]. unfold pretty_N_char. by repeat case_match.
Qed.

Lemma pretty_relative (x : Z) s : String.get 0 s <> Some "/"%char -> String.get 0 (pretty x +:+ s) <> Some "/"%char.
Proof.
  intros Hs. destruct (pretty x) as [|c s'] eqn:Hp; [done|cbn; intros [= ->]].
  destruct x as [|p|p]; [done| |done]. by apply (pretty_N_no_slash (N.pos p) "" s') in Hp.
Qed.

(** ** Results of C++ code

    [Ret] is a normal return, [Throw] a C++ exception, [Undef] an operation whose
    behaviour the language leaves undefined (the process is lost), [NoFuel] a loop
    that the model stopped before it ended.  Termination theorems show that
    [NoFuel] does not occur. *)

Inductive exn :=
| range_error (what : string)
| runtime_error (what : string)
| out_of_range (what : string)
| invalid_argument (what : string).

Inductive undefined := DivByZero | NullDeref | OutOfBounds | Uninitialized.

Inductive outcome (A : Type) :=
| Ret (a : A)
| Throw (e : exn)
| Undef (u : undefined)
| NoFuel.
Arguments Ret {A} _.
Arguments Throw {A} _.
Arguments Undef {A} _.
Arguments NoFuel {A}.

#[global] Instance outcome_ret : MRet outcome := fun A a => Ret a.
#[global] Instance outcome_bind : MBind outcome := fun A B f m =>
  match m with
  | Ret a => f a
  | Throw e => Throw e
  | Undef u => Undef u
  | NoFuel => NoFuel
  end.
#[global] Instance outcome_fmap : FMap outcome := fun A B f m =>
  match m with
  | Ret a => Ret (f a)
  | Throw e => Throw e
  | Undef u => Undef u
  | NoFuel => NoFuel
  end.

(** The value of a pointer or an element access that must exist. *)
Definition deref {A} (u : undefined) (o : option A) : outcome A :=
  match o with Some a => Ret a | None => Undef u end.

Lemma outcome_bind_Ret_inv {A B} (m : outcome A) (f : A -> outcome B) b :
  (m ≫= f) = Ret b -> exists a, m = Ret a /\ f a = Ret b.
Proof. destruct m; cbn; intros; try discriminate; eauto. Qed.

(** ** Effects

    A method that changes an object and may leave by an exception: it returns the
    outcome together with the object as it is left. *)

Definition prog (S A : Type) : Type := S -> outcome A * S.

#[global] Instance prog_ret S : MRet (prog S) := fun A a s => (Ret a, s).
#[global] Instance prog_bind S : MBind (prog S) := fun A B f m s =>
  match m s with
  | (Ret a, s') => f a s'
  | (Throw e, s') => (Throw e, s')
  | (Undef u, s') => (Undef u, s')
  | (NoFuel, s') => (NoFuel, s')
  end.

Definition throw {S A} (e : exn) : prog S A := fun s => (Throw e, s).
Definition undef {S A} (u : undefined) : prog S A := fun s => (Undef u, s).
Definition getS {S} : prog S S := fun s => (Ret s, s).
Definition putS {S} (s : S) : prog S unit := fun _ => (Ret tt, s).
Definition modifyS {S} (f : S -> S) : prog S unit := fun s => (Ret tt, f s).
Definition liftO {S A} (o : outcome A) : prog S A := fun s => (o, s).

Lemma prog_bind_Ret {S A B} (m : prog S A) (f : A -> prog S B) s a s' :
  m s = (Ret a, s') -> (m ≫= f) s = f a s'.
Proof. unfold mbind, prog_bind. by intros ->. Qed.

Lemma prog_bind_assoc {S A B C} (m : prog S A) (f : A -> prog S B) (g : B -> prog S C) s :
  ((m ≫= f) ≫= g) s = (m ≫= (fun a => f a ≫= g)) s.
Proof. unfold mbind, prog_bind. by destruct (m s) as [[] ?]. Qed.

(** ** Lists *)

Section Lists.
Context {A : Type}.
Implicit Types (l : list A).

(** The longest prefix whose elements satisfy [p]. *)
Fixpoint take_while (p : A -> bool) l : list A :=
  match l with
  | [] => []
  | x :: r => if p x then x :: take_while p r else []
  end.

(** On a list sorted by [R], a test that stays false once it is false selects a prefix. *)
Lemma take_while_filter (R : A -> A -> Prop) (p : A -> bool) l :
  StronglySorted R l ->
  (forall a b, R a b -> p b = true -> p a = true) ->
  take_while p l = filter (fun x => p x = true) l.
Proof.
  intros Hs Hmono. induction Hs as [|x l Hs IH Hx]; [done|]. simpl.
  destruct (p x) eqn:Hp.
  - rewrite filter_cons_True by done. by rewrite IH.
  - rewrite filter_cons_False by (rewrite Hp; done).
    symmetry. clear IH. induction Hx as [|y l Hy Hx IH2]; [done|].
    rewrite filter_cons_False.
    + apply IH2. by inversion Hs.
    + intros Hpy. apply (Hmono x y) in Hy; congruence.
Qed.

Lemma filter_ext_in (P Q : A -> Prop) `{!forall x, Decision (P x), !forall x, Decision (Q x)} l :
  (forall x, x ∈ l -> P x <-> Q x) -> filter P l = filter Q l.
Proof.
  induction l as [|x l IH]; [done|]. intros HPQ. rewrite !filter_cons.
  assert (P x <-> Q x) as Hx by (apply HPQ; left).
  rewrite IH by (intros; apply HPQ; by right). repeat case_decide; tauto.
Qed.

Lemma StronglySorted_filter (R : A -> A -> Prop) (P : A -> Prop) `{!forall x, Decision (P x)} l :
  StronglySorted R l -> StronglySorted R (filter P l).
Proof.
  induction 1 as [|x l Hs IH Hx]; [constructor|].
  rewrite filter_cons. case_decide; [|done].
  constructor; [done|]. apply Forall_forall. intros y Hy.
  rewrite Forall_forall in Hx. apply Hx.
  by apply list_elem_of_filter in Hy as [_ ?].
Qed.
End Lists.

(** Replacing the element at a position. *)
Lemma insert_perm {A} (l : list A) i x y : l !! i = Some x -> <[i := y]> l ≡ₚ y :: delete i l.
Proof.
  intros Hi. rewrite insert_take_drop, delete_take_drop by (by eapply lookup_lt_Some). by rewrite Permutation_middle.
Qed.

Lemma pair_fst {A B} (p : A * B) a : p.1 = a -> p = (a, p.2).
Proof. by destruct p; intros <-. Qed.

Lemma sublist_map {A B} (g : A -> B) l1 l2 : l1 `sublist_of` l2 -> map g l1 `sublist_of` map g l2.
Proof. induction 1; cbn; by constructor. Qed.
