(* ===== verification/Excessive.v ===== *)
(** * Interfaces to libexcessive

    libexcessive is not part of the repository.  What the chain uses of it enters the
    development as classes: the operations, and the documented behaviour the code
    relies on.  Each interface has a small concrete instance, so that every theorem
    stated against an interface can be evaluated on concrete data. *)

From S2P Require Import Prelude.

(** ** Comparators: the [int compare(a, b)] functions given to a [BTree] *)

Class Comparator {E : Type} (cmp : E -> E -> Z) : Prop := {
  cmp_anti a b : cmp a b < 0 <-> 0 < cmp b a;
  cmp_le_trans a b c : cmp a b <= 0 -> cmp b c <= 0 -> cmp a c <= 0;
}.

Section Comparator.
Context {E : Type} (cmp : E -> E -> Z) `{!Comparator cmp}.

Lemma cmp_refl a : cmp a a = 0.
Proof. pose proof (cmp_anti (cmp:=cmp) a a). lia. Qed.
Lemma cmp_sym_eq a b : cmp a b = 0 <-> cmp b a = 0.
Proof. pose proof (cmp_anti (cmp:=cmp) a b). pose proof (cmp_anti (cmp:=cmp) b a). lia. Qed.
Lemma cmp_lt_le_trans a b c : cmp a b < 0 -> cmp b c <= 0 -> cmp a c < 0.
Proof.
  intros Hab Hbc. pose proof (cmp_le_trans (cmp:=cmp) a b c ltac:(lia) Hbc).
  destruct (Z.eq_dec (cmp a c) 0) as [Hac|]; [|lia].
  apply (cmp_sym_eq) in Hac. pose proof (cmp_le_trans (cmp:=cmp) b c a Hbc ltac:(lia)).
  apply (cmp_anti (cmp:=cmp)) in Hab. lia.
Qed.
Lemma cmp_le_lt_trans a b c : cmp a b <= 0 -> cmp b c < 0 -> cmp a c < 0.
Proof.
  intros Hab Hbc. pose proof (cmp_le_trans (cmp:=cmp) a b c Hab ltac:(lia)).
  destruct (Z.eq_dec (cmp a c) 0) as [Hac|]; [|lia].
  apply (cmp_sym_eq) in Hac. pose proof (cmp_le_trans (cmp:=cmp) c a b ltac:(lia) Hab).
  apply (cmp_anti (cmp:=cmp)) in Hbc. lia.
Qed.
#[global] Instance cmp_lt_trans : Transitive (fun a b => cmp a b < 0).
Proof. intros a b c ??. apply (cmp_lt_le_trans a b c); lia. Qed.
End Comparator.

(** ** [BTree<E>]

    [bt_find] and [bt_findNext] take a key and return the stored element that the C++
    call copies into its reference argument, or [None] when it returns [false].
    [bt_elems] is the contents in the comparator's order. *)

Class BTree (E T : Type) := {
  bt_empty : T;
  bt_elems : T -> list E;
  bt_insert : T -> E -> T;
  bt_find : T -> E -> option E;
  bt_findNext : T -> E -> option E;
  bt_overwrite : T -> E -> T;
  bt_remove : T -> E -> T * E;
}.

Definition bt_wf {E T} `{!BTree E T} (cmp : E -> E -> Z) (t : T) : Prop :=
  StronglySorted (fun a b => cmp a b < 0) (bt_elems t).

Class BTreeLaws {E T} `{!BTree E T} (cmp : E -> E -> Z) : Prop := {
  bt_empty_elems : bt_elems (bt_empty : T) = [];
  bt_find_law (t : T) k : bt_wf cmp t ->
    bt_find t k = head (filter (fun e => cmp e k = 0) (bt_elems t));
  (** "finds the given value if present, or the next highest value" *)
  bt_findNext_law (t : T) k : bt_wf cmp t ->
    bt_findNext t k = head (filter (fun e => 0 <= cmp e k) (bt_elems t));
  bt_insert_law (t : T) e : bt_wf cmp t -> (forall x, x ∈ bt_elems t -> cmp x e <> 0) ->
    bt_wf cmp (bt_insert t e) /\ bt_elems (bt_insert t e) ≡ₚ e :: bt_elems t;
  (** the entry with the same key is replaced; a missing one is added *)
  bt_overwrite_law (t : T) e : bt_wf cmp t ->
    bt_wf cmp (bt_overwrite t e) /\
    forall x, x ∈ bt_elems (bt_overwrite t e) <-> x = e \/ (x ∈ bt_elems t /\ cmp x e <> 0);
}.

(** *** The cursor loop

    [while (tree.findNext(cursor)) { if (stop) break; ...; cursor = next(cursor); }] *)
Section Scan.
Context {E T : Type} `{!BTree E T} (cmp : E -> E -> Z) `{!Comparator cmp, !BTreeLaws cmp}.

Fixpoint scan (fuel : nat) (t : T) (stop : E -> bool) (next : E -> E) (cursor : E) : outcome (list E) :=
  match fuel with
  | O => NoFuel
  | S fuel =>
      match bt_findNext t cursor with
      | None => Ret []
      | Some e => if stop e then Ret [] else cons e <$> scan fuel t stop next (next e)
      end
  end.

Lemma filter_ge_gt (l : list E) c e r :
  StronglySorted (fun a b => cmp a b < 0) l ->
  filter (fun x => 0 <= cmp x c) l = e :: r ->
  filter (fun x => 0 < cmp x e) l = r.
Proof.
  induction 1 as [|x l Hs IH Hx]; [done|]. rewrite filter_cons. case_decide as Hxc.
  - intros [= -> Hr]. rewrite filter_cons_False by (pose proof (cmp_refl cmp e); lia).
    rewrite <- Hr. apply filter_ext_in. intros y Hy.
    rewrite Forall_forall in Hx. apply Hx, (cmp_anti (cmp:=cmp)) in Hy.
    split; [|done]. intros _.
    destruct (Z_le_dec 0 (cmp y c)) as [|Hn]; [done|].
assert (cmp c e <= 0) as Hce by (pose proof (cmp_anti (cmp:=cmp) e c); lia).
    pose proof (cmp_lt_le_trans cmp y c e). lia.
  - intros Hf. rewrite filter_cons_False; [by apply IH|].
    assert (e ∈ l) as He.
    { assert (e ∈ filter (fun x => 0 <= cmp x c) l) as Hin by (rewrite Hf; left).
      by apply list_elem_of_filter in Hin as [_ ?]. }
    rewrite Forall_forall in Hx. specialize (Hx e He). cbn in Hx. lia.
Qed.

(** With enough fuel the loop ends and visits, in order, the elements from the cursor up
    to the first one that stops it; [next] must step to the immediate successor. *)
Lemma scan_spec (t : T) stop next fuel cursor :
  bt_wf cmp t ->
  (forall e x, e ∈ bt_elems t -> x ∈ bt_elems t -> stop e = false ->
    (0 <= cmp x (next e) <-> 0 < cmp x e)) ->
  (length (filter (fun e => (0 <= cmp e cursor)%Z) (bt_elems t)) < fuel)%nat ->
  scan fuel t stop next cursor =
    Ret (take_while (fun e => negb (stop e)) (filter (fun e => 0 <= cmp e cursor) (bt_elems t))).
Proof.
  intros Hwf Hnext. revert cursor. induction fuel as [|fuel IH]; intros cursor Hf; [lia|].
  cbn. rewrite (bt_findNext_law t) by done.
  destruct (filter (fun e => 0 <= cmp e cursor) (bt_elems t)) as [|e r] eqn:Hl; [done|].
  cbn. destruct (stop e) eqn:Hs; [done|]. cbn.
  assert (e ∈ bt_elems t) as He.
  { assert (e ∈ filter (fun e => 0 <= cmp e cursor) (bt_elems t)) as Hin by (rewrite Hl; left).
    by apply list_elem_of_filter in Hin as [_ ?]. }
  assert (filter (fun x => 0 <= cmp x (next e)) (bt_elems t) = r) as Hr.
  { rewrite <- (filter_ge_gt _ _ _ _ Hwf Hl). apply filter_ext_in.
    intros x Hx. by apply Hnext. }
  rewrite IH by (rewrite Hr; cbn in Hf; lia). by rewrite Hr.
Qed.

(** When the stopping test is monotone in the key order, the loop selects exactly the
    elements at or after the cursor that do not stop it. *)
Lemma scan_filter (t : T) (stop : E -> bool) next fuel cursor :
  bt_wf cmp t ->
  (forall e x, e ∈ bt_elems t -> x ∈ bt_elems t -> stop e = false ->
    (0 <= cmp x (next e) <-> 0 < cmp x e)) ->
  (forall a b, cmp a b < 0 -> stop a = true -> stop b = true) ->
  (length (bt_elems t) < fuel)%nat ->
  scan fuel t stop next cursor =
    Ret (filter (fun e => 0 <= cmp e cursor /\ stop e = false) (bt_elems t)).
Proof.
  intros Hwf Hnext Hmono Hf.
  rewrite scan_spec by first [done | eapply Nat.le_lt_trans; [apply length_filter|done]].
  f_equal.
  rewrite (take_while_filter (fun a b => cmp a b < 0)).
  - rewrite list_filter_filter. apply filter_ext_in. intros x _.
    destruct (stop x); cbn; intuition congruence.
  - by apply StronglySorted_filter.
  - intros a b Hab Hb. destruct (stop a) eqn:Ha; [|done].
    by rewrite (Hmono a b Hab Ha) in Hb.
Qed.
End Scan.

(** *** A sorted list as a [BTree] *)
Section SortedList.
Context {E : Type} (cmp : E -> E -> Z).

Fixpoint sl_insert (l : list E) (e : E) : list E :=
  match l with
  | [] => [e]
  | x :: r => if decide (cmp e x < 0) then e :: l else x :: sl_insert r e
  end.

Definition sl_BTree : BTree E (list E) := {|
  bt_empty := [];
  bt_elems := fun l => l;
  bt_insert := sl_insert;
  bt_find := fun l k => head (filter (fun e => cmp e k = 0) l);
  bt_findNext := fun l k => head (filter (fun e => 0 <= cmp e k) l);
  bt_overwrite := fun l e => sl_insert (filter (fun x => cmp x e <> 0) l) e;
  bt_remove := fun l k => (filter (fun x => cmp x k <> 0) l, default k (head (filter (fun x => cmp x k = 0) l)));
|}.

Context `{!Comparator cmp}.

Lemma sl_insert_perm l e : sl_insert l e ≡ₚ e :: l.
Proof.
  induction l as [|x l IH]; [done|]. cbn. case_decide; [done|].
  rewrite IH. apply Permutation_swap.
Qed.

Lemma sl_insert_sorted l e :
  StronglySorted (fun a b => cmp a b < 0) l -> (forall x, x ∈ l -> cmp x e <> 0) ->
  StronglySorted (fun a b => cmp a b < 0) (sl_insert l e).
Proof.
  induction 1 as [|x l Hs IH Hx]; intros Hne; cbn; [repeat constructor|].
  assert (cmp x e <> 0) by (apply Hne; left). pose proof (cmp_anti (cmp:=cmp) x e).
  pose proof (cmp_anti (cmp:=cmp) e x).
  case_decide as Hlt.
  - constructor; [by constructor|]. constructor; [done|].
    eapply Forall_impl; [exact Hx|]. cbn. intros y Hy. by apply (cmp_lt_trans cmp e x y).
  - constructor; [apply IH; intros; apply Hne; by right|].
    rewrite sl_insert_perm. constructor; [|done]. lia.
Qed.

Lemma sl_BTreeLaws : BTreeLaws (BTree0:=sl_BTree) cmp.
Proof.
  split; try done.
  - intros t e Hwf Hne. split; [by apply sl_insert_sorted|apply sl_insert_perm].
  - intros t e Hwf. split.
    + apply sl_insert_sorted; [by apply StronglySorted_filter|].
      intros x Hx. by apply list_elem_of_filter in Hx as [? _].
    + intros x. cbn. rewrite sl_insert_perm, elem_of_cons, list_elem_of_filter. tauto.
Qed.
End SortedList.

(** ** [FreeSpaceFile]

    [fs_live] is the set of regions handed out and not freed yet, as (offset, length)
    pairs.  [getFreeRegion] answers a negative offset when it fails. *)

Definition disjoint (x y : Z * Z) : Prop := x.1 + x.2 <= y.1 \/ y.1 + y.2 <= x.1.

#[global] Instance disjoint_dec x y : Decision (disjoint x y).
Proof. unfold disjoint. apply _. Defined.

(** The largest [off_t]. *)
Definition OFF_MAX : Z := 9223372036854775807.

Class FreeSpaceFile (R : Type) := {
  fs_live : R -> list (Z * Z);
  fs_getFreeRegion : R -> Z -> Z * R;
  fs_markFreeRegion : R -> Z -> Z -> R;
}.

Class FreeSpaceLaws (R : Type) `{!FreeSpaceFile R} : Prop := {
  fs_get_law (r : R) len off r' : fs_getFreeRegion r len = (off, r') -> 0 <= off -> 0 <= len ->
    off <= OFF_MAX /\ fs_live r' ≡ₚ (off, len) :: fs_live r /\ Forall (fun x => disjoint x (off, len)) (fs_live r);
  fs_get_fail_law (r : R) len off r' : fs_getFreeRegion r len = (off, r') -> off < 0 ->
    fs_live r' ≡ₚ fs_live r;
  fs_mark_law (r : R) off len : (off, len) ∈ fs_live r ->
    fs_live r ≡ₚ (off, len) :: fs_live (fs_markFreeRegion r off len);
}.

(** Live regions lie behind the page of the file that holds the tree's header. *)
Class FreeSpaceHeader (R : Type) `{!FreeSpaceFile R} : Prop :=
  fs_header_law (r : R) x : x ∈ fs_live r -> 4096 <= x.1.

(** *** Pairwise disjoint regions *)

Fixpoint apart (l : list (Z * Z)) : Prop :=
  match l with
  | [] => True
  | x :: r => Forall (disjoint x) r /\ apart r
  end.

#[global] Instance apart_dec l : Decision (apart l).
Proof. induction l; cbn; apply _. Defined.

Lemma disjoint_sym x y : disjoint x y -> disjoint y x.
Proof. unfold disjoint. tauto. Qed.

#[global] Instance apart_perm : Proper (Permutation ==> iff) apart.
Proof.
  assert (forall l1 l2, l1 ≡ₚ l2 -> apart l1 -> apart l2) as H.
  { induction 1 as [|x l1 l2 Hp IH|x y l|l1 l2 l3 _ IH1 _ IH2]; cbn; [done| | |tauto].
    - intros [H1 H2]. split; [by rewrite <- Hp|auto].
    - rewrite !Forall_cons. intros ([H1 H2] & H3 & H4). auto using disjoint_sym. }
  intros l1 l2 Hp. split; apply H; by rewrite Hp.
Qed.

Lemma apart_app l1 l2 : apart (l1 ++ l2) -> apart l1 /\ apart l2.
Proof. induction l1 as [|x l1 IH]; cbn; [done|]. rewrite Forall_app. tauto. Qed.

(** *** An allocator that never reuses space *)

#[global] Instance bump_FreeSpace : FreeSpaceFile (list (Z * Z)) := {|
  fs_live := filter (fun x : Z * Z => 4096 <= x.1);
  fs_getFreeRegion := fun r len =>
    let off := foldr (fun x m => Z.max m (x.1 + x.2)) 4096 r in
    if off <=? OFF_MAX then (off, (off, len) :: r) else (-1, r);
  fs_markFreeRegion := fun r off len =>
    match list_find (fun x => x = (off, len)) r with Some (i, _) => delete i r | None => r end;
|}.

Lemma bump_past (r : list (Z * Z)) x : x ∈ r -> x.1 + x.2 <= foldr (fun x m => Z.max m (x.1 + x.2)) 4096 r.
Proof. induction 1; cbn; lia. Qed.

Lemma bump_page (r : list (Z * Z)) : 4096 <= foldr (fun x m => Z.max m (x.1 + x.2)) 4096 r.
Proof. induction r; cbn; lia. Qed.

#[global] Instance bump_FreeSpaceLaws : FreeSpaceLaws (list (Z * Z)).
Proof.
  split.
  - cbn. intros r len off r'. destruct (Z.leb_spec (foldr (fun x m => Z.max m (x.1 + x.2)) 4096 r) OFF_MAX);
      intros [= <- <-] H1 H2; [|lia]. split; [done|].
    rewrite filter_cons_True by apply bump_page. split; [done|].
    apply Forall_forall. intros x [_ Hx]%list_elem_of_filter. left. by apply bump_past.
  - cbn. intros r len off r'. destruct (Z.leb_spec (foldr (fun x m => Z.max m (x.1 + x.2)) 4096 r) OFF_MAX);
      intros [= <- <-] Hoff; [|done]. pose proof (bump_page r). lia.
  - cbn. intros r off len [Hp Hin]%list_elem_of_filter. destruct (list_find (fun x => x = (off, len)) r) as [[i x]|] eqn:E.
    + apply list_find_Some in E as (Hi & -> & _). apply delete_Permutation in Hi. rewrite Hi at 1.
      by rewrite filter_cons_True.
    + apply list_find_None in E. rewrite Forall_forall in E. by destruct (E _ Hin).
Qed.

#[global] Instance bump_FreeSpaceHeader : FreeSpaceHeader (list (Z * Z)).
Proof. intros r x [H _]%list_elem_of_filter. done. Qed.
