(* ===== verification/Memory.v ===== *)
(** * Bytes and memory-mapped files

    Little-endian encoding of the fixed-width fields of the on-disk structures, and
    the interface of libexcessive's [MmapHandle]: a mapped region of a file with a
    cursor, read and written at the cursor, or stored to through a raw pointer. *)

From S2P Require Import Prelude.

(** ** Little-endian integers *)

Fixpoint le_encode (n : nat) (z : Z) : list Z :=
  match n with
  | O => []
  | S n => z mod 256 :: le_encode n (z / 256)
  end.

Fixpoint le_decode (bs : list Z) : Z :=
  match bs with
  | [] => 0
  | b :: r => b + 256 * le_decode r
  end.

Lemma length_le_encode n z : length (le_encode n z) = n.
Proof. revert z. induction n; intros; cbn; auto. Qed.

Lemma le_decode_encode n z : 0 <= z < 256 ^ Z.of_nat n -> le_decode (le_encode n z) = z.
Proof.
  revert z. induction n as [|n IH]; intros z Hz; [cbn in *; lia|].
  rewrite Nat2Z.inj_succ, Z.pow_succ_r in Hz by lia. cbn. rewrite IH.
  - Z.div_mod_to_equations. lia.
  - split; [apply Z.div_pos; lia|]. apply Z.div_lt_upper_bound; lia.
Qed.
#[export] Hint Rewrite length_le_encode : word.

Definition sublist {A} (off n : nat) (l : list A) : list A := take n (drop off l).

(** ** Memory contents as a function from offsets to bytes *)

Definition mem_upd (f : Z -> Z) (off : Z) (bs : list Z) (i : Z) : Z :=
  if decide (off <= i < off + Z.of_nat (length bs)) then nth (Z.to_nat (i - off)) bs 0 else f i.

Fixpoint mem_load (f : Z -> Z) (off : Z) (n : nat) : list Z :=
  match n with
  | O => []
  | S n => f off :: mem_load f (off + 1) n
  end.

Lemma length_mem_load f off n : length (mem_load f off n) = n.
Proof. revert off. induction n; intros; cbn; auto. Qed.

Lemma mem_load_app f off n1 n2 :
  mem_load f off (n1 + n2) = mem_load f off n1 ++ mem_load f (off + Z.of_nat n1) n2.
Proof.
  revert off. induction n1 as [|n1 IH]; intros off; cbn.
  - by rewrite Z.add_0_r.
  - rewrite IH. do 3 f_equal. lia.
Qed.

Lemma mem_load_ext f g off n :
  (forall i, off <= i < off + Z.of_nat n -> f i = g i) -> mem_load f off n = mem_load g off n.
Proof.
  revert off. induction n as [|n IH]; intros off H1; cbn; [done|].
  rewrite (H1 off) by lia. f_equal. apply IH. intros i Hi. apply H1. lia.
Qed.

Lemma mem_load_upd_same f off bs : mem_load (mem_upd f off bs) off (length bs) = bs.
Proof.
  revert f off. induction bs as [|b bs IH]; intros f off; cbn [length mem_load]; [done|]. f_equal.
  - unfold mem_upd. rewrite decide_True by (cbn; lia). by rewrite Z.sub_diag.
  - etransitivity; [|apply (IH (mem_upd f off (b :: bs)) (off + 1))].
    apply mem_load_ext. intros i Hi. unfold mem_upd at 2. rewrite decide_True by lia.
    unfold mem_upd. rewrite decide_True by (cbn [length]; lia).
    replace (Z.to_nat (i - off)) with (S (Z.to_nat (i - (off + 1)))) by lia. done.
Qed.

Lemma mem_load_upd_disj f off bs off' n :
  off' + Z.of_nat n <= off \/ off + Z.of_nat (length bs) <= off' ->
  mem_load (mem_upd f off bs) off' n = mem_load f off' n.
Proof.
  intros H1. apply mem_load_ext. intros i Hi. unfold mem_upd. rewrite decide_False; [done|lia].
Qed.

(** ** [MmapHandle] *)

Class MmapHandle (M : Type) := {
  mm_size : M -> Z;
  mm_tell : M -> Z;                       (* seek(0, SEEK_CUR) *)
  mm_byte : M -> Z -> Z;
  mm_seek : M -> Z -> M;                  (* seek(offset) *)
  mm_read : M -> nat -> list Z * M;       (* the bytes read, fewer at the end *)
  mm_write : M -> list Z -> M;
  mm_store : M -> Z -> list Z -> M;       (* through directPointer(offset) *)
}.

Definition mm_load {M} `{!MmapHandle M} (m : M) (off : Z) (n : nat) : list Z :=
  mem_load (mm_byte m) off n.

(** The cursor moved by [n] and nothing else changed. *)
Definition mm_advanced {M} `{!MmapHandle M} (m : M) (n : nat) (m' : M) : Prop :=
  mm_size m' = mm_size m /\ mm_tell m' = mm_tell m + Z.of_nat n /\ forall i, mm_byte m' i = mm_byte m i.

(** [bs] was written at the cursor. *)
Definition mm_wrote {M} `{!MmapHandle M} (m : M) (bs : list Z) (m' : M) : Prop :=
  mm_size m' = mm_size m /\ mm_tell m' = mm_tell m + Z.of_nat (length bs) /\
  forall i, mm_byte m' i = mem_upd (mm_byte m) (mm_tell m) bs i.

Class MmapLaws (M : Type) `{!MmapHandle M} : Prop := {
  mm_seek_law (m : M) o : 0 <= o <= mm_size m ->
    mm_size (mm_seek m o) = mm_size m /\ mm_tell (mm_seek m o) = o /\
    forall i, mm_byte (mm_seek m o) i = mm_byte m i;
  mm_read_law (m : M) n : 0 <= mm_tell m -> mm_tell m + Z.of_nat n <= mm_size m ->
    fst (mm_read m n) = mm_load m (mm_tell m) n /\ mm_advanced m n (snd (mm_read m n));
  mm_write_law (m : M) bs : 0 <= mm_tell m -> mm_tell m + Z.of_nat (length bs) <= mm_size m ->
    mm_wrote m bs (mm_write m bs);
  mm_store_law (m : M) off bs : 0 <= off -> off + Z.of_nat (length bs) <= mm_size m ->
    mm_size (mm_store m off bs) = mm_size m /\ mm_tell (mm_store m off bs) = mm_tell m /\
    forall i, mm_byte (mm_store m off bs) i = mem_upd (mm_byte m) off bs i;
}.

Section Mmap.
Context {M : Type} `{!MmapHandle M}.
Implicit Types (m : M).

Lemma mm_advanced_trans m1 n1 m2 n2 m3 :
  mm_advanced m1 n1 m2 -> mm_advanced m2 n2 m3 -> mm_advanced m1 (n1 + n2) m3.
Proof.
  intros (Hs1 & Ht1 & Hb1) (Hs2 & Ht2 & Hb2). split; [congruence|]. split; [lia|].
  intros i. by rewrite Hb2.
Qed.

Lemma mm_advanced_refl m : mm_advanced m 0 m.
Proof. split; [done|]. split; [lia|done]. Qed.

Lemma mm_advanced_load m n m' off k : mm_advanced m n m' -> mm_load m' off k = mm_load m off k.
Proof. intros (_ & _ & Hb). apply mem_load_ext. auto. Qed.

Lemma mm_wrote_trans m1 bs1 m2 bs2 m3 :
  mm_wrote m1 bs1 m2 -> mm_wrote m2 bs2 m3 -> mm_wrote m1 (bs1 ++ bs2) m3.
Proof.
  intros (Hs1 & Ht1 & Hb1) (Hs2 & Ht2 & Hb2). split; [congruence|].
  rewrite length_app. split; [lia|]. intros i. rewrite Hb2. unfold mem_upd.
  rewrite Ht1, length_app. case_decide as H1.
  - rewrite decide_True by lia. rewrite app_nth2 by lia. f_equal. lia.
  - rewrite Hb1. unfold mem_upd.
    case_decide; [rewrite (decide_True (P:=_ <= _ < _)) by lia|rewrite decide_False by lia; done].
    rewrite app_nth1 by lia. done.
Qed.

Lemma mm_wrote_nil m : mm_wrote m [] m.
Proof.
  split; [done|]. split; [cbn; lia|]. intros i. unfold mem_upd. rewrite decide_False; [done|]. cbn. lia.
Qed.

Lemma mm_wrote_load m bs m' : mm_wrote m bs m' -> mm_load m' (mm_tell m) (length bs) = bs.
Proof.
  intros (_ & _ & Hb). unfold mm_load. rewrite (mem_load_ext _ (mem_upd (mm_byte m) (mm_tell m) bs)) by auto.
  apply mem_load_upd_same.
Qed.

Lemma mm_wrote_load_disj m bs m' off n : mm_wrote m bs m' ->
  off + Z.of_nat n <= mm_tell m \/ mm_tell m + Z.of_nat (length bs) <= off ->
  mm_load m' off n = mm_load m off n.
Proof.
  intros (_ & _ & Hb) Hd. unfold mm_load.
  rewrite (mem_load_ext _ (mem_upd (mm_byte m) (mm_tell m) bs)) by auto. by apply mem_load_upd_disj.
Qed.

Lemma mm_load_app m off n1 n2 : mm_load m off (n1 + n2) = mm_load m off n1 ++ mm_load m (off + Z.of_nat n1) n2.
Proof. apply mem_load_app. Qed.

Lemma length_mm_load m off n : length (mm_load m off n) = n.
Proof. apply length_mem_load. Qed.

(** A part of a loaded range. *)
Lemma mm_load_part m off a b c :
  mm_load m off (length (a ++ b ++ c)) = a ++ b ++ c ->
  mm_load m (off + Z.of_nat (length a)) (length b) = b.
Proof.
  rewrite !length_app, !mm_load_app. intros H.
  apply app_inj_1 in H as [_ H]; [|apply length_mm_load].
  by apply app_inj_1 in H as [H _]; [|apply length_mm_load].
Qed.

Context `{!MmapLaws M}.

Lemma mm_store_load m off bs : 0 <= off -> off + Z.of_nat (length bs) <= mm_size m ->
  mm_load (mm_store m off bs) off (length bs) = bs.
Proof.
  intros H1 H2. destruct (mm_store_law m off bs) as (_ & _ & Hb); [done..|]. unfold mm_load.
  rewrite (mem_load_ext _ (mem_upd (mm_byte m) off bs)) by auto. apply mem_load_upd_same.
Qed.

Lemma mm_store_load_disj m off bs off' n : 0 <= off -> off + Z.of_nat (length bs) <= mm_size m ->
  off' + Z.of_nat n <= off \/ off + Z.of_nat (length bs) <= off' ->
  mm_load (mm_store m off bs) off' n = mm_load m off' n.
Proof.
  intros H1 H2 Hd. destruct (mm_store_law m off bs) as (_ & _ & Hb); [done..|]. unfold mm_load.
  rewrite (mem_load_ext _ (mem_upd (mm_byte m) off bs)) by auto. by apply mem_load_upd_disj.
Qed.

Lemma mm_seek_load m o off n : 0 <= o <= mm_size m -> mm_load (mm_seek m o) off n = mm_load m off n.
Proof. intros H1. destruct (mm_seek_law m o H1) as (_ & _ & Hb). apply mem_load_ext. auto. Qed.
End Mmap.

(** ** A concrete [MmapHandle]: a sparse array of bytes *)

Record bytemap := Bytemap { bm_size : Z; bm_tell : Z; bm_data : gmap Z Z }.

Fixpoint bm_put (d : gmap Z Z) (off : Z) (bs : list Z) : gmap Z Z :=
  match bs with
  | [] => d
  | b :: r => <[off := b]> (bm_put d (off + 1) r)
  end.

#[global] Instance bytemap_MmapHandle : MmapHandle bytemap := {|
  mm_size := bm_size;
  mm_tell := bm_tell;
  mm_byte := fun m i => default 0 (bm_data m !! i);
  mm_seek := fun m o => Bytemap (bm_size m) o (bm_data m);
  mm_read := fun m n =>
    let k := Nat.min n (Z.to_nat (bm_size m - bm_tell m)) in
    (mem_load (fun i => default 0 (bm_data m !! i)) (bm_tell m) k,
     Bytemap (bm_size m) (bm_tell m + Z.of_nat k) (bm_data m));
  mm_write := fun m bs =>
    Bytemap (bm_size m) (bm_tell m + Z.of_nat (length bs)) (bm_put (bm_data m) (bm_tell m) bs);
  mm_store := fun m off bs => Bytemap (bm_size m) (bm_tell m) (bm_put (bm_data m) off bs);
|}.

Lemma bm_put_upd d off bs i :
  default 0 (bm_put d off bs !! i) = mem_upd (fun i => default 0 (d !! i)) off bs i.
Proof.
  revert off. induction bs as [|b bs IH]; intros off; cbn [bm_put].
  - unfold mem_upd. rewrite decide_False; [done|]. cbn. lia.
  - destruct (decide (i = off)) as [->|Hne].
    + rewrite lookup_insert_eq. unfold mem_upd. rewrite decide_True by (cbn [length]; lia).
      by rewrite Z.sub_diag.
    + rewrite lookup_insert_ne by done. rewrite IH. unfold mem_upd. cbn [length].
      case_decide; [rewrite decide_True by lia|rewrite decide_False by lia; done].
      replace (Z.to_nat (i - off)) with (S (Z.to_nat (i - (off + 1)))) by lia. done.
Qed.

#[global] Instance bytemap_MmapLaws : MmapLaws bytemap.
Proof.
  split.
  - done.
  - intros m n H1 H2. cbn in *. rewrite Nat.min_l by lia. done.
  - intros m bs H1 H2. split; [done|]. split; [done|]. apply bm_put_upd.
  - intros m off bs H1 H2. split; [done|]. split; [done|]. apply bm_put_upd.
Qed.

(** ** Files

    [FdHandle]: [pwrite] of the operating system, the file's size, and a mapping of a
    page-aligned window of the file with its cursor at the start of the window. *)

Class FdHandle (Fd M : Type) := {
  fd_size : Fd -> Z;
  fd_byte : Fd -> Z -> Z;
  fd_pwrite : Fd -> list Z -> Z -> Z * Fd;
  fd_getMmapHandle : Fd -> Z -> Z -> M;
}.

Class FdLaws (Fd M : Type) `{!MmapHandle M, !FdHandle Fd M} : Prop := {
  fd_pwrite_law (fd fd' : Fd) bs off n : fd_pwrite fd bs off = (n, fd') -> 0 <= off ->
    (forall i, i < off \/ off + Z.of_nat (length bs) <= i -> fd_byte fd' i = fd_byte fd i) /\
    (n = Z.of_nat (length bs) -> forall i, fd_byte fd' i = mem_upd (fd_byte fd) off bs i);
  fd_mmap_law (fd : Fd) off n : 0 <= off -> off mod 4096 = 0 -> 0 <= n ->
    let m := fd_getMmapHandle fd off n : M in
    mm_size m = n /\ mm_tell m = 0 /\ forall i, 0 <= i < n -> mm_byte m i = fd_byte fd (off + i);
}.

Definition fd_load {Fd M} `{!FdHandle Fd M} (fd : Fd) (off : Z) (n : nat) : list Z := mem_load (fd_byte fd) off n.

Lemma mem_load_shift f g off d n : (forall i, off <= i < off + Z.of_nat n -> f i = g (d + i)) ->
  mem_load f off n = mem_load g (d + off) n.
Proof.
  revert off. induction n as [|n IH]; intros off Hfg; cbn; [done|]. rewrite Hfg by lia. f_equal.
  rewrite IH by (intros; apply Hfg; lia). f_equal. lia.
Qed.

(** *** A concrete file *)

#[global] Instance bytemap_FdHandle : FdHandle bytemap bytemap := {|
  fd_size := bm_size;
  fd_byte := fun fd i => default 0 (bm_data fd !! i);
  fd_pwrite := fun fd bs off =>
    (Z.of_nat (length bs),
     Bytemap (Z.max (bm_size fd) (off + Z.of_nat (length bs))) (bm_tell fd) (bm_put (bm_data fd) off bs));
  fd_getMmapHandle := fun fd off n =>
    Bytemap n 0 (bm_put ∅ 0 (mem_load (fun i => default 0 (bm_data fd !! i)) off (Z.to_nat n)));
|}.

Lemma nth_mem_load f off n i : (i < n)%nat -> nth i (mem_load f off n) 0 = f (off + Z.of_nat i).
Proof.
  revert off i. induction n as [|n IH]; intros off i Hi; [lia|]. destruct i as [|i]; cbn; [f_equal; lia|].
  rewrite IH by lia. f_equal. lia.
Qed.

#[global] Instance bytemap_FdLaws : FdLaws bytemap bytemap.
Proof.
  split.
  - intros fd fd' bs off n [= <- <-] Hoff. split.
    + intros i Hi. cbn. rewrite bm_put_upd. unfold mem_upd. by rewrite decide_False by lia.
    + intros _ i. apply bm_put_upd.
  - intros fd off n H1 H2 H3. split; [done|]. split; [done|]. intros i Hi. cbn.
    rewrite bm_put_upd. unfold mem_upd. rewrite length_mem_load, decide_True by lia.
    rewrite nth_mem_load by lia. do 3 f_equal. lia.
Qed.
