(* ===== verification/Transaction.v ===== *)
(** * Transactions and their type registry

    The virtual interface [Transaction] (src/src/blockchain/Transaction.h) as a class,
    and [TransactionTypeRegistry] (TransactionTypeRegistry.h and .cpp): the map from a
    one-byte type id to the factory that deserializes the transaction. *)

From Stdlib Require Import SpecFloat.
From S2P Require Import Prelude Memory.

(** [W] is what the indexes would answer from disk at the moment of the call, [St] the
    state override, [M] the mapped file that [write] serializes into. *)
Class Transaction (Tx W St M : Type) := {
  tx_verify : Tx -> W -> St -> bool;
  tx_apply : Tx -> W -> St -> bool * St;
  tx_computeValue : Tx -> W -> St -> spec_float;
  tx_write : Tx -> M -> M;
  tx_size : Tx -> Z;
  tx_getTypeId : Tx -> Z;
  tx_getTimestamp : Tx -> Z;
}.

(** [tx->apply(state)] for its effect: the library ignores the returned flag. *)
Definition applied {Tx W St M} `{!Transaction Tx W St M} (w : W) (st : St) (tx : Tx) : St :=
  snd (tx_apply tx w st).

Section Registry.
Context {M Tx : Type} `{!MmapHandle M}.

(** [sp<Transaction> ( * )(MmapHandle* )]; a null [sp] is [None]. *)
Definition FactoryFunc : Type := prog M (option Tx).

Record TransactionTypeRegistry := { factories : gmap Z FactoryFunc }.

Definition emptyTypeRegistry : TransactionTypeRegistry := {| factories := ∅ |}.

Definition registerType (r : TransactionTypeRegistry) (typeId : Z) (factory : FactoryFunc) : TransactionTypeRegistry :=
  {| factories := <[typeId := factory]> (factories r) |}.

Definition getFactory (r : TransactionTypeRegistry) (typeId : Z) : option FactoryFunc :=
  factories r !! typeId.

Definition src_read (n : nat) : prog M (list Z) := fun src =>
  let '(bytes, src) := mm_read src n in (Ret bytes, src).

Definition read (r : TransactionTypeRegistry) : prog M (option Tx) :=
  bytes ← src_read 1;
  match bytes with
  | [typeId] =>
      match getFactory r typeId with
      | None => mret None
      | Some f => f
      end
  | _ => throw (out_of_range "Failed to read transaction type")
  end.
End Registry.
Arguments FactoryFunc : clear implicits.
Arguments TransactionTypeRegistry : clear implicits.

(** ** The serialization contract of transactions

    [enc tx] is the image of [tx] on disk.  The contract is the one documented for
    [Transaction::write] and [size]: the first byte written is the type id, and [size()] is
    the number of bytes written. *)
Class TransactionEncoding {Tx W St M : Type} `{!MmapHandle M, !Transaction Tx W St M} (enc : Tx -> list Z) : Prop := {
  enc_type_id tx : exists body, enc tx = tx_getTypeId tx :: body;
  write_enc tx m : 0 <= mm_tell m -> mm_tell m + Z.of_nat (length (enc tx)) <= mm_size m ->
    mm_wrote m (enc tx) (tx_write tx m);
  size_enc tx : tx_size tx = Z.of_nat (length (enc tx));
}.

(** The registry decodes what is encoded: the factory registered for the type id consumes the
    remaining bytes and rebuilds the transaction. *)
Class TransactionCodec {Tx W St M : Type} `{!MmapHandle M, !Transaction Tx W St M}
    (enc : Tx -> list Z) (r : TransactionTypeRegistry M Tx) : Prop := {
  codec_encoding :: TransactionEncoding enc;
  factory_enc tx body : enc tx = tx_getTypeId tx :: body ->
    exists f : FactoryFunc M Tx, factories r !! tx_getTypeId tx = Some f /\
    forall m, 0 <= mm_tell m -> mm_tell m + Z.of_nat (length body) <= mm_size m ->
      mm_load m (mm_tell m) (length body) = body ->
      exists m', f m = (Ret (Some tx), m') /\ mm_advanced m (length body) m';
}.

Section Codec.
Context {Tx W St M : Type} `{!MmapHandle M, !MmapLaws M, !Transaction Tx W St M}.
Context (enc : Tx -> list Z).

Definition enc_all (txs : list Tx) : list Z := concat (map enc txs).

Lemma length_enc_take k txs : (length (enc_all (take k txs)) <= length (enc_all txs))%nat.
Proof. rewrite <- (take_drop k txs) at 2. unfold enc_all. rewrite map_app, concat_app, length_app. lia. Qed.

(** [for (tx : txs) tx->write(&mmap)] *)
Definition write_all (txs : list Tx) (m : M) : M := foldl (fun m tx => tx_write tx m) m txs.

Lemma write_all_wrote `{!TransactionEncoding enc} txs m :
  0 <= mm_tell m -> mm_tell m + Z.of_nat (length (enc_all txs)) <= mm_size m ->
  mm_wrote m (enc_all txs) (write_all txs m).
Proof.
  unfold enc_all. revert m. induction txs as [|tx txs IH]; intros m H1 H2; cbn in *.
  - apply mm_wrote_nil.
  - rewrite length_app in H2.
    assert (mm_wrote m (enc tx) (tx_write tx m)) as Hw by (apply write_enc; lia).
    pose proof Hw as (Hs & Ht & Hb). eapply mm_wrote_trans; [exact Hw|]. apply IH; lia.
Qed.

Context (r : TransactionTypeRegistry M Tx) `{!TransactionCodec enc r}.

Lemma read_enc tx m :
  0 <= mm_tell m -> mm_tell m + Z.of_nat (length (enc tx)) <= mm_size m ->
  mm_load m (mm_tell m) (length (enc tx)) = enc tx ->
  exists m', read r m = (Ret (Some tx), m') /\ mm_advanced m (length (enc tx)) m'.
Proof.
  intros H1 H2 H3. destruct (enc_type_id (enc:=enc) tx) as [body Hbody].
  destruct (factory_enc (enc:=enc) (r:=r) tx body Hbody) as (f & Hf & Hrun).
  rewrite Hbody in *. cbn [length] in *.
  destruct (mm_read_law m 1) as [Hr Ha]; [lia..|].
  unfold read, mbind, prog_bind, src_read.
  destruct (mm_read m 1) as [bytes m1] eqn:Hrd. cbn [fst snd] in *. subst bytes.
  change (S (length body)) with (1 + length body)%nat in H3. rewrite mm_load_app in H3.
  cbn [mm_load mem_load app] in *. injection H3 as H3 H4. rewrite H3.
  unfold getFactory. rewrite Hf. pose proof Ha as (Hs & Ht & Hb).
  destruct (Hrun m1) as (m' & Hrun' & Ha'); [lia|lia| |].
  - rewrite Ht. rewrite <- H4 at 2. apply mem_load_ext. auto.
  - exists m'. split; [done|]. apply (mm_advanced_trans m 1 m1); done.
Qed.

(** The cursor stands at the bytes of [txs], inside the mapping. *)
Definition at_txs (m : M) (txs : list Tx) : Prop :=
  0 <= mm_tell m /\ mm_tell m + Z.of_nat (length (enc_all txs)) <= mm_size m /\
  mm_load m (mm_tell m) (length (enc_all txs)) = enc_all txs.

(** Reading takes the first transaction and leaves the cursor at the others. *)
Lemma read_enc_cons tx txs m : at_txs m (tx :: txs) ->
  exists m', read r m = (Ret (Some tx), m') /\ mm_advanced m (length (enc tx)) m' /\ at_txs m' txs.
Proof.
  unfold at_txs, enc_all. cbn [map concat]. intros (H1 & H2 & H3).
  rewrite length_app in H2, H3. rewrite mm_load_app in H3.
  apply app_inj_1 in H3 as [H3 H4]; [|apply length_mm_load].
  destruct (read_enc tx m) as (m1 & Hr1 & Ha1); [lia|lia|done|].
  pose proof Ha1 as (Hs & Ht & Hb). exists m1. split; [done|]. split; [done|].
  split; [lia|]. split; [lia|]. rewrite Ht. rewrite <- H4 at 2. apply mem_load_ext. auto.
Qed.

(** C39: what the registry reads back from the bytes a transaction wrote is that
    transaction, and exactly its bytes are consumed, for a factory that reads what follows the
    type id: the registry has consumed the type id itself.  A factory that consumes it too, as
    docs/transactions.md asks, does not read the transaction back
    (TestChainDesign.documented_factory_misreads). *)
Theorem registry_roundtrip tx m :
  0 <= mm_tell m -> mm_tell m + Z.of_nat (length (enc tx)) <= mm_size m ->
  exists m', read r (mm_seek (tx_write tx m) (mm_tell m)) = (Ret (Some tx), m') /\
    mm_tell m' = mm_tell m + tx_size tx.
Proof.
  intros H1 H2. pose proof (write_enc (enc:=enc) tx m H1 H2) as Hw. pose proof Hw as (Hs & Ht & Hb).
  destruct (mm_seek_law (tx_write tx m) (mm_tell m)) as (Hs2 & Ht2 & Hb2); [lia|].
  destruct (read_enc tx (mm_seek (tx_write tx m) (mm_tell m))) as (m' & Hr & Ha).
  - lia.
  - lia.
  - rewrite Ht2, mm_seek_load by lia. by apply mm_wrote_load.
  - exists m'. split; [done|]. destruct Ha as (_ & Ha & _). rewrite Ha, Ht2.
    by rewrite (size_enc (enc:=enc)).
Qed.
End Codec.

(** The failure branches of the registry: at the end of the input it throws
    [std::out_of_range]; for a type id that was never registered it returns a null
    pointer after consuming the id, and does not throw. *)
Theorem read_errors {M Tx : Type} `{!MmapHandle M} (r : TransactionTypeRegistry M Tx) (m m' : M) (bytes : list Z) :
  mm_read m 1 = (bytes, m') ->
  (bytes = [] -> read r m = (Throw (out_of_range "Failed to read transaction type"), m')) /\
  (forall typeId, bytes = [typeId] -> factories r !! typeId = None -> read r m = (Ret None, m')).
Proof.
  intros Hr. unfold read, mbind, prog_bind, src_read. rewrite Hr. split.
  - intros ->. done.
  - intros typeId -> Hf. unfold getFactory. by rewrite Hf.
Qed.

(** A later registration for the same type id replaces the earlier one and leaves
    every other id alone. *)
Theorem registerType_getFactory {M Tx : Type} (r : TransactionTypeRegistry M Tx) t1 f1 t2 f2 t :
  getFactory (registerType (registerType r t1 f1) t2 f2) t =
    if decide (t = t2) then Some f2 else if decide (t = t1) then Some f1 else getFactory r t.
Proof.
  unfold getFactory, registerType; cbn. rewrite !lookup_insert.
  repeat case_decide; congruence.
Qed.
