(* ===== verification/Registry.v ===== *)
(** * Typed registries

    [TypeKey], [IndexFamily], [BackendRegistry] and [StateOverrideRegistry]
    (src/src/blockchain/TypeKey.h, IndexFamily.h, BackendRegistry.h,
    StateOverrideRegistry.h).  A registry is filled by a sequence of registrations; the
    theorems relate what its accessors return to that sequence. *)

From S2P Require Import Prelude.

(** The address of the function-local static of [typeKey<T>()]: one per type. *)
Definition TypeKey : Type := positive.

(** ** Ids by registration order

    Both registries give the [n]-th registration the number of earlier registrations of
    the same type, converted to [uint8_t]. *)

Definition count_key (k : TypeKey) (ks : list TypeKey) : nat := length (filter (fun k' => k' = k) ks).

Definition slots (ks : list TypeKey) : list (TypeKey * Z) :=
  imap (fun n k => (k, u8 (Z.of_nat (count_key k (take n ks))))) ks.

(** No type is registered more than 256 times, so that the ids do not wrap. *)
Definition ids_fit (ks : list TypeKey) : Prop := forall k, (count_key k ks <= 256)%nat.

Lemma count_key_app k ks ks' : count_key k (ks ++ ks') = (count_key k ks + count_key k ks')%nat.
Proof. unfold count_key. by rewrite filter_app, length_app. Qed.

Lemma count_key_cons k k' ks :
  count_key k (k' :: ks) = ((if decide (k' = k) then 1 else 0) + count_key k ks)%nat.
Proof. unfold count_key. rewrite filter_cons. by case_decide. Qed.

Lemma count_key_take_lt k ks n : ks !! n = Some k -> (count_key k (take n ks) < count_key k ks)%nat.
Proof.
  intros Hn. rewrite <- (take_drop_middle ks n k Hn) at 2.
  rewrite count_key_app, count_key_cons, decide_True by done. lia.
Qed.

Lemma slots_snoc ks k : slots (ks ++ [k]) = slots ks ++ [(k, u8 (Z.of_nat (count_key k ks)))].
Proof.
  unfold slots. rewrite imap_app. f_equal.
  - apply imap_ext. intros i x Hi. cbn. do 3 f_equal. rewrite take_app_le; [done|].
    apply lookup_lt_Some in Hi. lia.
  - cbn. rewrite Nat.add_0_r, take_app_length. done.
Qed.

Lemma slots_lookup ks n k : ks !! n = Some k ->
  slots ks !! n = Some (k, u8 (Z.of_nat (count_key k (take n ks)))).
Proof. intros Hn. unfold slots. by rewrite list_lookup_imap, Hn. Qed.

Lemma length_slots ks : length (slots ks) = length ks.
Proof. apply length_imap. Qed.

Lemma ids_fit_small ks n k : ids_fit ks -> ks !! n = Some k ->
  u8 (Z.of_nat (count_key k (take n ks))) = Z.of_nat (count_key k (take n ks)).
Proof.
  intros Hfit Hn. apply count_key_take_lt in Hn. specialize (Hfit k). apply u8_small. word.
Qed.

(** The registrations of one type, in order. *)
Definition of_key {A} (k : TypeKey) (regs : list (TypeKey * A)) : list A :=
  snd <$> filter (fun p => p.1 = k) regs.

Lemma length_of_key {A} k (regs : list (TypeKey * A)) : length (of_key k regs) = count_key k (fst <$> regs).
Proof.
  unfold of_key, count_key. rewrite length_fmap.
  induction regs as [|[k' a] regs IH]; [done|]. rewrite fmap_cons, !filter_cons. cbn.
  case_decide; cbn; by rewrite IH.
Qed.

Lemma of_key_app {A} k (r1 r2 : list (TypeKey * A)) : of_key k (r1 ++ r2) = of_key k r1 ++ of_key k r2.
Proof. unfold of_key. by rewrite filter_app, fmap_app. Qed.

Lemma of_key_snoc {A} k (regs : list (TypeKey * A)) k' a :
  of_key k (regs ++ [(k', a)]) = of_key k regs ++ (if decide (k' = k) then [a] else []).
Proof.
  rewrite of_key_app. f_equal. unfold of_key. rewrite filter_cons. cbn. by case_decide.
Qed.

(** The [n]-th registration is found in its type's list at the number of its predecessors. *)
Lemma of_key_lookup {A} (regs : list (TypeKey * A)) n k a : regs !! n = Some (k, a) ->
  of_key k regs !! count_key k (take n (fst <$> regs)) = Some a.
Proof.
  intros Hn.
  assert (of_key k regs = of_key k (take n regs) ++ a :: of_key k (drop (S n) regs)) as ->.
  { rewrite <- (take_drop_middle regs n _ Hn) at 1. rewrite of_key_app. f_equal.
    unfold of_key. by rewrite filter_cons_True. }
  rewrite <- fmap_take, <- length_of_key, lookup_app_r by done. by rewrite Nat.sub_diag.
Qed.

Lemma of_key_elem {A} k (regs : list (TypeKey * A)) a : a ∈ of_key k regs -> (k, a) ∈ regs.
Proof.
  unfold of_key. intros Hin. apply list_elem_of_fmap in Hin as ([k' a'] & -> & Hin).
  apply list_elem_of_filter in Hin as [Hk Hin]. cbn in Hk. by subst k'.
Qed.

Lemma of_key_same {A} k (regs : list (TypeKey * A)) : Forall (fun p => p.1 = k) regs ->
  of_key k regs = snd <$> regs.
Proof.
  unfold of_key. induction 1 as [|[k' a] regs Hk Hall IH]; [done|].
  rewrite filter_cons_True by done. by rewrite !fmap_cons, IH.
Qed.

(** ** [IndexFamily<T>] *)
Section IndexFamily.
Context {Ix : Type}.

Record IndexFamily := { instances : list Ix }.

Definition family_add (fam : IndexFamily) (instance : Ix) : IndexFamily :=
  {| instances := instances fam ++ [instance] |}.

(** A null [sp] for an id out of range. *)
Definition family_get (fam : IndexFamily) (id : Z) : option Ix :=
  if Z.of_nat (length (instances fam)) <=? id then None else instances fam !! Z.to_nat id.

Definition family_instanceCount (fam : IndexFamily) : Z := Z.of_nat (length (instances fam)).

(** [getInstance] differs from [get] only by the upcast of the pointer. *)
Definition getInstance (fam : IndexFamily) (id : Z) : option Ix :=
  if Z.of_nat (length (instances fam)) <=? id then None else instances fam !! Z.to_nat id.

Lemma getInstance_lookup fam id : 0 <= id -> getInstance fam id = instances fam !! Z.to_nat id.
Proof.
  intros Hid. unfold getInstance. destruct (Z.leb_spec (Z.of_nat (length (instances fam))) id); [|done].
  symmetry. apply lookup_ge_None. lia.
Qed.
End IndexFamily.
Arguments IndexFamily : clear implicits.

(** ** [BackendRegistry] *)
Section BackendRegistry.
Context {Ix : Type}.

Record BackendEntry := { be_key : TypeKey; be_id : Z }.

Record BackendRegistry := {
  br_families : gmap TypeKey (IndexFamily Ix);
  br_entries : list BackendEntry;
}.

Definition emptyBackendRegistry : BackendRegistry := {| br_families := ∅; br_entries := [] |}.

(** [registerIndex<T>(instance)], with [key = typeKey<T>()]. *)
Definition registerIndex (r : BackendRegistry) (key : TypeKey) (instance : Ix) : BackendRegistry :=
  let '(families, newId) :=
    match br_families r !! key with
    | None => (<[key := family_add {| instances := [] |} instance]> (br_families r), 0)
    | Some fam => (<[key := family_add fam instance]> (br_families r), u8 (family_instanceCount fam))
    end in
  {| br_families := families; br_entries := br_entries r ++ [{| be_key := key; be_id := newId |}] |}.

Definition getIndex (r : BackendRegistry) (key : TypeKey) (id : Z) : option Ix :=
  match br_families r !! key with
  | None => None
  | Some fam => family_get fam id
  end.

Definition instanceCount (r : BackendRegistry) (key : TypeKey) : Z :=
  match br_families r !! key with
  | None => 0
  | Some fam => family_instanceCount fam
  end.

Definition getIndexAt (r : BackendRegistry) (persistentTypeId : Z) : option Ix :=
  if Z.of_nat (length (br_entries r)) <=? persistentTypeId then None
  else
    e ← br_entries r !! Z.to_nat persistentTypeId;
    fam ← br_families r !! be_key e;
    getInstance fam (be_id e).

(** The registry after a sequence of registrations. *)
Definition registerIndexes (regs : list (TypeKey * Ix)) : BackendRegistry :=
  foldl (fun r '(k, i) => registerIndex r k i) emptyBackendRegistry regs.

Lemma registerIndexes_spec regs :
  (forall k, br_families (registerIndexes regs) !! k =
     match of_key k regs with [] => None | l => Some {| instances := l |} end) /\
  br_entries (registerIndexes regs) =
    (fun '(k, id) => {| be_key := k; be_id := id |}) <$> slots (fst <$> regs).
Proof.
  unfold registerIndexes.
  induction regs as [|[key i] regs [IHf IHe]] using rev_ind; [done|].
  rewrite foldl_snoc. set (r := foldl _ _ regs) in *. unfold registerIndex.
  assert (match br_families r !! key with
     | None => (<[key := family_add {| instances := [] |} i]> (br_families r), 0)
     | Some fam => (<[key := family_add fam i]> (br_families r), u8 (family_instanceCount fam))
     end = (<[key := {| instances := of_key key regs ++ [i] |}]> (br_families r),
            u8 (Z.of_nat (count_key key (fst <$> regs))))) as ->.
  { rewrite IHf, <- length_of_key. destruct (of_key key regs) as [|x l]; done. }
  cbn [br_families br_entries]. split.
  - intros k. rewrite of_key_snoc. case_decide as Hk.
    + subst. rewrite lookup_insert_eq. destruct (of_key k regs); done.
    + rewrite lookup_insert_ne, IHf, app_nil_r by done. done.
  - rewrite fmap_app. cbn. rewrite slots_snoc, fmap_app, IHe. done.
Qed.

Lemma getIndexAt_lookup regs n k i : regs !! n = Some (k, i) ->
  getIndexAt (registerIndexes regs) (Z.of_nat n) =
    of_key k regs !! Z.to_nat (u8 (Z.of_nat (count_key k (take n (fst <$> regs))))).
Proof.
  intros Hn. destruct (registerIndexes_spec regs) as [Hf He]. unfold getIndexAt.
  rewrite He, length_fmap, length_slots, length_fmap, Nat2Z.id.
  apply lookup_lt_Some in Hn as Hlt. destruct (Z.leb_spec (Z.of_nat (length regs)) (Z.of_nat n)); [lia|].
  rewrite list_lookup_fmap, (slots_lookup _ _ k) by (by rewrite list_lookup_fmap, Hn).
  cbn. rewrite Hf. pose proof (of_key_lookup _ _ _ _ Hn) as Hl.
  destruct (of_key k regs) as [|x l] eqn:E; [done|]. cbn.
  apply getInstance_lookup. apply u8_range.
Qed.
Lemma getIndexAt_nth regs n : ids_fit (fst <$> regs) ->
  getIndexAt (registerIndexes regs) (Z.of_nat n) = snd <$> regs !! n.
Proof.
  intros Hfit. destruct (regs !! n) as [[k i]|] eqn:Hn.
  - rewrite (getIndexAt_lookup _ _ _ _ Hn), (ids_fit_small _ _ _ Hfit) by (by rewrite list_lookup_fmap, Hn).
    rewrite Nat2Z.id. by apply of_key_lookup.
  - unfold getIndexAt. destruct (registerIndexes_spec regs) as [_ He].
    rewrite He, length_fmap, length_slots, length_fmap. apply lookup_ge_None in Hn.
    destruct (Z.leb_spec (Z.of_nat (length regs)) (Z.of_nat n)); [done|lia].
Qed.
(** Mutation of the instance that [getIndexAt(i)] points to ([idx.mut()] on a shared
    pointer). *)
Definition updIndexAt (r : BackendRegistry) (i : nat) (g : Ix -> Ix) : BackendRegistry :=
  match br_entries r !! i with
  | Some e =>
      {| br_families := alter (fun fam => {| instances := alter g (Z.to_nat (be_id e)) (instances fam) |}) (be_key e) (br_families r);
         br_entries := br_entries r |}
  | None => r
  end.

Definition on_snd (g : Ix -> Ix) (p : TypeKey * Ix) : TypeKey * Ix := (p.1, g p.2).

Lemma fst_alter (regs : list (TypeKey * Ix)) n g : fst <$> alter (on_snd g) n regs = fst <$> regs.
Proof.
  rewrite (list_fmap_alter fst (on_snd g) id) by (apply Forall_forall; by intros []). by apply list_alter_id.
Qed.

Lemma of_key_alter (regs : list (TypeKey * Ix)) n g k k' i : regs !! n = Some (k, i) ->
  of_key k' (alter (on_snd g) n regs) =
    if decide (k' = k) then alter g (count_key k (take n (fst <$> regs))) (of_key k regs) else of_key k' regs.
Proof.
  intros Hn. assert (n < length regs)%nat as Hlt by (by eapply lookup_lt_Some).
  assert (alter (on_snd g) n regs = take n regs ++ (k, g i) :: drop (S n) regs) as ->.
  { rewrite <- (take_drop_middle regs n _ Hn) at 1. rewrite alter_app_r_alt by (rewrite length_take; lia).
    f_equal. rewrite length_take_le by lia. by rewrite Nat.sub_diag. }
  assert (of_key k regs = of_key k (take n regs) ++ i :: of_key k (drop (S n) regs)) as Hk.
  { rewrite <- (take_drop_middle regs n _ Hn) at 1. rewrite of_key_app. f_equal. unfold of_key. by rewrite filter_cons_True. }
  rewrite of_key_app. case_decide as Hkk.
  - subst k'. rewrite Hk, <- fmap_take, <- length_of_key, alter_app_r_alt, Nat.sub_diag by done. f_equal.
    unfold of_key at 1. by rewrite filter_cons_True.
  - rewrite <- (take_drop_middle regs n _ Hn) at 3. rewrite of_key_app. f_equal. unfold of_key.
    rewrite !filter_cons_False by (cbn; congruence). done.
Qed.

Lemma updIndexAt_nth regs n g : ids_fit (fst <$> regs) ->
  updIndexAt (registerIndexes regs) n g = registerIndexes (alter (on_snd g) n regs).
Proof.
  intros Hfit. destruct (registerIndexes_spec regs) as [Hf He].
  destruct (registerIndexes_spec (alter (on_snd g) n regs)) as [Hf' He'].
  unfold updIndexAt. destruct (regs !! n) as [[k i]|] eqn:Hn.
  - assert ((fst <$> regs) !! n = Some k) as Hk by (by rewrite list_lookup_fmap, Hn).
    rewrite He, list_lookup_fmap, (slots_lookup _ _ _ Hk). cbn [fmap option_fmap option_map be_id be_key].
    rewrite (ids_fit_small _ _ _ Hfit Hk), Nat2Z.id.
    destruct (registerIndexes (alter (on_snd g) n regs)) as [fams ents]. cbn in Hf', He'. f_equal.
    + apply map_eq. intros k'. rewrite Hf', (of_key_alter _ _ _ _ _ _ Hn), lookup_alter, Hf.
      destruct (decide (k = k')) as [->|Hne].
      * rewrite decide_True by done. destruct (of_key k' regs) as [|x l]; [done|]. cbn [fmap option_fmap option_map instances].
        destruct (alter g _ (x :: l)) eqn:E; [|done]. apply (f_equal length) in E. by rewrite length_alter in E.
      * by rewrite decide_False, Hf by congruence.
    + by rewrite He', fst_alter.
  - rewrite He, list_lookup_fmap.
    replace (slots (fst <$> regs) !! n) with (@None (TypeKey * Z)).
    + cbn. f_equal. apply list_eq. intros m. rewrite list_lookup_alter. case_decide as Hm; [|done].
      subst m. by rewrite Hn.
    + symmetry. apply lookup_ge_None. rewrite length_slots, length_fmap. by apply lookup_ge_None.
Qed.

End BackendRegistry.
Arguments BackendRegistry : clear implicits.

(** Positional access returns the instance registered at that position, and null past
    the last one, provided no type has more than 256 instances. *)
Theorem getIndexAt_registered {Ix} (regs : list (TypeKey * Ix)) (n : nat) :
  ids_fit (fst <$> regs) ->
  getIndexAt (registerIndexes regs) (Z.of_nat n) = snd <$> regs !! n.
Proof. apply getIndexAt_nth. Qed.

(** The [uint8_t] id wraps: when the same type is registered over and over, position [n]
    resolves to the instance registered at [n mod 256]; from the 257th on, indexes alias. *)
Theorem getIndexAt_wraps {Ix} (k : TypeKey) (regs : list (TypeKey * Ix)) (n : nat) :
  Forall (fun p => p.1 = k) regs -> (n < length regs)%nat ->
  getIndexAt (registerIndexes regs) (Z.of_nat n) = snd <$> regs !! (n mod 256)%nat.
Proof.
  intros Hall Hn. destruct (lookup_lt_is_Some_2 _ _ Hn) as [[k' i] Hi].
  assert (k' = k) as -> by (by apply (Forall_lookup_1 _ _ _ _ Hall Hi)).
  rewrite (getIndexAt_lookup _ _ _ _ Hi), of_key_same, list_lookup_fmap by done. do 2 f_equal.
  rewrite <- fmap_take, <- length_of_key, of_key_same by (by apply Forall_take).
  rewrite length_fmap, length_take_le by lia. unfold u8.
  rewrite <- (Nat2Z.id (n mod 256)), Nat2Z.inj_mod. done.
Qed.

Lemma getIndex_key {Ix} (regs : list (TypeKey * Ix)) (k : TypeKey) (id : Z) :
  in_u8 id -> getIndex (registerIndexes regs) k id = of_key k regs !! Z.to_nat id.
Proof.
  destruct (registerIndexes_spec regs) as [Hf _]. unfold getIndex. rewrite Hf.
  destruct (of_key k regs) as [|x l] eqn:E; [done|].
  intros Hid. apply (getInstance_lookup {| instances := x :: l |}). apply Hid.
Qed.

(** Typed access [index<T>(id)] returns the [id]-th registration of type [T] and null for
    an id or type that was not registered; [instanceCount<T>] is the number of them. *)
Theorem getIndex_typed {Ix} (regs : list (TypeKey * Ix)) (k : TypeKey) (id : Z) :
  instanceCount (registerIndexes regs) k = Z.of_nat (count_key k (fst <$> regs)) /\
  (in_u8 id -> getIndex (registerIndexes regs) k id = of_key k regs !! Z.to_nat id).
Proof.
  split; [|apply getIndex_key]. destruct (registerIndexes_spec regs) as [Hf _]. unfold instanceCount. rewrite Hf.
  rewrite <- length_of_key. by destruct (of_key k regs).
Qed.

(** ** [StateOverrideRegistry] *)
Section StateOverrideRegistry.
Context {F : Type}.

(** [factory] stands for the fresh instance that calling the factory returns. *)
Record OverrideEntry := { oe_key : TypeKey; oe_id : Z; oe_factory : F }.

Record StateOverrideRegistry := {
  sr_entries : list OverrideEntry;
  sr_counts : gmap TypeKey Z;
}.

Definition emptyOverrideRegistry : StateOverrideRegistry := {| sr_entries := []; sr_counts := ∅ |}.

Definition registerOverride (r : StateOverrideRegistry) (key : TypeKey) (factory : F) : StateOverrideRegistry :=
  let cnt := sr_counts r !! key in
  let id := match cnt with Some c => u8 c | None => 0 end in
  {| sr_counts := match cnt with
                  | Some c => <[key := c + 1]> (sr_counts r)
                  | None => <[key := 1]> (sr_counts r)
                  end;
     sr_entries := sr_entries r ++ [{| oe_key := key; oe_id := id; oe_factory := factory |}] |}.

Definition registerOverrides (regs : list (TypeKey * F)) : StateOverrideRegistry :=
  foldl (fun r '(k, f) => registerOverride r k f) emptyOverrideRegistry regs.

Lemma registerOverrides_spec regs :
  (forall k, default 0 (sr_counts (registerOverrides regs) !! k) = Z.of_nat (count_key k (fst <$> regs))) /\
  (fun e => (oe_key e, oe_id e)) <$> sr_entries (registerOverrides regs) = slots (fst <$> regs) /\
  (fun e => (oe_key e, oe_factory e)) <$> sr_entries (registerOverrides regs) = regs.
Proof.
  unfold registerOverrides.
  induction regs as [|[key f] regs (IHc & IHi & IHf)] using rev_ind; [done|].
  rewrite foldl_snoc. set (r := foldl _ _ regs) in *.
  rewrite fmap_app. unfold registerOverride; cbn. split; [|split].
  - intros k. rewrite count_key_app, count_key_cons. change (count_key k []) with 0%nat.
    specialize (IHc k). destruct (decide (k = key)) as [->|Hne].
    + rewrite decide_True by done. destruct (sr_counts r !! key); cbn in *; rewrite lookup_insert_eq; cbn; lia.
    + rewrite decide_False by done. destruct (sr_counts r !! key); rewrite lookup_insert_ne by done; lia.
  - rewrite fmap_app, IHi, slots_snoc. cbn. rewrite <- IHc. by destruct (sr_counts r !! key).
  - by rewrite fmap_app, IHf.
Qed.

Lemma sr_entries_snoc regs key f :
  sr_entries (registerOverrides (regs ++ [(key, f)])) =
  sr_entries (registerOverrides regs) ++
    [{| oe_key := key; oe_id := u8 (Z.of_nat (count_key key (fst <$> regs))); oe_factory := f |}].
Proof.
  unfold registerOverrides at 1. rewrite foldl_snoc. fold (registerOverrides regs).
  destruct (registerOverrides_spec regs) as (Hc & _ & _). specialize (Hc key).
  cbn. do 2 f_equal. rewrite <- Hc. by destruct (sr_counts _ !! key).
Qed.
End StateOverrideRegistry.
Arguments StateOverrideRegistry : clear implicits.
Arguments OverrideEntry : clear implicits.

(** The two registries allocate alike: given the same sequence of types, the [n]-th
    override entry carries the same (type, id) coordinates as the [n]-th index entry, which
    is what lets the backend pair them by position. *)
Theorem registries_allocate_alike {Ix F} (indexes : list (TypeKey * Ix)) (overrides : list (TypeKey * F)) :
  fst <$> indexes = fst <$> overrides ->
  (fun e => (be_key e, be_id e)) <$> br_entries (registerIndexes indexes) =
  (fun e => (oe_key e, oe_id e)) <$> sr_entries (registerOverrides overrides).
Proof.
  intros Hk. destruct (registerIndexes_spec indexes) as [_ ->].
  destruct (registerOverrides_spec overrides) as (_ & -> & _).
  rewrite Hk, <- list_fmap_compose. rewrite <- (list_fmap_id (slots _)) at 2.
  apply list_fmap_ext. by intros n [].
Qed.

(** ** Concrete registries *)

Lemma ids_fit_short ks : (length ks <= 256)%nat -> ids_fit ks.
Proof. intros H k. unfold count_key. eapply Nat.le_trans; [apply length_filter|done]. Qed.

Definition sample_regs : list (TypeKey * Z) := [(1%positive, 10); (2%positive, 20); (1%positive, 11)].

Lemma getIndexAt_registered_witness : getIndexAt (registerIndexes sample_regs) 2 = Some 11.
Proof.
  exact (getIndexAt_registered sample_regs 2 (ids_fit_short (fst <$> sample_regs) ltac:(by apply Nat.leb_le))).
Defined.

Lemma getIndexAt_wraps_witness :
  getIndexAt (registerIndexes ((fun i => (1%positive, i)) <$> seqZ 0 257)) 256 = Some 0.
Proof.
  refine (eq_trans (getIndexAt_wraps 1%positive ((fun i => (1%positive, i)) <$> seqZ 0 257) 256 _ _) eq_refl).
  - by_compute.
  - rewrite length_fmap, length_seqZ. lia.
Defined.

Lemma getIndex_typed_witness :
  getIndex (registerIndexes sample_regs) 1%positive 1 = Some 11 /\
  getIndex (registerIndexes sample_regs) 2%positive 1 = None /\
  getIndex (registerIndexes sample_regs) 3%positive 0 = None.
Proof.
  split; [|split]; refine (eq_trans (proj2 (getIndex_typed sample_regs _ _) _) _); try reflexivity; by_compute.
Defined.

Lemma registries_allocate_alike_witness :
  (fun e => (be_key e, be_id e)) <$> br_entries (registerIndexes sample_regs) =
  (fun e => (oe_key e, oe_id e)) <$>
    sr_entries (registerOverrides [(1%positive, "a"%string); (2%positive, "b"%string); (1%positive, "c"%string)]).
Proof.
  apply (registries_allocate_alike sample_regs
    [(1%positive, "a"%string); (2%positive, "b"%string); (1%positive, "c"%string)]).
  reflexivity.
Defined.
