(* ===== verification/StateOverride.v ===== *)
(** * StateOverride

    The bundle of override families of one block in progress
    (src/src/blockchain/StateOverride.h and .cpp): construction from the registry, the
    typed and the positional accessors, the walk over all families, copying and
    assignment.

    A family lives behind an [sp] that the registry's factory creates as [UNIQUE], so a
    copy shares it copy-on-write: through each handle the family behaves as a value of
    its own.  The model stores the value; Sharing.v has the pointers and shows for which forks
    that is right. *)

From S2P Require Import Prelude Registry.

(** The virtual interface [IndexOverrideFamilyBase] (IndexOverride.h): [W] is what the
    indexes answer from disk, [Ix] the index a family is attached to. *)
Class IndexOverrideFamily (F W Ix : Type) := {
  seal : W -> F -> list Z;
  attach : Ix -> F -> F;
}.

Section StateOverride.
Context {F : Type}.

Record Slot := { sl_key : TypeKey; sl_id : Z }.

Record StateOverride := {
  families : gmap TypeKey (list F);
  order : list Slot;
}.

Definition emptyOverride : StateOverride := {| families := ∅; order := [] |}.

(** One iteration of the constructor's loop. *)
Definition addEntry (s : StateOverride) (e : OverrideEntry F) : StateOverride :=
  let fams :=
    match families s !! oe_key e with
    | None => <[oe_key e := []]> (families s)
    | Some _ => families s
    end in
  {| families := alter (fun family => family ++ [oe_factory e]) (oe_key e) fams;
     order := order s ++ [{| sl_key := oe_key e; sl_id := oe_id e |}] |}.

Definition newStateOverride (registry : StateOverrideRegistry F) : StateOverride :=
  foldl addEntry emptyOverride (sr_entries registry).

(** [family->get(id)] of the family list found under [key]. *)
Definition family_at (s : StateOverride) (key : TypeKey) (id : Z) : outcome F :=
  family ← deref NullDeref (families s !! key);
  deref OutOfBounds (family !! Z.to_nat id).

(** Mutation through the returned reference. *)
Definition family_set (s : StateOverride) (key : TypeKey) (id : Z) (f : F) : StateOverride :=
  {| families := alter (fun family => <[Z.to_nat id := f]> family) key (families s); order := order s |}.

(** [override<T>(id)], [key = typeKey<T>()]; [overrideUpd] runs [g] on the reference. *)
Definition override (s : StateOverride) (key : TypeKey) (id : Z) : outcome F := family_at s key id.

Definition overrideUpd (s : StateOverride) (key : TypeKey) (id : Z) (g : F -> F) : outcome StateOverride :=
  f ← family_at s key id; mret (family_set s key id (g f)).

Definition familySize (s : StateOverride) : Z := Z.of_nat (length (order s)).

Definition familyAt (s : StateOverride) (n : Z) : outcome F :=
  slot ← deref OutOfBounds (order s !! Z.to_nat n);
  family_at s (sl_key slot) (sl_id slot).

Definition familyAtUpd (s : StateOverride) (n : Z) (g : F -> F) : outcome StateOverride :=
  slot ← deref OutOfBounds (order s !! Z.to_nat n);
  overrideUpd s (sl_key slot) (sl_id slot) g.

(** [forEachFamily(fn, ctx)]: [fn] receives the reference and the context. *)
Fixpoint forEachFamily_loop {C} (fn : TypeKey -> Z -> F -> C -> F * C) (todo : list Slot)
    (s : StateOverride) (ctx : C) : outcome (StateOverride * C) :=
  match todo with
  | [] => Ret (s, ctx)
  | slot :: todo =>
      f ← family_at s (sl_key slot) (sl_id slot);
      let '(f, ctx) := fn (sl_key slot) (sl_id slot) f ctx in
      forEachFamily_loop fn todo (family_set s (sl_key slot) (sl_id slot) f) ctx
  end.

Definition forEachFamily {C} (fn : TypeKey -> Z -> F -> C -> F * C) (s : StateOverride) (ctx : C) :
    outcome (StateOverride * C) :=
  forEachFamily_loop fn (order s) s ctx.

(** One iteration of the copy loop of the copy constructor and of [operator=]. *)
Definition copySlot (other : StateOverride) (fams : gmap TypeKey (list F)) (s : Slot) : outcome (gmap TypeKey (list F)) :=
  let fams := match fams !! sl_key s with None => <[sl_key s := []]> fams | Some _ => fams end in
  let family := default [] (fams !! sl_key s) in
  if Z.of_nat (length family) <=? sl_id s then
    otherFamily ← deref NullDeref (families other !! sl_key s);
    f ← deref OutOfBounds (otherFamily !! Z.to_nat (sl_id s));
    mret (<[sl_key s := family ++ [f]]> fams)
  else mret fams.

Fixpoint copy_loop (other : StateOverride) (todo : list Slot) (fams : gmap TypeKey (list F)) : outcome (gmap TypeKey (list F)) :=
  match todo with
  | [] => Ret fams
  | s :: todo => fams ← copySlot other fams s; copy_loop other todo fams
  end.

Definition copyOverride (other : StateOverride) : outcome StateOverride :=
  fams ← copy_loop other (order other) ∅;
  mret {| families := fams; order := order other |}.

(** The loop of [operator=] also rebuilds [order], slot by slot. *)
Fixpoint assign_loop (other : StateOverride) (todo : list Slot) (s : StateOverride) : outcome StateOverride :=
  match todo with
  | [] => Ret s
  | slot :: todo =>
      fams ← copySlot other (families s) slot;
      assign_loop other todo {| families := fams; order := order s ++ [slot] |}
  end.

Definition assignOverride (same_object : bool) (this other : StateOverride) : outcome StateOverride :=
  if same_object then mret this else assign_loop other (order other) emptyOverride.

(** ** Layout

    The layout of a state whose registry saw the types [ks] in order: the slots are the
    registry's, and the family of each type has one member per registration. *)
Definition has_layout (ks : list TypeKey) (s : StateOverride) : Prop :=
  order s = (fun '(k, id) => {| sl_key := k; sl_id := id |}) <$> slots ks /\
  (forall k, match families s !! k with
             | None => count_key k ks = 0%nat
             | Some l => length l = count_key k ks /\ count_key k ks <> 0%nat
             end).

Lemma has_layout_slot ks s n k : has_layout ks s -> ks !! n = Some k ->
  order s !! n = Some {| sl_key := k; sl_id := u8 (Z.of_nat (count_key k (take n ks))) |}.
Proof. intros [Ho _] Hn. by rewrite Ho, list_lookup_fmap, (slots_lookup _ _ _ Hn). Qed.

Lemma has_layout_family ks s n k : has_layout ks s -> ks !! n = Some k ->
  exists l, families s !! k = Some l /\ length l = count_key k ks.
Proof.
  intros [_ Hf] Hn. specialize (Hf k). destruct (families s !! k); [destruct Hf; eauto|].
  apply count_key_take_lt in Hn. lia.
Qed.

Lemma family_set_layout ks s key id f : has_layout ks s -> has_layout ks (family_set s key id f).
Proof.
  intros [Ho Hf]. split; [done|]. intros k. specialize (Hf k). cbn. rewrite lookup_alter.
  case_decide; [|done]. subst. destruct (families s !! k); cbn; [|done]. by rewrite length_insert.
Qed.

Lemma family_at_set s key id f :
  0 <= id -> is_Some (families s !! key ≫= (.!! Z.to_nat id)) ->
  family_at (family_set s key id f) key id = Ret f.
Proof.
  intros Hid [f0 Hs]. unfold family_at, family_set; cbn. rewrite lookup_alter, decide_True by done.
  destruct (families s !! key) as [l|]; [|done]. cbn in *.
  rewrite list_lookup_insert_eq; [done|]. by eapply lookup_lt_Some.
Qed.

Lemma family_at_set_ne s key id f key' id' :
  0 <= id -> 0 <= id' -> (key, id) <> (key', id') ->
  family_at (family_set s key id f) key' id' = family_at s key' id'.
Proof.
  intros Hid Hid' Hne. unfold family_at, family_set; cbn. rewrite lookup_alter.
  case_decide as Hk; [|done]. subst. destruct (families s !! key') as [l|]; [|done]. cbn.
  rewrite list_lookup_insert_ne; [done|]. intros He. apply Hne. f_equal. lia.
Qed.

Lemma newStateOverride_spec (regs : list (TypeKey * F)) :
  has_layout (fst <$> regs) (newStateOverride (registerOverrides regs)) /\
  forall k, default [] (families (newStateOverride (registerOverrides regs)) !! k) = of_key k regs.
Proof.
  induction regs as [|[key f] regs [[IHo IHl] IHf]] using rev_ind; [done|].
  unfold newStateOverride at 1 2. rewrite sr_entries_snoc, foldl_snoc.
  fold (newStateOverride (registerOverrides regs)).
  set (s := newStateOverride (registerOverrides regs)) in *. unfold addEntry; cbn [oe_key oe_id oe_factory].
  assert (alter (fun family => family ++ [f]) key
     (match families s !! key with None => <[key := []]> (families s) | Some _ => families s end) =
     <[key := of_key key regs ++ [f]]> (families s)) as ->.
  { rewrite <- IHf. apply map_eq. intros k. destruct (families s !! key) eqn:E; cbn.
    - rewrite lookup_alter, lookup_insert. case_decide; [|done]. subst. by rewrite E.
    - rewrite lookup_alter, !lookup_insert. repeat case_decide; subst; try done; congruence. }
  split; [split|]; cbn [families order].
  - rewrite fmap_app. change (fst <$> [(key, f)]) with [key]. by rewrite slots_snoc, fmap_app, IHo.
  - intros k. rewrite fmap_app. change (fst <$> [(key, f)]) with [key].
    rewrite count_key_app, count_key_cons. change (count_key k []) with 0%nat. rewrite lookup_insert. case_decide.
    + subst. rewrite length_app, length_of_key. cbn. lia.
    + specialize (IHl k). destruct (families s !! k); lia.
  - intros k. rewrite of_key_snoc, lookup_insert. case_decide; subst.
    + done.
    + by rewrite IHf, app_nil_r.
Qed.

(** The slots of a registry whose ids fit are pairwise distinct. *)
Lemma slot_inj ks n m k : ids_fit ks -> ks !! n = Some k -> ks !! m = Some k -> n <> m ->
  u8 (Z.of_nat (count_key k (take n ks))) <> u8 (Z.of_nat (count_key k (take m ks))).
Proof.
  intros Hfit Hn Hm Hne. rewrite !ids_fit_small by done. intros Heq. apply Nat2Z.inj in Heq.
  assert (forall i j, (i < j)%nat -> ks !! i = Some k ->
    (count_key k (take i ks) < count_key k (take j ks))%nat) as Hmono.
  { intros i j Hij Hi. replace (take i ks) with (take i (take j ks)) by (rewrite take_take; f_equal; lia).
    apply count_key_take_lt. rewrite lookup_take_lt by lia. done. }
  destruct (Nat.lt_gt_cases n m) as [Hc _]. destruct (Hc Hne) as [Hlt|Hlt].
  - specialize (Hmono n m Hlt Hn). lia.
  - specialize (Hmono m n Hlt Hm). lia.
Qed.

Lemma familyAt_layout ks s n k : has_layout ks s -> ids_fit ks -> ks !! n = Some k ->
  familyAt s (Z.of_nat n) = family_at s k (u8 (Z.of_nat (count_key k (take n ks)))) /\
  is_Some (families s !! k ≫= (.!! Z.to_nat (u8 (Z.of_nat (count_key k (take n ks)))))).
Proof.
  intros Hl Hfit Hn. unfold familyAt. rewrite Nat2Z.id, (has_layout_slot _ _ _ _ Hl Hn).
  split; [done|]. destruct (has_layout_family _ _ _ _ Hl Hn) as (l & -> & Hlen). cbn.
  rewrite ids_fit_small, Nat2Z.id by done. apply lookup_lt_is_Some_2. rewrite Hlen.
  by apply count_key_take_lt.
Qed.

Lemma family_at_is_Some s k id : is_Some (families s !! k ≫= (.!! Z.to_nat id)) ->
  exists f, family_at s k id = Ret f.
Proof.
  unfold family_at. destruct (families s !! k) as [l|]; [|by intros []]. cbn.
  intros [f Hf]. rewrite Hf. eauto.
Qed.

Lemma familyAtUpd_layout ks s n g : has_layout ks s -> ids_fit ks -> (n < length ks)%nat ->
  exists f s', familyAt s (Z.of_nat n) = Ret f /\ familyAtUpd s (Z.of_nat n) g = Ret s' /\
    has_layout ks s' /\ familyAt s' (Z.of_nat n) = Ret (g f) /\
    forall m, m <> n -> familyAt s' (Z.of_nat m) = familyAt s (Z.of_nat m).
Proof.
  intros Hl Hfit Hlt. destruct (lookup_lt_is_Some_2 _ _ Hlt) as [k Hn].
  destruct (familyAt_layout _ _ _ _ Hl Hfit Hn) as [Hat Hsome].
  destruct (family_at_is_Some _ _ _ Hsome) as [f Hf].
  set (id := u8 (Z.of_nat (count_key k (take n ks)))) in *. assert (0 <= id) by apply u8_range.
  exists f, (family_set s k id (g f)). rewrite Hat. split; [done|]. split; [|split; [|split]].
  - unfold familyAtUpd. rewrite Nat2Z.id, (has_layout_slot _ _ _ _ Hl Hn). cbn.
    unfold overrideUpd. fold id. by rewrite Hf.
  - by apply family_set_layout.
  - rewrite (proj1 (familyAt_layout ks _ n k (family_set_layout ks s k id (g f) Hl) Hfit Hn)).
    by apply family_at_set.
  - intros m Hm. destruct (ks !! m) as [k'|] eqn:Hk'.
    + rewrite (proj1 (familyAt_layout ks _ m k' (family_set_layout ks s k id (g f) Hl) Hfit Hk')).
      rewrite (proj1 (familyAt_layout ks s m k' Hl Hfit Hk')).
      apply family_at_set_ne; [done|apply u8_range|]. intros [= -> Heq].
      by apply (slot_inj ks n m k').
    + unfold familyAt. cbn. destruct Hl as [-> _]. rewrite list_lookup_fmap.
      replace (slots ks !! Z.to_nat (Z.of_nat m)) with (@None (TypeKey * Z)); [done|].
      symmetry. apply lookup_ge_None. rewrite length_slots, Nat2Z.id. by apply lookup_ge_None.
Qed.

Lemma newStateOverride_familyAt (regs : list (TypeKey * F)) n : ids_fit (fst <$> regs) ->
  familyAt (newStateOverride (registerOverrides regs)) (Z.of_nat n) =
    match regs !! n with Some (_, f) => Ret f | None => Undef OutOfBounds end.
Proof.
  intros Hfit. destruct (newStateOverride_spec regs) as [Hl Hf]. pose proof Hl as [Ho Hlen].
  set (s := newStateOverride (registerOverrides regs)) in *.
  destruct (regs !! n) as [[k f]|] eqn:Hn.
  - assert ((fst <$> regs) !! n = Some k) as Hk by (by rewrite list_lookup_fmap, Hn).
    rewrite (proj1 (familyAt_layout _ _ _ _ Hl Hfit Hk)), (ids_fit_small _ _ _ Hfit Hk).
    unfold family_at. rewrite Nat2Z.id. pose proof (of_key_lookup _ _ _ _ Hn) as Hof.
    rewrite <- Hf in Hof. destruct (families s !! k); cbn in *; [by rewrite Hof|done].
  - unfold familyAt. rewrite Ho, list_lookup_fmap, Nat2Z.id.
    replace (slots (fst <$> regs) !! n) with (@None (TypeKey * Z)); [done|].
    symmetry. apply lookup_ge_None. rewrite length_slots, length_fmap. by apply lookup_ge_None.
Qed.

(** *** The copy loops *)

(** What the copy loop has built after the slots of the prefix [ks] of the registry. *)
Definition copied (ks : list TypeKey) (other : StateOverride) (fams : gmap TypeKey (list F)) : Prop :=
  forall k, fams !! k =
    match count_key k ks with
    | O => None
    | c => take c <$> families other !! k
    end.

Lemma copySlot_copied ks k ks' other fams :
  has_layout (ks ++ k :: ks') other -> ids_fit (ks ++ k :: ks') -> copied ks other fams ->
  exists fams', copySlot other fams {| sl_key := k; sl_id := u8 (Z.of_nat (count_key k ks)) |} = Ret fams' /\
    copied (ks ++ [k]) other fams'.
Proof.
  intros Hl Hfit Hc.
  assert ((ks ++ k :: ks') !! length ks = Some k) as Hn by (by rewrite lookup_app_r, Nat.sub_diag).
  pose proof (ids_fit_small _ _ _ Hfit Hn) as Hid. rewrite take_app_length in Hid.
  destruct (has_layout_family _ _ _ _ Hl Hn) as (l & Hfam & Hlen).
  rewrite count_key_app, count_key_cons, decide_True in Hlen by done.
  destruct (lookup_lt_is_Some_2 l (count_key k ks)) as [f Hf]; [lia|].
  set (fams0 := match fams !! k with None => <[k := []]> fams | Some _ => fams end).
  assert (fams0 !! k = Some (take (count_key k ks) l)) as H0.
  { unfold fams0. pose proof (Hc k) as Hk. rewrite Hfam in Hk. destruct (count_key k ks); rewrite Hk; cbn.
    - by rewrite lookup_insert_eq.
    - done. }
  assert (forall k0, k0 <> k -> fams0 !! k0 = fams !! k0) as H1.
  { intros k0 Hk0. unfold fams0. destruct (fams !! k); [done|]. by rewrite lookup_insert_ne. }
  exists (<[k := take (S (count_key k ks)) l]> fams0). split.
  - unfold copySlot; cbn [sl_key sl_id]. fold fams0. rewrite H0, Hid, Nat2Z.id, Hfam. cbn [from_option id].
    rewrite length_take_le by lia. rewrite Z.leb_refl. cbn. rewrite Hf. cbn.
    by rewrite (take_S_r _ _ f).
  - intros k0. rewrite count_key_app, count_key_cons. change (count_key k0 []) with 0%nat.
    rewrite lookup_insert. case_decide as Hk0.
    + subst k0. rewrite Hfam. replace (count_key k ks + (1 + 0))%nat with (S (count_key k ks)) by lia. done.
    + rewrite H1, Hc, !Nat.add_0_r by done. done.
Qed.

Lemma copy_loop_copied ks1 ks2 other fams :
  has_layout (ks1 ++ ks2) other -> ids_fit (ks1 ++ ks2) -> copied ks1 other fams ->
  exists fams', copy_loop other (drop (length ks1) (order other)) fams = Ret fams' /\
    copied (ks1 ++ ks2) other fams'.
Proof.
  revert ks1 fams. induction ks2 as [|k ks2 IH]; intros ks1 fams Hl Hfit Hc.
  - exists fams. rewrite app_nil_r in *. split; [|done]. rewrite drop_ge; [done|].
    destruct Hl as [-> _]. by rewrite length_fmap, length_slots.
  - assert ((ks1 ++ k :: ks2) !! length ks1 = Some k) as Hn by (by rewrite lookup_app_r, Nat.sub_diag).
    destruct (copySlot_copied ks1 k ks2 other fams) as (fams1 & Hs & Hc1); [done..|].
    pose proof (has_layout_slot _ _ _ _ Hl Hn) as Ho. rewrite take_app_length in Ho.
    rewrite (drop_S _ _ _ Ho). cbn [copy_loop]. rewrite Hs. cbn.
    rewrite (cons_middle k ks1 ks2), (app_assoc ks1 [k] ks2) in Hl, Hfit |- *.
    destruct (IH (ks1 ++ [k]) fams1) as (fams2 & Hr & Hc2); [done..|].
    exists fams2. rewrite length_app, Nat.add_1_r in Hr. done.
Qed.

Lemma copied_all ks other fams : has_layout ks other -> copied ks other fams -> fams = families other.
Proof.
  intros [_ Hl] Hc. apply map_eq. intros k. rewrite Hc. specialize (Hl k).
  destruct (families other !! k) as [l|].
  - destruct Hl as [Hlen Hne]. destruct (count_key k ks); [done|]. cbn. by rewrite <- Hlen, firstn_all.
  - by rewrite Hl.
Qed.

Lemma assign_copy_loop other todo s :
  assign_loop other todo s =
    (fun fams => {| families := fams; order := order s ++ todo |}) <$> copy_loop other todo (families s).
Proof.
  revert s. induction todo as [|slot todo IH]; intros s; cbn [assign_loop copy_loop].
  - cbn. rewrite app_nil_r. by destruct s.
  - destruct (copySlot other (families s) slot); cbn; [|done..]. rewrite IH; cbn.
    destruct (copy_loop other todo a); cbn; [|done..]. by rewrite <- app_assoc.
Qed.

Lemma copy_loop_layout ks s : has_layout ks s -> ids_fit ks ->
  copy_loop s (order s) ∅ = Ret (families s).
Proof.
  intros Hl Hfit. destruct (copy_loop_copied [] ks s ∅) as (fams & Hr & Hc); [done..|].
  cbn [length] in Hr. rewrite drop_0 in Hr. rewrite Hr. f_equal. by apply (copied_all ks).
Qed.

(** *** The walk over all families *)

Fixpoint walk {C} (fn : TypeKey -> Z -> F -> C -> F * C) (l : list (Slot * F)) (ctx : C) : list F * C :=
  match l with
  | [] => ([], ctx)
  | (slot, f) :: l =>
      let '(f, ctx) := fn (sl_key slot) (sl_id slot) f ctx in
      let '(fs, ctx) := walk fn l ctx in (f :: fs, ctx)
  end.

Lemma forEachFamily_walk {C} (fn : TypeKey -> Z -> F -> C -> F * C) ks s n fs ctx :
  has_layout ks s -> ids_fit ks ->
  (forall i f, fs !! i = Some f -> familyAt s (Z.of_nat (n + i)) = Ret f) ->
  (n + length fs = length ks)%nat ->
  exists s', forEachFamily_loop fn (drop n (order s)) s ctx =
      Ret (s', (walk fn (zip (drop n (order s)) fs) ctx).2) /\
    has_layout ks s' /\
    (forall m, (m < n)%nat -> familyAt s' (Z.of_nat m) = familyAt s (Z.of_nat m)) /\
    (forall i f, (walk fn (zip (drop n (order s)) fs) ctx).1 !! i = Some f ->
       familyAt s' (Z.of_nat (n + i)) = Ret f).
Proof.
  revert n s ctx. induction fs as [|f fs IH]; intros n s ctx Hl Hfit Hfs Hlen.
  - exists s. assert (drop n (order s) = []) as ->.
    { apply drop_ge. destruct Hl as [-> _]. rewrite length_fmap, length_slots. cbn in Hlen. lia. }
    cbn. naive_solver.
  - destruct (lookup_lt_is_Some_2 ks n) as [k Hn]; [cbn in Hlen; lia|].
    pose proof (has_layout_slot _ _ _ _ Hl Hn) as Ho.
    set (id := u8 (Z.of_nat (count_key k (take n ks)))) in *.
    destruct (familyAt_layout _ _ _ _ Hl Hfit Hn) as [Hat Hsome]. fold id in Hat, Hsome.
    pose proof (Hfs 0%nat f eq_refl) as Hf. rewrite Nat.add_0_r, Hat in Hf.
    rewrite (drop_S _ _ _ Ho). cbn [forEachFamily_loop zip_with walk sl_key sl_id]. rewrite Hf. cbn.
    destruct (fn k id f ctx) as [f' ctx'] eqn:Hfn.
    destruct (familyAtUpd_layout ks s n (fun _ => f') Hl Hfit) as (f0 & s0 & _ & Hu & Hl0 & Hs0 & Hne).
    { by apply lookup_lt_Some in Hn. }
    assert (s0 = family_set s k id f') as ->.
    { unfold familyAtUpd in Hu. rewrite Nat2Z.id, Ho in Hu. cbn in Hu. unfold overrideUpd in Hu.
      fold id in Hu. rewrite Hf in Hu. by injection Hu. }
    assert (order s = order (family_set s k id f')) as Hord by done. rewrite Hord.
    destruct (IH (S n) (family_set s k id f') ctx') as (s' & Hr & Hl' & Hlow & Hhigh); [done|done| | |].
    + intros i g Hg. rewrite Hne by lia. replace (S n + i)%nat with (n + S i)%nat by lia. by apply Hfs.
    + cbn in Hlen. lia.
    + exists s'. destruct (walk fn (zip _ fs) ctx') as [fs' ctx''] eqn:Hw. cbn in *.
      split; [done|]. split; [done|]. split.
      * intros m Hm. rewrite Hlow by lia. apply Hne. lia.
      * intros [|i] g Hg; cbn in Hg.
        -- injection Hg as <-. by rewrite Nat.add_0_r, Hlow by lia.
        -- replace (n + S i)%nat with (S n + i)%nat by lia. by apply Hhigh.
Qed.
End StateOverride.
Arguments StateOverride : clear implicits.

(** A fresh override has one family per registration: position [n] holds the instance
    made by the [n]-th factory, typed access [(type, id)] holds the [id]-th registration of
    the type, and an unregistered type or position is not reachable. *)
Theorem newStateOverride_registered {F} (regs : list (TypeKey * F)) :
  ids_fit (fst <$> regs) ->
  let s := newStateOverride (registerOverrides regs) in
  familySize s = Z.of_nat (length regs) /\
  (forall n, familyAt s (Z.of_nat n) =
     match regs !! n with Some (_, f) => Ret f | None => Undef OutOfBounds end) /\
  (forall k id, 0 <= id -> override s k id =
     match of_key k regs with
     | [] => Undef NullDeref
     | l => deref OutOfBounds (l !! Z.to_nat id)
     end).
Proof.
  intros Hfit s. destruct (newStateOverride_spec regs) as [Hl Hf]. fold s in Hl, Hf.
  pose proof Hl as [Ho Hlen]. split; [|split].
  - unfold familySize. by rewrite Ho, length_fmap, length_slots, length_fmap.
  - intros n. by apply newStateOverride_familyAt.
  - intros k id Hid. unfold override, family_at. specialize (Hf k). specialize (Hlen k).
    rewrite <- length_of_key in Hlen. rewrite <- Hf in Hlen |- *.
    destruct (families s !! k) as [[|x l]|]; cbn in *; [lia|done|done].
Qed.

(** Copying an override, by the copy constructor or by assignment onto any other one,
    reproduces every family and slot exactly; self-assignment changes nothing. *)
Theorem copy_exact {F} (ks : list TypeKey) (s this : StateOverride F) :
  has_layout ks s -> ids_fit ks ->
  copyOverride s = Ret s /\ assignOverride false this s = Ret s /\ assignOverride true s s = Ret s.
Proof.
  intros Hl Hfit. pose proof (copy_loop_layout ks s Hl Hfit) as Hc. split; [|split; [|done]].
  - unfold copyOverride. rewrite Hc. by destruct s.
  - unfold assignOverride. rewrite assign_copy_loop. cbn. rewrite Hc. by destruct s.
Qed.

(** Writing through the reference of one slot changes that slot and no other. *)
Theorem familyAtUpd_frame {F} (ks : list TypeKey) (s : StateOverride F) (n : nat) (g : F -> F) :
  has_layout ks s -> ids_fit ks -> (n < length ks)%nat ->
  exists f s', familyAt s (Z.of_nat n) = Ret f /\ familyAtUpd s (Z.of_nat n) g = Ret s' /\
    has_layout ks s' /\ familyAt s' (Z.of_nat n) = Ret (g f) /\
    forall m, m <> n -> familyAt s' (Z.of_nat m) = familyAt s (Z.of_nat m).
Proof. apply familyAtUpd_layout. Qed.

(** [forEachFamily] calls its function once per slot, in registration order, on the family
    the slot held before the walk, threads the context through, and leaves in each slot what
    the function made of it. *)
Theorem forEachFamily_in_order {F C} (fn : TypeKey -> Z -> F -> C -> F * C) ks (s : StateOverride F) fs ctx :
  has_layout ks s -> ids_fit ks ->
  length fs = length ks -> (forall i f, fs !! i = Some f -> familyAt s (Z.of_nat i) = Ret f) ->
  exists s', forEachFamily fn s ctx = Ret (s', (walk fn (zip (order s) fs) ctx).2) /\
    has_layout ks s' /\
    forall i f, (walk fn (zip (order s) fs) ctx).1 !! i = Some f -> familyAt s' (Z.of_nat i) = Ret f.
Proof.
  intros Hl Hfit Hlen Hfs.
  destruct (forEachFamily_walk fn ks s 0 fs ctx Hl Hfit) as (s' & Hr & Hl' & _ & Hh); [done..|].
  exists s'. rewrite drop_0 in *. done.
Qed.

(** ** A concrete override: three slots of two types *)

Definition sample_state : StateOverride Z := newStateOverride (registerOverrides sample_regs).

Lemma sample_layout : has_layout (fst <$> sample_regs) sample_state.
Proof. apply newStateOverride_spec. Qed.

Lemma sample_fit : ids_fit (fst <$> sample_regs).
Proof. apply ids_fit_short. by apply Nat.leb_le. Qed.

Lemma newStateOverride_registered_witness :
  familySize sample_state = 3 /\ familyAt sample_state 2 = Ret 11 /\
  override sample_state 1%positive 1 = Ret 11 /\ override sample_state 3%positive 0 = Undef NullDeref.
Proof.
  destruct (newStateOverride_registered sample_regs sample_fit) as (H1 & H2 & H3).
  split; [exact H1|]. split; [exact (H2 2%nat)|].
  split; [exact (H3 1%positive 1 ltac:(lia))|exact (H3 3%positive 0 ltac:(lia))].
Defined.

Lemma copy_exact_witness :
  copyOverride sample_state = Ret sample_state /\
  assignOverride false emptyOverride sample_state = Ret sample_state /\
  assignOverride true sample_state sample_state = Ret sample_state.
Proof. exact (copy_exact _ sample_state emptyOverride sample_layout sample_fit). Defined.

Lemma familyAtUpd_frame_witness :
  exists f s', familyAt sample_state 2 = Ret f /\ familyAtUpd sample_state 2 Z.succ = Ret s' /\
    has_layout (fst <$> sample_regs) s' /\ familyAt s' 2 = Ret (Z.succ f) /\
    forall m, m <> 2%nat -> familyAt s' (Z.of_nat m) = familyAt sample_state (Z.of_nat m).
Proof.
  apply (familyAtUpd_frame _ sample_state 2 Z.succ sample_layout sample_fit). by apply Nat.ltb_lt.
Defined.

(** Adds one to every family and lists the old values. *)
Definition bump (k : TypeKey) (id f : Z) (seen : list Z) : Z * list Z := (f + 1, seen ++ [f]).

Lemma forEachFamily_in_order_witness :
  exists s', forEachFamily bump sample_state [] = Ret (s', [10; 20; 11]) /\
    has_layout (fst <$> sample_regs) s' /\
    forall i f, [11; 21; 12] !! i = Some f -> familyAt s' (Z.of_nat i) = Ret f.
Proof.
  refine (forEachFamily_in_order bump _ sample_state [10; 20; 11] [] sample_layout sample_fit eq_refl _).
  intros [|[|[|i]]] f Hf; try discriminate Hf; injection Hf as <-; reflexivity.
Defined.
