(* ===== verification/ChainDesign.v ===== *)
(** * ChainDesign

    The application's description of its chain (src/src/blockchain/ChainDesign.h): the three
    registration hooks the backend calls once, at construction.  What they register is a
    list per registry, in the order of the calls. *)

From S2P Require Import Prelude Memory Transaction Registry.

Section ChainDesign.
Context {Tx F Ix M : Type} `{!MmapHandle M}.

(** The virtual interface; a hook sees the registry it fills and nothing of the backend. *)
Record ChainDesign := {
  cd_registerIndexes : BackendRegistry Ix -> BackendRegistry Ix;
  cd_registerOverrides : StateOverrideRegistry F -> StateOverrideRegistry F;
  cd_registerTransactionTypes : TransactionTypeRegistry M Tx -> TransactionTypeRegistry M Tx;
}.

(** A type registry after the registrations [tregs]. *)
Definition registerTypes (r : TransactionTypeRegistry M Tx) (tregs : list (Z * FactoryFunc M Tx)) : TransactionTypeRegistry M Tx :=
  foldl (fun r p => registerType r p.1 p.2) r tregs.

(** The hooks of [d] register the indexes [iregs], the override families [oregs] and the
    transaction types [tregs], in this order. *)
Record registers (d : ChainDesign) (iregs : list (TypeKey * Ix)) (oregs : list (TypeKey * F))
    (tregs : list (Z * FactoryFunc M Tx)) : Prop := {
  reg_indexes : cd_registerIndexes d emptyBackendRegistry = registerIndexes iregs;
  reg_overrides : cd_registerOverrides d emptyOverrideRegistry = registerOverrides oregs;
  reg_types : cd_registerTransactionTypes d emptyTypeRegistry = registerTypes emptyTypeRegistry tregs;
}.

(** The limits of the ids: 8 bits within a type, 16 bits for the position of an index. *)
Record design_fits (iregs : list (TypeKey * Ix)) (oregs : list (TypeKey * F)) : Prop := {
  fit_indexes : ids_fit (fst <$> iregs);
  fit_overrides : ids_fit (fst <$> oregs);
  fit_positions : Z.of_nat (length iregs) <= 65536;
}.

(** "One override-family registration per index instance for the registered indexes to be
    writable." *)
Definition writable (iregs : list (TypeKey * Ix)) (oregs : list (TypeKey * F)) : Prop := length oregs = length iregs.

(** The factory registered last for a type id. *)
Definition factory_of (tregs : list (Z * FactoryFunc M Tx)) (typeId : Z) : option (FactoryFunc M Tx) :=
  snd <$> last (filter (fun p => p.1 = typeId) tregs).

Lemma registerTypes_getFactory tregs typeId :
  getFactory (registerTypes emptyTypeRegistry tregs) typeId = factory_of tregs typeId.
Proof.
  induction tregs as [|[t f] tregs IH] using rev_ind; [by apply lookup_empty|].
  unfold registerTypes, factory_of in *. rewrite foldl_app, filter_app. cbn [foldl fst snd].
  unfold getFactory, registerType in *; cbn [factories]. rewrite filter_cons. cbn [fst].
  case_decide as Ht.
  - subst t. by rewrite lookup_insert_eq, filter_nil, last_snoc.
  - rewrite lookup_insert_ne, filter_nil, app_nil_r by done. exact IH.
Qed.
End ChainDesign.
Arguments ChainDesign : clear implicits.
