(* ===== verification/TestChainDesign.v ===== *)
(** * TestChainDesign

    The application the test suite runs on the library
    (src/src/testutil/TestChainDesign.h and .cpp): a sum index, its override family and
    the test transaction.  It shows that the contracts the library asks of an application
    can be met, and it is the concrete application of the witnesses of the other files. *)

From Stdlib Require Import SpecFloat.
From S2P Require Import Prelude Memory Transaction Registry StateOverride ChainDesign.

(** What the sum index of each id answers from disk: [latestSum], [latestCount]. *)
Definition TestWorld : Type := Z -> Z * Z.

(** [TestSumIndex]: the members of its base class, set by [attach]. *)
Record TestSumIndex := { attachedCatalog : bool; attachedIndexId : Z }.

Definition newTestSumIndex : TestSumIndex := {| attachedCatalog := false; attachedIndexId := 0 |}.

(** [encodingVersion]. *)
Definition encodingVersion (ix : TestSumIndex) : Z := 1.

Definition latestSum (w : TestWorld) (ix : TestSumIndex) : Z :=
  if attachedCatalog ix then fst (w (attachedIndexId ix)) else 0.

Definition latestCount (w : TestWorld) (ix : TestSumIndex) : Z :=
  if attachedCatalog ix then snd (w (attachedIndexId ix)) else 0.

(** [mergeSegments] ignores its inputs; a coordinate is the struct of BlockchainIndex.h. *)
Record segment_coordinate_t := { sc_fileId : Z; sc_offset : Z; sc_length : Z }.

Definition mergeSegments (ix : TestSumIndex) (inputs : list segment_coordinate_t) : list Z := [].

Record TestSumOverrideFamily := {
  sumDelta : Z;
  countDelta : Z;
  dirty : bool;
  fam_index : option TestSumIndex;
}.

Definition newTestSumOverrideFamily : TestSumOverrideFamily :=
  {| sumDelta := 0; countDelta := 0; dirty := false; fam_index := None |}.

Definition fam_attach (idx : TestSumIndex) (fam : TestSumOverrideFamily) : TestSumOverrideFamily :=
  {| sumDelta := sumDelta fam; countDelta := countDelta fam; dirty := dirty fam; fam_index := Some idx |}.

Definition fam_sum (w : TestWorld) (fam : TestSumOverrideFamily) : Z :=
  i32 (match fam_index fam with Some ix => latestSum w ix | None => 0 end + sumDelta fam).

Definition fam_count (w : TestWorld) (fam : TestSumOverrideFamily) : Z :=
  i32 (match fam_index fam with Some ix => latestCount w ix | None => 0 end + countDelta fam).

(** The bytes of an [int] ([memcpy], [write]). *)
Definition int_bytes (v : Z) : list Z := le_encode 4 (u32 v).
Definition int_of_bytes (bs : list Z) : Z := i32 (le_decode bs).

Definition fam_seal (w : TestWorld) (fam : TestSumOverrideFamily) : list Z :=
  if negb (dirty fam) then []
  else
    let absSum := i32 (match fam_index fam with Some ix => latestSum w ix | None => 0 end + sumDelta fam) in
    let absCount := i32 (match fam_index fam with Some ix => latestCount w ix | None => 0 end + countDelta fam) in
    int_bytes absSum ++ int_bytes absCount.

#[global] Instance TestSumOverrideFamily_impl : IndexOverrideFamily TestSumOverrideFamily TestWorld TestSumIndex := {|
  seal := fam_seal;
  attach := fam_attach;
|}.

(** ** The test transaction

    The fields are machine integers: [tt_ok] is the range of their types. *)
Definition int_range (v : Z) : bool := (-2147483648 <=? v) && (v <? 2147483648).
Definition tt_range (value timestamp id : Z) : bool :=
  int_range value && (0 <=? timestamp) && (timestamp <=? U64_MAX) && int_range id.

Record TestTransaction := {
  tt_value : Z;
  tt_timestamp : Z;
  tt_id : Z;
  tt_ok : tt_range tt_value tt_timestamp tt_id = true;
}.

Lemma tt_range_conv v t i : tt_range (i32 v) (u64 t) (i32 i) = true.
Proof.
  unfold tt_range, int_range. rewrite !andb_true_iff, !Z.leb_le, !Z.ltb_lt. word.
Qed.

(** The constructor, with the time it reads from the clock. *)
Definition mkTestTransaction (millis val id : Z) : TestTransaction :=
  {| tt_value := i32 val; tt_timestamp := u64 millis; tt_id := i32 id; tt_ok := tt_range_conv val millis id |}.

Lemma tt_eq (a b : TestTransaction) :
  tt_value a = tt_value b -> tt_timestamp a = tt_timestamp b -> tt_id a = tt_id b -> a = b.
Proof.
  destruct a as [v t i H], b as [v' t' i' H']; cbn. intros <- <- <-. f_equal.
  apply Eqdep_dec.UIP_dec. apply Bool.bool_dec.
Qed.

#[global] Instance tt_eq_dec : EqDecision TestTransaction.
Proof.
  intros a b. destruct (decide (tt_value a = tt_value b /\ tt_timestamp a = tt_timestamp b /\ tt_id a = tt_id b)).
  - left. apply tt_eq; tauto.
  - right. intros ->. tauto.
Defined.

Lemma tt_bounds (tx : TestTransaction) :
  -2147483648 <= tt_value tx < 2147483648 /\ in_u64 (tt_timestamp tx) /\ -2147483648 <= tt_id tx < 2147483648.
Proof.
  destruct tx as [v t i H]; cbn. unfold tt_range, int_range in H.
  rewrite !andb_true_iff, !Z.leb_le, !Z.ltb_lt in H. word.
Qed.

(** [typeKey<TestSumOverrideFamily>()] and [typeKey<TestSumIndex>()]. *)
Definition familyKey : TypeKey := 1%positive.
Definition indexKey : TypeKey := 2%positive.

Definition TestState : Type := StateOverride TestSumOverrideFamily.

Definition tt_verify (tx : TestTransaction) (w : TestWorld) (state : TestState) : bool := true.

Definition tt_bump (tx : TestTransaction) (fam : TestSumOverrideFamily) : TestSumOverrideFamily :=
  {| sumDelta := i32 (sumDelta fam + tt_value tx); countDelta := i32 (countDelta fam + 1);
     dirty := true; fam_index := fam_index fam |}.

(** A state without the family is outside the contract of the chain design. *)
Definition tt_apply (tx : TestTransaction) (w : TestWorld) (state : TestState) : bool * TestState :=
  match overrideUpd state familyKey 0 (tt_bump tx) with
  | Ret state => (true, state)
  | _ => (false, state)
  end.

(** Conversion of an [int] to [float], to nearest even. *)
Definition float_of_int (v : Z) : spec_float := binary_normalize 24 128 v 0 false.

Definition tt_computeValue (tx : TestTransaction) (w : TestWorld) (state : TestState) : spec_float :=
  match override state familyKey 0 with
  | Ret fam =>
      let curCount := fam_count w fam in
      if tt_id tx =? 2 then (if 0 <? curCount then float_of_int 20 else float_of_int 5)
      else if tt_id tx =? 1 then float_of_int 10
      else if tt_id tx =? 3 then (if curCount =? 0 then float_of_int 15 else float_of_int 1)
      else float_of_int (tt_value tx)
  | _ => S754_nan
  end.

Definition tt_getTypeId : Z := 1.

Section Mmap.
Context {M : Type} `{!MmapHandle M}.

Definition tt_write (tx : TestTransaction) (dst : M) : M :=
  let dst := mm_write dst (le_encode 1 tt_getTypeId) in
  let dst := mm_write dst (le_encode 8 (tt_timestamp tx)) in
  let dst := mm_write dst (int_bytes (tt_value tx)) in
  mm_write dst (int_bytes (tt_id tx)).

(** [src->read(field)]; a field the file is too short for stays uninitialized. *)
Definition src_field (n : nat) : prog M (list Z) :=
  bytes ← src_read n;
  if (length bytes =? n)%nat then mret bytes else undef Uninitialized.

(** [millis]: the clock read by the constructor; the field is overwritten afterwards. *)
Definition createFromMmap (millis : Z) : prog M (option TestTransaction) :=
  ts ← src_field 8;
  val ← src_field 4;
  id ← src_field 4;
  let tx := mkTestTransaction millis (int_of_bytes val) (int_of_bytes id) in
  mret (Some (mkTestTransaction (le_decode ts) (tt_value tx) (tt_id tx))).

#[global] Instance TestTransaction_impl : Transaction TestTransaction TestWorld TestState M := {|
  tx_verify := tt_verify;
  tx_apply := tt_apply;
  tx_computeValue := tt_computeValue;
  tx_write := tt_write;
  tx_size := fun _ => 1 + 8 + 4 + 4;
  tx_getTypeId := fun _ => tt_getTypeId;
  tx_getTimestamp := tt_timestamp;
|}.

(** ** The registration hooks of the chain design *)
Definition design_registerIndexes (registry : BackendRegistry TestSumIndex) : BackendRegistry TestSumIndex :=
  registerIndex registry indexKey newTestSumIndex.

Definition design_registerOverrides (registry : StateOverrideRegistry TestSumOverrideFamily) : StateOverrideRegistry TestSumOverrideFamily :=
  registerOverride registry familyKey newTestSumOverrideFamily.

Definition design_registerTransactionTypes (millis : Z) (registry : TransactionTypeRegistry M TestTransaction) :
    TransactionTypeRegistry M TestTransaction :=
  registerType registry 1 (createFromMmap millis).

(** The design object; [millis] is the clock when a factory makes its transaction, which the
    factory then overwrites. *)
Definition testDesign (millis : Z) : ChainDesign TestTransaction TestSumOverrideFamily TestSumIndex M := {|
  cd_registerIndexes := design_registerIndexes;
  cd_registerOverrides := design_registerOverrides;
  cd_registerTransactionTypes := design_registerTransactionTypes millis;
|}.

Lemma testDesign_registers millis :
  registers (testDesign millis) [(indexKey, newTestSumIndex)] [(familyKey, newTestSumOverrideFamily)] [(1, createFromMmap millis)].
Proof. done. Qed.
End Mmap.

(** ** The serialization contract *)

Definition tt_body (tx : TestTransaction) : list Z :=
  le_encode 8 (tt_timestamp tx) ++ int_bytes (tt_value tx) ++ int_bytes (tt_id tx).

Definition tt_enc (tx : TestTransaction) : list Z := tt_getTypeId :: tt_body tx.

Lemma length_int_bytes v : length (int_bytes v) = 4%nat.
Proof. apply length_le_encode. Qed.

Lemma length_tt_enc tx : length (tt_enc tx) = 17%nat.
Proof. unfold tt_enc, tt_body. cbn [length]. by rewrite !length_app, !length_int_bytes, length_le_encode. Qed.

Lemma length_enc_all_tt txs : length (enc_all tt_enc txs) = (17 * length txs)%nat.
Proof.
  unfold enc_all. induction txs as [|tx txs IH]; [done|]. cbn [map concat]. rewrite length_app, length_tt_enc, IH. cbn. lia.
Qed.

Lemma int_of_bytes_int v : -2147483648 <= v < 2147483648 -> int_of_bytes (int_bytes v) = v.
Proof.
  intros Hv. unfold int_of_bytes, int_bytes. rewrite le_decode_encode; [word|].
  change (256 ^ Z.of_nat 4) with 4294967296. word.
Qed.

Section Codec.
Context {M : Type} `{!MmapHandle M, !MmapLaws M}.

Lemma src_field_load n (m : M) bs : length bs = n ->
  0 <= mm_tell m -> mm_tell m + Z.of_nat n <= mm_size m -> mm_load m (mm_tell m) n = bs ->
  exists m', src_field n m = (Ret bs, m') /\ mm_advanced m n m'.
Proof.
  intros Hn H1 H2 Hl. destruct (mm_read_law m n H1 H2) as [Hr Ha].
  unfold src_field, src_read, mbind, prog_bind. destruct (mm_read m n) as [b m'] eqn:E. cbn [fst snd] in *.
  subst b. rewrite Hl, Hn, Nat.eqb_refl. by exists m'.
Qed.

#[global] Instance tt_encoding : TransactionEncoding (M:=M) tt_enc.
Proof.
  split.
  - intros tx. by exists (tt_body tx).
  - intros tx m H1 H2. rewrite length_tt_enc in H2. cbn [tx_write TestTransaction_impl]. unfold tt_write.
    change (tt_enc tx) with (le_encode 1 tt_getTypeId ++ le_encode 8 (tt_timestamp tx) ++
      int_bytes (tt_value tx) ++ int_bytes (tt_id tx)).
    assert (forall (m : M) bs, 0 <= mm_tell m -> mm_tell m + Z.of_nat (length bs) <= mm_size m ->
      mm_wrote m bs (mm_write m bs)) as Hw by (intros; by apply mm_write_law).
    pose proof (Hw m (le_encode 1 tt_getTypeId)) as W1. rewrite length_le_encode in W1.
    specialize (W1 ltac:(lia) ltac:(lia)). set (m1 := mm_write m _) in *.
    pose proof W1 as (S1 & T1 & _). rewrite length_le_encode in T1.
    pose proof (Hw m1 (le_encode 8 (tt_timestamp tx))) as W2. rewrite length_le_encode in W2.
    specialize (W2 ltac:(lia) ltac:(lia)). set (m2 := mm_write m1 _) in *.
    pose proof W2 as (S2 & T2 & _). rewrite length_le_encode in T2.
    pose proof (Hw m2 (int_bytes (tt_value tx))) as W3. rewrite length_int_bytes in W3.
    specialize (W3 ltac:(lia) ltac:(lia)). set (m3 := mm_write m2 _) in *.
    pose proof W3 as (S3 & T3 & _). rewrite length_int_bytes in T3.
    pose proof (Hw m3 (int_bytes (tt_id tx))) as W4. rewrite length_int_bytes in W4.
    specialize (W4 ltac:(lia) ltac:(lia)).
    by repeat (eapply mm_wrote_trans; [eassumption|]).
  - intros tx. by rewrite length_tt_enc.
Qed.

#[global] Instance tt_codec millis r :
  TransactionCodec (M:=M) tt_enc (design_registerTransactionTypes millis r).
Proof.
  split; [apply _|].
  - intros tx body [= <-]. exists (createFromMmap millis). split; [by apply lookup_insert_eq|].
    intros m H1 H2 Hl. unfold tt_body in *.
    rewrite !length_app, !length_int_bytes, length_le_encode in *. rewrite !mm_load_app in Hl.
    apply app_inj_1 in Hl as [L1 Hl]; [|by rewrite length_mm_load, length_le_encode].
    apply app_inj_1 in Hl as [L2 L3]; [|by rewrite length_mm_load, length_int_bytes].
    destruct (src_field_load 8 m _ (length_le_encode _ _) ltac:(lia) ltac:(lia) L1) as (m1 & R1 & A1).
    pose proof A1 as (S1 & T1 & _).
    rewrite <- T1, <- (mm_advanced_load m 8 m1) in L2 by done.
    destruct (src_field_load 4 m1 _ (length_int_bytes _) ltac:(lia) ltac:(lia) L2) as (m2 & R2 & A2).
    pose proof A2 as (S2 & T2 & _). pose proof (mm_advanced_trans _ _ _ _ _ A1 A2) as A12.
    replace (mm_tell m + Z.of_nat 8 + Z.of_nat 4) with (mm_tell m2) in L3 by lia.
    rewrite <- (mm_advanced_load m (8 + 4) m2) in L3 by done.
    destruct (src_field_load 4 m2 _ (length_int_bytes _) ltac:(lia) ltac:(lia) L3) as (m3 & R3 & A3).
    exists m3. unfold createFromMmap. rewrite (prog_bind_Ret _ _ _ _ _ R1), (prog_bind_Ret _ _ _ _ _ R2),
      (prog_bind_Ret _ _ _ _ _ R3). split; [|apply (mm_advanced_trans _ _ _ _ _ A12 A3)].
    destruct (tt_bounds tx) as (B1 & B2 & B3). unfold mret, prog_ret. do 3 f_equal.
    apply tt_eq; cbn [mkTestTransaction tt_value tt_timestamp tt_id]; rewrite ?int_of_bytes_int by done.
    + rewrite !i32_small; [done|lia|]. by rewrite i32_small.
    + rewrite le_decode_encode; [by apply u64_small|]. change (256 ^ Z.of_nat 8) with 18446744073709551616. word.
    + rewrite !i32_small; [done|lia|]. by rewrite i32_small.
Qed.
End Codec.

(** ** A block of test transactions *)

(** The override of the chain design, holding the family [fam]. *)
Definition one_family (fam : TestSumOverrideFamily) : TestState :=
  {| families := {[ familyKey := [fam] ]}; order := [{| sl_key := familyKey; sl_id := 0 |}] |}.

Definition design_overrides : StateOverrideRegistry TestSumOverrideFamily := design_registerOverrides emptyOverrideRegistry.

Lemma design_fresh : newStateOverride design_overrides = one_family newTestSumOverrideFamily.
Proof. reflexivity. Qed.

Lemma override_one fam : override (one_family fam) familyKey 0 = Ret fam.
Proof. unfold override, family_at, one_family; cbn [families]. by rewrite lookup_singleton_eq. Qed.

Lemma overrideUpd_one fam g : overrideUpd (one_family fam) familyKey 0 g = Ret (one_family (g fam)).
Proof.
  pose proof (override_one fam) as Ho. unfold overrideUpd. unfold override in Ho. rewrite Ho. cbn.
  unfold family_set, one_family; cbn [families order]. do 2 f_equal.
Qed.

Lemma tt_apply_one tx w fam : tt_apply tx w (one_family fam) = (true, one_family (tt_bump tx fam)).
Proof. unfold tt_apply. by rewrite overrideUpd_one. Qed.

Definition sum_values (txs : list TestTransaction) : Z := foldr Z.add 0 (tt_value <$> txs).

Section Block.
Context {M : Type} `{!MmapHandle M}.

Lemma apply_all_one (w : TestWorld) txs fam :
  foldl (applied (M:=M) w) (one_family fam) txs = one_family (foldl (fun f tx => tt_bump tx f) fam txs).
Proof.
  revert fam. induction txs as [|tx txs IH]; intros fam; [done|]. cbn [foldl].
  unfold applied at 2. cbn [tx_apply TestTransaction_impl]. rewrite tt_apply_one. apply IH.
Qed.
End Block.

Lemma bump_all_ix txs fam : fam_index (foldl (fun f tx => tt_bump tx f) fam txs) = fam_index fam.
Proof. revert fam. induction txs as [|tx txs IH]; intros fam; [done|]. cbn. by rewrite IH. Qed.

Lemma i32_add_l a b : i32 (i32 a + b) = i32 (a + b).
Proof. word. Qed.

Lemma bump_all_sums txs fam c :
  i32 (c + sumDelta (foldl (fun f tx => tt_bump tx f) fam txs)) = i32 (c + sumDelta fam + sum_values txs) /\
  i32 (c + countDelta (foldl (fun f tx => tt_bump tx f) fam txs)) = i32 (c + countDelta fam + Z.of_nat (length txs)).
Proof.
  revert fam. induction txs as [|tx txs IH]; intros fam; cbn [foldl sum_values fmap list_fmap foldr length].
  - by rewrite !Z.add_0_r.
  - destruct (IH (tt_bump tx fam)) as [-> ->]. unfold sum_values; cbn. split.
    + replace (c + i32 (sumDelta fam + tt_value tx) + foldr Z.add 0 (tt_value <$> txs))
        with (i32 (sumDelta fam + tt_value tx) + (c + foldr Z.add 0 (tt_value <$> txs))) by lia.
      rewrite i32_add_l. f_equal. lia.
    + replace (c + i32 (countDelta fam + 1) + Z.of_nat (length txs))
        with (i32 (countDelta fam + 1) + (c + Z.of_nat (length txs))) by lia.
      rewrite i32_add_l. f_equal. lia.
Qed.

Lemma bump_all_dirty txs fam : dirty fam = true \/ txs <> [] ->
  dirty (foldl (fun f tx => tt_bump tx f) fam txs) = true.
Proof.
  revert fam. induction txs as [|tx txs IH]; intros fam [Hd|Hne]; [done|done| |]; cbn; apply IH; by left.
Qed.

Lemma seal_all (w : TestWorld) ix txs : txs <> [] ->
  fam_seal w (foldl (fun f tx => tt_bump tx f) (fam_attach ix newTestSumOverrideFamily) txs) =
    int_bytes (i32 (latestSum w ix + sum_values txs)) ++ int_bytes (i32 (latestCount w ix + Z.of_nat (length txs))).
Proof.
  intros Hne. unfold fam_seal. rewrite bump_all_dirty by (by right). cbn [negb]. rewrite bump_all_ix; cbn [fam_attach fam_index].
  rewrite (proj1 (bump_all_sums txs _ _)), (proj2 (bump_all_sums txs _ _)); cbn [fam_attach newTestSumOverrideFamily sumDelta countDelta].
  by rewrite !Z.add_0_r.
Qed.

(** The segment the sum family seals after a block is the absolute new state: the
    committed sum plus the values of the block's transactions and the committed count plus
    their number, in two's complement; an override no transaction touched seals to
    nothing. *)
Theorem seal_block {M} `{!MmapHandle M} (w : TestWorld) (ix : TestSumIndex) (txs : list TestTransaction) :
  exists fam,
    override (foldl (applied (M:=M) w) (one_family (attach (W:=TestWorld) ix newTestSumOverrideFamily)) txs) familyKey 0 = Ret fam /\
    seal w fam = match txs with
      | [] => []
      | _ => int_bytes (i32 (latestSum w ix + sum_values txs)) ++
             int_bytes (i32 (latestCount w ix + Z.of_nat (length txs)))
      end.
Proof.
  rewrite apply_all_one. eexists. split; [apply override_one|].
  destruct txs as [|tx txs]; [done|]. by apply seal_all.
Qed.

(** ** Concrete runs *)

Definition sample_types : TransactionTypeRegistry bytemap TestTransaction := design_registerTransactionTypes 0 emptyTypeRegistry.
Definition blank (size : Z) : bytemap := {| bm_size := size; bm_tell := 0; bm_data := ∅ |}.
Definition sample_tx : TestTransaction := mkTestTransaction 1700000000000 (-5) 2.

Lemma registry_roundtrip_witness :
  exists m', read sample_types (mm_seek (tx_write sample_tx (blank 100)) 0) = (Ret (Some sample_tx), m') /\
    mm_tell m' = 17.
Proof.
  pose proof (registry_roundtrip (W:=TestWorld) (St:=TestState) tt_enc sample_types sample_tx (blank 100)) as H.
  apply H; by_compute.
Defined.

(** A factory as docs/transactions.md describes it, which reads the type id once more. *)
Definition documentedFactory : FactoryFunc bytemap TestTransaction := _ ← src_read 1; createFromMmap 0.

Example documented_factory_misreads :
  (read (registerType emptyTypeRegistry 1 documentedFactory) (mm_seek (tx_write sample_tx (blank 100)) 0)).1 <> Ret (Some sample_tx).
Proof. vm_compute. discriminate. Qed.

Lemma read_errors_witness :
  read sample_types (blank 0) = (Throw (out_of_range "Failed to read transaction type"), blank 0) /\
  exists m', read sample_types (blank 1) = (Ret None, m').
Proof.
  split.
  - exact (proj1 (read_errors sample_types (blank 0) (blank 0) [] eq_refl) eq_refl).
  - eexists. exact (proj2 (read_errors sample_types (blank 1) _ [0] eq_refl) 0 eq_refl eq_refl).
Defined.
