(* ===== verification/MEVBuilder.v ===== *)
(** * MEVBuilder

    Block building (src/src/blockchain/MEVBuilder.cpp): the greedy selection by
    [computeValue], the selection sort of the chosen indices and the ordered removal
    from the mempool.  [float] values are IEEE 754 binary32 values with the
    comparisons of the language ([SFltb], [SFleb]); comparisons with NaN are false. *)

From Stdlib Require Import SpecFloat.
From S2P Require Import Prelude Memory Transaction Registry StateOverride TestChainDesign.

(** [-1.0e30f], that is [-13234890 * 2^76]. *)
Definition initialBest : spec_float := S754_finite true 13234890 76.

(** ** The order of float comparisons *)

Lemma pos_compare_cont a b : Pos.compare_cont Eq a b = Pos.compare a b.
Proof. done. Qed.

Ltac float_cases :=
  repeat match goal with
  | s : bool |- _ => destruct s
  end; cbn in *; rewrite ?pos_compare_cont in *;
  repeat match goal with
  | H : context [Z.compare ?x ?y] |- _ => destruct (Z.compare_spec x y); cbn in H
  | H : context [Pos.compare ?x ?y] |- _ => destruct (Pos.compare_spec x y); cbn in H
  | |- context [Z.compare ?x ?y] => destruct (Z.compare_spec x y); cbn
  | |- context [Pos.compare ?x ?y] => destruct (Pos.compare_spec x y); cbn
  end; try done; try lia.

Lemma SFltb_trans a b c : SFltb a b = true -> SFltb b c = true -> SFltb a c = true.
Proof.
  unfold SFltb, SFcompare. destruct a as [s1|s1| |s1 m1 e1], b as [s2|s2| |s2 m2 e2], c as [s3|s3| |s3 m3 e3];
    intros; float_cases.
Qed.

Lemma SFltb_zero_trans v x :
  SFltb v (S754_zero false) = true -> SFleb (S754_zero false) x = true -> SFltb v x = true.
Proof.
  unfold SFltb, SFleb, SFcompare. destruct v as [s1|s1| |s1 m1 e1], x as [s2|s2| |s2 m2 e2]; intros; float_cases.
Qed.

Lemma SFltb_not_zero v b : SFltb b v = true -> SFleb (S754_zero false) v = false -> SFltb v (S754_zero false) = true.
Proof.
  unfold SFltb, SFleb, SFcompare. destruct v as [s1|s1| |s1 m1 e1], b as [s2|s2| |s2 m2 e2]; intros; float_cases.
Qed.

Lemma SFltb_leb_trans a b c : SFltb a b = true -> SFleb b c = true -> SFltb a c = true.
Proof.
  unfold SFltb, SFleb, SFcompare. destruct a as [s1|s1| |s1 m1 e1], b as [s2|s2| |s2 m2 e2], c as [s3|s3| |s3 m3 e3];
    intros; float_cases.
Qed.

(** ** Selection sort, descending

    Indices are non-negative [int]s below the mempool's size; the model uses [nat]. *)

Definition get (l : list nat) (i : nat) : nat := default 0%nat (l !! i).

(** [for (int j = ...; j < n; ++j) if (get(j) > get(maxPos)) maxPos = j;] *)
Fixpoint maxPos_loop (l : list nat) (j count maxPos : nat) : nat :=
  match count with
  | O => maxPos
  | S count => maxPos_loop l (S j) count (if (get l maxPos <? get l j)%nat then j else maxPos)
  end.

Definition swap (l : list nat) (i maxPos : nat) : list nat :=
  let tmp := get l i in
  <[maxPos := tmp]> (<[i := get l maxPos]> l).

Fixpoint sort_loop (l : list nat) (i count : nat) : list nat :=
  match count with
  | O => l
  | S count =>
      let maxPos := maxPos_loop l (S i) (length l - S i) i in
      sort_loop (if decide (maxPos <> i) then swap l i maxPos else l) (S i) count
  end.

(** [for (int i = 0; i < n - 1; ++i) ...] *)
Definition sortDescending (l : list nat) : list nat := sort_loop l 0 (length l - 1).

Lemma maxPos_loop_spec l i j count p :
  (i <= p < j)%nat -> (forall q, (i <= q < j)%nat -> (get l q <= get l p)%nat) ->
  (i <= maxPos_loop l j count p < j + count)%nat /\
  forall q, (i <= q < j + count)%nat -> (get l q <= get l (maxPos_loop l j count p))%nat.
Proof.
  revert j p. induction count as [|count IH]; intros j p Hp Hq; cbn.
  - rewrite Nat.add_0_r. split; [lia|done].
  - set (p' := if (get l p <? get l j)%nat then j else p).
    assert (i <= p' < S j /\ forall q, i <= q < S j -> get l q <= get l p')%nat as [Hp' Hq'].
    { unfold p'. destruct (Nat.ltb_spec (get l p) (get l j)); (split; [lia|]);
        intros q Hq'; destruct (decide (q = j)) as [->|]; try lia; specialize (Hq q); lia. }
    destruct (IH (S j) p' Hp' Hq') as [H1 H2].
    replace (j + S count)%nat with (S j + count)%nat by lia. by split.
Qed.

Lemma get_insert l k v q : (k < length l)%nat -> get (<[k := v]> l) q = if decide (k = q) then v else get l q.
Proof.
  intros Hk. unfold get. case_decide as Hq.
  - subst. by rewrite list_lookup_insert_eq.
  - by rewrite list_lookup_insert_ne.
Qed.

Lemma length_swap l i m : length (swap l i m) = length l.
Proof. unfold swap. by rewrite !length_insert. Qed.

Lemma get_swap l i m q : (i < length l)%nat -> (m < length l)%nat ->
  get (swap l i m) q = if decide (m = q) then get l i else if decide (i = q) then get l m else get l q.
Proof.
  intros Hi Hm. unfold swap. rewrite get_insert by (by rewrite length_insert). by rewrite get_insert.
Qed.

Lemma get_lookup l i : (i < length l)%nat -> l !! i = Some (get l i).
Proof. intros Hi. unfold get. by destruct (lookup_lt_is_Some_2 l i Hi) as [x ->]. Qed.

Lemma swap_perm l i m : (i < length l)%nat -> (m < length l)%nat -> swap l i m ≡ₚ l.
Proof.
  intros Hi Hm. symmetry. apply Permutation_inj. split; [by rewrite length_swap|].
  exists (fun q => if decide (q = i) then m else if decide (q = m) then i else q). split.
  - intros a b. repeat case_decide; lia.
  - intros q. destruct (decide (q < length l)%nat) as [Hq|Hq].
    + rewrite !get_lookup; rewrite ?length_swap; [|repeat case_decide; lia|lia].
      rewrite get_swap by done. f_equal. repeat case_decide; subst; congruence || lia.
    + rewrite !lookup_ge_None_2; rewrite ?length_swap; try done; repeat case_decide; lia.
Qed.

(** Before round [i]: the first [i] elements are in place. *)
Definition placed (l : list nat) (i : nat) : Prop :=
  forall p q, (p < q < length l)%nat -> (p < i)%nat -> (get l q <= get l p)%nat.

Lemma sort_loop_spec l i count : placed l i -> (i + count <= length l)%nat ->
  sort_loop l i count ≡ₚ l /\ placed (sort_loop l i count) (i + count).
Proof.
  revert l i. induction count as [|count IH]; intros l i Hpl Hlen; cbn; [by rewrite Nat.add_0_r|].
  destruct (maxPos_loop_spec l i (S i) (length l - S i) i) as [Hr Hmax]; [lia| |].
  { intros q Hq. by replace q with i by lia. }
  set (m := maxPos_loop l (S i) (length l - S i) i) in *.
  replace (S i + (length l - S i))%nat with (length l) in * by lia.
  assert (exists l', l' = (if decide (m <> i) then swap l i m else l) /\ l' ≡ₚ l /\ placed l' (S i)) as (l' & <- & Hp & Hpl').
  { eexists. split; [done|]. split; [case_decide; [apply swap_perm; lia|done]|].
    intros p q Hpq Hpi. assert (length (if decide (m <> i) then swap l i m else l) = length l) as Hl
      by (case_decide; [apply length_swap|done]). rewrite Hl in Hpq.
    pose proof (Hpl p) as Hpp.
    case_decide as Hmi; [rewrite !get_swap by lia|].
    - destruct (decide (p = i)) as [->|Hne].
      + rewrite (decide_False (P:=m = i)), (decide_True (P:=i = i)) by done.
        repeat case_decide; subst; apply Hmax; lia.
      + rewrite (decide_False (P:=m = p)), (decide_False (P:=i = p)) by lia.
        repeat case_decide; subst; apply Hpp; lia.
    - destruct (decide (p = i)) as [->|Hne].
      + rewrite Hmi in Hmax. apply Hmax; lia.
      + apply Hpp; lia. }
  destruct (IH l' (S i) Hpl') as [H1 H2]; [rewrite Hp; lia|].
  split; [by rewrite H1|]. by rewrite <- Nat.add_succ_comm.
Qed.

Lemma sortDescending_spec l :
  sortDescending l ≡ₚ l /\ StronglySorted (fun a b => (b <= a)%nat) (sortDescending l).
Proof.
  unfold sortDescending. destruct (sort_loop_spec l 0 (length l - 1)) as [Hp Hpl]; [|lia|].
  { intros p q _ ?. lia. }
  split; [done|]. assert (length (sort_loop l 0 (length l - 1)) = length l) as Hlen by (by rewrite Hp).
  set (r := sort_loop l 0 (length l - 1)) in *. clearbody r.
  assert (forall p q, (p < q < length r)%nat -> (get r q <= get r p)%nat) as Hs.
  { intros p q Hpq. apply Hpl; lia. }
  clear -Hs. induction r as [|x r IH]; constructor.
  - apply IH. intros p q Hpq. apply (Hs (S p) (S q)). cbn. lia.
  - apply Forall_forall. intros y Hy. apply list_elem_of_lookup in Hy as [q Hq].
    assert (get (x :: r) (S q) = y) as <- by (unfold get; change ((x :: r) !! S q) with (r !! q); by rewrite Hq).
    apply lookup_lt_Some in Hq. apply (Hs 0%nat (S q)). cbn. lia.
Qed.

(** ** Ordered removal *)
Section Removal.
Context {A : Type}.

(** [for (int i = idx; i < size - 1; ++i) set(i, std::move(get(i + 1)));] *)
Fixpoint shift_loop (l : list A) (i count : nat) : list A :=
  match count with
  | O => l
  | S count => shift_loop (match l !! S i with Some x => <[i := x]> l | None => l end) (S i) count
  end.

Definition pop (l : list A) : list A := take (length l - 1) l.

Definition orderedRemove (l : list A) (idx : nat) : list A :=
  pop (shift_loop l idx (length l - 1 - idx)).

Definition removeSelected (mempool : list A) (indices : list nat) : list A :=
  foldl orderedRemove mempool indices.

Lemma shift_loop_spec l i count : (i + count < length l)%nat ->
  length (shift_loop l i count) = length l /\
  forall q, shift_loop l i count !! q = if decide (i <= q < i + count)%nat then l !! S q else l !! q.
Proof.
  revert l i. induction count as [|count IH]; intros l i Hlen; cbn.
  - split; [done|]. intros q. by rewrite decide_False by lia.
  - destruct (lookup_lt_is_Some_2 l (S i)) as [x Hx]; [lia|]. rewrite Hx.
    destruct (IH (<[i := x]> l) (S i)) as [H1 H2]; [rewrite length_insert; lia|].
    rewrite length_insert in H1. split; [done|]. intros q. rewrite H2.
    destruct (decide (q = i)) as [->|Hq].
    + case_decide; [lia|]. case_decide; [|lia]. rewrite list_lookup_insert_eq; [done|lia].
    + repeat case_decide; try lia; by rewrite list_lookup_insert_ne by lia.
Qed.

Lemma orderedRemove_delete l idx : (idx < length l)%nat -> orderedRemove l idx = delete idx l.
Proof.
  intros Hi. destruct (shift_loop_spec l idx (length l - 1 - idx)) as [Hlen Hq]; [lia|].
  unfold orderedRemove, pop. rewrite Hlen. apply list_eq. intros q.
  destruct (decide (q < length l - 1)%nat) as [Hlt|Hge].
  - rewrite lookup_take_lt, Hq by done. case_decide.
    + by rewrite list_lookup_delete_ge by lia.
    + by rewrite list_lookup_delete_lt by lia.
  - rewrite lookup_take_ge by lia. symmetry. apply lookup_ge_None. rewrite length_delete; [lia|].
    by apply lookup_lt_is_Some_2.
Qed.

(** The elements whose position is not among [idxs], in order. *)
Fixpoint keep_from (n : nat) (idxs : list nat) (l : list A) : list A :=
  match l with
  | [] => []
  | x :: r => if decide (n ∈ idxs) then keep_from (S n) idxs r else x :: keep_from (S n) idxs r
  end.
Definition keep (idxs : list nat) (l : list A) : list A := keep_from 0 idxs l.

Lemma keep_from_app n idxs l1 l2 :
  keep_from n idxs (l1 ++ l2) = keep_from n idxs l1 ++ keep_from (n + length l1) idxs l2.
Proof.
  revert n. induction l1 as [|x l1 IH]; intros n; cbn; [by rewrite Nat.add_0_r|].
  rewrite IH, Nat.add_succ_r. by case_decide.
Qed.

Lemma keep_from_ext n idxs idxs' l :
  (forall i, (n <= i < n + length l)%nat -> i ∈ idxs <-> i ∈ idxs') -> keep_from n idxs l = keep_from n idxs' l.
Proof.
  revert n. induction l as [|x l IH]; intros n H1; cbn; [done|]. cbn in H1.
  rewrite (IH (S n)) by (intros; apply H1; lia). pose proof (H1 n ltac:(lia)).
  repeat case_decide; tauto.
Qed.

Lemma keep_from_all n idxs l : (forall i, (n <= i)%nat -> i ∉ idxs) -> keep_from n idxs l = l.
Proof.
  revert n. induction l as [|x l IH]; intros n H1; cbn; [done|].
  rewrite decide_False by (apply H1; lia). f_equal. apply IH. intros. apply H1. lia.
Qed.

Lemma removeSelected_keep idxs l :
  StronglySorted (fun a b => (b < a)%nat) idxs -> Forall (fun i => (i < length l)%nat) idxs ->
  removeSelected l idxs = keep idxs l.
Proof.
  intros Hs. revert l. induction Hs as [|i idxs Hs IH Hi]; intros l Hlt.
  - cbn. symmetry. apply keep_from_all. intros. apply not_elem_of_nil.
  - apply Forall_cons in Hlt as [Hil Hlt]. cbn. rewrite orderedRemove_delete by done.
    rewrite Forall_forall in Hi.
    rewrite IH.
    + unfold keep. destruct (lookup_lt_is_Some_2 _ _ Hil) as [x Hx].
      apply list_elem_of_split_length in Hx as (l1 & l2 & -> & ->).
      rewrite delete_middle, !keep_from_app. cbn [keep_from Nat.add].
      rewrite decide_True by left. f_equal.
      * apply keep_from_ext. intros j Hj. rewrite elem_of_cons. intuition lia.
      * rewrite !keep_from_all; [done| |].
        -- intros j Hj. rewrite elem_of_cons. intros [->|Hin]; [lia|]. apply Hi in Hin. lia.
        -- intros j Hj Hin. apply Hi in Hin. lia.
    + rewrite length_delete by (by apply lookup_lt_is_Some_2).
      apply Forall_forall. intros j Hj. specialize (Hi j Hj). cbn in Hi. lia.
Qed.

Lemma keep_cons_perm i idxs l x : l !! i = Some x -> i ∉ idxs -> keep idxs l ≡ₚ x :: keep (i :: idxs) l.
Proof.
  intros (l1 & l2 & -> & ->)%list_elem_of_split_length Hi. unfold keep.
  rewrite !keep_from_app. cbn [keep_from Nat.add].
  rewrite decide_False by done. rewrite decide_True by left.
  rewrite <- Permutation_middle. constructor. apply reflexive_eq. f_equal; apply keep_from_ext;
    intros j Hj; rewrite elem_of_cons; intuition lia.
Qed.

(** The picked elements together with the kept ones are the whole pool. *)
Lemma keep_perm l idxs sel : NoDup idxs -> Forall2 (fun i x => l !! i = Some x) idxs sel ->
  l ≡ₚ sel ++ keep idxs l.
Proof.
  intros Hnd Hs. induction Hs as [|i x idxs sel Hx Hs IH].
  - cbn. apply reflexive_eq. symmetry. apply keep_from_all. intros. apply not_elem_of_nil.
  - apply NoDup_cons in Hnd as [Hi Hnd]. rewrite (IH Hnd) at 1. cbn.
    rewrite (keep_cons_perm i idxs l x) by done. by rewrite Permutation_middle.
Qed.

Lemma keep_from_sublist n idxs l : keep_from n idxs l `sublist_of` l.
Proof.
  revert n. induction l as [|x l IH]; intros n; cbn; [constructor|].
  case_decide; [by apply sublist_cons|by apply sublist_skip].
Qed.
End Removal.

(** Sorting the indices first makes the one-by-one removal drop exactly the selected
    positions. *)
Lemma removeSelected_sorted {A} (l : list A) idxs :
  NoDup idxs -> Forall (fun i => (i < length l)%nat) idxs ->
  removeSelected l (sortDescending idxs) = keep idxs l.
Proof.
  intros Hnd Hlt. destruct (sortDescending_spec idxs) as [Hp Hs].
  rewrite removeSelected_keep.
  - apply keep_from_ext. intros i _. by rewrite Hp.
  - assert (NoDup (sortDescending idxs)) as Hnd' by (by rewrite Hp). clear -Hs Hnd'.
    induction Hs as [|x r Hs IH Hx]; [constructor|]. apply NoDup_cons in Hnd' as [Hxr Hnd'].
    constructor; [by apply IH|]. rewrite Forall_forall in Hx |- *. intros y Hy.
    specialize (Hx y Hy). assert (x <> y) by congruence. lia.
  - by rewrite Hp.
Qed.

(** ** [buildBlock] *)
Section Build.
Context {Tx W St M : Type} `{!Transaction Tx W St M}.

(** The scan of one round: [best] is [bestValue], [bestTx] the best transaction with its
    index ([bestTx] and [bestIdx] are set together). *)
Fixpoint pick_loop (w : W) (sim : St) (indicesToRemove : list nat) (i : nat) (todo : list Tx)
    (best : spec_float) (bestTx : option (Tx * nat)) : spec_float * option (Tx * nat) :=
  match todo with
  | [] => (best, bestTx)
  | tx :: todo =>
      let alreadySelected := existsb (fun idx => (idx =? i)%nat) indicesToRemove in
      if alreadySelected then pick_loop w sim indicesToRemove (S i) todo best bestTx
      else
        let val := tx_computeValue tx w sim in
        if SFltb best val then pick_loop w sim indicesToRemove (S i) todo val (Some (tx, i))
        else pick_loop w sim indicesToRemove (S i) todo best bestTx
  end.

(** [now n] is the [n]-th reading of the clock during the call. *)
Fixpoint greedy_loop (fuel : nat) (now : nat -> Z) (w : W) (mempool : list Tx) (maxTransactions deadline : Z)
    (sim : St) (selected : list Tx) (indicesToRemove : list nat) : outcome (St * list Tx * list nat) :=
  match fuel with
  | O => NoFuel
  | S fuel =>
      if (Z.of_nat (length selected) <? maxTransactions) && (length indicesToRemove <? length mempool)%nat then
        match pick_loop w sim indicesToRemove 0 mempool initialBest None with
        | (bestValue, Some (bestTx, bestIdx)) =>
            if SFleb (S754_zero false) bestValue then
              let sim := applied w sim bestTx in
              let selected := selected ++ [bestTx] in
              let indicesToRemove := indicesToRemove ++ [bestIdx] in
              if negb (deadline =? 0) && (deadline <=? now (length selected)) then
                Ret (sim, selected, indicesToRemove)
              else greedy_loop fuel now w mempool maxTransactions deadline sim selected indicesToRemove
            else Ret (sim, selected, indicesToRemove)
        | (_, None) => Ret (sim, selected, indicesToRemove)
        end
      else Ret (sim, selected, indicesToRemove)
  end.

(** Returns the selected transactions and the mempool as it is left.  [fresh] is
    [backend.newStateOverride()]. *)
Definition buildBlock (fuel : nat) (now : nat -> Z) (w : W) (fresh : St) (mempool : list Tx)
    (maxTransactions deadline : Z) : outcome (list Tx * list Tx) :=
  match mempool with
  | [] => Ret ([], mempool)
  | _ =>
      r ← greedy_loop fuel now w mempool maxTransactions deadline fresh [] [];
      let '(sim, selected, indicesToRemove) := r in
      (* while (deadline != 0 && now < deadline) break; *)
      mret (selected, removeSelected mempool (sortDescending indicesToRemove))
  end.

(** *** What greedy means *)

Definition value (w : W) (st : St) (tx : Tx) : spec_float := tx_computeValue tx w st.

(** [tx], at position [i], is the first of the best unpicked transactions in [st], and worth
    at least zero. *)
Definition greedy_pick (w : W) (st : St) (pool : list Tx) (picked : list nat) (i : nat) (tx : Tx) : Prop :=
  pool !! i = Some tx /\ (i ∉ picked) /\ SFleb (S754_zero false) (value w st tx) = true /\
  (forall j txj, pool !! j = Some txj -> j ∉ picked -> SFltb (value w st tx) (value w st txj) = false) /\
  (forall j txj, (j < i)%nat -> pool !! j = Some txj -> j ∉ picked -> SFleb (value w st tx) (value w st txj) = false).

Inductive greedy_run (w : W) (st0 : St) (pool : list Tx) : list nat -> list Tx -> Prop :=
| greedy_nil : greedy_run w st0 pool [] []
| greedy_snoc idxs sel i tx :
    greedy_run w st0 pool idxs sel ->
    greedy_pick w (foldl (applied w) st0 sel) pool idxs i tx ->
    greedy_run w st0 pool (idxs ++ [i]) (sel ++ [tx]).

Lemma greedy_run_facts w st0 pool idxs sel : greedy_run w st0 pool idxs sel ->
  NoDup idxs /\ Forall2 (fun i x => pool !! i = Some x) idxs sel.
Proof.
  induction 1 as [|idxs sel i tx Hr [IH1 IH2] (Hi & Hni & _)]; [split; constructor|]. split.
  - apply NoDup_app. split; [done|]. split; [|apply NoDup_singleton].
    intros j Hj Hj'. apply list_elem_of_singleton in Hj'. by subst.
  - apply Forall2_app; [done|]. by repeat constructor.
Qed.

Lemma existsb_elem_of i l : existsb (fun idx => (idx =? i)%nat) l = true <-> i ∈ l.
Proof.
  rewrite existsb_exists. split.
  - intros (x & Hx & ->%Nat.eqb_eq). by apply list_elem_of_In.
  - intros Hi. exists i. rewrite Nat.eqb_refl. split; [by apply list_elem_of_In|done].
Qed.

(** What the scan knows after the first [i] transactions. *)
Definition pick_inv (w : W) (sim : St) (pool : list Tx) (removed : list nat) (i : nat)
    (best : spec_float) (bestTx : option (Tx * nat)) : Prop :=
  (forall j txj, (j < i)%nat -> pool !! j = Some txj -> j ∉ removed -> SFltb best (value w sim txj) = false) /\
  match bestTx with
  | None => best = initialBest
  | Some (tx, b) =>
      pool !! b = Some tx /\ (b ∉ removed) /\ best = value w sim tx /\ SFltb initialBest best = true /\
      (forall j txj, (j < b)%nat -> pool !! j = Some txj -> j ∉ removed -> SFleb best (value w sim txj) = false)
  end.

Lemma pick_loop_inv w sim pool removed i best bestTx :
  pick_inv w sim pool removed i best bestTx ->
  let r := pick_loop w sim removed i (drop i pool) best bestTx in
  pick_inv w sim pool removed (length pool) r.1 r.2.
Proof.
  intros Hinv. remember (drop i pool) as todo eqn:Htodo.
  revert i best bestTx Htodo Hinv. induction todo as [|tx todo IH]; intros i best bestTx Htodo [Hall Hbest].
  - cbn. split; [|done]. intros j txj Hj Hp Hr. apply (Hall j); try done.
    assert (length (drop i pool) = 0%nat) as Hl by (by rewrite <- Htodo). rewrite length_drop in Hl. lia.
  - assert (pool !! i = Some tx) as Hi.
    { rewrite <- (Nat.add_0_r i), <- lookup_drop, <- Htodo. done. }
    assert (todo = drop (S i) pool) as Htodo'.
    { rewrite (drop_S _ _ _ Hi) in Htodo. by injection Htodo. }
    assert (forall P : nat -> Tx -> Prop, (forall j txj, (j < i)%nat -> pool !! j = Some txj -> j ∉ removed -> P j txj) ->
      (i ∉ removed -> P i tx) ->
      forall j txj, (j < S i)%nat -> pool !! j = Some txj -> j ∉ removed -> P j txj) as Hstep.
    { intros P H1 H2 j txj Hj Hp Hr. destruct (decide (j = i)) as [->|]; [|apply H1; try done; lia].
      rewrite Hi in Hp. injection Hp as <-. by apply H2. }
    cbn [pick_loop]. destruct (existsb _ removed) eqn:He.
    + apply existsb_elem_of in He. apply IH; [done|]. split; [|done]. by apply Hstep.
    + assert (i ∉ removed) as Hni by (intros Hc%existsb_elem_of; congruence).
      fold (value w sim tx). destruct (SFltb best (value w sim tx)) eqn:Hlt; (apply IH; [done|]); split.
      * apply Hstep; intros.
        -- destruct (SFltb (value w sim tx) (value w sim txj)) eqn:Hc; [|done].
           rewrite <- (Hall j txj) by done. symmetry. by apply (SFltb_trans _ (value w sim tx)).
        -- destruct (SFltb (value w sim tx) (value w sim tx)) eqn:Hc; [|done]. exfalso.
           revert Hc. unfold SFltb, SFcompare. destruct (value w sim tx) as [s1|s1| |s1 m1 e1]; float_cases.
      * split; [done|]. split; [done|]. split; [done|]. split.
        -- destruct bestTx as [[tx' b]|]; [|by subst].
           destruct Hbest as (_ & _ & _ & Hb & _). by apply (SFltb_trans _ best).
        -- intros j txj Hj Hp Hr. destruct (SFleb (value w sim tx) (value w sim txj)) eqn:Hc; [|done].
           rewrite <- (Hall j txj) by done. symmetry. by apply (SFltb_leb_trans _ (value w sim tx)).
      * by apply Hstep.
      * done.
Qed.

(** One round either makes a greedy pick or finds nothing worth picking. *)
Lemma pick_loop_spec w sim pool removed :
  match pick_loop w sim removed 0 pool initialBest None with
  | (best, Some (tx, i)) =>
      if SFleb (S754_zero false) best then greedy_pick w sim pool removed i tx
      else forall j txj, pool !! j = Some txj -> j ∉ removed -> SFleb (S754_zero false) (value w sim txj) = false
  | (best, None) =>
      forall j txj, pool !! j = Some txj -> j ∉ removed -> SFleb (S754_zero false) (value w sim txj) = false
  end.
Proof.
  pose proof (pick_loop_inv w sim pool removed 0 initialBest None) as H. cbn zeta in H. rewrite drop_0 in H.
  destruct H as [Hall Hbest]; [split; [lia|done]|].
  destruct (pick_loop w sim removed 0 pool initialBest None) as [best [[tx i]|]]; cbn in *.
  - destruct Hbest as (Hi & Hni & Hv & Hinit & Hfirst). destruct (SFleb (S754_zero false) best) eqn:H0.
    + subst best. split; [done|]. split; [done|]. split; [done|]. split; [|done].
      intros j txj Hj. apply Hall; [by apply lookup_lt_Some in Hj|done].
    + intros j txj Hj Hnj. destruct (SFleb (S754_zero false) (value w sim txj)) eqn:Hc; [|done].
      rewrite <- (Hall j txj) by (done || by apply lookup_lt_Some in Hj). symmetry.
      apply SFltb_zero_trans; [|done]. by apply (SFltb_not_zero _ initialBest).
  - subst best. intros j txj Hj Hnj. destruct (SFleb (S754_zero false) (value w sim txj)) eqn:Hc; [|done].
    rewrite <- (Hall j txj) by (done || by apply lookup_lt_Some in Hj). symmetry. by apply SFltb_zero_trans.
Qed.

(** A list of [n] distinct positions below [n] contains every position. *)
Lemma all_positions (n : nat) (idxs : list nat) j :
  NoDup idxs -> Forall (fun i => (i < n)%nat) idxs -> (n <= length idxs)%nat -> (j < n)%nat -> j ∈ idxs.
Proof.
  intros Hnd Hlt Hlen Hj. apply list_elem_of_In.
  assert (incl (seq 0 n) idxs) as Hincl; [|by apply Hincl, in_seq; lia].
  apply NoDup_length_incl.
  - by apply NoDup_ListNoDup.
  - by rewrite length_seq.
  - intros i Hi. apply list_elem_of_In in Hi. rewrite Forall_forall in Hlt. apply in_seq.
    specialize (Hlt i Hi). lia.
Qed.

Lemma greedy_run_bounds w st0 pool idxs sel : greedy_run w st0 pool idxs sel ->
  Forall (fun i => (i < length pool)%nat) idxs /\ length idxs = length sel.
Proof.
  intros Hr. apply greedy_run_facts in Hr as [_ H2]. split; [|by eapply Forall2_length].
  induction H2; constructor; [by eapply lookup_lt_Some|done].
Qed.

(** Why a greedy pass may end: the block is full, nothing that is left is worth at least zero,
    or the deadline had passed after the last pick. *)
Definition greedy_end (now : nat -> Z) (w : W) (st0 : St) (pool : list Tx) (maxTransactions deadline : Z) (idxs : list nat) (sel : list Tx) : Prop :=
  Z.of_nat (length sel) = maxTransactions \/
  (forall j tx, pool !! j = Some tx -> j ∉ idxs -> SFleb (S754_zero false) (value w (foldl (applied w) st0 sel) tx) = false) \/
  (sel <> [] /\ deadline <> 0 /\ deadline <= now (length sel)).

(** The deadline had not passed after the [k]-th pick. *)
Definition in_time (now : nat -> Z) (deadline : Z) (k : nat) : Prop := deadline = 0 \/ now k < deadline.

Lemma greedy_loop_spec fuel now w pool maxTransactions deadline st0 sel idxs :
  greedy_run w st0 pool idxs sel -> Z.of_nat (length sel) <= maxTransactions ->
  (forall k, (0 < k <= length sel)%nat -> in_time now deadline k) ->
  (length pool - length idxs < fuel)%nat ->
  exists sel' idxs',
    greedy_loop fuel now w pool maxTransactions deadline (foldl (applied w) st0 sel) sel idxs =
      Ret (foldl (applied w) st0 sel', sel', idxs') /\
    greedy_run w st0 pool idxs' sel' /\ Z.of_nat (length sel') <= maxTransactions /\
    (forall k, (0 < k < length sel')%nat -> in_time now deadline k) /\
    greedy_end now w st0 pool maxTransactions deadline idxs' sel'.
Proof.
  revert sel idxs. induction fuel as [|fuel IH]; intros sel idxs Hr Hmax Htime Hf; [lia|].
  destruct (greedy_run_bounds _ _ _ _ _ Hr) as [Hb Hlen]. cbn [greedy_loop].
  assert (greedy_end now w st0 pool maxTransactions deadline idxs sel -> exists sel' idxs',
    Ret (foldl (applied w) st0 sel, sel, idxs) = Ret (foldl (applied w) st0 sel', sel', idxs') /\
    greedy_run w st0 pool idxs' sel' /\ Z.of_nat (length sel') <= maxTransactions /\
    (forall k, (0 < k < length sel')%nat -> in_time now deadline k) /\
    greedy_end now w st0 pool maxTransactions deadline idxs' sel') as Hend.
  { intros He. exists sel, idxs. split; [done|]. split; [done|]. split; [done|]. split; [|done]. intros k Hk. apply Htime. lia. }
  destruct (Z.ltb_spec (Z.of_nat (length sel)) maxTransactions) as [Hlt|Hge]; cbn [andb]; [|apply Hend; left; lia].
  destruct (Nat.ltb_spec (length idxs) (length pool)) as [Hlt2|Hge2].
  2:{ apply Hend. right; left. intros j txj Hj Hnj. destruct Hnj. apply (all_positions (length pool)); try done.
      - by apply greedy_run_facts in Hr as [? _].
      - by apply lookup_lt_Some in Hj. }
  pose proof (pick_loop_spec w (foldl (applied w) st0 sel) pool idxs) as Hpick.
  destruct (pick_loop w (foldl (applied w) st0 sel) idxs 0 pool initialBest None) as [best [[tx i]|]]; [|apply Hend; right; by left].
  destruct (SFleb (S754_zero false) best); [|apply Hend; right; by left].
  assert (greedy_run w st0 pool (idxs ++ [i]) (sel ++ [tx])) as Hr' by (by constructor).
  rewrite <- (foldl_snoc (applied w)). destruct (negb (deadline =? 0) && (deadline <=? now (length (sel ++ [tx])))) eqn:Hd.
  - apply andb_true_iff in Hd as [Hd1%negb_true_iff%Z.eqb_neq Hd2%Z.leb_le].
    exists (sel ++ [tx]), (idxs ++ [i]). split; [done|]. split; [done|]. split; [rewrite length_app; cbn; lia|]. split.
    + intros k Hk. rewrite length_app in Hk. cbn in Hk. apply Htime. lia.
    + right; right. split; [by destruct sel|done].
  - apply IH; [done|rewrite length_app; cbn; lia| |rewrite length_app; cbn; lia]. intros k Hk. rewrite length_app in Hk. cbn in Hk.
    destruct (decide (k = length (sel ++ [tx]))) as [->|Hne].
    + apply andb_false_iff in Hd as [Hd%negb_false_iff%Z.eqb_eq|Hd%Z.leb_gt]; [by left|by right].
    + apply Htime. rewrite length_app in Hne. cbn in Hne. lia.
Qed.
End Build.

Section Theorems.
Context {Tx W St M : Type} `{!Transaction Tx W St M}.
Implicit Types (mempool selected rest : list Tx).

Lemma buildBlock_spec fuel now (w : W) (fresh : St) mempool maxTransactions deadline :
  0 <= maxTransactions -> (length mempool < fuel)%nat ->
  exists selected idxs,
    buildBlock fuel now w fresh mempool maxTransactions deadline = Ret (selected, keep idxs mempool) /\
    greedy_run w fresh mempool idxs selected /\ Z.of_nat (length selected) <= maxTransactions /\
    (forall k, (0 < k < length selected)%nat -> in_time now deadline k) /\
    greedy_end now w fresh mempool maxTransactions deadline idxs selected.
Proof.
  intros Hmax Hf. destruct mempool as [|tx0 mempool0] eqn:E.
  - exists [], []. split; [done|]. split; [constructor|]. split; [done|]. split; [cbn; lia|]. right; left. intros ??. by rewrite lookup_nil.
  - rewrite <- E in *. destruct (greedy_loop_spec fuel now w mempool maxTransactions deadline fresh [] [])
      as (sel & idxs & Hg & Hr & Hlen & Hstop); [constructor|done|cbn; lia|cbn; lia|].
    exists sel, idxs. split; [|done]. unfold buildBlock. rewrite E at 1. cbn [foldl] in Hg.
    rewrite Hg. cbn. destruct (greedy_run_facts _ _ _ _ _ Hr) as [Hnd _].
    destruct (greedy_run_bounds _ _ _ _ _ Hr) as [Hb _]. by rewrite removeSelected_sorted.
Qed.

(** A transaction worth adding on its own is reason enough for a block. *)
Lemma buildBlock_nonempty fuel now (w : W) (fresh : St) mempool maxTransactions deadline tx selected rest :
  0 < maxTransactions -> (length mempool < fuel)%nat -> tx ∈ mempool -> SFleb (S754_zero false) (value w fresh tx) = true ->
  buildBlock fuel now w fresh mempool maxTransactions deadline = Ret (selected, rest) -> selected <> [].
Proof.
  intros Hmax Hf Htx Hv Hb ->. destruct (buildBlock_spec fuel now w fresh mempool maxTransactions deadline)
    as (sel & idxs & Hb' & Hr & _ & _ & Hstop); [lia|done|]. rewrite Hb in Hb'. injection Hb' as <- ->.
  destruct Hstop as [H0|[Hrest|[? _]]]; [cbn in H0; lia| |done].
  apply list_elem_of_lookup in Htx as [j Hj]. cbn [foldl] in Hrest. rewrite (Hrest j tx Hj) in Hv; [done|].
  destruct (greedy_run_facts _ _ _ _ _ Hr) as [_ ->%Forall2_nil_inv_r]. apply not_elem_of_nil.
Qed.

(** C20: [buildBlock] ends, and its block is a complete greedy execution order: every transaction
    is, in the state left by the ones before it, the first among the best-valued of those not
    yet picked, and worth at least zero (NaN values are never picked); and picking goes on until
    the block is full, nothing that is left is worth at least zero, or the deadline has passed,
    which it had not after any pick but the last.  The pool keeps the others, in their order.
    The documentation has no such bound on the worth: it lets picking go on until the block is
    full or the mempool empty. *)
Theorem buildBlock_greedy fuel now (w : W) (fresh : St) mempool maxTransactions deadline :
  0 <= maxTransactions -> (length mempool < fuel)%nat ->
  exists selected rest idxs,
    buildBlock fuel now w fresh mempool maxTransactions deadline = Ret (selected, rest) /\
    greedy_run w fresh mempool idxs selected /\ rest = keep idxs mempool /\ Z.of_nat (length selected) <= maxTransactions /\
    (forall k, (0 < k < length selected)%nat -> in_time now deadline k) /\
    greedy_end now w fresh mempool maxTransactions deadline idxs selected.
Proof.
  intros Hmax Hf. destruct (buildBlock_spec fuel now w fresh mempool maxTransactions deadline)
    as (sel & idxs & Hb & Hr & Hlen & Htime & Hend); [done..|]. exists sel, (keep idxs mempool), idxs. by repeat split.
Qed.

(** No transaction is lost, duplicated or reordered by [buildBlock]: the block and the
    remaining mempool together are a permutation of the mempool before the call, what
    remains keeps its relative order, and the block respects [maxTransactions]. *)
Theorem buildBlock_partition fuel now (w : W) (fresh : St) mempool maxTransactions deadline selected rest :
  0 <= maxTransactions -> (length mempool < fuel)%nat ->
  buildBlock fuel now w fresh mempool maxTransactions deadline = Ret (selected, rest) ->
  mempool ≡ₚ selected ++ rest /\ rest `sublist_of` mempool /\ Z.of_nat (length selected) <= maxTransactions.
Proof.
  intros Hmax Hf Hb. destruct (buildBlock_spec fuel now w fresh mempool maxTransactions deadline)
    as (sel & idxs & Hb' & Hr & Hlen & _); [done..|].
  rewrite Hb in Hb'. injection Hb' as -> ->. destruct (greedy_run_facts _ _ _ _ _ Hr) as [Hnd Hf2].
  split; [by apply keep_perm|]. split; [apply keep_from_sublist|done].
Qed.

(** With no deadline the block is full or nothing that remains is worth adding: every
    transaction left in the mempool has a negative value (or NaN) in the state after the
    block. *)
Theorem buildBlock_maximal fuel now (w : W) (fresh : St) mempool maxTransactions selected rest :
  0 <= maxTransactions -> (length mempool < fuel)%nat ->
  buildBlock fuel now w fresh mempool maxTransactions 0 = Ret (selected, rest) ->
  Z.of_nat (length selected) = maxTransactions \/
  forall tx, tx ∈ rest -> SFleb (S754_zero false) (value w (foldl (applied w) fresh selected) tx) = false.
Proof.
  intros Hmax Hf Hb. destruct (buildBlock_spec fuel now w fresh mempool maxTransactions 0)
    as (sel & idxs & Hb' & _ & _ & _ & Hstop); [done..|].
  rewrite Hb in Hb'. injection Hb' as -> ->. destruct Hstop as [|[Hrest|(_ & ? & _)]]; [by left|right|done].
  intros tx Htx. assert (exists j, mempool !! j = Some tx /\ j ∉ idxs) as (j & Hj & Hnj); [|by eapply Hrest].
  clear -Htx. unfold keep in Htx. change (exists j, mempool !! j = Some tx /\ (0 + j)%nat ∉ idxs).
  revert Htx. generalize 0%nat as n. induction mempool as [|x l IH]; intros n Htx; cbn in Htx.
  - by apply not_elem_of_nil in Htx.
  - case_decide as Hn; [|apply elem_of_cons in Htx as [->|Htx]].
    + destruct (IH (S n) Htx) as (j & Hj & Hnj). exists (S j). by rewrite Nat.add_succ_r.
    + exists 0%nat. by rewrite Nat.add_0_r.
    + destruct (IH (S n) Htx) as (j & Hj & Hnj). exists (S j). by rewrite Nat.add_succ_r.
Qed.
End Theorems.

(** Sorting the indices in descending order before removing them one by one drops
    exactly the selected positions and keeps the rest in order; the sort itself is a
    descending permutation. *)
Theorem removal_correct {A} (mempool : list A) (idxs : list nat) :
  NoDup idxs -> Forall (fun i => (i < length mempool)%nat) idxs ->
  sortDescending idxs ≡ₚ idxs /\ StronglySorted (fun a b => (b <= a)%nat) (sortDescending idxs) /\
  removeSelected mempool (sortDescending idxs) = keep idxs mempool.
Proof.
  intros Hnd Hlt. destruct (sortDescending_spec idxs) as [Hp Hs]. split; [done|]. split; [done|].
  by apply removeSelected_sorted.
Qed.

Lemma removal_correct_witness :
  sortDescending [1; 3; 0]%nat ≡ₚ [1; 3; 0]%nat /\
  StronglySorted (fun a b => (b <= a)%nat) (sortDescending [1; 3; 0]%nat) /\
  removeSelected ["a"; "b"; "c"; "d"; "e"]%string (sortDescending [1; 3; 0]%nat) = ["c"; "e"]%string.
Proof.
  refine (removal_correct ["a"; "b"; "c"; "d"; "e"]%string [1; 3; 0]%nat _ _); by_compute.
Defined.

(** ** A mempool whose values depend on the order

    Alone, the transaction with id 3 is worth 15, the one with id 1 is worth 10 and the one
    with id 2 is worth 5; after another one, id 2 is worth 20 and id 3 is worth 1. *)

Definition mev_pool : list TestTransaction :=
  [mkTestTransaction 1 7 1; mkTestTransaction 2 7 2; mkTestTransaction 3 (-4) 0; mkTestTransaction 4 7 3].

Definition mev_fresh : TestState := one_family newTestSumOverrideFamily.
Definition mev_world : TestWorld := fun _ => (0, 0).

Definition mev_selected : list TestTransaction :=
  [mkTestTransaction 4 7 3; mkTestTransaction 2 7 2; mkTestTransaction 1 7 1].
Definition mev_rest : list TestTransaction := [mkTestTransaction 3 (-4) 0].

Lemma mev_run n : (3 <= n <= 4)%Z ->
  buildBlock (M:=bytemap) 9 (fun _ => 0) mev_world mev_fresh mev_pool n 0 = Ret (mev_selected, mev_rest).
Proof. intros Hn. assert (n = 3 \/ n = 4) as [-> | ->] by lia; vm_compute; reflexivity. Qed.

(** Room for three, and the best three taken; the fourth one, which costs, is left out of a block
    with room for four. *)
Lemma buildBlock_greedy_witness :
  exists idxs, greedy_run (M:=bytemap) mev_world mev_fresh mev_pool idxs mev_selected /\ mev_rest = keep idxs mev_pool /\
    greedy_end (M:=bytemap) (fun _ => 0) mev_world mev_fresh mev_pool 4 0 idxs mev_selected.
Proof.
  destruct (buildBlock_greedy (M:=bytemap) 9 (fun _ => 0) mev_world mev_fresh mev_pool 4 0) as (sel & rest & idxs & Hb & Hr & Hk & _ & _ & He).
  - lia.
  - cbn. lia.
  - rewrite mev_run in Hb by lia. injection Hb as <- <-. exists idxs. split; [exact Hr|]. split; [exact Hk|exact He].
Defined.

Lemma buildBlock_partition_witness :
  mev_pool ≡ₚ mev_selected ++ mev_rest /\ mev_rest `sublist_of` mev_pool /\ 3 <= 3.
Proof.
  apply (buildBlock_partition (M:=bytemap) 9 (fun _ => 0) mev_world mev_fresh mev_pool 3 0).
  - lia.
  - cbn. lia.
  - apply mev_run. lia.
Defined.

Lemma buildBlock_maximal_witness :
  3 = 4 \/ forall tx, tx ∈ mev_rest ->
    SFleb (S754_zero false) (value (M:=bytemap) mev_world (foldl (applied (M:=bytemap) mev_world) mev_fresh mev_selected) tx) = false.
Proof.
  apply (buildBlock_maximal (M:=bytemap) 9 (fun _ => 0) mev_world mev_fresh mev_pool 4 mev_selected mev_rest).
  - lia.
  - cbn. lia.
  - apply mev_run. lia.
Defined.
