(* ===== verification/BlockTimestampTracker.v ===== *)
(** * BlockTimestampTracker

    The persistent index from block timestamps to block numbers
    (src/src/storage/BlockTimestampTracker.h and .cpp): the entry type with its
    comparator and successor, insertion, and the time-window query. *)

From S2P Require Import Prelude Excessive.

Record block_timestamp_entry_t := Entry { timestamp : Z; blockNumber : Z }.

#[global] Instance entry_eq_dec : EqDecision block_timestamp_entry_t.
Proof. solve_decision. Defined.

Definition compare (a b : block_timestamp_entry_t) : Z :=
  if timestamp a <? timestamp b then -1
  else if timestamp b <? timestamp a then 1
  else if blockNumber a <? blockNumber b then -1
  else if blockNumber b <? blockNumber a then 1
  else 0.

Definition successor (s : block_timestamp_entry_t) : block_timestamp_entry_t :=
  if negb (blockNumber s =? U64_MAX) then Entry (timestamp s) (u64 (blockNumber s + 1))
  else
    let s := Entry (timestamp s) 0 in
    if negb (timestamp s =? U64_MAX) then Entry (u64 (timestamp s + 1)) (blockNumber s)
    else s.

(** An entry of [uint64_t] fields; the tracker only ever holds block numbers below the
    largest one. *)
Definition entry_ok (e : block_timestamp_entry_t) : Prop :=
  in_u64 (timestamp e) /\ 0 <= blockNumber e < U64_MAX.

#[global] Instance entry_ok_dec e : Decision (entry_ok e).
Proof. unfold entry_ok. apply _. Defined.

#[global] Instance compare_Comparator : Comparator compare.
Proof.
  split; unfold compare; intros;
    repeat match goal with
    | |- context [?x <? ?y] => destruct (Z.ltb_spec x y)
    | H : context [?x <? ?y] |- _ => destruct (Z.ltb_spec x y)
    end; lia.
Qed.

Lemma compare_eq_0 a b : compare a b = 0 <-> a = b.
Proof.
  unfold compare. split.
  - destruct a as [ta na], b as [tb nb]; cbn.
    destruct (Z.ltb_spec ta tb), (Z.ltb_spec tb ta), (Z.ltb_spec na nb), (Z.ltb_spec nb na);
      try lia; intros _; f_equal; lia.
  - intros ->. by rewrite !Z.ltb_irrefl.
Qed.

(** [successor] is the immediate successor in the comparator's order. *)
Lemma successor_spec e x : entry_ok e -> entry_ok x ->
  0 <= compare x (successor e) <-> 0 < compare x e.
Proof.
  intros [Ht Hn] [Hxt Hxn]. unfold successor.
  destruct (Z.eqb_spec (blockNumber e) U64_MAX); [lia|]. cbn.
  unfold compare; cbn. rewrite (u64_small (blockNumber e + 1)) by word.
  repeat match goal with |- context [?x <? ?y] => destruct (Z.ltb_spec x y) end; lia.
Qed.

Section Tracker.
Context {T : Type} `{!BTree block_timestamp_entry_t T}.

Record tracker := Tracker { index : T }.

(** The constructor opens the file and the tree stored in it. *)
Definition openTracker (file : T) : tracker := {| index := file |}.

Definition addBlock (tr : tracker) (timestamp blockNumber : Z) : tracker :=
  let entry := Entry timestamp blockNumber in
  {| index := bt_insert (index tr) entry |}.

Fixpoint getBlocksInWindow_loop (fuel : nat) (ix : T) (endMillis : Z)
    (cursor : block_timestamp_entry_t) (results : list Z) : outcome (list Z) :=
  match fuel with
  | O => NoFuel
  | S fuel =>
      match bt_findNext ix cursor with
      | None => Ret results
      | Some cursor =>
          if endMillis <? timestamp cursor then Ret results
          else getBlocksInWindow_loop fuel ix endMillis (successor cursor)
                 (results ++ [blockNumber cursor])
      end
  end.

Definition getBlocksInWindow (fuel : nat) (tr : tracker) (startMillis endMillis : Z) : outcome (list Z) :=
  getBlocksInWindow_loop fuel (index tr) endMillis (Entry startMillis 0) [].

(** The representation invariant: an ordered tree of well-formed entries. *)
Definition tracker_ok (tr : tracker) : Prop :=
  bt_wf compare (index tr) /\ Forall entry_ok (bt_elems (index tr)).

Definition entries (tr : tracker) : list block_timestamp_entry_t := bt_elems (index tr).

Lemma loop_scan fuel ix endMillis cursor results :
  getBlocksInWindow_loop fuel ix endMillis cursor results =
    (fun l => results ++ map blockNumber l) <$>
      scan fuel ix (fun e => endMillis <? timestamp e) successor cursor.
Proof.
  revert cursor results. induction fuel as [|fuel IH]; intros; [done|]. simpl.
  destruct (bt_findNext ix cursor) as [e|]; [|by cbn; rewrite app_nil_r].
  destruct (endMillis <? timestamp e); [by cbn; rewrite app_nil_r|].
  rewrite IH. destruct (scan fuel _ _ _ _); cbn; [|done..].
  by rewrite <- app_assoc.
Qed.

Context `{!BTreeLaws compare}.

Lemma getBlocksInWindow_elems fuel tr startMillis endMillis :
  tracker_ok tr -> in_u64 startMillis -> (length (entries tr) < fuel)%nat ->
  getBlocksInWindow fuel tr startMillis endMillis =
    Ret (map blockNumber (filter (fun e => startMillis <= timestamp e <= endMillis) (entries tr))).
Proof.
  intros [Hwf Hok] Hst Hfuel. rewrite Forall_forall in Hok. unfold getBlocksInWindow.
  rewrite loop_scan, (scan_filter compare); [| done | | | done].
  - cbn. do 2 f_equal. apply filter_ext_in. intros x Hx. specialize (Hok x Hx) as [Ht Hn].
    unfold compare; cbn. rewrite Z.ltb_ge.
    repeat match goal with |- context [?x <? ?y] => destruct (Z.ltb_spec x y) end; lia.
  - intros e x He Hx _. apply successor_spec; auto.
  - intros a b Hab. rewrite !Z.ltb_lt. unfold compare in Hab.
    destruct (Z.ltb_spec (timestamp a) (timestamp b)), (Z.ltb_spec (timestamp b) (timestamp a)); lia.
Qed.

Lemma addBlock_elems tr ts bn :
  tracker_ok tr -> entry_ok (Entry ts bn) -> Entry ts bn ∉ entries tr ->
  tracker_ok (addBlock tr ts bn) /\ entries (addBlock tr ts bn) ≡ₚ Entry ts bn :: entries tr.
Proof.
  intros [Hwf Hok] He Hne.
  destruct (bt_insert_law (cmp:=compare) (index tr) (Entry ts bn)) as [Hwf' Hp]; [done| |].
  { intros x Hx Hc. apply compare_eq_0 in Hc as ->. done. }
  split; [|done]. split; [done|]. cbn. rewrite Hp. by constructor.
Qed.

(** The time-window query of the tracker ends and returns exactly the numbers of the
    blocks whose timestamp lies in the closed window, in (timestamp, number) order. *)
Theorem getBlocksInWindow_correct fuel tr startMillis endMillis :
  tracker_ok tr -> in_u64 startMillis -> (length (entries tr) < fuel)%nat ->
  getBlocksInWindow fuel tr startMillis endMillis =
    Ret (map blockNumber (filter (fun e => startMillis <= timestamp e <= endMillis) (entries tr))).
Proof. apply getBlocksInWindow_elems. Qed.

(** Recording a block keeps the tracker well-formed and changes every window query by
    exactly that block: it appears in the windows that contain its timestamp, once, and
    in no other. *)
Theorem addBlock_window fuel tr ts bn startMillis endMillis :
  tracker_ok tr -> entry_ok (Entry ts bn) -> Entry ts bn ∉ entries tr ->
  in_u64 startMillis -> (S (length (entries tr)) < fuel)%nat ->
  tracker_ok (addBlock tr ts bn) /\
  exists old new,
    getBlocksInWindow fuel tr startMillis endMillis = Ret old /\
    getBlocksInWindow fuel (addBlock tr ts bn) startMillis endMillis = Ret new /\
    new ≡ₚ if decide (startMillis <= ts <= endMillis) then bn :: old else old.
Proof.
  intros Hok He Hne Hst Hfuel. destruct (addBlock_elems tr ts bn) as [Hok' Hp]; try done.
  split; [done|]. eexists _, _. split; [|split].
  - apply getBlocksInWindow_elems; [done..|lia].
  - apply getBlocksInWindow_elems; [done..|]. by rewrite Hp.
  - rewrite Hp, filter_cons. cbn. by case_decide.
Qed.
End Tracker.
Arguments tracker T : clear implicits.

#[local] Existing Instance sl_BTree.
#[local] Instance tracker_BTree : BTree block_timestamp_entry_t (list block_timestamp_entry_t) := sl_BTree compare.
#[local] Instance tracker_BTreeLaws : BTreeLaws compare := sl_BTreeLaws compare.

(** The blocks of the tracker's unit test: two of them share a timestamp. *)
Definition sample : tracker (list block_timestamp_entry_t) :=
  foldl (fun tr e => addBlock tr (timestamp e) (blockNumber e)) (openTracker [])
    [Entry 1000 0; Entry 2000 1; Entry 3000 2; Entry 3000 3; Entry 4000 4].

Lemma sample_ok : tracker_ok sample.
Proof.
  split; [unfold bt_wf|]; by_compute.
Qed.

Lemma getBlocksInWindow_correct_witness :
  getBlocksInWindow 9 sample 1500 3500 = Ret [1; 2; 3].
Proof.
  exact (eq_trans (getBlocksInWindow_correct 9 sample 1500 3500 sample_ok
    ltac:(word) ltac:(vm_compute; lia)) eq_refl).
Defined.

Lemma addBlock_window_witness :
  tracker_ok (addBlock sample 3200 5) /\
  exists old new,
    getBlocksInWindow 9 sample 1500 3500 = Ret old /\
    getBlocksInWindow 9 (addBlock sample 3200 5) 1500 3500 = Ret new /\
    new ≡ₚ if decide (1500 <= 3200 <= 3500) then 5 :: old else old.
Proof.
  apply (addBlock_window 9 sample 3200 5 1500 3500 sample_ok).
  - by_compute.
  - by_compute.
  - by_compute.
  - vm_compute. lia.
Defined.
