(* ===== verification/FileCache.v ===== *)
(** * CustomizableFileCache

    The cache of open files (src/src/storage/CustomizableFileCache.h): opening by path,
    eviction of the least recently used accessor that nobody holds, and growth when every
    accessor is held.  What matters to the rest of the system is that a file in use is
    never opened a second time. *)

From Stdlib Require Import Ascii.
From S2P Require Import Prelude.

Section Cache.
(** [A]: the accessor pointers, by identity; [H]: file handles. *)
Context {A H : Type}.

(** Of libexcessive: whether a handle is valid, whether a pointer is [UNIQUE], the slots of
    the hash map in index order, and its capacity after a [put]. *)
Context (valid : H -> bool) (unique : A -> bool).

(** What one call meets: the clock, the number of pointers to each accessor, what the
    operating system answers to the opening of a path, and the accessor that the
    application's [builder] makes of a handle, a new one for each call. *)
Record call_env := { now : Z; refs : A -> Z; os_open : string -> option H; builder : H -> A }.

Record open_path_t := { lastAccess : Z; accessor : A; handle : H }.

Context (slots : gmap string open_path_t -> list (string * open_path_t)) (capacity_after : gmap string open_path_t -> Z -> Z).

Record CustomizableFileCache := { root : string; openPaths : gmap string open_path_t; capacity : Z }.

Definition ends_with_slash (s : string) : bool := match String.get (String.length s - 1) s with
  | Some c => bool_decide (c = "/"%char) | None => false end.

Definition newCache (r : string) (size : Z) : CustomizableFileCache :=
  {| root := if bool_decide (r = ""%string) || negb (ends_with_slash r) then r +:+ "/" else r; openPaths := ∅; capacity := size |}.

Definition set_paths (c : CustomizableFileCache) (m : gmap string open_path_t) : CustomizableFileCache :=
  {| root := root c; openPaths := m; capacity := capacity c |}.

Definition fullPath (c : CustomizableFileCache) (path : string) : string :=
  match String.get 0 path with
  | Some ch => if bool_decide (ch = "/"%char) then path else root c +:+ path
  | None => root c +:+ path
  end.

(** The search for a victim; [refs] counts the pointers to an accessor, the cache's one
    included. *)
Fixpoint oldest_loop (refs : A -> Z) (l : list (string * open_path_t)) (oldest : option string) (oldestTime : Z) : option string :=
  match l with
  | [] => oldest
  | (k, openPath) :: l =>
      if negb (valid (handle openPath)) then Some k
      else if (lastAccess openPath <? oldestTime) && (refs (accessor openPath) <=? 1)
      then oldest_loop refs l (Some k) (lastAccess openPath)
      else oldest_loop refs l oldest oldestTime
  end.

Definition addRaw (refs : A -> Z) (now : Z) (path : string) (file : H) (a : A) (c : CustomizableFileCache) : CustomizableFileCache :=
  if negb (valid file) then c
  else
    let c :=
      if capacity c <=? Z.of_nat (size (openPaths c)) then
        match oldest_loop refs (take (Z.to_nat (capacity c)) (slots (openPaths c))) None U64_MAX with
        | Some k => set_paths c (delete k (openPaths c))
        | None => c
        end
      else c in
    let m := <[path := {| lastAccess := now; accessor := a; handle := file |}]> (openPaths c) in
    {| root := root c; openPaths := m; capacity := capacity_after m (capacity c) |}.

Definition add (refs : A -> Z) (now : Z) (path : string) (file : H) (a : A) (c : CustomizableFileCache) : CustomizableFileCache :=
  addRaw refs now path file a c.

(** The part of [open] after the cache lookup failed. *)
Definition open_miss (env : call_env) (full : string) : prog CustomizableFileCache (option A) :=
  match os_open env full with
  | None => mret None
  | Some h =>
      if negb (valid h) then mret None
      else
        let a := builder env h in
        if unique a then throw (runtime_error "Accessor pointer cannot be unique - this is a bug.")
        else modifyS (addRaw (refs env) (now env) full h a);; mret (Some a)
  end.

Definition open (env : call_env) (path : string) : prog CustomizableFileCache (option A) :=
  c ← getS;
  let full := fullPath c path in
  match openPaths c !! full with
  | Some openPath =>
      if valid (handle openPath) then
        putS (set_paths c (<[full := {| lastAccess := now env; accessor := accessor openPath; handle := handle openPath |}]> (openPaths c)));;
        mret (Some (accessor openPath))
      else
        putS (set_paths c (delete full (openPaths c)));;
        open_miss env full
  | None => open_miss env full
  end.

(** ** Accessors in use *)

(** The path is cached with a valid handle and this accessor. *)
Definition cached (c : CustomizableFileCache) (full : string) (a : A) : Prop :=
  exists p, openPaths c !! full = Some p /\ valid (handle p) = true /\ accessor p = a.

Context (slots_law : forall m, slots m ≡ₚ map_to_list m).

Lemma oldest_loop_victim refs l oldest t k : oldest_loop refs l oldest t = Some k ->
  oldest = Some k \/ exists p, (k, p) ∈ l /\ (valid (handle p) = false \/ refs (accessor p) <= 1).
Proof.
  revert oldest t. induction l as [|[k' p] l IH]; intros oldest t; cbn [oldest_loop]; [by left|].
  destruct (valid (handle p)) eqn:Hv; cbn [negb].
  - destruct (_ && _) eqn:Hc; intros Hk; apply IH in Hk.
    + apply andb_true_iff in Hc as [_ Hc]. apply Z.leb_le in Hc.
      destruct Hk as [[= ->]|(q & Hq & H1)]; right; [exists p; split; [left|by right]|exists q; split; [by right|done]].
    + destruct Hk as [|(q & Hq & H1)]; [by left|right]. exists q. split; [by right|done].
  - intros [= <-]. right. exists p. split; [left|by left].
Qed.

Lemma addRaw_keeps refs now path file a c full a' :
  cached c full a' -> 1 < refs a' -> full <> path -> cached (addRaw refs now path file a c) full a'.
Proof.
  intros (p & Hp & Hv & Ha) Hrefs Hne. unfold addRaw. destruct (valid file); cbn [negb]; [|by exists p].
  exists p. split; [|done]. cbn [openPaths]. rewrite lookup_insert_ne by done.
  destruct (_ <=? _); [|done]. destruct (oldest_loop _ _ _ _) as [k|] eqn:Hk; [|done]. cbn [set_paths openPaths].
  apply oldest_loop_victim in Hk as [|(q & Hq & Hbad)]; [done|].
  rewrite lookup_delete_ne; [done|]. intros ->.
  assert ((full, q) ∈ slots (openPaths c)) as Hin.
  { rewrite <- (take_drop (Z.to_nat (capacity c)) (slots (openPaths c))). apply elem_of_app. by left. }
  rewrite slots_law in Hin. apply elem_of_map_to_list in Hin. rewrite Hp in Hin. injection Hin as <-.
  destruct Hbad; [congruence|]. subst. lia.
Qed.

Lemma addRaw_caches refs now path file a c : valid file = true -> cached (addRaw refs now path file a c) path a.
Proof. intros Hv. unfold addRaw. rewrite Hv. cbn [negb]. eexists. cbn [openPaths]. rewrite lookup_insert_eq. done. Qed.

Lemma addRaw_root refs now path file a c : root (addRaw refs now path file a c) = root c.
Proof. unfold addRaw. destruct (valid file); [|done]. cbn [negb root]. destruct (_ <=? _); [|done]. by destruct (oldest_loop _ _ _ _). Qed.

Lemma open_miss_spec env full c r c' : open_miss env full c = (r, c') ->
  root c' = root c /\
  (forall f a, f <> full -> cached c f a -> 1 < refs env a -> cached c' f a) /\
  (forall a, r = Ret (Some a) -> cached c' full a).
Proof.
  unfold open_miss. destruct (os_open env full) as [h|]; [|by intros [= <- <-]].
  destruct (valid h) eqn:Hv; [|by intros [= <- <-]]. cbn [negb]. destruct (unique (builder env h)).
  - intros [= <- <-]. done.
  - cbn. intros [= <- <-]. split; [apply addRaw_root|]. split.
    + intros f a Hne Hc Hr. by apply addRaw_keeps.
    + intros a [= <-]. by apply addRaw_caches.
Qed.

Lemma open_spec env path c r c' : open env path c = (r, c') ->
  root c' = root c /\
  (forall f a, cached c f a -> 1 < refs env a -> cached c' f a) /\
  (forall a, r = Ret (Some a) -> cached c' (fullPath c path) a) /\
  (forall a, cached c (fullPath c path) a -> r = Ret (Some a)).
Proof.
  unfold open, mbind, prog_bind, getS, putS. destruct (openPaths c !! fullPath c path) as [p|] eqn:Hp.
  - destruct (valid (handle p)) eqn:Hv.
    + intros [= <- <-]. split; [done|]. cbn.
      assert (forall f a, cached c f a -> cached (set_paths c (<[fullPath c path:={| lastAccess := now env; accessor := accessor p; handle := handle p |}]> (openPaths c))) f a) as Hk.
      { intros f a (q & Hq & Hvq & Ha). destruct (decide (f = fullPath c path)) as [->|Hne].
        - rewrite Hp in Hq. injection Hq as <-. eexists. cbn. rewrite lookup_insert_eq. done.
        - exists q. cbn. by rewrite lookup_insert_ne. }
      split; [auto|]. split.
      * intros a [= <-]. apply Hk. by exists p.
      * intros a (q & Hq & _ & <-). rewrite Hp in Hq. by injection Hq as <-.
    + intros Ho. apply open_miss_spec in Ho as (Hroot & Hkeep & Hnew). split; [done|]. split; [|split; [done|]].
      * intros f a (q & Hq & Hvq & Ha) Hr. assert (f <> fullPath c path) as Hne by congruence.
        apply Hkeep; [done| |done]. exists q. cbn. by rewrite lookup_delete_ne.
      * intros a (q & Hq & Hvq & _). congruence.
  - intros Ho. apply open_miss_spec in Ho as (Hroot & Hkeep & Hnew). split; [done|]. split; [|split; [done|]].
    + intros f a Hc Hr. apply Hkeep; [|done|done]. intros ->. destruct Hc as (q & Hq & _). congruence.
    + intros a (q & Hq & _). congruence.
Qed.

(** *** What is in the cache *)

Lemma addRaw_entries refs now path file a c f p : openPaths (addRaw refs now path file a c) !! f = Some p ->
  openPaths c !! f = Some p \/ (f = path /\ accessor p = a).
Proof.
  unfold addRaw. destruct (valid file); cbn [negb]; [|by left]. cbn [openPaths].
  intros [[<- <-]|[Hne Hp]]%lookup_insert_Some; [by right|left].
  destruct (_ <=? _); [|done]. destruct (oldest_loop _ _ _ _); [|done]. cbn in Hp.
  by apply lookup_delete_Some in Hp as [_ Hp].
Qed.

Lemma open_miss_entries env full c r c' : open_miss env full c = (r, c') ->
  forall f p, openPaths c' !! f = Some p ->
    openPaths c !! f = Some p \/ (f = full /\ exists h, accessor p = builder env h /\ r = Ret (Some (builder env h))).
Proof.
  unfold open_miss. destruct (os_open env full) as [h|]; [|intros [= <- <-]; by left].
  destruct (valid h); cbn [negb]; [|intros [= <- <-]; by left].
  destruct (unique (builder env h)); [intros [= <- <-]; by left|].
  intros [= <- <-] f p Hp. apply addRaw_entries in Hp as [Hp|[-> Ha]]; [by left|right]. split; [done|by exists h].
Qed.

(** After [open], an entry was there before, or it is the one just made and returned. *)
Lemma open_entries env path c r c' : open env path c = (r, c') ->
  forall f p, openPaths c' !! f = Some p ->
    (exists q, openPaths c !! f = Some q /\ accessor p = accessor q) \/
    (f = fullPath c path /\ exists h, accessor p = builder env h /\ r = Ret (Some (builder env h))).
Proof.
  unfold open, mbind, prog_bind, getS, putS. intros Ho f p Hp.
  destruct (openPaths c !! fullPath c path) as [q|] eqn:Hq.
  - destruct (valid (handle q)).
    + injection Ho as <- <-. cbn in Hp. apply lookup_insert_Some in Hp as [[<- <-]|[_ Hp]]; left; eauto.
    + destruct (open_miss_entries _ _ _ _ _ Ho f p Hp) as [Hp'|Hnew]; [left|by right].
      cbn in Hp'. apply lookup_delete_Some in Hp' as [_ Hp']. eauto.
  - destruct (open_miss_entries _ _ _ _ _ Ho f p Hp) as [Hp'|Hnew]; [left; eauto|by right].
Qed.

(** When the operating system opens the file, [open] returns an accessor: the cached one, or the
    one that [builder] makes. *)
Lemma open_returns env path c h :
  os_open env (fullPath c path) = Some h -> valid h = true -> (forall a, unique a = false) ->
  exists a c', open env path c = (Ret (Some a), c') /\
    ((exists p, openPaths c !! fullPath c path = Some p /\ accessor p = a) \/ a = builder env h).
Proof.
  intros Hos Hv Hu.
  assert (forall c1, open_miss env (fullPath c path) c1 = (Ret (Some (builder env h)), addRaw (refs env) (now env) (fullPath c path) h (builder env h) c1)) as Hmiss
    by (intros c1; unfold open_miss; by rewrite Hos, Hv, Hu).
  unfold open, mbind, prog_bind, getS, putS. destruct (openPaths c !! fullPath c path) as [p|] eqn:Hp.
  - destruct (valid (handle p)).
    + eexists _, _. split; [done|]. left. by exists p.
    + eexists _, _. split; [apply Hmiss|by right].
  - eexists _, _. split; [apply Hmiss|by right].
Qed.

(** What [open] answers when [builder] makes no [UNIQUE] pointers: the cached accessor, a new one,
    or nothing, and then the path is not in the cache. *)
Lemma open_result env path c r c' : (forall a, unique a = false) -> open env path c = (r, c') ->
  exists o : option A, r = Ret o /\
    match o with
    | Some a => cached c (fullPath c path) a \/
        (exists h, os_open env (fullPath c path) = Some h /\ valid h = true /\ a = builder env h)
    | None => openPaths c' !! fullPath c path = None /\
        forall h, os_open env (fullPath c path) = Some h -> valid h = false
    end.
Proof.
  intros Hu. set (full := fullPath c path).
  assert (forall c1 : CustomizableFileCache, openPaths c1 !! full = None -> open_miss env full c1 = (r, c') -> exists o : option A, r = Ret o /\
    match o with
    | Some a => cached c full a \/ (exists h, os_open env full = Some h /\ valid h = true /\ a = builder env h)
    | None => openPaths c' !! full = None /\ forall h, os_open env full = Some h -> valid h = false
    end) as Hmiss.
  { intros c1 Hn. unfold open_miss. destruct (os_open env full) as [h|] eqn:Ho; [|intros [= <- <-]; by exists None].
    destruct (valid h) eqn:Hv; cbn [negb].
    - rewrite Hu. intros [= <- _]. eexists. split; [done|]. right. by exists h.
    - intros [= <- <-]. exists None. split; [done|]. split; [done|]. intros h' [= <-]. done. }
  unfold open, mbind, prog_bind, getS, putS. fold full. destruct (openPaths c !! full) as [p|] eqn:Hp; [|by apply Hmiss].
  destruct (valid (handle p)) eqn:Hv.
  - intros [= <- <-]. eexists. split; [done|]. left. by exists p.
  - apply Hmiss. cbn. apply lookup_delete_eq.
Qed.

(** A history of calls to [open]. *)
Inductive opens : CustomizableFileCache -> list (call_env * string) -> CustomizableFileCache -> Prop :=
| opens_nil c : opens c [] c
| opens_cons c env path r c1 l c2 :
    open env path c = (r, c1) -> opens c1 l c2 -> opens c ((env, path) :: l) c2.

Lemma opens_keep c l c' full a : opens c l c' -> cached c full a -> Forall (fun x => 1 < refs x.1 a) l ->
  cached c' full a /\ root c' = root c.
Proof.
  induction 1 as [|c env path r c1 l c2 Ho Hr IH]; [done|]. intros Hc Hl.
  apply Forall_cons in Hl as [Hh Hl]. apply open_spec in Ho as (Hroot & Hkeep & _).
  destruct (IH (Hkeep _ _ Hc Hh) Hl) as [H1 H2]. split; [done|congruence].
Qed.
End Cache.
Arguments CustomizableFileCache : clear implicits.

(** A file in use is opened once: when [open] has returned an accessor, and somebody holds on
    to it through any later sequence of opens (however full the cache is, whatever they
    return or throw), then opening the same path again returns the very same accessor. *)
Theorem open_shares {A H} (valid : H -> bool) (unique : A -> bool) slots capacity_after
    (slots_law : forall m, slots m ≡ₚ map_to_list m) c env path a c1 l c2 env' :
  open valid unique slots capacity_after env path c = (Ret (Some a), c1) ->
  opens valid unique slots capacity_after c1 l c2 -> Forall (fun x => 1 < refs x.1 a) l ->
  exists c3, open valid unique slots capacity_after env' path c2 = (Ret (Some a), c3).
Proof.
  intros Ho Hl Hheld. apply open_spec in Ho as (Hroot & _ & Hnew & _); [|done].
  specialize (Hnew a eq_refl). eapply opens_keep in Hl as [Hc Hroot2]; [|done|exact Hnew|done].
  destruct (open _ _ _ _ env' path c2) as [r c3] eqn:Ho. exists c3.
  apply open_spec in Ho as (_ & _ & _ & Hhit); [|done].
  assert (fullPath c2 path = fullPath c path) as Hfp by (unfold fullPath; by rewrite Hroot2, Hroot).
  rewrite Hfp in Hhit. by rewrite (Hhit a Hc).
Qed.

(** [add] stores under the path as given, while [open] looks under the root: a file added
    under a relative path is not found by [open] with the same path. *)
Theorem add_not_found {A H} (valid : H -> bool) slots capacity_after refs now (r : string) size path (file : H) (a : A) :
  String.get 0 path <> Some "/"%char ->
  let c := add valid slots capacity_after refs now path file a (newCache r size) in
  openPaths c !! fullPath c path = None.
Proof.
  intros Hrel c.
  assert (root c = root (newCache (A:=A) (H:=H) r size)) as Hr by apply addRaw_root.
  assert (fullPath c path = root c +:+ path) as ->.
  { unfold fullPath. destruct (String.get 0 path) as [ch|]; [|done]. rewrite bool_decide_eq_false_2; [done|congruence]. }
  assert (forall k, is_Some (openPaths c !! k) -> k = path) as Hk.
  { intros k Hs. unfold c, add, addRaw in Hs. destruct (valid file); cbn [negb] in Hs.
    - cbn [openPaths] in Hs. apply lookup_insert_is_Some in Hs as [->|[_ Hs]]; [done|].
      destruct (_ <=? _); [|cbn in Hs; rewrite lookup_empty in Hs; by destruct Hs].
      destruct (oldest_loop _ _ _ _ _); cbn in Hs; rewrite ?delete_empty, ?lookup_empty in Hs; by destruct Hs.
    - cbn in Hs. rewrite lookup_empty in Hs. by destruct Hs. }
  destruct (openPaths c !! (root c +:+ path)) eqn:E; [|done].
  assert (root c +:+ path = path) as Hp by (apply Hk; eauto).
  assert (String.length (root c +:+ path) = String.length path) as Hlen by (by rewrite Hp).
  rewrite length_string_app in Hlen. assert (root c = ""%string) as H0 by (destruct (root c); [done|cbn in Hlen; lia]).
  rewrite Hr in H0. unfold newCache in H0; cbn in H0.
  destruct (bool_decide (r = "")) eqn:E1; cbn in H0; [apply bool_decide_eq_true in E1; by subst r|].
  destruct (ends_with_slash r); cbn in H0; [|by destruct r].
  apply bool_decide_eq_false in E1. done.
Qed.

(** ** A concrete cache of two slots

    Accessors are numbered; every call builds a new one. *)

Definition env_at (t : Z) : call_env := {| now := t; refs := fun a => if a =? 1 then 2 else 1; os_open := fun _ => Some t; builder := fun h => h |}.
Definition keep_cap (m : gmap string (open_path_t (A:=Z) (H:=Z))) (c : Z) : Z := Z.max c (Z.of_nat (size m)).
Definition open2 (t : Z) (path : string) : prog (CustomizableFileCache Z Z) (option Z) :=
  open (fun _ => true) (fun _ => false) map_to_list keep_cap (env_at t) path.
Definition fc0 : CustomizableFileCache Z Z := newCache "data/epochs/" 2.
Definition fc1 := (open2 1 "0.bin" fc0).2.
Definition fc2 := (open2 2 "1.bin" fc1).2.
Definition fc3 := (open2 3 "2.bin" fc2).2.

(** Two more files go through the two slots while the first one is held. *)
Lemma open_shares_witness : exists c3, open2 9 "0.bin" fc3 = (Ret (Some 1), c3).
Proof.
  apply (open_shares (fun _ => true) (fun _ => false) map_to_list keep_cap (fun m => reflexivity _)
    fc0 (env_at 1) "0.bin" 1 fc1 [(env_at 2, "1.bin"%string); (env_at 3, "2.bin"%string)] fc3 (env_at 9)).
  - vm_compute. reflexivity.
  - apply (opens_cons _ _ _ _ fc1 (env_at 2) "1.bin" (Ret (Some 2)) fc2); [vm_compute; reflexivity|].
    apply (opens_cons _ _ _ _ fc2 (env_at 3) "2.bin" (Ret (Some 3)) fc3); [vm_compute; reflexivity|]. constructor.
  - repeat constructor.
Defined.

Lemma add_not_found_witness :
  let c := add (fun _ => true) map_to_list keep_cap (fun _ => 1) 5 "x.bin" 7 8 (newCache "data" 2) in
  openPaths c !! fullPath c "x.bin" = None.
Proof.
  apply (add_not_found (fun _ => true) map_to_list keep_cap (fun _ => 1) 5 "data" 2 "x.bin" 7 8). discriminate.
Defined.
