(* ===== verification/EpochFile.v ===== *)
(** * EpochFile

    The journal file of one epoch (src/src/storage/EpochFile.h and .cpp): a header with
    the offsets of up to 65536 blocks, then the blocks, each a 64-byte header and the
    serialized transactions, aligned to 4096 bytes.  The functions work on the bytes of
    the mapped file; the fields are little-endian. *)

From S2P Require Import Prelude Memory Transaction Registry StateOverride TestChainDesign.

Definition BLOCKS_PER_EPOCH : Z := 65536.
Definition BLOCK_ALIGNMENT : Z := 4096.
Definition CURRENT_FILE_VERSION : Z := 3338665984.

(** Offsets of the fields of [blockchain_epoch_header_t], and its size. *)
Definition off_version : Z := 0.
Definition off_blocksPerEpoch : Z := 4.
Definition off_numBlocks : Z := 8.
Definition off_blockAlignment : Z := 12.
Definition off_blockOffset (i : Z) : Z := 16 + 4 * i.
Definition sizeof_epoch_header : Z := 16 + 4 * BLOCKS_PER_EPOCH.

(** [block_header_t]: [millis], [numTransactions], 54 reserved bytes. *)
Definition sizeof_block_header : Z := 64.
Definition off_numTransactions : Z := 8.
Definition block_header (millis numTransactions : Z) : list Z :=
  le_encode 8 millis ++ le_encode 2 numTransactions ++ replicate 54 0.

(** [(n + BLOCK_ALIGNMENT - 1) & ~(BLOCK_ALIGNMENT - 1)] in 64-bit arithmetic. *)
Definition alignUp (n : Z) : Z :=
  Z.land (u64 (n + BLOCK_ALIGNMENT - 1)) (u64 (Z.lnot (BLOCK_ALIGNMENT - 1))).

Definition firstBlockOffset : Z := u32 (alignUp sizeof_epoch_header).

Lemma alignUp_spec n : 0 <= n <= U64_MAX - 4095 -> alignUp n = 4096 * ((n + 4095) / 4096).
Proof.
  intros Hn. unfold alignUp, BLOCK_ALIGNMENT. rewrite (u64_small (n + _ - 1)) by word.
  change (u64 (Z.lnot (4096 - 1))) with 18446744073709547520.
  rewrite land_page_mask by word. do 2 f_equal. lia.
Qed.

Lemma alignUp_bounds n : 0 <= n <= U64_MAX - 4095 -> n <= alignUp n < n + 4096.
Proof. intros Hn. rewrite alignUp_spec by done. Z.div_mod_to_equations. lia. Qed.

Lemma firstBlockOffset_val : firstBlockOffset = 266240.
Proof. done. Qed.

Section EpochFile.
Context {Tx W St M : Type} `{!MmapHandle M, !Transaction Tx W St M}.

Definition load_u32 (m : M) (off : Z) : Z := le_decode (mm_load m off 4).
Definition store_u32 (m : M) (off v : Z) : M := mm_store m off (le_encode 4 v).

(** The constructor, on the mapping of the file; [isNew] when the file was created. *)
Definition openEpoch (isNew : bool) (m : M) : M :=
  if isNew then
    let m := store_u32 m off_version CURRENT_FILE_VERSION in
    let m := store_u32 m off_blocksPerEpoch BLOCKS_PER_EPOCH in
    let m := store_u32 m off_numBlocks 0 in
    let m := store_u32 m off_blockAlignment BLOCK_ALIGNMENT in
    store_u32 m (off_blockOffset 0) (u32 (alignUp sizeof_epoch_header))
  else m.

Definition getBlockOffset (m : M) (blockNumber : Z) : Z :=
  load_u32 m (off_blockOffset (blockNumber mod BLOCKS_PER_EPOCH)).

Definition appendBlock (m : M) (blockNumber millis : Z) (transactions : list Tx) : M :=
  let offsetIdx := u32 (blockNumber mod BLOCKS_PER_EPOCH) in
  let blockOffset := load_u32 m (off_blockOffset offsetIdx) in
  let '(blockOffset, m) :=
    if blockOffset =? 0 then
      let blockOffset := u32 (alignUp sizeof_epoch_header) in
      (blockOffset, store_u32 m (off_blockOffset offsetIdx) blockOffset)
    else (blockOffset, m) in
  let m := mm_store m blockOffset (block_header millis (u16 (Z.of_nat (length transactions)))) in
  let m := mm_seek m (blockOffset + sizeof_block_header) in
  let m := write_all transactions m in
  if negb (u64 (blockNumber + 1) mod BLOCKS_PER_EPOCH =? 0) then
    let nextOffset := mm_tell m in
    store_u32 m (off_blockOffset (u64 (blockNumber + 1) mod BLOCKS_PER_EPOCH)) (u32 (alignUp nextOffset))
  else m.

Fixpoint readBlock_loop (txTypes : TransactionTypeRegistry M Tx) (n : nat) (results : list Tx) : prog M (list Tx) :=
  match n with
  | O => mret results
  | S n =>
      tx ← read txTypes;
      match tx with
      | None => throw (runtime_error "Failed to deserialize transaction")
      | Some tx => readBlock_loop txTypes n (results ++ [tx])
      end
  end.

Definition readBlock (blockNumber : Z) (txTypes : TransactionTypeRegistry M Tx) : prog M (list Tx) :=
  m ← getS;
  let blockOffset := getBlockOffset m blockNumber in
  if blockOffset =? 0 then throw (runtime_error "Block offset is zero")
  else
    putS (mm_seek m (blockOffset + sizeof_block_header));;
    let numTransactions := le_decode (mm_load m (blockOffset + off_numTransactions) 2) in
    readBlock_loop txTypes (Z.to_nat numTransactions) [].

(** ** What an epoch file holds *)

Context (enc : Tx -> list Z).

Definition block_bytes (b : Z * list Tx) : list Z :=
  block_header b.1 (Z.of_nat (length b.2)) ++ enc_all enc b.2.

Definition block_len (b : Z * list Tx) : Z := Z.of_nat (length (block_bytes b)).

(** The recorded offset of the [i]-th block of the epoch. *)
Definition boff (m : M) (i : nat) : Z := load_u32 m (off_blockOffset (Z.of_nat i)).

(** A block at [off] ends inside the mapping, and before the last page below 4 GiB. *)
Definition room (m : M) (off : Z) (b : Z * list Tx) : Prop :=
  off + block_len b <= mm_size m /\ off + block_len b <= U32_MAX - 4095.

(** [m] holds the blocks [blocks] of one epoch, in order: each lies at its recorded offset,
    above the file header, before the next one and inside the mapping; the offset of the
    next block to come is recorded as well. *)
Record epoch_rep (m : M) (blocks : list (Z * list Tx)) : Prop := {
  er_count : Z.of_nat (length blocks) <= BLOCKS_PER_EPOCH;
  er_size : firstBlockOffset <= mm_size m;
  er_offset i : (i <= length blocks)%nat -> Z.of_nat i < BLOCKS_PER_EPOCH ->
    firstBlockOffset <= boff m i <= U32_MAX;
  er_fit i b : blocks !! i = Some b -> boff m i + block_len b <= mm_size m;
  er_next i b : blocks !! i = Some b -> Z.of_nat (S i) < BLOCKS_PER_EPOCH ->
    boff m i + block_len b <= boff m (S i);
  er_bytes i b : blocks !! i = Some b ->
    mm_load m (boff m i) (length (block_bytes b)) = block_bytes b;
  er_txs i b : blocks !! i = Some b -> Z.of_nat (length b.2) <= U16_MAX;
}.

Lemma er_before m blocks i j b : epoch_rep m blocks -> blocks !! i = Some b ->
  (i < j <= length blocks)%nat -> Z.of_nat j < BLOCKS_PER_EPOCH -> boff m i + block_len b <= boff m j.
Proof.
  intros Hr Hi Hj Hlt. destruct Hj as [Hij Hj]. induction Hij as [|j Hij IH].
  - by apply (er_next m blocks Hr).
  - destruct (lookup_lt_is_Some_2 blocks j) as [bj Hbj]; [lia|].
    pose proof (er_next m blocks Hr j bj Hbj Hlt) as Hn. specialize (IH ltac:(lia) ltac:(lia)).
    unfold block_len in *. lia.
Qed.

Context `{!MmapLaws M, !TransactionEncoding enc}.

Lemma length_block_header ms n : length (block_header ms n) = 64%nat.
Proof. unfold block_header. by rewrite !length_app, !length_le_encode, length_replicate. Qed.

Lemma store_u32_load m off v : 0 <= off -> off + 4 <= mm_size m -> in_u32 v ->
  load_u32 (store_u32 m off v) off = v.
Proof.
  intros H1 H2 Hv. unfold load_u32, store_u32.
  pose proof (mm_store_load m off (le_encode 4 v)) as Hl. rewrite length_le_encode in Hl.
  rewrite Hl by lia. apply le_decode_encode. change (256 ^ Z.of_nat 4) with 4294967296. word.
Qed.

Lemma store_u32_disj m off v off' n : 0 <= off -> off + 4 <= mm_size m ->
  off' + Z.of_nat n <= off \/ off + 4 <= off' ->
  mm_load (store_u32 m off v) off' n = mm_load m off' n.
Proof.
  intros H1 H2 Hd. apply mm_store_load_disj; rewrite ?length_le_encode; lia.
Qed.

Lemma store_u32_size m off v : 0 <= off -> off + 4 <= mm_size m -> mm_size (store_u32 m off v) = mm_size m.
Proof. intros H1 H2. apply mm_store_law; rewrite ?length_le_encode; lia. Qed.

(** *** Writing a block at a given offset *)

Lemma write_block m off b :
  firstBlockOffset <= off -> off + block_len b <= mm_size m ->
  let m' := write_all b.2 (mm_seek (mm_store m off (block_header b.1 (Z.of_nat (length b.2)))) (off + sizeof_block_header)) in
  mm_size m' = mm_size m /\ mm_tell m' = off + block_len b /\
  mm_load m' off (length (block_bytes b)) = block_bytes b /\
  forall a k, a + Z.of_nat k <= off -> mm_load m' a k = mm_load m a k.
Proof.
  rewrite firstBlockOffset_val. intros Hoff Hfit. cbn zeta.
  unfold block_len, block_bytes in *. rewrite length_app, length_block_header in *.
  set (hdr := block_header b.1 (Z.of_nat (length b.2))) in *.
  assert (length hdr = 64%nat) as Hh by apply length_block_header.
  destruct (mm_store_law m off hdr) as (Hs1 & Ht1 & Hb1); [lia|rewrite Hh; lia|].
  set (m1 := mm_store m off hdr) in *. unfold sizeof_block_header.
  destruct (mm_seek_law m1 (off + 64)) as (Hs2 & Ht2 & Hb2); [lia|].
  set (m2 := mm_seek m1 (off + 64)) in *.
  assert (mm_wrote m2 (enc_all enc b.2) (write_all b.2 m2)) as Hw by (apply (write_all_wrote enc); lia).
  pose proof Hw as (Hs3 & Ht3 & _). split; [lia|]. split; [lia|].
  assert (forall a k, mm_load m2 a k = mm_load m1 a k) as H21 by (intros; apply mem_load_ext; auto).
  split.
  - rewrite mm_load_app. f_equal.
    + rewrite (mm_wrote_load_disj m2 (enc_all enc b.2)) by (done || lia).
      rewrite H21, <- Hh. apply mm_store_load; lia.
    + replace (off + Z.of_nat 64) with (mm_tell m2) by lia. by apply mm_wrote_load.
  - intros a k Hk. rewrite (mm_wrote_load_disj m2 (enc_all enc b.2)) by (done || lia).
    rewrite H21. apply mm_store_load_disj; lia.
Qed.

(** *** [appendBlock] *)

Lemma off_blockOffset_bounds i : 0 <= i < BLOCKS_PER_EPOCH ->
  16 <= off_blockOffset i /\ off_blockOffset i + 4 <= firstBlockOffset - 4080.
Proof. rewrite firstBlockOffset_val. unfold off_blockOffset, BLOCKS_PER_EPOCH. lia. Qed.

(** The effect of an append at the recorded offset [boff m n] on the regions of the file. *)
Lemma appendBlock_effect m n bn b :
  bn mod BLOCKS_PER_EPOCH = Z.of_nat n -> 0 <= bn < U64_MAX ->
  firstBlockOffset <= boff m n -> room m (boff m n) b ->
  Z.of_nat (length b.2) <= U16_MAX ->
  let m' := appendBlock m bn b.1 b.2 in
  mm_size m' = mm_size m /\
  mm_load m' (boff m n) (length (block_bytes b)) = block_bytes b /\
  (forall a k, firstBlockOffset <= a -> a + Z.of_nat k <= boff m n -> mm_load m' a k = mm_load m a k) /\
  (forall i, Z.of_nat i < BLOCKS_PER_EPOCH -> i <> S n -> boff m' i = boff m i) /\
  (Z.of_nat (S n) < BLOCKS_PER_EPOCH -> boff m' (S n) = alignUp (boff m n + block_len b)).
Proof.
  intros Hn Hbn Hoff [Hfit Hsz] Htx. cbn zeta.
  assert (0 <= Z.of_nat n < BLOCKS_PER_EPOCH) as Hn' by (unfold BLOCKS_PER_EPOCH in *; Z.div_mod_to_equations; lia).
  unfold appendBlock. rewrite Hn, (u32_small (Z.of_nat n)) by (unfold BLOCKS_PER_EPOCH in *; word).
  fold (boff m n). destruct (Z.eqb_spec (boff m n) 0) as [H0|_]; [rewrite firstBlockOffset_val in Hoff; lia|].
  rewrite (u16_small (Z.of_nat (length b.2))) by (word_unfold; lia).
  destruct (write_block m (boff m n) b Hoff Hfit) as (Hs & Ht & Hb & Hlow). cbn zeta in Hs, Ht, Hb, Hlow.
  set (m3 := write_all b.2 _) in *. rewrite (u64_small (bn + 1)) by (word_unfold; lia).
  assert (0 <= block_len b) as Hbl by (unfold block_len; lia).
  assert ((bn + 1) mod BLOCKS_PER_EPOCH = if decide (Z.of_nat (S n) < BLOCKS_PER_EPOCH) then Z.of_nat (S n) else 0) as ->.
  { unfold BLOCKS_PER_EPOCH in *. case_decide; Z.div_mod_to_equations; lia. }
  assert (forall i, Z.of_nat i < BLOCKS_PER_EPOCH -> boff m3 i = boff m i) as Hboff.
  { intros i Hi. unfold boff, load_u32. f_equal. apply Hlow.
    pose proof (off_blockOffset_bounds (Z.of_nat i) ltac:(lia)). lia. }
  case_decide as Hlast; [destruct (Z.eqb_spec (Z.of_nat (S n)) 0); [lia|]|]; cbn [negb].
  - pose proof (off_blockOffset_bounds (Z.of_nat (S n)) ltac:(lia)) as [Hb1 Hb2].
    assert (in_u32 (alignUp (mm_tell m3))) as Hal.
    { rewrite Ht. pose proof (alignUp_bounds (boff m n + block_len b)). rewrite firstBlockOffset_val in Hoff. word_unfold; lia. }
    rewrite (u32_small _ Hal). rewrite firstBlockOffset_val in *.
    split; [by rewrite store_u32_size by lia|].
    split; [by rewrite store_u32_disj by lia|].
    split; [intros a k Ha Hk; rewrite store_u32_disj by lia; apply Hlow; lia|].
    split.
    + intros i Hi Hne. rewrite <- Hboff by done. unfold boff, load_u32. f_equal.
      apply store_u32_disj; [lia..|]. unfold off_blockOffset. lia.
    + intros _. rewrite <- Ht. apply store_u32_load; [lia..|done].
  - split; [done|]. split; [done|]. split; [intros; apply Hlow; lia|]. split; [auto|lia].
Qed.

Lemma appendBlock_rep m blocks bn b :
  epoch_rep m blocks -> bn mod BLOCKS_PER_EPOCH = Z.of_nat (length blocks) -> 0 <= bn < U64_MAX ->
  room m (boff m (length blocks)) b -> Z.of_nat (length b.2) <= U16_MAX ->
  epoch_rep (appendBlock m bn b.1 b.2) (blocks ++ [b]).
Proof.
  intros Hr Hn Hbn Hfit Htx. set (n := length blocks) in *.
  assert (Z.of_nat n < BLOCKS_PER_EPOCH) as Hn'.
  { unfold BLOCKS_PER_EPOCH in *. Z.div_mod_to_equations; lia. }
  pose proof (er_offset m blocks Hr n ltac:(done) Hn') as Hoff. pose proof (er_size m blocks Hr) as Hsz.
  assert (0 <= block_len b) as Hbl by (unfold block_len; lia). pose proof Hfit as [Hfit1 Hfit2].
  destruct (appendBlock_effect m n bn b Hn Hbn ltac:(lia) Hfit Htx) as (Hs & Hb & Hlow & Hi & Hnext).
  set (m' := appendBlock m bn b.1 b.2) in *.
  assert (forall i b0, (blocks ++ [b]) !! i = Some b0 ->
    (blocks !! i = Some b0 /\ (i < n)%nat) \/ (i = n /\ b0 = b)) as Hcase.
  { intros i b0 [Hib|[Hge Hib]]%lookup_app_Some; [left; split; [done|by apply lookup_lt_Some in Hib]|].
    apply list_lookup_singleton_Some in Hib as [? ->]. right. split; [lia|done]. }
  assert (forall i, (i <= n)%nat -> boff m' i = boff m i) as Hkeep by (intros; apply Hi; lia).
  split.
  - rewrite length_app. cbn. lia.
  - by rewrite Hs.
  - intros i Hile Hib. rewrite length_app in Hile. cbn in Hile.
    destruct (decide (i = S n)) as [->|]; [|rewrite Hkeep by lia; apply (er_offset m blocks Hr); lia].
    rewrite Hnext by done. pose proof (alignUp_bounds (boff m n + block_len b)).
    rewrite firstBlockOffset_val in *. word_unfold; lia.
  - intros i b0 [[Hib Hlt]|[-> ->]]%Hcase; rewrite Hkeep, Hs by lia; [by apply (er_fit m blocks Hr)|done].
  - intros i b0 [[Hib Hlt]|[-> ->]]%Hcase Hnx.
    + rewrite !Hkeep by lia. by apply (er_next m blocks Hr).
    + rewrite Hkeep, Hnext by done. pose proof (alignUp_bounds (boff m n + block_len b)).
      rewrite firstBlockOffset_val in *. word_unfold; lia.
  - intros i b0 [[Hib Hlt]|[-> ->]]%Hcase; rewrite Hkeep by lia; [|done].
    rewrite Hlow; [by apply (er_bytes m blocks Hr)|apply (er_offset m blocks Hr); lia|].
    pose proof (er_before m blocks i n b0 Hr Hib ltac:(lia) Hn') as Hbef. by unfold block_len in Hbef.
  - intros i b0 [[Hib Hlt]|[-> ->]]%Hcase; [by apply (er_txs m blocks Hr i)|done].
Qed.

(** *** [readBlock] *)

Context (txTypes : TransactionTypeRegistry M Tx) `{!TransactionCodec enc txTypes}.

Lemma readBlock_loop_enc txs m results : at_txs enc m txs ->
  exists m', readBlock_loop txTypes (length txs) results m = (Ret (results ++ txs), m') /\
    mm_advanced m (length (enc_all enc txs)) m'.
Proof.
  revert m results. induction txs as [|tx txs IH]; intros m results Hat.
  - exists m. cbn. rewrite app_nil_r. split; [done|apply mm_advanced_refl].
  - destruct (read_enc_cons enc txTypes tx txs m Hat) as (m1 & Hr1 & Ha1 & Hat1).
    destruct (IH m1 (results ++ [tx]) Hat1) as (m2 & Hr2 & Ha2).
    exists m2. cbn [readBlock_loop length]. rewrite (prog_bind_Ret _ _ _ _ _ Hr1), Hr2, <- app_assoc.
    split; [done|]. unfold enc_all. cbn [map concat]. rewrite length_app. by eapply mm_advanced_trans.
Qed.

Lemma epoch_rep_ext m m' blocks : epoch_rep m blocks -> mm_size m' = mm_size m ->
  (forall i, mm_byte m' i = mm_byte m i) -> epoch_rep m' blocks.
Proof.
  intros Hr Hs Hb. assert (forall a k, mm_load m' a k = mm_load m a k) as Hl by (intros; apply mem_load_ext; auto).
  assert (forall i, boff m' i = boff m i) as Hbo by (intros; unfold boff, load_u32; by rewrite Hl).
  destruct Hr. split; intros; rewrite ?Hs, ?Hbo, ?Hl; eauto.
Qed.

(** Reading at an offset where a block was written. *)
Lemma readBlock_at m off b bn :
  getBlockOffset m bn = off -> firstBlockOffset <= off -> off + block_len b <= mm_size m -> Z.of_nat (length b.2) <= U16_MAX ->
  mm_load m off (length (block_bytes b)) = block_bytes b ->
  exists m', readBlock bn txTypes m = (Ret b.2, m') /\ mm_size m' = mm_size m /\ forall a, mm_byte m' a = mm_byte m a.
Proof.
  rewrite firstBlockOffset_val. intros Hbo Hoff Hfit Htx Hbytes.
  unfold readBlock. rewrite (prog_bind_Ret getS _ _ m m) by done. cbn zeta. rewrite Hbo.
  unfold mbind, prog_bind, putS.
  destruct (Z.eqb_spec off 0) as [|_]; [lia|].
  assert (le_decode (mm_load m (off + off_numTransactions) 2) = Z.of_nat (length b.2)) as ->.
  { unfold block_bytes, block_header in Hbytes. rewrite <- !app_assoc in Hbytes.
    apply mm_load_part in Hbytes. rewrite !length_le_encode in Hbytes. unfold off_numTransactions.
    change 8 with (Z.of_nat 8). rewrite Hbytes. apply le_decode_encode.
    change (256 ^ Z.of_nat 2) with 65536. word_unfold; lia. }
  rewrite Nat2Z.id. unfold block_len, block_bytes in Hfit, Hbytes.
  rewrite length_app, length_block_header in Hfit. unfold sizeof_block_header.
  destruct (mm_seek_law m (off + 64)) as (Hs & Ht & Hb); [lia|].
  destruct (readBlock_loop_enc b.2 (mm_seek m (off + 64)) []) as (m' & Hrun & Hs' & _ & Hb').
  - split; [lia|]. split; [lia|]. rewrite Ht, mm_seek_load by lia.
    rewrite length_app, mm_load_app in Hbytes. apply app_inj_1 in Hbytes as [_ Hbytes]; [|apply length_mm_load].
    by rewrite length_block_header in Hbytes.
  - exists m'. split; [done|]. split; [lia|]. intros a. by rewrite Hb', Hb.
Qed.

Lemma readBlock_rep m blocks i b bn :
  epoch_rep m blocks -> blocks !! i = Some b -> bn mod BLOCKS_PER_EPOCH = Z.of_nat i ->
  exists m', readBlock bn txTypes m = (Ret b.2, m') /\ epoch_rep m' blocks.
Proof.
  intros Hr Hi Hbn.
  assert (Z.of_nat i < BLOCKS_PER_EPOCH) as Hlt by (unfold BLOCKS_PER_EPOCH in *; Z.div_mod_to_equations; lia).
  pose proof (er_offset m blocks Hr i ltac:(apply lookup_lt_Some in Hi; lia) Hlt) as Hoff.
  destruct (readBlock_at m (boff m i) b bn) as (m' & Hrun & Hs & Hb).
  - unfold getBlockOffset. by rewrite Hbn.
  - lia.
  - by apply (er_fit m blocks Hr).
  - by apply (er_txs m blocks Hr i).
  - by apply (er_bytes m blocks Hr).
  - exists m'. split; [done|]. by apply (epoch_rep_ext m).
Qed.

(** *** A new file *)

(** The four constant fields and the first offset, one store each. *)
Lemma openEpoch_first m : firstBlockOffset <= mm_size m ->
  mm_size (openEpoch true m) = mm_size m /\ boff (openEpoch true m) 0 = firstBlockOffset.
Proof.
  rewrite firstBlockOffset_val. intros Hsz. unfold openEpoch.
  change (u32 (alignUp sizeof_epoch_header)) with 266240.
  unfold off_version, off_blocksPerEpoch, off_numBlocks, off_blockAlignment.
  change (off_blockOffset 0) with 16.
  set (m1 := store_u32 m 0 _). assert (mm_size m1 = mm_size m) as S1 by (apply store_u32_size; lia).
  set (m2 := store_u32 m1 4 _). assert (mm_size m2 = mm_size m) as S2 by (unfold m2; rewrite store_u32_size; lia).
  set (m3 := store_u32 m2 8 _). assert (mm_size m3 = mm_size m) as S3 by (unfold m3; rewrite store_u32_size; lia).
  set (m4 := store_u32 m3 12 _). assert (mm_size m4 = mm_size m) as S4 by (unfold m4; rewrite store_u32_size; lia).
  split; [rewrite store_u32_size; lia|].
  unfold boff. change (off_blockOffset (Z.of_nat 0)) with 16. apply store_u32_load; [lia|lia|word].
Qed.

Lemma openEpoch_rep m : firstBlockOffset <= mm_size m ->
  epoch_rep (openEpoch true m) [].
Proof.
  intros Hsz. destruct (openEpoch_first m Hsz) as [Hs Hb].
  split; try (intros i b Hi; by rewrite lookup_nil in Hi).
  - done.
  - by rewrite Hs.
  - intros [|i] Hi _; [|cbn in Hi; lia]. rewrite Hb, firstBlockOffset_val. word_unfold; lia.
Qed.
End EpochFile.

Section Theorems.
Context {Tx W St M : Type} `{!MmapHandle M, !MmapLaws M, !Transaction Tx W St M}.
Context (enc : Tx -> list Z) `{!TransactionEncoding enc}.

(** Creating an epoch file leaves an empty journal; appending the next block of the epoch
    keeps the file well-formed, with that block added after the ones it held. *)
Theorem epoch_journal m blocks bn b :
  (firstBlockOffset <= mm_size m -> epoch_rep enc (openEpoch true m) []) /\
  (epoch_rep enc m blocks -> bn mod BLOCKS_PER_EPOCH = Z.of_nat (length blocks) -> 0 <= bn < U64_MAX ->
   room enc m (boff m (length blocks)) b -> Z.of_nat (length b.2) <= U16_MAX ->
   epoch_rep enc (appendBlock m bn b.1 b.2) (blocks ++ [b])).
Proof.
  split; [by apply openEpoch_rep|]. intros. by eapply appendBlock_rep.
Qed.

(** Every block of the journal reads back as the transactions that were appended, whatever
    was appended after it; reading changes nothing that is stored. *)
Theorem readBlock_appended (txTypes : TransactionTypeRegistry M Tx) `{!TransactionCodec enc txTypes} m blocks i b bn :
  epoch_rep enc m blocks -> blocks !! i = Some b -> bn mod BLOCKS_PER_EPOCH = Z.of_nat i ->
  exists m', readBlock bn txTypes m = (Ret b.2, m') /\ epoch_rep enc m' blocks.
Proof. by apply readBlock_rep. Qed.

(** An append never disturbs the bytes of an earlier block: everything between the header
    of the file and the offset of the new block is as it was, and so are the recorded
    offsets. *)
Theorem appendBlock_frame m blocks bn b :
  epoch_rep enc m blocks -> bn mod BLOCKS_PER_EPOCH = Z.of_nat (length blocks) -> 0 <= bn < U64_MAX ->
  room enc m (boff m (length blocks)) b -> Z.of_nat (length b.2) <= U16_MAX ->
  let m' := appendBlock m bn b.1 b.2 in
  (forall a k, firstBlockOffset <= a -> a + Z.of_nat k <= boff m (length blocks) -> mm_load m' a k = mm_load m a k) /\
  (forall i, (i <= length blocks)%nat -> boff m' i = boff m i).
Proof.
  intros Hr Hn Hbn Hfit Htx. cbn zeta.
  assert (Z.of_nat (length blocks) < BLOCKS_PER_EPOCH) as Hlt.
  { unfold BLOCKS_PER_EPOCH in *. Z.div_mod_to_equations; lia. }
  pose proof (er_offset enc m blocks Hr _ ltac:(done) Hlt) as Hoff. pose proof (er_size enc m blocks Hr) as Hsz.
  destruct (appendBlock_effect enc m (length blocks) bn b Hn Hbn (proj1 Hoff) Hfit Htx)
    as (_ & _ & Hlow & Hi & _).
  split; [done|]. intros i Hile. apply Hi; lia.
Qed.
End Theorems.

(** Reading a block whose offset was never recorded throws, and moves nothing. *)
Theorem readBlock_unwritten {Tx M} `{!MmapHandle M} (m : M) (bn : Z) (txTypes : TransactionTypeRegistry M Tx) :
  getBlockOffset m bn = 0 -> readBlock bn txTypes m = (Throw (runtime_error "Block offset is zero"), m).
Proof. intros H. unfold readBlock, mbind, prog_bind, getS. by rewrite H. Qed.

(** The recorded offset is 32 bits wide: a block that ends in the last page below 4 GiB
    leaves the offset 0 for the next block, and the append of that next block then
    overwrites the file at the offset of the epoch's first block. *)
Theorem append_wraps {Tx W St M} `{!MmapHandle M, !MmapLaws M, !Transaction Tx W St M} (m : M) bn ms :
  0 <= bn < U64_MAX -> (bn + 1) mod BLOCKS_PER_EPOCH <> 0 ->
  getBlockOffset m bn = U32_MAX - 4095 ->
  U32_MAX - 4095 + sizeof_block_header <= mm_size m ->
  getBlockOffset (appendBlock (M:=M) (Tx:=Tx) m bn ms []) (bn + 1) = 0.
Proof.
  intros Hbn Hne Hoff Hfit. unfold getBlockOffset in Hoff. unfold appendBlock.
  assert (0 <= bn mod BLOCKS_PER_EPOCH < BLOCKS_PER_EPOCH) as Hi by (unfold BLOCKS_PER_EPOCH; apply Z.mod_pos_bound; lia).
  rewrite (u32_small (bn mod _)) by (unfold BLOCKS_PER_EPOCH in *; word). rewrite Hoff.
  change (U32_MAX - 4095) with 4294963200 in *. cbn [Z.eqb length].
  rewrite (u64_small (bn + 1)) by (word_unfold; lia).
  destruct (Z.eqb_spec ((bn + 1) mod BLOCKS_PER_EPOCH) 0); [done|]. cbn [negb write_all foldl].
  unfold sizeof_block_header in *.
  destruct (mm_store_law m 4294963200 (block_header ms (u16 (Z.of_nat 0)))) as (Hs1 & _ & _).
  { lia. } { rewrite length_block_header. lia. }
  destruct (mm_seek_law (mm_store m 4294963200 (block_header ms (u16 (Z.of_nat 0)))) (4294963200 + 64)) as (Hs & Ht & _); [lia|].
  unfold write_all; cbn [foldl]. rewrite Ht. change (u32 (alignUp (4294963200 + 64))) with 0. unfold getBlockOffset.
  assert (0 <= (bn + 1) mod BLOCKS_PER_EPOCH < BLOCKS_PER_EPOCH) as Hi' by (unfold BLOCKS_PER_EPOCH; apply Z.mod_pos_bound; lia).
  destruct (off_blockOffset_bounds _ Hi') as [H1 H2]. rewrite firstBlockOffset_val in H2.
  apply store_u32_load; [lia|lia|word].
Qed.

(** ** A concrete epoch: a new file of one megabyte and two blocks *)

Definition ep0 : bytemap := openEpoch true (blank 1048576).
Definition eb0 : Z * list TestTransaction := (1700000000000, [mkTestTransaction 1700000000000 5 0; mkTestTransaction 1700000000001 (-7) 3]).
Definition eb1 : Z * list TestTransaction := (1700000060000, [mkTestTransaction 1700000060000 1 1]).
Definition ep1 : bytemap := appendBlock ep0 0 eb0.1 eb0.2.
Definition ep2 : bytemap := appendBlock ep1 1 eb1.1 eb1.2.

Lemma ep0_rep : epoch_rep tt_enc ep0 [].
Proof. apply (openEpoch_rep tt_enc (blank 1048576)). by_compute. Qed.
Lemma ep1_rep : epoch_rep tt_enc ep1 [eb0].
Proof. apply (appendBlock_rep tt_enc ep0 [] 0 eb0 ep0_rep); by_compute. Qed.
Lemma ep2_rep : epoch_rep tt_enc ep2 [eb0; eb1].
Proof. apply (appendBlock_rep tt_enc ep1 [eb0] 1 eb1 ep1_rep); by_compute. Qed.

Lemma epoch_journal_witness : epoch_rep tt_enc ep0 [] /\ epoch_rep tt_enc ep1 [eb0].
Proof.
  split.
  - apply (proj1 (epoch_journal tt_enc (blank 1048576) [] 0 eb0)). by_compute.
  - apply (proj2 (epoch_journal tt_enc ep0 [] 0 eb0) ep0_rep); by_compute.
Defined.

Lemma readBlock_appended_witness : exists m',
  readBlock 0 sample_types ep2 = (Ret eb0.2, m') /\ epoch_rep tt_enc m' [eb0; eb1].
Proof. apply (readBlock_appended tt_enc sample_types ep2 [eb0; eb1] 0 eb0 0 ep2_rep); reflexivity. Defined.

Lemma appendBlock_frame_witness :
  (forall a k, 266240 <= a -> a + Z.of_nat k <= 270336 -> mm_load ep2 a k = mm_load ep1 a k) /\
  (forall i, (i <= 1)%nat -> boff ep2 i = boff ep1 i).
Proof. apply (appendBlock_frame tt_enc ep1 [eb0] 1 eb1 ep1_rep); by_compute. Defined.

Lemma readBlock_unwritten_witness :
  readBlock 7 sample_types ep2 = (Throw (runtime_error "Block offset is zero"), ep2).
Proof. apply (readBlock_unwritten ep2 7 sample_types). reflexivity. Defined.

(** A file of 4 GiB whose first block was recorded at the last page below 4 GiB. *)
Definition ep_full : bytemap := store_u32 (blank 4295000000) (off_blockOffset 0) 4294963200.

Lemma append_wraps_witness :
  getBlockOffset (appendBlock (M:=bytemap) (Tx:=TestTransaction) ep_full 0 1700000000000 []) 1 = 0.
Proof. apply (append_wraps ep_full 0 1700000000000); by_compute. Defined.
