(* ===== verification/EpochCapacity.v ===== *)
(** * EpochCapacity

    How many blocks an epoch file takes (src/src/storage/EpochFile.cpp): the constructor maps
    the file and one megabyte past its end, and appends go into that mapping for as long as
    the file stays open. *)

From S2P Require Import Prelude Memory Transaction Registry StateOverride TestChainDesign EpochFile.

Section Capacity.
Context {Tx W St M : Type} `{!MmapHandle M, !MmapLaws M, !Transaction Tx W St M}.
Context (enc : Tx -> list Z) `{!TransactionEncoding enc}.
Implicit Types (m : M) (b : Z * list Tx) (blocks : list (Z * list Tx)).

(** The pages a block takes, and the first offset behind [blocks]. *)
Definition space b : Z := 4096 * ((block_len enc b + 4095) / 4096).
Definition used blocks : Z := firstBlockOffset + foldr (fun b n => space b + n) 0 blocks.

(** Every recorded offset is the end of the blocks before it, rounded up to a page. *)
Definition packed m blocks : Prop :=
  forall i, (i <= length blocks)%nat -> Z.of_nat i < BLOCKS_PER_EPOCH -> boff m i = used (take i blocks).

(** Appending a list of blocks, [bn] being the number of the first. *)
Fixpoint append_all m (bn : Z) blocks : M :=
  match blocks with
  | [] => m
  | b :: blocks => append_all (appendBlock m bn b.1 b.2) (bn + 1) blocks
  end.

Lemma block_len_pos b : 64 <= block_len enc b.
Proof. unfold block_len, block_bytes. rewrite length_app, length_block_header. lia. Qed.

Lemma space_bounds b : block_len enc b <= space b < block_len enc b + 4096 /\ 4096 <= space b.
Proof. pose proof (block_len_pos b). unfold space. Z.div_mod_to_equations. lia. Qed.

Lemma used_snoc blocks b : used (blocks ++ [b]) = used blocks + space b.
Proof. unfold used. rewrite foldr_app. cbn. rewrite Z.add_0_r. induction blocks as [|b0 l IH]; cbn; [lia|]. lia. Qed.

Lemma used_page blocks : exists k, used blocks = 4096 * k /\ firstBlockOffset + 4096 * Z.of_nat (length blocks) <= used blocks.
Proof.
  induction blocks as [|b blocks (k & Hk & Hle)] using rev_ind; [exists 65; done|].
  rewrite used_snoc, length_app. pose proof (proj2 (space_bounds b)) as Hs. cbn [length].
  exists (k + (block_len enc b + 4095) / 4096). split; [unfold space in *; lia|lia].
Qed.

Lemma alignUp_used blocks b : used blocks + block_len enc b <= U32_MAX - 4095 -> alignUp (used blocks + block_len enc b) = used blocks + space b.
Proof.
  intros H. destruct (used_page blocks) as (k & Hk & Hle). pose proof (block_len_pos b). rewrite firstBlockOffset_val in Hle.
  rewrite alignUp_spec by (word_unfold; lia). unfold space. rewrite Hk. Z.div_mod_to_equations. lia.
Qed.

Lemma packed_append m blocks bn b :
  epoch_rep enc m blocks -> packed m blocks -> bn mod BLOCKS_PER_EPOCH = Z.of_nat (length blocks) -> 0 <= bn < U64_MAX ->
  room enc m (boff m (length blocks)) b -> Z.of_nat (length b.2) <= U16_MAX ->
  packed (appendBlock m bn b.1 b.2) (blocks ++ [b]).
Proof.
  intros Hr Hp Hn Hbn Hfit Htx i Hi Hlt. rewrite length_app in Hi. cbn in Hi. set (n := length blocks) in *.
  assert (Z.of_nat n < BLOCKS_PER_EPOCH) as Hn' by (unfold BLOCKS_PER_EPOCH in *; Z.div_mod_to_equations; lia).
  pose proof (er_offset enc m blocks Hr n ltac:(done) Hn') as [Hoff _].
  destruct (appendBlock_effect enc m n bn b Hn Hbn Hoff Hfit Htx) as (_ & _ & _ & Hother & Hnext).
  destruct (decide (i = S n)) as [->|Hne].
  - rewrite Hnext by done. rewrite (Hp n) in * by done. rewrite take_ge in * by done.
    rewrite (take_ge (blocks ++ [b])) by (rewrite length_app; cbn; lia). rewrite used_snoc. apply alignUp_used, Hfit.
  - rewrite Hother by done. rewrite take_app_le by lia. apply Hp; [lia|done].
Qed.

(** The file is not yet full, and the next block fits exactly if its end does. *)
Lemma packed_room m blocks b : packed m blocks -> Z.of_nat (length blocks) < BLOCKS_PER_EPOCH ->
  room enc m (boff m (length blocks)) b <-> used blocks + block_len enc b <= mm_size m /\ used blocks + block_len enc b <= U32_MAX - 4095.
Proof. intros Hp Hlt. by rewrite (Hp _ (le_n _) Hlt), take_ge by done. Qed.

Lemma used_app_le l1 l2 : used l1 <= used (l1 ++ l2).
Proof.
  induction l2 as [|b l2 IH] using rev_ind; [by rewrite app_nil_r|]. rewrite app_assoc, used_snoc. pose proof (space_bounds b). lia.
Qed.

Lemma append_all_rep m blocks bn new :
  epoch_rep enc m blocks -> packed m blocks -> bn mod BLOCKS_PER_EPOCH + Z.of_nat (length new) <= BLOCKS_PER_EPOCH ->
  (new <> [] -> bn mod BLOCKS_PER_EPOCH = Z.of_nat (length blocks)) -> 0 <= bn -> bn + Z.of_nat (length new) <= U64_MAX ->
  Forall (fun b => Z.of_nat (length b.2) <= U16_MAX) new ->
  used (blocks ++ new) <= mm_size m -> used (blocks ++ new) <= U32_MAX - 4095 ->
  epoch_rep enc (append_all m bn new) (blocks ++ new) /\ packed (append_all m bn new) (blocks ++ new) /\ mm_size (append_all m bn new) = mm_size m.
Proof.
  revert m blocks bn. induction new as [|b new IH]; intros m blocks bn Hr Hp Hlen Hn H0 Hbn Htx Hs1 Hs2; cbn [append_all].
  { by rewrite app_nil_r. }
  apply Forall_cons in Htx as [Hb Htx]. cbn [length] in Hlen, Hbn. specialize (Hn ltac:(done)).
  rewrite cons_middle, app_assoc in Hs1, Hs2 |- *. pose proof (used_app_le (blocks ++ [b]) new) as Hle. rewrite used_snoc in Hle.
  pose proof (space_bounds b) as Hsp. assert (Z.of_nat (length blocks) < BLOCKS_PER_EPOCH) as Hlt by lia.
  assert (room enc m (boff m (length blocks)) b) as Hroom by (apply packed_room; [done|done|lia]).
  pose proof (er_offset enc m blocks Hr _ (le_n _) Hlt) as [Hoff _].
  destruct (appendBlock_effect enc m _ bn b Hn ltac:(lia) Hoff Hroom Hb) as (Hsz & _).
  rewrite <- Hsz in Hs1 |- *. apply IH; [|by apply packed_append; [..|lia| |]| | |lia|lia|done|done|done].
  - refine (appendBlock_rep enc m blocks bn b Hr Hn _ Hroom Hb). lia.
  - destruct new; [pose proof (Z.mod_pos_bound (bn + 1) BLOCKS_PER_EPOCH); cbn; unfold BLOCKS_PER_EPOCH in *; lia|].
    cbn [length] in *. unfold BLOCKS_PER_EPOCH in *. Z.div_mod_to_equations. lia.
  - intros Hne. rewrite length_app. destruct new; [done|]. cbn [length] in *. unfold BLOCKS_PER_EPOCH in *. Z.div_mod_to_equations. lia.
Qed.
End Capacity.

(** C40: what fits into an epoch file.  A new file on a mapping of any size takes every list of
    blocks whose lengths, rounded up to pages, fit behind the header, and then the next block
    exactly if its end does; on the one megabyte that the constructor maps for a new file
    there is never room for more than 191 blocks, although the epoch is meant for 65536. *)
Theorem epoch_capacity {Tx W St M} `{!MmapHandle M, !MmapLaws M, !Transaction Tx W St M}
    (enc : Tx -> list Z) `{!TransactionEncoding enc} (m : M) blocks bn :
  bn mod BLOCKS_PER_EPOCH = 0 -> 0 <= bn -> bn + Z.of_nat (length blocks) <= U64_MAX ->
  Z.of_nat (length blocks) < BLOCKS_PER_EPOCH -> Forall (fun b => Z.of_nat (length b.2) <= U16_MAX) blocks ->
  used enc blocks <= mm_size m -> used enc blocks <= U32_MAX - 4095 ->
  let m' := append_all (openEpoch true m) bn blocks in
  epoch_rep enc m' blocks /\
  (forall b, room enc m' (boff m' (length blocks)) b <-> used enc blocks + block_len enc b <= mm_size m /\ used enc blocks + block_len enc b <= U32_MAX - 4095) /\
  (mm_size m = 1048576 -> (length blocks <= 191)%nat /\ (length blocks = 191%nat -> forall b, ~ room enc m' (boff m' (length blocks)) b)).
Proof.
  intros Hn H0 Hbn Hlt Htx Hs1 Hs2 m'. destruct (used_page enc blocks) as (_ & _ & Hle).
  assert (firstBlockOffset <= mm_size m) as Hsz by lia. destruct (openEpoch_first m Hsz) as [Hs Hb].
  destruct (append_all_rep enc (openEpoch true m) [] bn blocks) as (Hr & Hp & Hsz').
  - by apply openEpoch_rep.
  - intros i Hi _. cbn in Hi. replace i with 0%nat by lia. rewrite Hb. done.
  - lia.
  - done.
  - done.
  - done.
  - done.
  - by rewrite Hs.
  - done.
  - fold m' in Hr, Hp, Hsz'. cbn [app] in Hr, Hp. rewrite Hs in Hsz'.
    assert (forall b, room enc m' (boff m' (length blocks)) b <-> used enc blocks + block_len enc b <= mm_size m /\ used enc blocks + block_len enc b <= U32_MAX - 4095) as Hroom.
    { intros b. rewrite <- Hsz'. by apply packed_room. }
    split; [done|]. split; [done|]. intros Hm. rewrite firstBlockOffset_val in Hle. split; [lia|]. intros Hlen b [Hfit _]%Hroom.
    pose proof (block_len_pos enc b). lia.
Qed.

(** 191 blocks of one transaction fill the file. *)
Definition cap_blocks : list (Z * list TestTransaction) := replicate 191 eb1.

Lemma cap_used : used tt_enc cap_blocks = 1048576.
Proof. vm_compute. reflexivity. Qed.

Lemma epoch_capacity_witness : let m' := append_all (openEpoch true (blank 1048576)) 0 cap_blocks in
  epoch_rep tt_enc m' cap_blocks /\ forall b, ~ room tt_enc m' (boff m' 191) b.
Proof.
  destruct (epoch_capacity tt_enc (blank 1048576) cap_blocks 0) as (Hr & _ & Hcap); [by_compute..|].
  split; [exact Hr|]. exact (proj2 (Hcap eq_refl) eq_refl).
Defined.
