(* ===== verification/Journal.v ===== *)
(** * Journal

    The chain's journal as the backend sees it: the sequence of all blocks, cut into epoch
    files of 65536 blocks that are opened by number
    (src/src/blockchain/BlockchainBackend.cpp: [getEpochFile], and the calls of
    [appendBlock] and [readBlock]).  [Journal] is the interface the backend's theorems
    rely on; the epoch files implement it. *)

From S2P Require Import Prelude Memory Transaction Registry StateOverride TestChainDesign EpochFile.

(** ** The interface *)
Class Journal (J M Tx : Type) := {
  j_appendBlock : J -> Z -> Z -> list Tx -> outcome J;
  j_readBlock : J -> TransactionTypeRegistry M Tx -> Z -> outcome (list Tx) * J;
}.

(** [j_rep j blocks]: the journal holds exactly [blocks], oldest first.  [j_decodes r]: the
    type registry [r] reads the transactions a journal holds. *)
Class JournalLaws (J M Tx : Type) `{!Journal J M Tx} := {
  j_rep : J -> list (Z * list Tx) -> Prop;
  j_fits : J -> list (Z * list Tx) -> Z * list Tx -> Prop;
  j_decodes : TransactionTypeRegistry M Tx -> Prop;
  j_append_law j blocks b : j_rep j blocks -> j_fits j blocks b ->
    exists j', j_appendBlock j (Z.of_nat (length blocks)) b.1 b.2 = Ret j' /\ j_rep j' (blocks ++ [b]);
  j_read_law j r blocks i b : j_rep j blocks -> j_decodes r -> blocks !! i = Some b ->
    exists j', j_readBlock j r (Z.of_nat i) = (Ret b.2, j') /\ j_rep j' blocks;
}.

(** ** Epochs of a list of blocks *)

Definition bpe : nat := Z.to_nat BLOCKS_PER_EPOCH.

Lemma bpe_Z : Z.of_nat bpe = BLOCKS_PER_EPOCH.
Proof. done. Qed.

Lemma bpe_pos : (0 < bpe)%nat.
Proof. apply Nat2Z.inj_lt. by rewrite bpe_Z. Qed.

Opaque bpe.

Section Epochs.
Context {A : Type}.
Implicit Types (l : list A).

Definition epoch_of (l : list A) (e : nat) : list A := take bpe (drop (e * bpe) l).

Lemma length_epoch l e : length (epoch_of l e) = (bpe `min` (length l - e * bpe))%nat.
Proof. unfold epoch_of. by rewrite length_take, length_drop. Qed.

Lemma epoch_lookup l i x : l !! i = Some x -> epoch_of l (i / bpe) !! (i mod bpe)%nat = Some x.
Proof.
  intros Hi. pose proof bpe_pos. unfold epoch_of. rewrite lookup_take_lt by (apply Nat.mod_upper_bound; lia).
  rewrite lookup_drop. rewrite <- Hi. f_equal. pose proof (Nat.div_mod_eq i bpe). lia.
Qed.

Lemma epoch_snoc l x e : epoch_of (l ++ [x]) e =
  if decide (e = length l / bpe)%nat then epoch_of l e ++ [x] else epoch_of l e.
Proof.
  pose proof bpe_pos as Hp. pose proof (Nat.div_mod_eq (length l) bpe) as Hdm.
  pose proof (Nat.mod_upper_bound (length l) bpe ltac:(lia)) as Hm. unfold epoch_of.
  set (q := (length l / bpe)%nat) in *. set (r := (length l mod bpe)%nat) in *.
  case_decide as He.
  - subst e. rewrite drop_app_le by lia. rewrite take_app_ge by (rewrite length_drop; lia).
    rewrite length_drop. rewrite (take_ge (drop _ _)) by (rewrite length_drop; lia). f_equal.
    apply take_ge. cbn. lia.
  - destruct (decide (e < q)%nat) as [Hlt|Hge].
    + assert (e * bpe + bpe <= q * bpe)%nat by nia.
      rewrite drop_app_le by lia. apply take_app_le. rewrite length_drop. lia.
    + assert (q * bpe + bpe <= e * bpe)%nat by nia.
      rewrite !drop_ge; [done|lia|rewrite length_app; cbn; lia].
Qed.
End Epochs.

Section EpochFiles.
Context {Tx W St M : Type} `{!MmapHandle M, !Transaction Tx W St M}.

(** The epoch files by name, open or on disk.  [newFile] is the mapping of a file that has
    just been created; [canOpen] whether the operating system opens the file. *)
Context (newFile : string -> M) (canOpen : string -> bool).

Abbreviation EpochFiles := (gmap string M).

Definition epochName (blockNumber : Z) : string :=
  let epochNumber := u32 (blockNumber / BLOCKS_PER_EPOCH) in pretty epochNumber +:+ ".bin".

(** [None]: the null pointer of a failed open. *)
Definition getEpochFile (blockNumber : Z) : prog EpochFiles (option M) :=
  fs ← getS;
  let name := epochName blockNumber in
  if negb (canOpen name) then mret None
  else
    match fs !! name with
    | Some m => mret (Some m)
    | None =>
        let m := openEpoch true (newFile name) in
        putS (<[name := m]> fs);; mret (Some m)
    end.

Definition journal_append (fs : EpochFiles) (blockNumber millis : Z) (transactions : list Tx) : outcome EpochFiles :=
  let '(epochFile, fs) := getEpochFile blockNumber fs in
  epochFile ← epochFile;
  m ← deref NullDeref epochFile;
  mret (<[epochName blockNumber := appendBlock m blockNumber millis transactions]> fs).

Definition journal_read (fs : EpochFiles) (txTypes : TransactionTypeRegistry M Tx) (blockNumber : Z) : outcome (list Tx) * EpochFiles :=
  match getEpochFile blockNumber fs with
  | (Ret (Some m), fs) =>
      let '(r, m) := readBlock blockNumber txTypes m in (r, <[epochName blockNumber := m]> fs)
  | (_, fs) => (Throw (runtime_error "Failed to open epoch file"), fs)
  end.

Definition EpochFiles_Journal : Journal EpochFiles M Tx := {|
  j_appendBlock := journal_append;
  j_readBlock := journal_read;
|}.

(** ** The epoch files implement the journal *)
Context (enc : Tx -> list Z) `{!MmapLaws M, !TransactionEncoding enc}.
Implicit Types (blocks : list (Z * list Tx)) (fs : EpochFiles).

Definition MAX_HEIGHT : Z := BLOCKS_PER_EPOCH * 4294967296.

Definition nameOf (e : nat) : string := pretty (Z.of_nat e) +:+ ".bin".

(** [look] gives the file of an epoch, if it exists. *)
Definition epochs_rep (look : nat -> option M) (blocks : list (Z * list Tx)) : Prop :=
  Z.of_nat (length blocks) <= MAX_HEIGHT /\
  forall e, Z.of_nat e < 4294967296 ->
    match look e with
    | Some m => epoch_rep enc m (epoch_of blocks e)
    | None => epoch_of blocks e = []
    end.

Definition files_rep (fs : EpochFiles) (blocks : list (Z * list Tx)) : Prop := epochs_rep (fun e => fs !! nameOf e) blocks.

(** There is room for [b] in the file of the next block, which the operating system opens. *)
Definition files_fit (fs : EpochFiles) (blocks : list (Z * list Tx)) (b : Z * list Tx) : Prop :=
  let bn := Z.of_nat (length blocks) in
  let m := default (openEpoch true (newFile (epochName bn))) (fs !! epochName bn) in
  bn < MAX_HEIGHT /\ canOpen (epochName bn) = true /\ Z.of_nat (length b.2) <= U16_MAX /\
  firstBlockOffset <= mm_size (newFile (epochName bn)) /\ room enc m (getBlockOffset m bn) b.

Lemma epochName_nameOf n : Z.of_nat n < MAX_HEIGHT -> epochName (Z.of_nat n) = nameOf (n / bpe).
Proof.
  intros Hn. unfold epochName, nameOf. rewrite <- bpe_Z, <- Nat2Z.inj_div. rewrite u32_small; [done|].
  assert (Z.of_nat (n / bpe) < 4294967296); [|word].
  rewrite Nat2Z.inj_div, bpe_Z. unfold MAX_HEIGHT, BLOCKS_PER_EPOCH in *. Z.div_mod_to_equations. lia.
Qed.

Lemma nameOf_inj e1 e2 : nameOf e1 = nameOf e2 -> e1 = e2.
Proof.
  unfold nameOf. intros H.
  apply string_app_inj_l in H. apply (inj pretty) in H. lia.
Qed.

Lemma mod_bpe n : Z.of_nat n mod BLOCKS_PER_EPOCH = Z.of_nat (n mod bpe).
Proof. by rewrite <- bpe_Z, <- Nat2Z.inj_mod. Qed.

Lemma bn_epoch n : Z.of_nat n < MAX_HEIGHT -> Z.of_nat (n / bpe) < 4294967296.
Proof.
  intros Hn. rewrite Nat2Z.inj_div, bpe_Z. unfold MAX_HEIGHT, BLOCKS_PER_EPOCH in *. Z.div_mod_to_equations. lia.
Qed.

Lemma getBlockOffset_nat m n : getBlockOffset m (Z.of_nat n) = boff m (n mod bpe).
Proof. unfold getBlockOffset, boff. by rewrite mod_bpe. Qed.

Lemma length_next_epoch blocks : length (epoch_of blocks (length blocks / bpe)) = (length blocks mod bpe)%nat.
Proof.
  pose proof bpe_pos. rewrite length_epoch. pose proof (Nat.div_mod_eq (length blocks) bpe).
  pose proof (Nat.mod_upper_bound (length blocks) bpe). lia.
Qed.

(** The file of the next block: the one there is, or a new one. *)
Lemma epochs_next look blocks new : epochs_rep look blocks -> Z.of_nat (length blocks) < MAX_HEIGHT -> firstBlockOffset <= mm_size new ->
  epoch_rep enc (default (openEpoch true new) (look (length blocks / bpe)%nat)) (epoch_of blocks (length blocks / bpe)).
Proof.
  intros [_ Hrep] Hmax Hsz. specialize (Hrep _ (bn_epoch _ Hmax)). destruct (look _) as [m|]; [done|].
  rewrite Hrep. by apply openEpoch_rep.
Qed.

Lemma epochs_append look look' blocks m b : epochs_rep look blocks -> Z.of_nat (length blocks) < MAX_HEIGHT ->
  epoch_rep enc m (epoch_of blocks (length blocks / bpe)) -> room enc m (boff m (length blocks mod bpe)) b -> Z.of_nat (length b.2) <= U16_MAX ->
  look' (length blocks / bpe)%nat = Some (appendBlock m (Z.of_nat (length blocks)) b.1 b.2) ->
  (forall e, e <> (length blocks / bpe)%nat -> look' e = look e) ->
  epochs_rep look' (blocks ++ [b]).
Proof.
  intros [_ Hrep] Hmax Hm Hroom Htx Hnew Hother. pose proof bpe_pos as Hp. split; [rewrite length_app; cbn; lia|].
  intros e He. rewrite epoch_snoc. set (n := length blocks) in *.
  destruct (decide (e = (n / bpe)%nat)) as [->|Hne]; [|rewrite Hother by done; by apply Hrep].
  rewrite Hnew. assert (length (epoch_of blocks (n / bpe)) = (n mod bpe)%nat) as Hlen by apply length_next_epoch.
  rewrite <- Hlen in Hroom. refine (appendBlock_rep enc m _ _ b Hm _ _ Hroom Htx).
  - by rewrite mod_bpe, Hlen.
  - unfold MAX_HEIGHT, BLOCKS_PER_EPOCH in Hmax. word.
Qed.

(** Reading a block: its file exists, and what the read leaves holds the same blocks. *)
Lemma epochs_read look txTypes blocks i b : epochs_rep look blocks -> TransactionCodec enc txTypes -> blocks !! i = Some b ->
  exists m, look (i / bpe)%nat = Some m /\ epoch_rep enc m (epoch_of blocks (i / bpe)) /\
    forall m1, epoch_rep enc m1 (epoch_of blocks (i / bpe)) ->
      exists m', readBlock (Z.of_nat i) txTypes m1 = (Ret b.2, m') /\
        forall look', look' (i / bpe)%nat = Some m' -> (forall e, e <> (i / bpe)%nat -> look' e = look e) -> epochs_rep look' blocks.
Proof.
  intros [Hlen Hrep] Hcodec Hi. pose proof (epoch_lookup _ _ _ Hi) as He.
  assert (Z.of_nat i < MAX_HEIGHT) as Hmax by (apply lookup_lt_Some in Hi; lia).
  pose proof (Hrep _ (bn_epoch _ Hmax)) as Hr.
  destruct (look (i / bpe)%nat) as [m|] eqn:Hf; [|by rewrite Hr in He]. exists m. split; [done|]. split; [done|]. intros m1 Hr1.
  destruct (readBlock_rep enc txTypes m1 _ _ _ (Z.of_nat i) Hr1 He) as (m' & Hrd & Hr'); [by rewrite mod_bpe|].
  exists m'. split; [done|]. intros look' Hnew Hother. split; [done|]. intros e Hlt.
  destruct (decide (e = (i / bpe)%nat)) as [->|Hne]; [by rewrite Hnew|]. rewrite Hother by done. by apply Hrep.
Qed.

(** The file of the next block holds the blocks of its epoch, whether it exists or not. *)
Lemma next_file fs blocks b : files_rep fs blocks -> files_fit fs blocks b ->
  let bn := Z.of_nat (length blocks) in
  exists m fs', getEpochFile bn fs = (Ret (Some m), fs') /\
    epoch_rep enc m (epoch_of blocks (length blocks / bpe)) /\
    room enc m (boff m (length blocks mod bpe)) b /\
    forall name, name <> epochName bn -> fs' !! name = fs !! name.
Proof.
  intros Hr (Hmax & Hopen & _ & Hsz & Hfit). cbn zeta in *. unfold getEpochFile, mbind, prog_bind, getS, putS.
  rewrite Hopen. cbn [negb]. rewrite getBlockOffset_nat in Hfit.
  pose proof (epochs_next _ blocks _ Hr Hmax Hsz) as Hm. cbn beta in Hm. rewrite <- epochName_nameOf in Hm by done.
  destruct (fs !! epochName _) as [m|] eqn:Hf; cbn [default from_option id] in Hfit, Hm.
  - by exists m, fs.
  - eexists _, _. split; [done|]. split; [done|]. split; [done|].
    intros name Hne. by rewrite lookup_insert_ne.
Qed.

Lemma files_append fs blocks b : files_rep fs blocks -> files_fit fs blocks b ->
  exists fs', journal_append fs (Z.of_nat (length blocks)) b.1 b.2 = Ret fs' /\ files_rep fs' (blocks ++ [b]).
Proof.
  intros Hr Hfits. destruct (next_file fs blocks b Hr Hfits) as (m & fs' & Hg & Hm & Hfit & Hother).
  destruct Hfits as (Hmax & _ & Htx & _). unfold journal_append. rewrite Hg. cbn.
  eexists. split; [done|]. eapply epochs_append; try done.
  - cbn. by rewrite <- epochName_nameOf, lookup_insert_eq by done.
  - intros e Hne. assert (nameOf e <> epochName (Z.of_nat (length blocks))) as Hnn by (rewrite epochName_nameOf by done; by intros ?%nameOf_inj).
    cbn. by rewrite lookup_insert_ne, Hother by done.
Qed.

Hypothesis canOpen_all : forall name, canOpen name = true.

Lemma files_read fs txTypes blocks i b : files_rep fs blocks -> TransactionCodec enc txTypes -> blocks !! i = Some b ->
  exists fs', journal_read fs txTypes (Z.of_nat i) = (Ret b.2, fs') /\ files_rep fs' blocks.
Proof.
  intros Hr Hcodec Hi. assert (Z.of_nat i < MAX_HEIGHT) as Hmax by (destruct Hr; apply lookup_lt_Some in Hi; lia).
  destruct (epochs_read _ txTypes blocks i b Hr Hcodec Hi) as (m & Hf & Hm & Hread). cbn beta in Hf. rewrite <- epochName_nameOf in Hf by done.
  destruct (Hread m Hm) as (m' & Hrd & Hrep).
  unfold journal_read, getEpochFile, mbind, prog_bind, getS. rewrite canOpen_all. cbn [negb]. rewrite Hf.
  unfold mret, prog_ret. rewrite Hrd. eexists. split; [done|]. apply Hrep.
  - by rewrite <- epochName_nameOf, lookup_insert_eq by done.
  - intros e Hne. rewrite lookup_insert_ne; [done|]. rewrite epochName_nameOf by done. by intros ?%nameOf_inj.
Qed.

Definition EpochFiles_JournalLaws : JournalLaws (Journal0:=EpochFiles_Journal) EpochFiles M Tx.
Proof.
  refine {| j_rep := files_rep : (_ : Type) -> list (Z * list Tx) -> Prop; j_fits := files_fit; j_decodes := TransactionCodec enc |}.
  - apply files_append.
  - intros. by eapply files_read.
Defined.
End EpochFiles.

(** The journal round trip, across epochs: a block appended at the height of the chain goes
    to the epoch file of its number, creating the file at the start of an epoch, and from
    then on every block of the chain, the new one and all the older ones in whatever file,
    reads back as it was appended. *)
Theorem journal_roundtrip {Tx W St M} `{!MmapHandle M, !MmapLaws M, !Transaction Tx W St M}
    (newFile : string -> M) canOpen (txTypes : TransactionTypeRegistry M Tx) (enc : Tx -> list Z)
    `{!TransactionCodec enc txTypes} fs blocks b :
  (forall name, canOpen name = true) -> files_rep enc fs blocks -> files_fit newFile canOpen enc fs blocks b ->
  exists fs', journal_append newFile canOpen fs (Z.of_nat (length blocks)) b.1 b.2 = Ret fs' /\
    files_rep enc fs' (blocks ++ [b]) /\
    forall i bi, (blocks ++ [b]) !! i = Some bi ->
      exists fs'', journal_read newFile canOpen fs' txTypes (Z.of_nat i) = (Ret bi.2, fs'').
Proof.
  intros Hopen Hr Hf. destruct (files_append newFile canOpen enc fs blocks b Hr Hf) as (fs' & Ha & Hr').
  exists fs'. split; [done|]. split; [done|]. intros i bi Hi.
  destruct (files_read newFile canOpen enc Hopen fs' txTypes _ i bi Hr' _ Hi) as (fs'' & Hrd & _). by exists fs''.
Qed.

(** ** A concrete journal *)

Definition sample_newFile (name : string) : bytemap := blank 1048576.
Definition opens_all (name : string) : bool := true.

Lemma empty_journal : files_rep tt_enc (∅ : gmap string bytemap) [].
Proof.
  split; [done|]. intros e _. rewrite lookup_empty. unfold epoch_of. by rewrite drop_nil, take_nil.
Qed.

Lemma journal_roundtrip_witness :
  exists fs', journal_append sample_newFile opens_all ∅ 0 eb0.1 eb0.2 = Ret fs' /\
    files_rep tt_enc fs' [eb0] /\
    forall i bi, [eb0] !! i = Some bi ->
      exists fs'', journal_read sample_newFile opens_all fs' sample_types (Z.of_nat i) = (Ret bi.2, fs'').
Proof.
  apply (journal_roundtrip sample_newFile opens_all sample_types tt_enc ∅ [] eb0 (fun _ => eq_refl) empty_journal).
  repeat split; by_compute.
Defined.
