(* ===== verification/EpochCache.v ===== *)
(** * EpochCache

    The journal over the cache of open epoch files: [getEpochFile] of
    src/src/blockchain/BlockchainBackend.cpp as it is written, with an accessor object made
    for every file that has to be opened, destroyed when the cache gives its slot away, and
    made again from the bytes of the file the next time the epoch is needed.  The cached
    journal satisfies the laws of [Journal]: evictions are not observable. *)

From Stdlib Require Import Ascii.
From S2P Require Import Prelude Memory Transaction Registry StateOverride TestChainDesign EpochFile Journal FileCache.

Section EpochCache.
Context {Tx W St M Fd : Type} `{!MmapHandle M, !Transaction Tx W St M}.

(** The mapping of a file that has just been created, and of one that is opened again. *)
Context (newFile : string -> M) (remap : M -> M).

(** The handles and the hash map, as in FileCache.v; what the [n]-th call of [open] meets. *)
Context (valid : Fd -> bool).
Context (slots : gmap string (open_path_t (A:=nat) (H:=Fd)) -> list (string * open_path_t (A:=nat) (H:=Fd)))
  (capacity_after : gmap string (open_path_t (A:=nat) (H:=Fd)) -> Z -> Z).
Context (clock : nat -> Z) (pointers : nat -> nat -> Z) (os : nat -> string -> option Fd).

(** An accessor is known by the number of the call that made it.  [ec_objects] gives the file
    an accessor maps, and [ec_files] the files, by full path, as the last accessor mapped them. *)
Record EpochCache := {
  ec_cache : CustomizableFileCache nat Fd;
  ec_calls : nat;
  ec_objects : gmap nat string;
  ec_files : gmap string M;
}.

Definition call (n : nat) : call_env (A:=nat) (H:=Fd) := {| now := clock n; refs := pointers n; os_open := os n; builder := fun _ => n |}.

(** The constructor of the accessor of the file [full]; the file is new when it did not exist. *)
Definition epochBuilder (full : string) (s : EpochCache) : EpochCache :=
  let m := match ec_files s !! full with
    | None => openEpoch true (newFile full)
    | Some m => openEpoch false (remap m)
    end in
  {| ec_cache := ec_cache s; ec_calls := ec_calls s; ec_objects := <[ec_calls s := full]> (ec_objects s); ec_files := <[full := m]> (ec_files s) |}.

(** One call of [open]: [builder] has run when the accessor is the one of this call. *)
Definition openCached (path : string) (s : EpochCache) : outcome (option nat) * EpochCache :=
  let '(r, c) := open valid (fun _ => false) slots capacity_after (call (ec_calls s)) path (ec_cache s) in
  let s1 := match r with
    | Ret (Some a) => if decide (a = ec_calls s) then epochBuilder (fullPath (ec_cache s) path) s else s
    | _ => s
    end in
  (r, {| ec_cache := c; ec_calls := S (ec_calls s); ec_objects := ec_objects s1; ec_files := ec_files s1 |}).

Definition getEpochFile (blockNumber : Z) (s : EpochCache) : outcome (option nat) * EpochCache :=
  openCached (epochName blockNumber) s.

(** The file behind an accessor. *)
Definition mapped (s : EpochCache) (a : nat) : option (string * M) :=
  full ← ec_objects s !! a; m ← ec_files s !! full; Some (full, m).

Definition set_file (full : string) (m : M) (s : EpochCache) : EpochCache :=
  {| ec_cache := ec_cache s; ec_calls := ec_calls s; ec_objects := ec_objects s; ec_files := <[full := m]> (ec_files s) |}.

Definition cached_append (s : EpochCache) (blockNumber millis : Z) (transactions : list Tx) : outcome EpochCache :=
  let '(epochFile, s) := getEpochFile blockNumber s in
  epochFile ← epochFile;
  a ← deref NullDeref epochFile;
  fm ← deref NullDeref (mapped s a);
  mret (set_file fm.1 (appendBlock fm.2 blockNumber millis transactions) s).

Definition cached_read (s : EpochCache) (txTypes : TransactionTypeRegistry M Tx) (blockNumber : Z) : outcome (list Tx) * EpochCache :=
  let '(epochFile, s) := getEpochFile blockNumber s in
  match epochFile with
  | Ret (Some a) =>
      match mapped s a with
      | Some (full, m) => let '(r, m) := readBlock blockNumber txTypes m in (r, set_file full m s)
      | None => (Undef NullDeref, s)
      end
  | Ret None => (Throw (runtime_error "Failed to open epoch file"), s)
  | Throw e => (Throw e, s)
  | Undef u => (Undef u, s)
  | NoFuel => (NoFuel, s)
  end.

(** A sequence of appends and reads, in any order; [next] is the number of the next block.  The
    answers of the reads. *)
Inductive journal_op :=
| OpAppend (b : Z * list Tx)
| OpRead (blockNumber : Z).

Fixpoint cached_ops (txTypes : TransactionTypeRegistry M Tx) (s : EpochCache) (next : Z) (ops : list journal_op) : outcome (list (list Tx)) * EpochCache :=
  match ops with
  | [] => (Ret [], s)
  | OpAppend b :: ops =>
      match cached_append s next b.1 b.2 with
      | Ret s => cached_ops txTypes s (next + 1) ops
      | Throw e => (Throw e, s)
      | Undef u => (Undef u, s)
      | NoFuel => (NoFuel, s)
      end
  | OpRead bn :: ops =>
      match cached_read s txTypes bn with
      | (Ret txs, s) => let '(r, s) := cached_ops txTypes s next ops in (txss ← r; mret (txs :: txss), s)
      | (Throw e, s) => (Throw e, s)
      | (Undef u, s) => (Undef u, s)
      | (NoFuel, s) => (NoFuel, s)
      end
  end.

(** What a list of blocks answers. *)
Fixpoint list_ops (blocks : list (Z * list Tx)) (ops : list journal_op) : list (list Tx) * list (Z * list Tx) :=
  match ops with
  | [] => ([], blocks)
  | OpAppend b :: ops => list_ops (blocks ++ [b]) ops
  | OpRead bn :: ops => let '(txss, blocks') := list_ops blocks ops in (default [] (snd <$> blocks !! Z.to_nat bn) :: txss, blocks')
  end.

Definition EpochCache_Journal : Journal EpochCache M Tx := {|
  j_appendBlock := cached_append;
  j_readBlock := cached_read;
|}.

(** ** The invariant *)

(** A cached entry is an accessor of its own path, made by an earlier call. *)
Definition cache_inv (s : EpochCache) : Prop :=
  forall f p, openPaths (ec_cache s) !! f = Some p ->
    (accessor p < ec_calls s)%nat /\ ec_objects s !! accessor p = Some f /\ is_Some (ec_files s !! f).

Definition fullName (s : EpochCache) (e : nat) : string := fullPath (ec_cache s) (nameOf e).

Lemma nameOf_relative e : String.get 0 (nameOf e) <> Some "/"%char.
Proof. by apply pretty_relative. Qed.

(** Paths of two epochs are different. *)
Lemma fullName_inj s e1 e2 : fullName s e1 = fullName s e2 -> e1 = e2.
Proof.
  assert (forall e, fullName s e = root (ec_cache s) +:+ nameOf e) as Hf.
  { intros e. unfold fullName, fullPath. pose proof (nameOf_relative e) as Hn. destruct (String.get 0 (nameOf e)) as [c|]; [|done].
    rewrite bool_decide_eq_false_2; [done|congruence]. }
  rewrite !Hf. intros H. apply nameOf_inj. by apply (inj (String.append _)) in H.
Qed.

Lemma fullName_root s s' e : root (ec_cache s') = root (ec_cache s) -> fullName s' e = fullName s e.
Proof. unfold fullName, fullPath. by intros ->. Qed.

(** The operating system opens every file. *)
Hypothesis slots_law : forall m, slots m ≡ₚ map_to_list m.
Hypothesis opens_files : forall n path, exists h, os n path = Some h /\ valid h = true.

(** After a call of [open], the returned accessor maps the file of the path: as it was when
    the accessor was cached, mapped again or new when it was not. *)
Lemma openCached_spec path s : cache_inv s ->
  let full := fullPath (ec_cache s) path in
  exists a s' m, openCached path s = (Ret (Some a), s') /\ cache_inv s' /\ root (ec_cache s') = root (ec_cache s) /\
    mapped s' a = Some (full, m) /\ (forall f, f <> full -> ec_files s' !! f = ec_files s !! f) /\ ec_files s' !! full = Some m /\
    match ec_files s !! full with Some m0 => m = m0 \/ m = remap m0 | None => m = openEpoch true (newFile full) end.
Proof.
  intros Hinv full. destruct (opens_files (ec_calls s) full) as (h & Hos & Hv).
  destruct (open_returns valid (fun _ => false) slots capacity_after (call (ec_calls s)) path (ec_cache s) h Hos Hv (fun _ => eq_refl))
    as (a & c' & Ho & Ha).
  pose proof (open_entries valid _ slots capacity_after _ _ _ _ _ Ho) as Hent. pose proof (open_spec valid _ slots capacity_after slots_law _ _ _ _ _ Ho) as (Hroot & _).
  assert (forall f p, openPaths c' !! f = Some p -> (exists q, openPaths (ec_cache s) !! f = Some q /\ accessor p = accessor q) \/
    (f = full /\ accessor p = a /\ a = ec_calls s)) as Hent'.
  { intros f p Hp. destruct (Hent f p Hp) as [|(-> & h' & Hpa & [= ->])]; [by left|by right]. } clear Hent.
  unfold openCached. rewrite Ho. destruct (decide (a = ec_calls s)) as [Heq|Hne].
  - eexists a, _, _. split; [done|]. cbn [epochBuilder ec_cache ec_calls ec_objects ec_files]. fold full. subst a. split; [|split; [done|]].
    + intros f p Hp. cbn in Hp |- *. destruct (Hent' f p Hp) as [(q & Hq & ->)|(-> & -> & _)].
      * destruct (Hinv f q Hq) as (Hlt & Hobj & Hf). split; [lia|]. rewrite lookup_insert_ne by lia. split; [done|].
        destruct (decide (f = full)) as [->|]; [by rewrite lookup_insert_eq|by rewrite lookup_insert_ne].
      * rewrite !lookup_insert_eq. split; [lia|done].
    + unfold mapped. cbn. rewrite lookup_insert_eq. cbn. rewrite lookup_insert_eq. split; [done|].
      split; [intros f Hf; by rewrite lookup_insert_ne|]. split; [done|]. destruct (ec_files s !! full); [by right|done].
  - destruct Ha as [(p & Hp & Hpa)|]; [|done]. destruct (Hinv full p Hp) as (Hlt & Hobj & [m Hm]). rewrite Hpa in Hobj.
    eexists a, _, m. split; [done|]. cbn. split; [|split; [done|]].
    + intros f p' Hp'. cbn in Hp' |- *. destruct (Hent' f p' Hp') as [(q & Hq & ->)|(_ & _ & ?)]; [|done].
      destruct (Hinv f q Hq) as (Hlt' & Hobj' & Hf). split; [lia|done].
    + unfold mapped. cbn. rewrite Hobj. cbn. rewrite Hm. split; [done|]. split; [done|]. split; [done|by left].
Qed.

Lemma set_file_inv full m s : cache_inv s -> cache_inv (set_file full m s).
Proof.
  intros Hinv f p Hp. destruct (Hinv f p Hp) as (H1 & H2 & H3). split; [done|]. split; [done|]. cbn.
  destruct (decide (f = full)) as [->|]; [by rewrite lookup_insert_eq|by rewrite lookup_insert_ne].
Qed.

(** ** The cached files implement the journal *)
Context (enc : Tx -> list Z) `{!MmapLaws M, !TransactionEncoding enc}.
Implicit Types (blocks : list (Z * list Tx)).

(** A file that is opened again has the bytes it had, and is mapped at least as far. *)
Hypothesis remap_law : forall m, mm_size m <= mm_size (remap m) /\
  forall i, 0 <= i < mm_size m -> mm_byte (remap m) i = mm_byte m i.

Definition ec_rep (s : EpochCache) (blocks : list (Z * list Tx)) : Prop :=
  cache_inv s /\ epochs_rep enc (fun e => ec_files s !! fullName s e) blocks.

Definition ec_fits (s : EpochCache) (blocks : list (Z * list Tx)) (b : Z * list Tx) : Prop :=
  let bn := Z.of_nat (length blocks) in
  let full := fullPath (ec_cache s) (epochName bn) in
  let m := default (openEpoch true (newFile full)) (ec_files s !! full) in
  bn < MAX_HEIGHT /\ Z.of_nat (length b.2) <= U16_MAX /\
  firstBlockOffset <= mm_size (newFile full) /\ room enc m (getBlockOffset m bn) b.

Lemma remap_load m off n : 0 <= off -> off + Z.of_nat n <= mm_size m -> mm_load (remap m) off n = mm_load m off n.
Proof. intros H1 H2. apply mem_load_ext. intros i Hi. apply remap_law. lia. Qed.

Lemma remap_boff m i : firstBlockOffset <= mm_size m -> Z.of_nat i < BLOCKS_PER_EPOCH -> boff (remap m) i = boff m i.
Proof.
  intros Hs Hi. unfold boff, load_u32. f_equal. pose proof (off_blockOffset_bounds (Z.of_nat i) ltac:(lia)).
  apply remap_load; lia.
Qed.

Lemma remap_rep m blocks : epoch_rep enc m blocks -> epoch_rep enc (remap m) blocks.
Proof.
  intros Hr. pose proof (er_size enc m blocks Hr) as Hsz. pose proof (proj1 (remap_law m)) as Hle.
  pose proof (er_count enc m blocks Hr) as Hc.
  assert (forall i b, blocks !! i = Some b -> Z.of_nat i < BLOCKS_PER_EPOCH) as Hlt by (intros i b Hi%lookup_lt_Some; lia).
  split.
  - done.
  - lia.
  - intros i Hi Hb. rewrite remap_boff by done. by apply (er_offset enc m blocks Hr).
  - intros i b Hi. rewrite remap_boff by eauto. pose proof (er_fit enc m blocks Hr i b Hi). lia.
  - intros i b Hi Hn. rewrite !remap_boff by eauto. by apply (er_next enc m blocks Hr).
  - intros i b Hi. pose proof (Hlt _ _ Hi) as Hib. rewrite remap_boff by done.
    pose proof (er_offset enc m blocks Hr i ltac:(apply lookup_lt_Some in Hi; lia) Hib) as Ho. rewrite firstBlockOffset_val in Ho.
    pose proof (er_fit enc m blocks Hr i b Hi) as Hf. unfold block_len in Hf.
    rewrite remap_load by lia. by apply (er_bytes enc m blocks Hr).
  - apply (er_txs enc m blocks Hr).
Qed.

(** The call of [getEpochFile] of block [bn]: the accessor maps a file that holds the blocks of
    its epoch, if there was room in it there still is, and what is stored has not changed. *)
Lemma getEpochFile_spec s blocks n : ec_rep s blocks -> Z.of_nat n < MAX_HEIGHT ->
  let full := fullName s (n / bpe) in
  let m0 := default (openEpoch true (newFile full)) (ec_files s !! full) in
  epoch_rep enc m0 (epoch_of blocks (n / bpe)) ->
  exists a s' m, getEpochFile (Z.of_nat n) s = (Ret (Some a), s') /\ cache_inv s' /\ root (ec_cache s') = root (ec_cache s) /\
    mapped s' a = Some (full, m) /\ (forall e, e <> (n / bpe)%nat -> ec_files s' !! fullName s e = ec_files s !! fullName s e) /\
    epoch_rep enc m (epoch_of blocks (n / bpe)) /\
    forall i b, Z.of_nat i < BLOCKS_PER_EPOCH -> room enc m0 (boff m0 i) b -> room enc m (boff m i) b.
Proof.
  intros [Hinv Hrep] Hmax full m0 Hm0. unfold getEpochFile. rewrite epochName_nameOf by done.
  destruct (openCached_spec (nameOf (n / bpe)) s Hinv) as (a & s' & m & Ho & Hinv' & Hroot & Hmap & Hother & _ & Hm).
  exists a, s', m. split; [done|]. split; [done|]. split; [done|]. split; [done|]. split.
  { intros e Hne. apply Hother. intros Heq. apply Hne. by apply (fullName_inj s). }
  change (fullPath (ec_cache s) (nameOf (n / bpe))) with full in Hm.
  assert (m = m0 \/ m = remap m0) as [->| ->].
  { unfold m0. destruct (ec_files s !! full); [done|by left]. }
  - split; [done|by intros].
  - split; [by apply remap_rep|]. intros i b Hi [H1 H2]. pose proof (proj1 (remap_law m0)) as Hle.
    unfold room. rewrite remap_boff by (done || by apply (er_size enc m0 _ Hm0)). lia.
Qed.

Lemma set_file_rep s' s full m blocks : cache_inv s' -> root (ec_cache s') = root (ec_cache s) ->
  epochs_rep enc (fun e => <[full := m]> (ec_files s') !! fullName s e) blocks -> ec_rep (set_file full m s') blocks.
Proof.
  intros Hinv Hroot Hrep. split; [by apply set_file_inv|]. destruct Hrep as [H1 H2]. split; [done|]. intros e He.
  cbn [set_file ec_files]. rewrite (fullName_root s (set_file full m s')) by done. by apply H2.
Qed.

Lemma ec_append s blocks b : ec_rep s blocks -> ec_fits s blocks b ->
  exists s', cached_append s (Z.of_nat (length blocks)) b.1 b.2 = Ret s' /\ ec_rep s' (blocks ++ [b]).
Proof.
  intros Hr (Hmax & Htx & Hsz & Hfit). set (n := length blocks) in *. cbn zeta in *.
  rewrite epochName_nameOf in Hfit, Hsz by done. rewrite getBlockOffset_nat in Hfit.
  pose proof (epochs_next enc _ blocks _ (proj2 Hr) Hmax Hsz) as Hm0.
  destruct (getEpochFile_spec s blocks n Hr Hmax Hm0) as (a & s' & m & Ho & Hinv & Hroot & Hmap & Hother & Hm & Hroom).
  unfold cached_append. rewrite Ho. cbn [mbind outcome_bind deref]. rewrite Hmap. eexists. split; [done|].
  eapply set_file_rep; [done|done|]. apply (epochs_append enc _ _ blocks m b (proj2 Hr) Hmax Hm); [|done| |].
  - apply Hroom; [|done]. rewrite <- mod_bpe. by apply Z.mod_pos_bound.
  - cbn. by rewrite lookup_insert_eq.
  - intros e Hne. cbn. rewrite lookup_insert_ne; [by apply Hother|]. intros Heq. apply Hne. symmetry. by apply (fullName_inj s).
Qed.

Lemma ec_read s txTypes blocks i b : ec_rep s blocks -> TransactionCodec enc txTypes -> blocks !! i = Some b ->
  exists s', cached_read s txTypes (Z.of_nat i) = (Ret b.2, s') /\ ec_rep s' blocks.
Proof.
  intros Hr Hcodec Hi. assert (Z.of_nat i < MAX_HEIGHT) as Hmax by (destruct Hr as [_ [? _]]; apply lookup_lt_Some in Hi; lia).
  destruct (epochs_read enc _ txTypes blocks i b (proj2 Hr) Hcodec Hi) as (m0 & Hf & Hm0 & Hread). cbn beta in Hf.
  destruct (getEpochFile_spec s blocks i Hr Hmax) as (a & s' & m & Ho & Hinv & Hroot & Hmap & Hother & Hm & _); [by rewrite Hf|].
  destruct (Hread m Hm) as (m' & Hrd & Hrep). unfold cached_read. rewrite Ho, Hmap, Hrd. eexists. split; [done|].
  eapply set_file_rep; [done|done|]. apply Hrep.
  - by rewrite lookup_insert_eq.
  - intros e Hne. rewrite lookup_insert_ne; [by apply Hother|]. intros Heq. apply Hne. symmetry. by apply (fullName_inj s).
Qed.

(** Every block that is appended fits when its turn comes, and every block that is read is there. *)
Fixpoint ops_fit (txTypes : TransactionTypeRegistry M Tx) (s : EpochCache) (blocks : list (Z * list Tx)) (ops : list journal_op) : Prop :=
  match ops with
  | [] => True
  | OpAppend b :: ops => ec_fits s blocks b /\
      forall s', cached_append s (Z.of_nat (length blocks)) b.1 b.2 = Ret s' -> ops_fit txTypes s' (blocks ++ [b]) ops
  | OpRead bn :: ops => 0 <= bn < Z.of_nat (length blocks) /\ ops_fit txTypes (cached_read s txTypes bn).2 blocks ops
  end.

Lemma ec_ops txTypes ops s blocks : ec_rep s blocks -> TransactionCodec enc txTypes -> ops_fit txTypes s blocks ops ->
  exists s', cached_ops txTypes s (Z.of_nat (length blocks)) ops = (Ret (list_ops blocks ops).1, s') /\ ec_rep s' (list_ops blocks ops).2.
Proof.
  intros Hr Hcodec. revert s blocks Hr. induction ops as [|[b|bn] ops IH]; intros s blocks Hr; cbn [ops_fit cached_ops list_ops].
  - intros _. by exists s.
  - intros [Hf Hops]. destruct (ec_append s blocks b Hr Hf) as (s1 & Ha & Hr1). rewrite Ha.
    destruct (IH s1 (blocks ++ [b]) Hr1 (Hops s1 Ha)) as (s' & Hs & Hr'). exists s'. split; [|done]. rewrite <- Hs, length_app.
    f_equal. cbn. lia.
  - intros [Hbn Hops]. destruct (lookup_lt_is_Some_2 blocks (Z.to_nat bn)) as [b Hb]; [lia|].
    destruct (ec_read s txTypes blocks (Z.to_nat bn) b Hr Hcodec Hb) as (s1 & Hrd & Hr1). rewrite Z2Nat.id in Hrd by lia.
    rewrite Hrd in Hops |- *. rewrite Hb. destruct (IH s1 blocks Hr1 Hops) as (s' & -> & Hr'). cbn.
    destruct (list_ops blocks ops) as [txss blocks']. by exists s'.
Qed.

Definition EpochCache_JournalLaws : JournalLaws (Journal0:=EpochCache_Journal) EpochCache M Tx.
Proof.
  refine {| j_rep := ec_rep : (_ : Type) -> list (Z * list Tx) -> Prop; j_fits := ec_fits; j_decodes := TransactionCodec enc |}.
  - apply ec_append.
  - intros. by eapply ec_read.
Defined.
End EpochCache.

(** C6: the journal as the backend runs it, over the cache of open files, refines the list of
    blocks.  Of any sequence of appends and reads in which each block fits and each number read
    is there, in any order and with whatever evictions and re-openings the cache does in
    between, every read returns the transactions of the block asked for, and at the end the
    journal holds the list again. *)
Theorem cached_journal {Tx W St M Fd} `{!MmapHandle M, !MmapLaws M, !Transaction Tx W St M}
    (newFile : string -> M) (remap : M -> M) (valid : Fd -> bool) slots capacity_after clock pointers os
    (enc : Tx -> list Z) (txTypes : TransactionTypeRegistry M Tx) `{!TransactionCodec enc txTypes} s blocks ops :
  (forall m, slots m ≡ₚ map_to_list m) -> (forall n path, exists h, os n path = Some h /\ valid h = true) ->
  (forall m, mm_size m <= mm_size (remap m) /\ forall i, 0 <= i < mm_size m -> mm_byte (remap m) i = mm_byte m i) ->
  ec_rep enc s blocks -> ops_fit newFile remap valid slots capacity_after clock pointers os enc txTypes s blocks ops ->
  exists s', cached_ops newFile remap valid slots capacity_after clock pointers os txTypes s (Z.of_nat (length blocks)) ops =
      (Ret (list_ops blocks ops).1, s') /\ ec_rep enc s' (list_ops blocks ops).2.
Proof. intros Hslots Hos Hremap Hr Hfit. by apply (ec_ops newFile remap valid slots capacity_after clock pointers os Hslots Hos enc Hremap txTypes ops s blocks). Qed.

(** ** A concrete cache of one file *)

Definition one_more_mb (m : bytemap) : bytemap := Bytemap (bm_size m + 1048576) 0 (bm_data m).
Definition sample_os (n : nat) (path : string) : option Z := Some (Z.of_nat n).
Definition sample_append := cached_append (Tx:=TestTransaction) (Fd:=Z) sample_newFile one_more_mb (fun _ => true) map_to_list (fun _ c => c) Z.of_nat (fun _ _ => 1) sample_os.
Definition sample_read := cached_read (Tx:=TestTransaction) (Fd:=Z) sample_newFile one_more_mb (fun _ => true) map_to_list (fun _ c => c) Z.of_nat (fun _ _ => 1) sample_os.
Definition ec0 : EpochCache (M:=bytemap) (Fd:=Z) := {| ec_cache := newCache "data/epochs/" 1; ec_calls := 0; ec_objects := ∅; ec_files := ∅ |}.

(** Appends to two epochs in turn evict the file of the other one; both blocks are there. *)
Example evicted_and_read : (s1 ← sample_append ec0 0 eb0.1 eb0.2; s2 ← sample_append s1 65536 eb1.1 eb1.2;
  let '(r0, s3) := sample_read s2 sample_types 0 in let '(r1, s4) := sample_read s3 sample_types 65536 in
  mret (r0, r1, ec_calls s4, size (openPaths (ec_cache s4)))) = Ret (Ret eb0.2, Ret eb1.2, 4%nat, 1%nat).
Proof. vm_compute. reflexivity. Qed.

Lemma ec0_rep : ec_rep tt_enc ec0 [].
Proof.
  split; [by intros f p H; cbn in H; rewrite lookup_empty in H|]. split; [done|]. intros e _.
  cbn. rewrite lookup_empty. unfold epoch_of. by rewrite drop_nil, take_nil.
Qed.

Definition ec_first : EpochCache (M:=bytemap) (Fd:=Z) := match sample_append ec0 0 eb0.1 eb0.2 with Ret s => s | _ => ec0 end.

(** An append after reads, and reads after it. *)
Definition ec_run : list (journal_op (Tx:=TestTransaction)) := [OpAppend eb0; OpRead 0; OpAppend eb1; OpRead 1; OpRead 0].

Lemma cached_journal_witness : exists s',
  cached_ops sample_newFile one_more_mb (fun _ => true) map_to_list (fun _ c => c) Z.of_nat (fun _ _ => 1) sample_os sample_types ec0 0 ec_run =
    (Ret [eb0.2; eb1.2; eb0.2], s') /\ ec_rep tt_enc s' [eb0; eb1].
Proof.
  apply (cached_journal sample_newFile one_more_mb (fun _ => true) map_to_list (fun _ c => c) Z.of_nat (fun _ _ => 1) sample_os
    tt_enc sample_types ec0 [] ec_run).
  - done.
  - intros n path. by eexists.
  - intros m. cbn. split; [lia|done].
  - apply ec0_rep.
  - split; [repeat split; by_compute|]. intros s1 H1. assert (s1 = ec_first) as -> by (vm_compute in H1 |- *; congruence). clear H1.
    split; [by_compute|]. split; [repeat split; by_compute|]. intros s2 _. split; [by_compute|]. split; [by_compute|exact I].
Defined.
