(* ===== verification/TornAppend.v ===== *)
(** * TornAppend

    What an interrupted append leaves in an epoch file (src/src/storage/EpochFile.cpp,
    [appendBlock]): the states the mapping goes through, one per call that writes it, and
    what the next append makes of a height that is ahead of the recorded offsets. *)

From S2P Require Import Prelude Memory Transaction Registry StateOverride TestChainDesign EpochFile Journal.

Section TornAppend.
Context {Tx W St M : Type} `{!MmapHandle M, !Transaction Tx W St M}.

(** The mapping before each write of [appendBlock], and after the last one: the offset of an
    unset slot, the block header, the transactions one by one, the next offset. *)
Definition append_states (m : M) (blockNumber millis : Z) (transactions : list Tx) : list M :=
  let offsetIdx := u32 (blockNumber mod BLOCKS_PER_EPOCH) in
  let blockOffset := load_u32 m (off_blockOffset offsetIdx) in
  let '(blockOffset, m0) :=
    if blockOffset =? 0 then
      let blockOffset := u32 (alignUp sizeof_epoch_header) in
      (blockOffset, store_u32 m (off_blockOffset offsetIdx) blockOffset)
    else (blockOffset, m) in
  let m1 := mm_store m0 blockOffset (block_header millis (u16 (Z.of_nat (length transactions)))) in
  let m2 := mm_seek m1 (blockOffset + sizeof_block_header) in
  let written := map (fun k => write_all (take k transactions) m2) (seq 0 (S (length transactions))) in
  m :: m0 :: m1 :: written ++ [appendBlock m blockNumber millis transactions].

(** The part of the header that no append has reached: the epoch starts at the first block
    offset, and the offsets past the next block are still zero. *)
Record unreached (m : M) (n : nat) : Prop := {
  un_first : boff m 0 = firstBlockOffset;
  un_zero i : (n < i)%nat -> Z.of_nat i < BLOCKS_PER_EPOCH -> boff m i = 0;
}.

Context (enc : Tx -> list Z) `{!MmapLaws M, !TransactionEncoding enc}.
Implicit Types (blocks : list (Z * list Tx)) (m : M).

Lemma openEpoch_unreached m : firstBlockOffset <= mm_size m ->
  (forall i, (0 < i)%nat -> Z.of_nat i < BLOCKS_PER_EPOCH -> boff m i = 0) -> unreached (openEpoch true m) 0.
Proof.
  rewrite firstBlockOffset_val. intros Hsz Hz. unfold openEpoch. change (u32 (alignUp sizeof_epoch_header)) with 266240.
  unfold off_version, off_blocksPerEpoch, off_numBlocks, off_blockAlignment. change (off_blockOffset 0) with 16.
  set (m1 := store_u32 m 0 _). assert (mm_size m1 = mm_size m) as S1 by (apply store_u32_size; lia).
  set (m2 := store_u32 m1 4 _). assert (mm_size m2 = mm_size m) as S2 by (unfold m2; rewrite store_u32_size; lia).
  set (m3 := store_u32 m2 8 _). assert (mm_size m3 = mm_size m) as S3 by (unfold m3; rewrite store_u32_size; lia).
  set (m4 := store_u32 m3 12 _). assert (mm_size m4 = mm_size m) as S4 by (unfold m4; rewrite store_u32_size; lia).
  split.
  - rewrite firstBlockOffset_val. unfold boff. change (off_blockOffset (Z.of_nat 0)) with 16. apply store_u32_load; [lia|lia|word].
  - intros i Hi Hlt. rewrite <- (Hz i Hi Hlt). unfold boff, load_u32. f_equal.
    pose proof (off_blockOffset_bounds (Z.of_nat i) ltac:(lia)) as [_ Hb]. rewrite firstBlockOffset_val in Hb.
    assert (20 <= off_blockOffset (Z.of_nat i)) by (unfold off_blockOffset; lia).
    do 2 (rewrite store_u32_disj by lia; subst m4 || subst m3).
    rewrite store_u32_disj by lia; subst m2. rewrite store_u32_disj by lia; subst m1. by rewrite store_u32_disj by lia.
Qed.

(** The blocks of an epoch depend on the recorded offsets and on the bytes below the next one. *)
Lemma epoch_rep_frame m m' blocks :
  epoch_rep enc m blocks -> Z.of_nat (length blocks) < BLOCKS_PER_EPOCH -> mm_size m' = mm_size m ->
  (forall i, (i <= length blocks)%nat -> boff m' i = boff m i) ->
  (forall a k, firstBlockOffset <= a -> a + Z.of_nat k <= boff m (length blocks) -> mm_load m' a k = mm_load m a k) ->
  epoch_rep enc m' blocks.
Proof.
  intros Hr Hlt Hs Ho Hb. assert (forall i b, blocks !! i = Some b -> boff m' i = boff m i) as Ho'.
  { intros i b Hi. apply Ho. apply lookup_lt_Some in Hi. lia. }
  split.
  - apply Hr.
  - rewrite Hs. apply Hr.
  - intros i Hi Hi2. rewrite Ho by done. by apply (er_offset enc m blocks Hr).
  - intros i b Hi. rewrite (Ho' i b Hi), Hs. by apply (er_fit enc m blocks Hr).
  - intros i b Hi Hi2. rewrite (Ho' i b Hi), Ho by (apply lookup_lt_Some in Hi; lia). by apply (er_next enc m blocks Hr).
  - intros i b Hi. rewrite (Ho' i b Hi). rewrite Hb; [by apply (er_bytes enc m blocks Hr)| |].
    + apply lookup_lt_Some in Hi as Hl. apply (er_offset enc m blocks Hr); lia.
    + apply lookup_lt_Some in Hi as Hl. pose proof (er_before enc m blocks i (length blocks) b Hr Hi ltac:(lia) Hlt). unfold block_len in *. lia.
  - intros i b Hi. by apply (er_txs enc m blocks Hr i).
Qed.

(** Writing at or above the next offset changes nothing below it. *)
Lemma written_frame m off hdr txs :
  firstBlockOffset <= off -> length hdr = 64%nat -> off + 64 + Z.of_nat (length (enc_all enc txs)) <= mm_size m ->
  let m' := write_all txs (mm_seek (mm_store m off hdr) (off + sizeof_block_header)) in
  mm_size m' = mm_size m /\ forall a k, a + Z.of_nat k <= off -> mm_load m' a k = mm_load m a k.
Proof.
  rewrite firstBlockOffset_val. intros Hoff Hh Hfit. cbn zeta. unfold sizeof_block_header.
  destruct (mm_store_law m off hdr) as (Hs1 & _ & _); [lia|rewrite Hh; lia|].
  destruct (mm_seek_law (mm_store m off hdr) (off + 64)) as (Hs2 & Ht2 & Hb2); [lia|].
  set (m2 := mm_seek (mm_store m off hdr) (off + 64)) in *.
  assert (mm_wrote m2 (enc_all enc txs) (write_all txs m2)) as Hw by (apply (write_all_wrote enc); lia).
  pose proof Hw as (Hs3 & _ & _). split; [lia|]. intros a k Hk.
  rewrite (mm_wrote_load_disj m2 (enc_all enc txs)) by (done || lia).
  unfold m2. rewrite mm_seek_load by lia. apply mm_store_load_disj; rewrite ?Hh; lia.
Qed.

(** What an append has written before its last write lies at or above the next offset. *)
Lemma append_states_frame m blocks bn b m' :
  epoch_rep enc m blocks -> bn mod BLOCKS_PER_EPOCH = Z.of_nat (length blocks) ->
  room enc m (boff m (length blocks)) b -> m' ∈ append_states m bn b.1 b.2 ->
  (mm_size m' = mm_size m /\ forall a k, a + Z.of_nat k <= boff m (length blocks) -> mm_load m' a k = mm_load m a k) \/
  m' = appendBlock m bn b.1 b.2.
Proof.
  intros Hr Hn Hfit Hin. set (n := length blocks) in *.
  assert (Z.of_nat n < BLOCKS_PER_EPOCH) as Hn' by (unfold BLOCKS_PER_EPOCH in *; Z.div_mod_to_equations; lia).
  pose proof (er_offset enc m blocks Hr n ltac:(done) Hn') as Hoff.
  unfold append_states in Hin. rewrite Hn, (u32_small (Z.of_nat n)) in Hin by (unfold BLOCKS_PER_EPOCH in *; word).
  fold (boff m n) in Hin. rewrite firstBlockOffset_val in Hoff. destruct (Z.eqb_spec (boff m n) 0) as [H0|_]; [lia|].
  set (hdr := block_header b.1 _) in Hin. assert (length hdr = 64%nat) as Hh by apply length_block_header.
  destruct Hfit as [Hfit _]. unfold block_len, block_bytes in Hfit. rewrite length_app, length_block_header in Hfit.
  rewrite !elem_of_cons, elem_of_app, list_elem_of_singleton in Hin.
  destruct Hin as [-> | [-> | [-> | [Hin | ->]]]]; [by left|by left| | |by right]; left.
  - destruct (mm_store_law m (boff m n) hdr) as (Hs1 & _ & _); [lia|rewrite Hh; lia|].
    split; [done|]. intros a k Hk. apply mm_store_load_disj; rewrite ?Hh; lia.
  - apply list_elem_of_fmap in Hin as (k & -> & _). pose proof (length_enc_take enc k b.2).
    apply (written_frame m (boff m n) hdr (take k b.2)); [rewrite firstBlockOffset_val; lia|done|lia].
Qed.

(** An append that is interrupted leaves the epoch as it was, and one that is not adds its
    block: no state in between damages an earlier block. *)
Lemma append_states_rep m blocks bn b m' :
  epoch_rep enc m blocks -> unreached m (length blocks) -> bn mod BLOCKS_PER_EPOCH = Z.of_nat (length blocks) ->
  room enc m (boff m (length blocks)) b -> m' ∈ append_states m bn b.1 b.2 ->
  epoch_rep enc m' blocks /\ unreached m' (length blocks) \/ m' = appendBlock m bn b.1 b.2.
Proof.
  intros Hr Hun Hn Hfit Hin. destruct (append_states_frame m blocks bn b m' Hr Hn Hfit Hin) as [[Hs Hl]|]; [left|by right].
  set (n := length blocks) in *.
  assert (Z.of_nat n < BLOCKS_PER_EPOCH) as Hn' by (unfold BLOCKS_PER_EPOCH in *; Z.div_mod_to_equations; lia).
  pose proof (er_offset enc m blocks Hr n ltac:(done) Hn') as Hoff.
  assert (forall i, Z.of_nat i < BLOCKS_PER_EPOCH -> boff m' i = boff m i) as Ho.
  { intros i Hi. unfold boff, load_u32. f_equal. apply Hl. pose proof (off_blockOffset_bounds (Z.of_nat i) ltac:(lia)). lia. }
  split; [apply (epoch_rep_frame m m' blocks Hr Hn' Hs); [intros; apply Ho; lia|by auto]|].
  split; [rewrite Ho by lia; apply Hun|]. intros i H1 H2. rewrite Ho by done. by apply Hun.
Qed.

Lemma appendBlock_unreached m blocks bn b :
  epoch_rep enc m blocks -> unreached m (length blocks) -> bn mod BLOCKS_PER_EPOCH = Z.of_nat (length blocks) -> 0 <= bn < U64_MAX ->
  room enc m (boff m (length blocks)) b -> Z.of_nat (length b.2) <= U16_MAX ->
  unreached (appendBlock m bn b.1 b.2) (length (blocks ++ [b])).
Proof.
  intros Hr [H1 H2] Hn Hbn Hfit Htx.
  assert (Z.of_nat (length blocks) < BLOCKS_PER_EPOCH) as Hlt by (unfold BLOCKS_PER_EPOCH in *; Z.div_mod_to_equations; lia).
  pose proof (er_offset enc m blocks Hr _ ltac:(done) Hlt) as Hoff. pose proof (er_size enc m blocks Hr) as Hsz.
  destruct (appendBlock_effect enc m (length blocks) bn b Hn Hbn (proj1 Hoff) Hfit Htx) as (_ & _ & _ & Hi & _).
  rewrite length_app. split.
  - rewrite Hi by (done || lia). done.
  - intros i Hgt Hb. cbn in Hgt. rewrite Hi by lia. apply H2; lia.
Qed.

(** The slot of a block whose predecessor was never appended is zero, so its append goes to
    the first block offset. *)
Lemma append_over_hole (txTypes : TransactionTypeRegistry M Tx) `{!TransactionCodec enc txTypes} m n bn b :
  unreached m n -> bn mod BLOCKS_PER_EPOCH = Z.of_nat (S n) -> 0 <= bn < U64_MAX ->
  room enc m firstBlockOffset b -> Z.of_nat (length b.2) <= U16_MAX ->
  let m' := appendBlock m bn b.1 b.2 in
  mm_size m' = mm_size m /\ boff m' 0 = firstBlockOffset /\
  forall bn', getBlockOffset m' bn' = firstBlockOffset -> exists m2, readBlock bn' txTypes m' = (Ret b.2, m2).
Proof.
  intros [Hfirst Hzero] Hn Hbn [Hfit Hsz] Htx. cbn zeta.
  assert (Z.of_nat (S n) < BLOCKS_PER_EPOCH) as Hn' by (unfold BLOCKS_PER_EPOCH in *; Z.div_mod_to_equations; lia).
  assert (firstBlockOffset <= mm_size m) as Hsz1 by (unfold block_len in Hfit; lia).
  pose proof (off_blockOffset_bounds (Z.of_nat (S n)) ltac:(lia)) as [Hb1 Hb2].
  set (m0 := store_u32 m (off_blockOffset (Z.of_nat (S n))) firstBlockOffset).
  rewrite firstBlockOffset_val in Hb2.
  assert (mm_size m0 = mm_size m) as Hs0 by (apply store_u32_size; rewrite ?firstBlockOffset_val in Hsz1; lia).
  assert (appendBlock m bn b.1 b.2 = appendBlock m0 bn b.1 b.2) as ->.
  { unfold appendBlock. rewrite Hn, (u32_small (Z.of_nat (S n))) by (unfold BLOCKS_PER_EPOCH in *; word).
    fold (boff m (S n)) (boff m0 (S n)). rewrite Hzero by lia. change (u32 (alignUp sizeof_epoch_header)) with firstBlockOffset.
    assert (boff m0 (S n) = firstBlockOffset) as -> by (apply store_u32_load; rewrite ?firstBlockOffset_val in *; [lia|lia|word]).
    done. }
  assert (boff m0 (S n) = firstBlockOffset) as Hbo by (apply store_u32_load; rewrite ?firstBlockOffset_val in *; [lia|lia|word]).
  destruct (appendBlock_effect enc m0 (S n) bn b Hn Hbn) as (Hs & Hbytes & _ & Hi & _); [lia|split; lia|done|].
  rewrite Hbo in Hbytes. split; [lia|]. split.
  - rewrite Hi by lia. unfold boff, load_u32, m0. rewrite store_u32_disj; [done|rewrite ?firstBlockOffset_val in *; lia..|].
    left. unfold off_blockOffset. lia.
  - intros bn' Hbn'. destruct (readBlock_at enc txTypes (appendBlock m0 bn b.1 b.2) firstBlockOffset b bn') as (m2 & Hrd & _);
      [done|done|lia|done|done|by exists m2].
Qed.
End TornAppend.

(** ** The journal *)

Section Files.
Context {Tx W St M : Type} `{!MmapHandle M, !MmapLaws M, !Transaction Tx W St M}.
Context (newFile : string -> M) (canOpen : string -> bool) (enc : Tx -> list Z) `{!TransactionEncoding enc}.
Implicit Types (blocks : list (Z * list Tx)) (fs : gmap string M).

(** A file that is extended to be mapped reads as zeros. *)
Context (newFile_zero : forall name i, (0 < i)%nat -> Z.of_nat i < BLOCKS_PER_EPOCH -> boff (newFile name) i = 0).

(** No file has offsets recorded past its next block. *)
Definition files_unreached (fs : gmap string M) (blocks : list (Z * list Tx)) : Prop :=
  forall e m, fs !! nameOf e = Some m -> unreached m (length (epoch_of blocks e)).

(** The file an append writes to, whether it exists or not. *)
Lemma next_unreached fs blocks b : files_unreached fs blocks -> files_fit newFile canOpen enc fs blocks b ->
  exists m fs', getEpochFile newFile canOpen (Z.of_nat (length blocks)) fs = (Ret (Some m), fs') /\
    fs' !! nameOf (length blocks / bpe) = Some m /\ m = default (openEpoch true (newFile (epochName (Z.of_nat (length blocks))))) (fs !! epochName (Z.of_nat (length blocks))) /\
    (forall name, name <> nameOf (length blocks / bpe) -> fs' !! name = fs !! name) /\
    (fs !! nameOf (length blocks / bpe) = None -> length (epoch_of blocks (length blocks / bpe)) = 0%nat -> unreached m 0).
Proof.
  intros Hun (Hmax & Hopen & _ & Hsz & _). cbn zeta in *. unfold getEpochFile, mbind, prog_bind, getS, putS. rewrite Hopen. cbn [negb].
  rewrite <- epochName_nameOf by done. destruct (fs !! epochName _) as [m|] eqn:Hf.
  - by exists m, fs.
  - eexists _, _. split; [done|]. split; [by rewrite lookup_insert_eq|]. split; [done|].
    split; [intros; by rewrite lookup_insert_ne|]. intros _ _. apply openEpoch_unreached; [done|]. apply newFile_zero.
Qed.

Lemma append_keeps_unreached fs blocks b fs' : files_rep enc fs blocks -> files_unreached fs blocks ->
  files_fit newFile canOpen enc fs blocks b ->
  journal_append newFile canOpen fs (Z.of_nat (length blocks)) b.1 b.2 = Ret fs' -> files_unreached fs' (blocks ++ [b]).
Proof.
  intros Hr Hun Hfits Happ. destruct (next_file newFile canOpen enc fs blocks b Hr Hfits) as (m & fs1 & Hg & Hm & Hfit & _).
  destruct (next_unreached fs blocks b Hun Hfits) as (m2 & fs2 & Hg2 & Hin & _ & Hother & Hnew).
  rewrite Hg in Hg2. injection Hg2 as <- <-. unfold journal_append in Happ. rewrite Hg in Happ. cbn in Happ. injection Happ as <-.
  destruct Hr as [Hlen Hr]. destruct Hfits as (Hmax & _ & Htx & _). pose proof bpe_pos as Hp. pose proof (length_next_epoch blocks) as Hel.
  set (n := length blocks) in *. assert (unreached m (length (epoch_of blocks (n / bpe)))) as Hum.
  { destruct (fs !! nameOf (n / bpe)) as [m0|] eqn:Hf.
    - pose proof (Hun _ _ Hf) as Hu. unfold getEpochFile, mbind, prog_bind, getS, putS in Hg. destruct (negb _); [done|].
      rewrite epochName_nameOf, Hf in Hg by done. cbn in Hg. by injection Hg as -> _.
    - specialize (Hr _ (bn_epoch _ Hmax)). fold n in Hr. rewrite Hf in Hr. rewrite Hr. apply Hnew; [done|by rewrite Hr]. }
  intros e m' He. rewrite epochName_nameOf in He by done. rewrite epoch_snoc. fold n. case_decide as Hc.
  - subst e. rewrite lookup_insert_eq in He. injection He as <-.
    eapply appendBlock_unreached; try done.
    + by rewrite mod_bpe, Hel.
    + unfold MAX_HEIGHT, BLOCKS_PER_EPOCH in Hmax. word.
    + by rewrite Hel.
  - assert (nameOf e <> nameOf (n / bpe)) by (by intros ?%nameOf_inj).
    rewrite lookup_insert_ne, Hother in He by done. by apply Hun.
Qed.

(** A block appended under the number after next, as after a commit that had only counted its
    block, takes the place of the first block of the epoch. *)
Lemma append_past_hole (txTypes : TransactionTypeRegistry M Tx) `{!TransactionCodec enc txTypes} fs blocks b :
  (forall name, canOpen name = true) -> files_rep enc fs blocks -> files_unreached fs blocks ->
  let n := length blocks in
  let name := epochName (Z.of_nat (S n)) in
  let m := default (openEpoch true (newFile name)) (fs !! name) in
  Z.of_nat (S n) < MAX_HEIGHT -> (S n mod bpe <> 0)%nat -> firstBlockOffset <= mm_size (newFile name) ->
  room enc m firstBlockOffset b -> Z.of_nat (length b.2) <= U16_MAX ->
  exists fs', journal_append newFile canOpen fs (Z.of_nat (S n)) b.1 b.2 = Ret fs' /\
    exists fs'', journal_read newFile canOpen fs' txTypes (Z.of_nat (n / bpe * bpe)) = (Ret b.2, fs'').
Proof.
  intros Hopen Hr Hun n name m Hmax Hmod Hsz Hfit Htx. pose proof bpe_pos as Hp.
  pose proof (Nat.div_mod_eq n bpe) as Hdm. pose proof (Nat.mod_upper_bound n bpe ltac:(lia)) as Hmu.
  assert (S n / bpe = n / bpe /\ S n mod bpe = S (n mod bpe))%nat as [Hq Hrm].
  { assert (S (n mod bpe) < bpe)%nat as Hlt.
    { destruct (decide (S (n mod bpe) = bpe)) as [He|]; [|lia]. exfalso. apply Hmod.
      replace (S n) with (0 + (S (n / bpe)) * bpe)%nat by nia. rewrite Nat.Div0.mod_add. by apply Nat.mod_small. }
    replace (S n) with (S (n mod bpe) + (n / bpe) * bpe)%nat by nia.
    rewrite Nat.div_add, Nat.Div0.mod_add, Nat.div_small, Nat.mod_small by lia. done. }
  assert (name = nameOf (n / bpe)) as Hname by (unfold name; rewrite epochName_nameOf, Hq by done; done).
  assert (epoch_rep enc m (epoch_of blocks (n / bpe)) /\ unreached m (n mod bpe)) as [Hrep Hum].
  { pose proof (proj2 Hr _ (bn_epoch n ltac:(unfold n; lia))) as He. cbn beta in He. unfold m. rewrite <- Hname in He. pose proof (length_next_epoch blocks) as Hel. fold n in Hel.
    destruct (fs !! name) as [m0|] eqn:Hf; cbn [default from_option id].
    - split; [done|]. rewrite <- Hel. apply Hun. by rewrite <- Hname.
    - rewrite He in *. split; [by apply (openEpoch_rep enc)|]. cbn in Hel. rewrite <- Hel.
      apply openEpoch_unreached; [done|]. apply newFile_zero. }
  destruct (append_over_hole enc txTypes m (n mod bpe) (Z.of_nat (S n)) b Hum) as (Hs & Hb0 & Hread); try done.
  { by rewrite mod_bpe, Hrm. } { unfold MAX_HEIGHT, BLOCKS_PER_EPOCH in Hmax. word. }
  assert (exists fs1, getEpochFile newFile canOpen (Z.of_nat (S n)) fs = (Ret (Some m), fs1)) as [fs1 Hg].
  { unfold getEpochFile, mbind, prog_bind, getS, putS. rewrite Hopen. cbn [negb]. fold name. unfold m.
    destruct (fs !! name); eexists; done. }
  unfold journal_append. rewrite Hg. cbn. fold name. eexists. split; [done|].
  assert (epochName (Z.of_nat (n / bpe * bpe)) = name) as Hn0.
  { rewrite Hname, epochName_nameOf by nia. by rewrite Nat.div_mul by lia. }
  unfold journal_read, getEpochFile, mbind, prog_bind, getS. rewrite Hopen. cbn [negb]. rewrite Hn0, lookup_insert_eq. unfold mret, prog_ret.
  destruct (Hread (Z.of_nat (n / bpe * bpe))) as [m2 ->]; [|by eexists].
  rewrite <- Hb0. unfold getBlockOffset, boff. by rewrite mod_bpe, Nat.Div0.mod_mul.
Qed.
End Files.

(** C24: an append that is cut short anywhere, between any two of its writes, leaves the epoch
    exactly as it was or with the whole new block (in a run to its end it is [appendBlock], last
    in the list of states): every block that was there is still
    there, byte for byte. *)
Theorem append_interrupted {Tx W St M} `{!MmapHandle M, !MmapLaws M, !Transaction Tx W St M}
    (enc : Tx -> list Z) `{!TransactionEncoding enc} (m : M) blocks bn b :
  epoch_rep enc m blocks -> unreached m (length blocks) -> bn mod BLOCKS_PER_EPOCH = Z.of_nat (length blocks) -> 0 <= bn < U64_MAX ->
  room enc m (boff m (length blocks)) b -> Z.of_nat (length b.2) <= U16_MAX ->
  last (append_states m bn b.1 b.2) = Some (appendBlock m bn b.1 b.2) /\
  Forall (fun m' => (epoch_rep enc m' blocks /\ unreached m' (length blocks)) \/ epoch_rep enc m' (blocks ++ [b]))
    (append_states m bn b.1 b.2).
Proof.
  intros Hr Hun Hn Hbn Hfit Htx. split.
  - unfold append_states. destruct (_ =? 0); by rewrite !app_comm_cons, last_snoc.
  - apply Forall_forall. intros m' Hin.
    destruct (append_states_rep enc m blocks bn b m' Hr Hun Hn Hfit Hin) as [H | ->]; [by left|].
    right. by eapply appendBlock_rep.
Qed.

(** *** On the sample epoch *)

Lemma ep0_unreached : unreached ep0 0.
Proof.
  apply (openEpoch_unreached (blank 1048576)); [by_compute|]. intros i Hi Hlt. reflexivity.
Qed.

Lemma append_interrupted_witness :
  last (append_states ep0 0 eb0.1 eb0.2) = Some ep1 /\
  Forall (fun m' => (epoch_rep tt_enc m' [] /\ unreached m' 0) \/ epoch_rep tt_enc m' [eb0]) (append_states ep0 0 eb0.1 eb0.2).
Proof. apply (append_interrupted tt_enc ep0 [] 0 eb0 ep0_rep ep0_unreached); by_compute. Defined.
