(* ===== verification/SharedCursor.v ===== *)
(** * SharedCursor

    An append and a read of one epoch file by two threads (src/src/storage/EpochFile.cpp).
    The frontend's queries call [BlockchainBackend::getBlock] without a lock while its builder
    thread is inside [addBlock] (src/src/blockchain/BlockchainFrontend.cpp), the cache gives
    both the same [EpochFile], and the cursor of its mapping is one.  The two functions are
    cut at their accesses to the mapping, and the threads interleave at these. *)

From S2P Require Import Prelude Memory Transaction Registry StateOverride TestChainDesign EpochFile.

Section SharedCursor.
Context {Tx W St M : Type} `{!MmapHandle M, !Transaction Tx W St M}.

(** Where [appendBlock] stands: before the block header, before its [seek], before the next of
    the remaining transactions, before the offset of the next block. *)
Inductive appender :=
| WHeader
| WSeek (blockOffset : Z)
| WWrite (rest : list Tx)
| WNext
| WDone.

Definition append_step (blockNumber millis : Z) (transactions : list Tx) (x : appender * M) : appender * M :=
  let '(p, m) := x in
  match p with
  | WHeader =>
      let offsetIdx := u32 (blockNumber mod BLOCKS_PER_EPOCH) in
      let blockOffset := load_u32 m (off_blockOffset offsetIdx) in
      let '(blockOffset, m) :=
        if blockOffset =? 0 then
          let blockOffset := u32 (alignUp sizeof_epoch_header) in
          (blockOffset, store_u32 m (off_blockOffset offsetIdx) blockOffset)
        else (blockOffset, m) in
      (WSeek blockOffset, mm_store m blockOffset (block_header millis (u16 (Z.of_nat (length transactions)))))
  | WSeek blockOffset => (WWrite transactions, mm_seek m (blockOffset + sizeof_block_header))
  | WWrite (tx :: rest) => (WWrite rest, tx_write tx m)
  | WWrite [] => (WNext, m)
  | WNext =>
      (WDone, if negb (u64 (blockNumber + 1) mod BLOCKS_PER_EPOCH =? 0) then
          store_u32 m (off_blockOffset (u64 (blockNumber + 1) mod BLOCKS_PER_EPOCH)) (u32 (alignUp (mm_tell m)))
        else m)
  | WDone => (WDone, m)
  end.

(** Where [readBlock] stands: before its [seek], or in the loop with the transactions read so
    far; [numTransactions] is read from the mapping in every round. *)
Inductive reader :=
| RSeek
| RRead (blockOffset : Z) (results : list Tx)
| RDone (r : outcome (list Tx)).

Definition read_step (blockNumber : Z) (txTypes : TransactionTypeRegistry M Tx) (x : reader * M) : reader * M :=
  let '(p, m) := x in
  match p with
  | RSeek =>
      let blockOffset := getBlockOffset m blockNumber in
      if blockOffset =? 0 then (RDone (Throw (runtime_error "Block offset is zero")), m)
      else (RRead blockOffset [], mm_seek m (blockOffset + sizeof_block_header))
  | RRead blockOffset results =>
      if Z.of_nat (length results) <? le_decode (mm_load m (blockOffset + off_numTransactions) 2) then
        let '(r, m) := read txTypes m in
        match r with
        | Ret (Some tx) => (RRead blockOffset (results ++ [tx]), m)
        | Ret None => (RDone (Throw (runtime_error "Failed to deserialize transaction")), m)
        | Throw e => (RDone (Throw e), m)
        | Undef u => (RDone (Undef u), m)
        | NoFuel => (RDone NoFuel, m)
        end
      else (RDone (Ret results), m)
  | RDone r => (RDone r, m)
  end.

(** The two threads on one mapping. *)
Inductive race_step (bn ms : Z) (txs : list Tx) (rbn : Z) (txTypes : TransactionTypeRegistry M Tx) : appender * reader * M -> appender * reader * M -> Prop :=
| race_writer p q m p' m' : append_step bn ms txs (p, m) = (p', m') -> race_step bn ms txs rbn txTypes (p, q, m) (p', q, m')
| race_reader p q m q' m' : read_step rbn txTypes (q, m) = (q', m') -> race_step bn ms txs rbn txTypes (p, q, m) (p, q', m').

(** ** Alone, they are the functions of EpochFile.v *)

Section Writer.
(** [R]: a relation that has the writer's steps while the reader stands at [q]. *)
Context (bn ms : Z) (txs : list Tx) (R : appender * reader * M -> appender * reader * M -> Prop) (q : reader).
Context (R_writer : forall p m p' m', append_step bn ms txs (p, m) = (p', m') -> R (p, q, m) (p', q, m')).

Lemma writes_alone rest m : rtc R (WWrite rest, q, m) (WNext, q, write_all rest m).
Proof.
  revert m. induction rest as [|tx rest IH]; intros m; [by apply rtc_once, R_writer|].
  eapply rtc_l; [by apply (R_writer _ _ (WWrite rest) (tx_write tx m))|]. apply IH.
Qed.

Lemma writer_alone m : rtc R (WHeader, q, m) (WDone, q, appendBlock m bn ms txs).
Proof.
  eapply rtc_l; [by apply (R_writer WHeader m _ _ (surjective_pairing _))|]. unfold appendBlock. cbn [append_step].
  destruct (if load_u32 m _ =? 0 then _ else _) as [off m1]. cbn [fst snd].
  eapply rtc_l; [by apply (R_writer _ _ (WWrite txs) (mm_seek (mm_store m1 off (block_header ms (u16 (Z.of_nat (length txs))))) (off + sizeof_block_header)))|].
  etrans; [apply writes_alone|]. by apply rtc_once, R_writer.
Qed.
End Writer.

Context (enc : Tx -> list Z) `{!MmapLaws M} (txTypes : TransactionTypeRegistry M Tx) `{!TransactionCodec enc txTypes}.
Implicit Types (blocks : list (Z * list Tx)) (m : M).

(** The number of transactions in the header of a block that was written. *)
Lemma block_count m off b : Z.of_nat (length b.2) <= U16_MAX -> mm_load m off (length (block_bytes enc b)) = block_bytes enc b ->
  le_decode (mm_load m (off + off_numTransactions) 2) = Z.of_nat (length b.2).
Proof.
  intros Htx Hbytes. unfold block_bytes, block_header in Hbytes. rewrite <- !app_assoc in Hbytes.
  apply mm_load_part in Hbytes. rewrite !length_le_encode in Hbytes. unfold off_numTransactions. change 8 with (Z.of_nat 8).
  rewrite Hbytes. apply le_decode_encode. change (256 ^ Z.of_nat 2) with 65536. word_unfold; lia.
Qed.

Section Reader.
Context (rbn : Z) (R : appender * reader * M -> appender * reader * M -> Prop) (p : appender).
Context (R_reader : forall q m q' m', read_step rbn txTypes (q, m) = (q', m') -> R (p, q, m) (p, q', m')).

Lemma reads_alone off got txs' m :
  (forall m', (forall i, mm_byte m' i = mm_byte m i) -> le_decode (mm_load m' (off + off_numTransactions) 2) = Z.of_nat (length (got ++ txs'))) ->
  at_txs enc m txs' ->
  exists m', rtc R (p, RRead off got, m) (p, RDone (Ret (got ++ txs')), m') /\ mm_size m' = mm_size m /\ forall i, mm_byte m' i = mm_byte m i.
Proof.
  revert got m. induction txs' as [|tx txs' IH]; intros got m Hc Hat.
  - exists m. split; [|done]. apply rtc_once, R_reader. cbn [read_step]. rewrite Hc, app_nil_r by done. by rewrite Z.ltb_irrefl.
  - destruct (read_enc_cons enc txTypes tx txs' m Hat) as (m1 & Hr1 & (Hz1 & _ & Hb1) & Hat1).
    destruct (IH (got ++ [tx]) m1) as (m2 & Hs2 & Hz2 & Hb2).
    { intros m' Hb. rewrite <- app_assoc. apply Hc. intros i. by rewrite Hb. }
    { done. }
    rewrite <- app_assoc in Hs2. exists m2. split; [|split; [lia|intros i; by rewrite Hb2]]. eapply rtc_l; [|exact Hs2]. apply R_reader.
    cbn [read_step]. rewrite Hc by done. rewrite length_app. cbn [length]. destruct (Z.ltb_spec (Z.of_nat (length got)) (Z.of_nat (length got + S (length txs')))); [|lia].
    by rewrite Hr1.
Qed.

Lemma reader_alone m blocks i b : epoch_rep enc m blocks -> blocks !! i = Some b -> rbn mod BLOCKS_PER_EPOCH = Z.of_nat i ->
  exists m', rtc R (p, RSeek, m) (p, RDone (Ret b.2), m') /\ mm_size m' = mm_size m /\ forall i, mm_byte m' i = mm_byte m i.
Proof.
  intros Hr Hi Hbn. assert (Z.of_nat i < BLOCKS_PER_EPOCH) as Hlt by (unfold BLOCKS_PER_EPOCH in *; Z.div_mod_to_equations; lia).
  pose proof (er_offset enc m blocks Hr i ltac:(apply lookup_lt_Some in Hi; lia) Hlt) as Hoff. rewrite firstBlockOffset_val in Hoff.
  pose proof (er_fit enc m blocks Hr i b Hi) as Hfit. pose proof (er_bytes enc m blocks Hr i b Hi) as Hbytes.
  assert (Hlen := Hfit). unfold block_len, block_bytes in Hlen. rewrite length_app, length_block_header in Hlen.
  destruct (mm_seek_law m (boff m i + 64)) as (Hs & Ht & Hb); [lia|].
  destruct (reads_alone (boff m i) [] b.2 (mm_seek m (boff m i + 64))) as (m' & Hrun & Hs' & Hb').
  - intros m' Hb'. apply block_count; [by apply (er_txs enc m blocks Hr i)|]. rewrite <- Hbytes at 2. apply mem_load_ext. intros j _. by rewrite Hb', Hb.
  - split; [lia|]. split; [lia|]. rewrite Ht, mm_seek_load by lia. unfold block_bytes in Hbytes.
    rewrite length_app, mm_load_app in Hbytes. apply app_inj_1 in Hbytes as [_ Hbytes]; [|apply length_mm_load].
    by rewrite length_block_header in Hbytes.
  - exists m'. split; [|split; [lia|intros j; by rewrite Hb', Hb]]. eapply rtc_l; [|exact Hrun]. apply R_reader. cbn [read_step].
    unfold getBlockOffset. rewrite Hbn. fold (boff m i). by destruct (Z.eqb_spec (boff m i) 0); [lia|].
Qed.
End Reader.

(** ** The reader's [seek] inside the writer's window *)

(** The prefix of [k] transactions lies at the start of the bytes of all of them. *)
Lemma load_take m off k (txs : list Tx) : mm_load m off (length (enc_all enc txs)) = enc_all enc txs ->
  mm_load m off (length (enc_all enc (take k txs))) = enc_all enc (take k txs).
Proof.
  rewrite <- (take_drop k txs) at 1 2. unfold enc_all. rewrite map_app, concat_app, length_app, mm_load_app.
  intros H. by apply app_inj_1 in H as [H _]; [|apply length_mm_load].
Qed.

(** The memory when the header goes to [off] and the transactions behind [off'], below it. *)
Lemma displaced_writes m off off' hdr (txs : list Tx) : length hdr = 64%nat -> 0 <= off' -> off' + 64 <= off ->
  off + 64 + Z.of_nat (length (enc_all enc txs)) <= mm_size m ->
  let m3 := mm_seek (mm_seek (mm_store m off hdr) (off + 64)) (off' + 64) in
  let m4 := write_all txs m3 in
  (forall a k, a + Z.of_nat k <= off -> mm_load m3 a k = mm_load m a k) /\
  mm_size m4 = mm_size m /\ mm_tell m4 = off' + 64 + Z.of_nat (length (enc_all enc txs)) /\
  (forall a k, a + Z.of_nat k <= off' + 64 -> mm_load m4 a k = mm_load m a k) /\
  mm_load m4 (off' + 64) (length (enc_all enc txs)) = enc_all enc txs.
Proof.
  intros Hh H0 H1 H2. cbn zeta.
  destruct (mm_store_law m off hdr) as (Hs1 & _ & _); [lia|rewrite Hh; lia|]. set (m1 := mm_store m off hdr) in *.
  destruct (mm_seek_law m1 (off + 64)) as (Hs2 & _ & Hb2); [lia|]. set (m2 := mm_seek m1 (off + 64)) in *.
  destruct (mm_seek_law m2 (off' + 64)) as (Hs3 & Ht3 & Hb3); [lia|]. set (m3 := mm_seek m2 (off' + 64)) in *.
  assert (mm_wrote m3 (enc_all enc txs) (write_all txs m3)) as Hw by (apply (write_all_wrote enc); lia).
  pose proof Hw as (Hs4 & Ht4 & _).
  assert (forall a k, a + Z.of_nat k <= off -> mm_load m3 a k = mm_load m a k) as H3.
  { intros a k Hk. transitivity (mm_load m1 a k); [apply mem_load_ext; intros; by rewrite Hb3, Hb2|]. apply mm_store_load_disj; rewrite ?Hh; lia. }
  split; [done|]. split; [lia|]. split; [lia|]. split; [|rewrite <- Ht3; by apply mm_wrote_load].
  intros a k Hk. rewrite (mm_wrote_load_disj m3 (enc_all enc txs)) by (done || lia). apply H3. lia.
Qed.

Lemma race_run m blocks bn b i old rbn :
  epoch_rep enc m blocks -> bn mod BLOCKS_PER_EPOCH = Z.of_nat (length blocks) -> 0 <= bn < U64_MAX ->
  room enc m (boff m (length blocks)) b -> Z.of_nat (length b.2) <= U16_MAX ->
  blocks !! i = Some old -> rbn mod BLOCKS_PER_EPOCH = Z.of_nat i ->
  exists m', rtc (race_step bn b.1 b.2 rbn txTypes) (WHeader, RSeek, m) (WDone, RRead (boff m i) [], m') /\
    mm_size m' = mm_size m /\ boff m' i = boff m i /\
    mm_load m' (boff m i) 64 = mm_load m (boff m i) 64 /\
    mm_load m' (boff m i + 64) (length (enc_all enc b.2)) = enc_all enc b.2 /\
    (Z.of_nat (S (length blocks)) < BLOCKS_PER_EPOCH -> boff m' (S (length blocks)) = alignUp (boff m i + block_len enc b)).
Proof.
  intros Hr Hn Hbn [Hfit Hsz] Htx Hi Hrbn. set (n := length blocks) in *.
  assert (i < n)%nat as Hin by by apply lookup_lt_Some in Hi.
  assert (Z.of_nat n < BLOCKS_PER_EPOCH) as Hn' by (unfold BLOCKS_PER_EPOCH in *; Z.div_mod_to_equations; lia).
  pose proof (er_offset enc m blocks Hr n ltac:(done) Hn') as Hoffn. pose proof (er_offset enc m blocks Hr i ltac:(lia) ltac:(lia)) as Hoffi.
  pose proof (er_before enc m blocks i n old Hr Hi ltac:(lia) Hn') as Hbef. rewrite firstBlockOffset_val in *.
  assert (block_len enc b = 64 + Z.of_nat (length (enc_all enc b.2))) as Hbl by (unfold block_len, block_bytes; rewrite length_app, length_block_header; lia).
  assert (64 <= block_len enc old) as Hol by (unfold block_len, block_bytes; rewrite length_app, length_block_header; lia).
  set (hdr := block_header b.1 (u16 (Z.of_nat (length b.2)))). assert (length hdr = 64%nat) as Hh by apply length_block_header.
  destruct (displaced_writes m (boff m n) (boff m i) hdr b.2) as (H3 & Hs4 & Ht4 & H4 & Hpay); [done|lia|lia|lia|].
  set (m1 := mm_store m (boff m n) hdr) in *. set (m2 := mm_seek m1 (boff m n + 64)) in *. set (m3 := mm_seek m2 (boff m i + 64)) in *.
  set (m4 := write_all b.2 m3) in *.
  assert (forall j, Z.of_nat j < BLOCKS_PER_EPOCH -> boff m4 j = boff m j) as Hbo.
  { intros j Hj. unfold boff, load_u32. f_equal. apply H4. pose proof (off_blockOffset_bounds (Z.of_nat j) ltac:(lia)). rewrite firstBlockOffset_val in *. lia. }
  set (m5 := (append_step bn b.1 b.2 (WNext, m4)).2). exists m5. split; [|].
  - eapply rtc_l; [apply (race_writer _ _ _ _ _ _ _ _ (WSeek (boff m n)) m1)|].
    { cbn [append_step]. rewrite Hn, (u32_small (Z.of_nat n)) by (unfold BLOCKS_PER_EPOCH in *; word). fold (boff m n).
      by destruct (Z.eqb_spec (boff m n) 0); [lia|]. }
    eapply rtc_l; [by apply (race_writer _ _ _ _ _ _ _ _ (WWrite b.2) m2)|].
    eapply rtc_l; [apply (race_reader _ _ _ _ _ _ _ _ (RRead (boff m i) []) m3)|].
    { cbn [read_step]. unfold getBlockOffset. rewrite Hrbn. fold (boff m2 i).
      assert (boff m2 i = boff m i) as ->; [|by destruct (Z.eqb_spec (boff m i) 0); [lia|]].
      pose proof (off_blockOffset_bounds (Z.of_nat i) ltac:(lia)) as Ho. rewrite firstBlockOffset_val in Ho.
      unfold boff, load_u32. f_equal. rewrite <- H3 by lia. symmetry. unfold m3. apply mm_seek_load. unfold m2, m1. destruct (mm_store_law m (boff m n) hdr) as (Hz & _); [lia|rewrite Hh; lia|].
      destruct (mm_seek_law (mm_store m (boff m n) hdr) (boff m n + 64)) as (Hz2 & _); lia. }
    etrans; [apply (writes_alone bn b.1 b.2); intros; by apply race_writer|]. apply rtc_once, race_writer. done.
  - assert (0 <= (bn + 1) mod BLOCKS_PER_EPOCH < BLOCKS_PER_EPOCH) as Hm by (apply Z.mod_pos_bound; done).
    pose proof (off_blockOffset_bounds _ Hm) as [Ho1 Ho2]. rewrite firstBlockOffset_val in Ho2.
    assert (m5 = if (bn + 1) mod BLOCKS_PER_EPOCH =? 0 then m4 else store_u32 m4 (off_blockOffset ((bn + 1) mod BLOCKS_PER_EPOCH)) (u32 (alignUp (mm_tell m4)))) as ->.
    { unfold m5. cbn. rewrite (u64_small (bn + 1)) by (word_unfold; lia). by destruct (_ =? 0). }
    assert ((bn + 1) mod BLOCKS_PER_EPOCH = if decide (Z.of_nat (S n) < BLOCKS_PER_EPOCH) then Z.of_nat (S n) else 0) as Hnx.
    { unfold BLOCKS_PER_EPOCH in *. case_decide; Z.div_mod_to_equations; lia. }
    destruct (Z.eqb_spec ((bn + 1) mod BLOCKS_PER_EPOCH) 0) as [H0|H0].
    + rewrite Hbo by lia. split; [lia|]. split; [done|]. split; [apply H4; lia|]. split; [done|].
      intros Hlt. rewrite decide_True in Hnx by done. lia.
    + case_decide as Hlt; [|lia]. rewrite Hnx in *. split; [rewrite store_u32_size by lia; lia|].
      split; [rewrite <- Hbo by lia; unfold boff, load_u32; f_equal; apply store_u32_disj; [lia|lia|]; unfold off_blockOffset; lia|].
      split; [rewrite store_u32_disj by lia; apply H4; lia|]. split; [by rewrite store_u32_disj by lia|].
      intros _. assert (mm_tell m4 = boff m i + block_len enc b) as -> by lia. pose proof (alignUp_bounds (boff m i + block_len enc b)) as Hal.
      rewrite u32_small by (word_unfold; lia). apply store_u32_load; [lia|lia|word_unfold; lia].
Qed.

(** ** The two functions apart *)

Section Exclusive.
Context (blocks : list (Z * list Tx)) (b old : Z * list Tx) (bn rbn : Z) (i : nat).
Context (Hn : bn mod BLOCKS_PER_EPOCH = Z.of_nat (length blocks)) (Hbn : 0 <= bn < U64_MAX).
Context (Htx : Z.of_nat (length b.2) <= U16_MAX) (Hi : blocks !! i = Some old) (Hrbn : rbn mod BLOCKS_PER_EPOCH = Z.of_nat i).

(** Neither takes a step while the other is in the middle of its work.  This is a precondition, what
    a lock would give; the source has none, and [race_step] is what it allows. *)
Inductive exclusive_step : appender * reader * M -> appender * reader * M -> Prop :=
| exclusive_writer p q m p' m' : (q = RSeek \/ exists r, q = RDone r) -> append_step bn b.1 b.2 (p, m) = (p', m') ->
    exclusive_step (p, q, m) (p', q, m')
| exclusive_reader p q m q' m' : (p = WHeader \/ p = WDone) -> read_step rbn txTypes (q, m) = (q', m') ->
    exclusive_step (p, q, m) (p, q', m').

(** The mapping while the writer is under way from [m0]. *)
Definition at_phase (m0 : M) (p : appender) (m : M) : Prop :=
  match p with
  | WSeek off => append_step bn b.1 b.2 (WHeader, m0) = (WSeek off, m)
  | WWrite rest => exists off m1 written, append_step bn b.1 b.2 (WHeader, m0) = (WSeek off, m1) /\
      b.2 = written ++ rest /\ m = write_all written (mm_seek m1 (off + sizeof_block_header))
  | WNext => exists off m1, append_step bn b.1 b.2 (WHeader, m0) = (WSeek off, m1) /\ m = write_all b.2 (mm_seek m1 (off + sizeof_block_header))
  | WHeader | WDone => False
  end.

Lemma writer_begins m0 p m : append_step bn b.1 b.2 (WHeader, m0) = (p, m) -> at_phase m0 p m.
Proof. intros H. pose proof H as H'. cbn [append_step] in H'. destruct (if load_u32 m0 _ =? 0 then _ else _). by injection H' as <- <-. Qed.

Lemma writer_goes m0 p m p' m' : at_phase m0 p m -> append_step bn b.1 b.2 (p, m) = (p', m') ->
  at_phase m0 p' m' \/ (p' = WDone /\ m' = appendBlock m0 bn b.1 b.2).
Proof.
  destruct p as [|off|[|tx rest]| |]; try done.
  - intros H [= <- <-]. left. exists off, m, []. by split.
  - intros (off & m1 & written & H & Hb & ->) [= <- <-]. left. exists off, m1. rewrite app_nil_r in Hb. by rewrite <- Hb.
  - intros (off & m1 & written & H & Hb & ->) [= <- <-]. left. exists off, m1, (written ++ [tx]).
    split; [done|]. split; [by rewrite <- app_assoc|]. unfold write_all. by rewrite foldl_app.
  - intros (off & m1 & H & ->) [= <- <-]. right. split; [done|]. unfold appendBlock. cbn [append_step] in H.
    destruct (if load_u32 m0 _ =? 0 then _ else _) as [off' m0']. by injection H as <- <-.
Qed.

Definition idle (q : reader) : Prop := q = RSeek \/ q = RDone (Ret old.2).

Definition reading (m : M) (q : reader) : Prop :=
  idle q \/ exists got rest, q = RRead (boff m i) got /\ old.2 = got ++ rest /\ at_txs enc m rest.

Definition race_inv (x : appender * reader * M) : Prop :=
  let '(p, q, m) := x in
  match p with
  | WHeader => epoch_rep enc m blocks /\ room enc m (boff m (length blocks)) b /\ reading m q
  | WDone => epoch_rep enc m (blocks ++ [b]) /\ reading m q
  | _ => idle q /\ exists m0, epoch_rep enc m0 blocks /\ room enc m0 (boff m0 (length blocks)) b /\ at_phase m0 p m
  end.

(** A step of a reader that is not disturbed. *)
Lemma reader_goes m blocks' q q' m' : epoch_rep enc m blocks' -> blocks' !! i = Some old -> reading m q ->
  read_step rbn txTypes (q, m) = (q', m') ->
  reading m' q' /\ mm_size m' = mm_size m /\ forall j, mm_byte m' j = mm_byte m j.
Proof.
  intros Hr Hi' Hq. assert (Z.of_nat i < BLOCKS_PER_EPOCH) as Hlt by (unfold BLOCKS_PER_EPOCH in *; Z.div_mod_to_equations; lia).
  pose proof (er_offset enc m blocks' Hr i ltac:(apply lookup_lt_Some in Hi'; lia) Hlt) as Hoff. rewrite firstBlockOffset_val in Hoff.
  pose proof (er_fit enc m blocks' Hr i old Hi') as Hfit. pose proof (er_bytes enc m blocks' Hr i old Hi') as Hbytes.
  assert (Hlen := Hfit). unfold block_len, block_bytes in Hlen. rewrite length_app, length_block_header in Hlen.
  assert (forall m1 : M, (forall j, mm_byte m1 j = mm_byte m j) -> boff m1 i = boff m i) as Hbo.
  { intros m1 Hb. unfold boff, load_u32. f_equal. by apply mem_load_ext. }
  destruct Hq as [[-> | ->]|(got & rest & -> & Hold & Hat)]; cbn [read_step].
  - unfold getBlockOffset, sizeof_block_header. rewrite Hrbn. fold (boff m i). destruct (Z.eqb_spec (boff m i) 0); [lia|]. intros [= <- <-].
    destruct (mm_seek_law m (boff m i + 64)) as (Hs & Ht & Hb); [lia|]. split; [right|by split].
    exists [], old.2. rewrite (Hbo _ Hb). split; [done|]. split; [done|]. split; [lia|]. split; [lia|].
    rewrite Ht, mm_seek_load by lia. unfold block_bytes in Hbytes. rewrite length_app, mm_load_app in Hbytes.
    apply app_inj_1 in Hbytes as [_ Hbytes]; [|apply length_mm_load]. by rewrite length_block_header in Hbytes.
  - intros [= <- <-]. split; [left; by right|done].
  - rewrite (block_count m (boff m i) old) by (done || by apply (er_txs enc m blocks' Hr i)). rewrite Hold.
    destruct rest as [|tx rest].
    + rewrite app_nil_r, Z.ltb_irrefl. intros [= <- <-]. split; [left; right|done]. by rewrite Hold, app_nil_r.
    + rewrite length_app. cbn [length]. destruct (Z.ltb_spec (Z.of_nat (length got)) (Z.of_nat (length got + S (length rest)))); [|lia].
      destruct (read_enc_cons enc txTypes tx rest m Hat) as (m1 & Hr1 & (Hs1 & _ & Hb1) & Hat1). rewrite Hr1. intros [= <- <-].
      split; [right|done]. exists (got ++ [tx]), rest. rewrite (Hbo _ Hb1), <- app_assoc. done.
Qed.

Lemma room_ext m m' off : mm_size m' = mm_size m -> room enc m off b -> room enc m' off b.
Proof. unfold room. by intros ->. Qed.

Lemma race_inv_step x y : exclusive_step x y -> race_inv x -> race_inv y.
Proof.
  destruct 1 as [p q m p' m' Hq Hw|p q m q' m' Hp Hrd]; intros Hx.
  - assert (forall m0, idle q -> epoch_rep enc m0 blocks -> room enc m0 (boff m0 (length blocks)) b -> at_phase m0 p' m' -> race_inv (p', q, m')) as Hmid.
    { intros m0 H1 H2 H3 H4. destruct p'; cbn in H4 |- *; try done; (split; [done|]; exists m0; by split). }
    assert (forall m0, epoch_rep enc m0 blocks -> room enc m0 (boff m0 (length blocks)) b -> idle q -> at_phase m0 p m -> race_inv (p', q, m')) as Hgo.
    { intros m0 H1 H2 H3 H4. destruct (writer_goes _ _ _ _ _ H4 Hw) as [H|[-> ->]]; [by apply (Hmid m0)|].
      split; [|by left]. exact (appendBlock_rep enc m0 blocks bn b H1 Hn Hbn H2 Htx). }
    destruct p as [|off|rest| |].
    + destruct Hx as (Hr & Hroom & Hrd). apply (Hmid m); [|done|done|by apply writer_begins].
      destruct Hrd as [|(got & rest & -> & _)]; [done|]. by destruct Hq as [|[]].
    + destruct Hx as (Hq' & m0 & H1 & H2 & H3). by apply (Hgo m0).
    + destruct Hx as (Hq' & m0 & H1 & H2 & H3). by apply (Hgo m0).
    + destruct Hx as (Hq' & m0 & H1 & H2 & H3). by apply (Hgo m0).
    + by injection Hw as <- <-.
  - destruct Hp as [-> | ->].
    + destruct Hx as (Hr & Hroom & Hq). destruct (reader_goes m blocks q q' m' Hr Hi Hq Hrd) as (Hq' & Hs & Hb).
      split; [by apply (epoch_rep_ext enc m)|]. split; [|done]. assert (boff m' (length blocks) = boff m (length blocks)) as ->.
      { unfold boff, load_u32. f_equal. by apply mem_load_ext. }
      by apply (room_ext m).
    + destruct Hx as (Hr & Hq). destruct (reader_goes m (blocks ++ [b]) q q' m' Hr) as (Hq' & Hs & Hb); [by apply lookup_app_l_Some|done|done|].
      split; [by apply (epoch_rep_ext enc m)|done].
Qed.
End Exclusive.
End SharedCursor.

(** C28: with the two functions mutually exclusive, as a lock in [EpochFile] would make them, every
    interleaving is right: a read that has returned gives the block, whatever was appended
    meanwhile, and once the append is done the epoch holds the new block as well. *)
Theorem exclusive_run {Tx W St M} `{!MmapHandle M, !MmapLaws M, !Transaction Tx W St M}
    (enc : Tx -> list Z) (txTypes : TransactionTypeRegistry M Tx) `{!TransactionCodec enc txTypes} (m m' : M) blocks bn b i old rbn p q :
  epoch_rep enc m blocks -> bn mod BLOCKS_PER_EPOCH = Z.of_nat (length blocks) -> 0 <= bn < U64_MAX ->
  room enc m (boff m (length blocks)) b -> Z.of_nat (length b.2) <= U16_MAX ->
  blocks !! i = Some old -> rbn mod BLOCKS_PER_EPOCH = Z.of_nat i ->
  rtc (exclusive_step txTypes b bn rbn) (WHeader, RSeek, m) (p, q, m') ->
  (forall r, q = RDone r -> r = Ret old.2) /\ (p = WHeader -> epoch_rep enc m' blocks) /\ (p = WDone -> epoch_rep enc m' (blocks ++ [b])).
Proof.
  intros Hr Hn Hbn Hfit Htx Hi Hrbn Hrun.
  assert (forall x y, rtc (exclusive_step txTypes b bn rbn) x y -> race_inv enc blocks b old bn i x -> race_inv enc blocks b old bn i y) as Hall.
  { induction 1 as [|x y z Hxy _ IH]; [done|]. intros H. by apply IH, (race_inv_step enc txTypes blocks b old bn rbn i Hn Hbn Htx Hi Hrbn x). }
  assert (race_inv enc blocks b old bn i (p, q, m')) as H by (apply (Hall _ _ Hrun); split; [done|]; split; [done|]; left; by left).
  assert (forall r, idle old q -> q = RDone r -> r = Ret old.2) as Hidle by (intros r [-> | ->]; [done|by intros [= <-]]).
  assert (forall r, reading enc old i m' q -> q = RDone r -> r = Ret old.2) as Hreading.
  { intros r [Hq|(got & rest & -> & _)]; [by apply Hidle|done]. }
  destruct p; cbn in H; (split; [intros r; first [apply Hidle, H|apply Hreading, H]|split; intros [=]; apply H]).
Qed.

(** C27: a query during a commit can destroy a block.  When another thread opens block [i] of the
    epoch between the [seek] of [appendBlock] and its first write, the transactions of the new
    block are written over those of block [i], which from then on reads as the new ones, and
    the next block will be placed where block [i] ends and over what follows it. *)
Theorem race_overwrites {Tx W St M} `{!MmapHandle M, !MmapLaws M, !Transaction Tx W St M}
    (enc : Tx -> list Z) (txTypes : TransactionTypeRegistry M Tx) `{!TransactionCodec enc txTypes} (m : M) blocks bn b i old rbn :
  epoch_rep enc m blocks -> bn mod BLOCKS_PER_EPOCH = Z.of_nat (length blocks) -> 0 <= bn < U64_MAX ->
  room enc m (boff m (length blocks)) b -> Z.of_nat (length b.2) <= U16_MAX ->
  blocks !! i = Some old -> rbn mod BLOCKS_PER_EPOCH = Z.of_nat i -> (length old.2 <= length b.2)%nat ->
  exists m', rtc (race_step bn b.1 b.2 rbn txTypes) (WHeader, RSeek, m) (WDone, RRead (boff m i) [], m') /\
    (readBlock rbn txTypes m').1 = Ret (take (length old.2) b.2) /\
    (Z.of_nat (S (length blocks)) < BLOCKS_PER_EPOCH ->
      getBlockOffset m' (bn + 1) = alignUp (boff m i + block_len enc b)).
Proof.
  intros Hr Hn Hbn Hfit Htx Hi Hrbn Hlen. pose proof (er_txs enc m blocks Hr i old Hi) as Hold.
  destruct (race_run enc txTypes m blocks bn b i old rbn Hr Hn Hbn Hfit Htx Hi Hrbn) as (m' & Hrun & Hs & Hbo & Hhd & Hbytes & Hnext).
  exists m'. split; [done|]. split.
  - set (b' := (old.1, take (length old.2) b.2)).
    assert (length b'.2 = length old.2) as Hl' by (cbn; rewrite length_take; lia).
    assert (Z.of_nat (length blocks) < BLOCKS_PER_EPOCH) as Hlt by (unfold BLOCKS_PER_EPOCH in *; Z.div_mod_to_equations; lia).
    pose proof (lookup_lt_Some _ _ _ Hi) as Hin. pose proof (er_offset enc m blocks Hr i ltac:(lia) ltac:(lia)) as Hoff.
    assert (block_bytes enc b' = block_header old.1 (Z.of_nat (length old.2)) ++ enc_all enc b'.2) as Hbb by (unfold block_bytes; by rewrite Hl').
    pose proof (length_enc_take enc (length old.2) b.2) as Hle. destruct Hfit as [Hfit _].
    pose proof (er_before enc m blocks i (length blocks) old Hr Hi ltac:(lia) Hlt) as Hbef. unfold block_len in Hbef.
    destruct (readBlock_at enc txTypes m' (boff m i) b' rbn) as (m2 & -> & _); [| | | | |done].
    + unfold getBlockOffset. by rewrite Hrbn.
    + lia.
    + rewrite Hs. unfold block_len in *. rewrite Hbb. unfold block_bytes in Hfit. rewrite !length_app, !length_block_header in *. change (enc_all enc b'.2) with (enc_all enc (take (length old.2) b.2)). lia.
    + lia.
    + rewrite Hbb, length_app, mm_load_app, length_block_header, Hhd. f_equal; [|by apply load_take].
      pose proof (er_bytes enc m blocks Hr i old Hi) as Ho. unfold block_bytes in Ho.
      rewrite length_app, mm_load_app, length_block_header in Ho. apply app_inj_1 in Ho as [Ho _]; [done|]. by rewrite length_mm_load, length_block_header.
  - intros Hlt. rewrite <- Hnext by done. unfold getBlockOffset, boff. do 2 f_equal.
    unfold BLOCKS_PER_EPOCH in *. Z.div_mod_to_equations; lia.
Qed.

(** Block 0 holds the transaction of the block that was being appended, and the next block
    will overwrite block 1. *)
Definition eb2 : Z * list TestTransaction := (1700000120000, [mkTestTransaction 1700000120000 9 9; mkTestTransaction 1700000120001 8 8]).

Lemma race_overwrites_witness : exists m',
  rtc (race_step 2 eb2.1 eb2.2 0 sample_types) (WHeader, RSeek, ep2) (WDone, RRead 266240 [], m') /\
  (readBlock 0 sample_types m').1 = Ret eb2.2 /\ (3 < 65536 -> getBlockOffset m' 3 = 270336).
Proof. apply (race_overwrites tt_enc sample_types ep2 [eb0; eb1] 2 eb2 0 eb0 0 ep2_rep); by_compute. Defined.

(** A read of block 0, then an append. *)
Lemma exclusive_run_witness : exists m',
  (forall r, RDone (Ret eb0.2) = RDone r -> r = Ret eb0.2) /\ (WDone = WHeader (Tx:=TestTransaction) -> epoch_rep tt_enc m' [eb0; eb1]) /\
  (WDone = WDone (Tx:=TestTransaction) -> epoch_rep tt_enc m' ([eb0; eb1] ++ [eb2])).
Proof.
  destruct (reader_alone tt_enc sample_types 0 (exclusive_step sample_types eb2 2 0) WHeader) with (m := ep2) (blocks := [eb0; eb1]) (i := 0%nat) (b := eb0)
    as (m1 & Hrun & _); [intros; apply exclusive_reader; [by left|done]|apply ep2_rep|done|done|].
  exists (appendBlock m1 2 eb2.1 eb2.2).
  apply (exclusive_run tt_enc sample_types ep2 (appendBlock m1 2 eb2.1 eb2.2) [eb0; eb1] 2 eb2 0 eb0 0 WDone (RDone (Ret eb0.2)) ep2_rep); [by_compute..|].
  etrans; [exact Hrun|]. apply (writer_alone 2 eb2.1 eb2.2). intros. apply exclusive_writer; [right; by eexists|done].
Defined.
