(* ===== verification/CatalogFile.v ===== *)
(** * CatalogFile

    One catalog file (src/src/storage/CatalogFile.h and .cpp): the payloads of segments
    and the ordered index that locates them.  The first part is the key order of the
    segment metadata and the reader; the second part is the writer, whose three critical
    sections are separate steps, so that several writers interleave. *)

From S2P Require Import Prelude Excessive Memory.

Record segment_btree_metadata_t := Segment {
  blockRangeStart : Z;
  blockRangeEnd : Z;
  byteOffset : Z;
  byteLength : Z;
  checksum : Z;
  mergeGeneration : Z;
  indexId : Z;
  encodingVersion : Z;
}.

#[global] Instance segment_eq_dec : EqDecision segment_btree_metadata_t.
Proof. solve_decision. Defined.

Definition compare (a b : segment_btree_metadata_t) : Z :=
  if indexId a <? indexId b then -1
  else if indexId b <? indexId a then 1
  else if blockRangeStart a <? blockRangeStart b then -1
  else if blockRangeStart b <? blockRangeStart a then 1
  else if mergeGeneration a <? mergeGeneration b then -1
  else if mergeGeneration b <? mergeGeneration a then 1
  else 0.

(** [s] with the key fields replaced. *)
Definition with_key (s : segment_btree_metadata_t) (ix start gen : Z) : segment_btree_metadata_t :=
  Segment start (blockRangeEnd s) (byteOffset s) (byteLength s) (checksum s) gen ix (encodingVersion s).

Definition successor (s : segment_btree_metadata_t) : segment_btree_metadata_t :=
  if negb (mergeGeneration s =? U32_MAX) then
    with_key s (indexId s) (blockRangeStart s) (u32 (mergeGeneration s + 1))
  else
    let s := with_key s (indexId s) (blockRangeStart s) 0 in
    if negb (blockRangeStart s =? U64_MAX) then
      with_key s (indexId s) (u64 (blockRangeStart s + 1)) (mergeGeneration s)
    else
      let s := with_key s (indexId s) 0 (mergeGeneration s) in
      if negb (indexId s =? U16_MAX) then with_key s (u16 (indexId s + 1)) (blockRangeStart s) (mergeGeneration s)
      else s.

(** The key fields are in the range of their types. *)
Definition key_ok (s : segment_btree_metadata_t) : Prop :=
  in_u16 (indexId s) /\ in_u64 (blockRangeStart s) /\ in_u32 (mergeGeneration s).

#[global] Instance key_ok_dec s : Decision (key_ok s).
Proof. unfold key_ok. apply _. Defined.

(** The largest key. *)
Definition is_max_key (s : segment_btree_metadata_t) : Prop :=
  indexId s = U16_MAX /\ blockRangeStart s = U64_MAX /\ mergeGeneration s = U32_MAX.

Ltac cmp_cases :=
  repeat match goal with
  | |- context [?x <? ?y] => destruct (Z.ltb_spec x y)
  | H : context [?x <? ?y] |- _ => destruct (Z.ltb_spec x y)
  end.

#[global] Instance seg_compare_Comparator : Comparator compare.
Proof. split; unfold compare; intros; cmp_cases; lia. Qed.

Lemma successor_next s x : key_ok s -> key_ok x -> ~ is_max_key s ->
  0 <= compare x (successor s) <-> 0 < compare x s.
Proof.
  intros (Hi & Hs & Hg) (Hxi & Hxs & Hxg) Hmax. unfold is_max_key in Hmax. unfold successor.
  destruct (Z.eqb_spec (mergeGeneration s) U32_MAX) as [Eg|Eg]; cbn.
  2:{ unfold compare; cbn. rewrite (u32_small (mergeGeneration s + 1)) by word. cmp_cases; lia. }
  destruct (Z.eqb_spec (blockRangeStart s) U64_MAX) as [Es|Es]; cbn.
  2:{ unfold compare; cbn. rewrite (u64_small (blockRangeStart s + 1)) by word.
      unfold in_u32 in *. cmp_cases; lia. }
  destruct (Z.eqb_spec (indexId s) U16_MAX) as [Ei|Ei]; cbn; [tauto|].
  unfold compare; cbn. rewrite (u16_small (indexId s + 1)) by word.
  unfold in_u32, in_u64 in *. cmp_cases; lia.
Qed.

(** [successor] is the immediate successor in the order of the index, with the carries
    from the generation to the block and from the block to the index id; at the largest key
    it does not return its argument but wraps to block 0 of the same index. *)
Theorem successor_correct s x : key_ok s -> key_ok x ->
  (~ is_max_key s -> 0 <= compare x (successor s) <-> 0 < compare x s) /\
  (is_max_key s -> successor s = with_key s U16_MAX 0 0).
Proof.
  intros Hs Hx. split; [by apply successor_next|]. intros (E1 & E2 & E3).
  unfold successor. rewrite E3, E2, E1. done.
Qed.

(** ** The reader *)
Section Reader.
Context {T : Type} `{!BTree segment_btree_metadata_t T}.

(** [callback] updates the variables it captures, [A]. *)
Fixpoint forEachSegment_loop {A} (fuel : nat) (segmentIndex : T) (id startBlock endBlock : Z)
    (callback : segment_btree_metadata_t -> A -> A) (cursor : segment_btree_metadata_t) (acc : A) : outcome A :=
  match fuel with
  | O => NoFuel
  | S fuel =>
      match bt_findNext segmentIndex cursor with
      | None => Ret acc
      | Some cursor =>
          if negb (indexId cursor =? id) then Ret acc
          else if endBlock <? blockRangeStart cursor then Ret acc
          else
            let acc := if startBlock <=? blockRangeEnd cursor then callback cursor acc else acc in
            forEachSegment_loop fuel segmentIndex id startBlock endBlock callback (successor cursor) acc
      end
  end.

Definition forEachSegment {A} (fuel : nat) (segmentIndex : T) (id startBlock endBlock : Z)
    (callback : segment_btree_metadata_t -> A -> A) (acc : A) : outcome A :=
  let cursor := Segment startBlock 0 0 0 0 0 id 0 in
  forEachSegment_loop fuel segmentIndex id startBlock endBlock callback cursor acc.

(** The test that ends the loop. *)
Definition leaves (id endBlock : Z) (s : segment_btree_metadata_t) : bool :=
  negb (indexId s =? id) || (endBlock <? blockRangeStart s).

(** One callback, or none, per element the loop passes. *)
Definition visit {A} (startBlock : Z) (callback : segment_btree_metadata_t -> A -> A)
    (acc : A) (s : segment_btree_metadata_t) : A :=
  if startBlock <=? blockRangeEnd s then callback s acc else acc.

Lemma forEachSegment_scan {A} fuel t id a b (cb : segment_btree_metadata_t -> A -> A) cursor acc :
  forEachSegment_loop fuel t id a b cb cursor acc =
    (fun l => foldl (visit a cb) acc l) <$> scan fuel t (leaves id b) successor cursor.
Proof.
  revert cursor acc. induction fuel as [|fuel IH]; intros cursor acc; [done|]. simpl.
  destruct (bt_findNext t cursor) as [s|]; [|done]. unfold leaves at 1.
  destruct (indexId s =? id); cbn; [|done]. destruct (b <? blockRangeStart s); [done|].
  rewrite IH. by destruct (scan fuel _ _ _ _).
Qed.

(** The invariant of an index: ordered, keys in range, and no entry with the largest
    key. *)
Definition index_ok (t : T) : Prop :=
  bt_wf compare t /\ Forall (fun s => key_ok s /\ ~ is_max_key s) (bt_elems t).

Context `{!BTreeLaws compare}.

Lemma forEachSegment_elems {A} fuel t id a b (cb : segment_btree_metadata_t -> A -> A) acc :
  index_ok t -> in_u64 a -> (length (bt_elems t) < fuel)%nat ->
  forEachSegment fuel t id a b cb acc =
    Ret (foldl (visit a cb) acc
      (filter (fun s => indexId s = id /\ a <= blockRangeStart s <= b) (bt_elems t))).
Proof.
  intros [Hwf Hok] Ha Hfuel. rewrite Forall_forall in Hok. unfold forEachSegment.
  set (c := Segment a 0 0 0 0 0 id 0).
  rewrite forEachSegment_scan, (scan_spec compare);
    [| done | | eapply Nat.le_lt_trans; [apply length_filter|done]].
  2:{ intros e x He Hx _. destruct (Hok e He), (Hok x Hx). by apply successor_next. }
  cbn. do 2 f_equal.
  set (l := filter (fun e => 0 <= compare e c) (bt_elems t)).
  assert (forall e, e ∈ l -> id <= indexId e /\ (indexId e = id -> a <= blockRangeStart e)) as Hl.
  { intros e [Hc He]%list_elem_of_filter. destruct (Hok e He) as [(_ & _ & Hg) _].
    unfold compare, c in Hc; cbn in Hc. word_unfold. cmp_cases; lia. }
  transitivity (filter (fun s => negb (leaves id b s) = true) l).
  - assert (StronglySorted (fun x y => compare x y < 0 /\ id <= indexId x) l) as Hs.
    { assert (StronglySorted (fun x y => compare x y < 0) l) as Hs by (by apply StronglySorted_filter).
      clear -Hs Hl. induction Hs as [|x l Hs IH Hx]; constructor.
      - apply IH. intros e He. apply Hl. by right.
      - eapply Forall_impl; [exact Hx|]. intros y Hy. split; [done|]. apply Hl. left. }
    apply (take_while_filter _ _ _ Hs). intros x y [Hxy Hid]. unfold leaves.
    rewrite !negb_orb, !negb_involutive, !andb_true_iff, !negb_true_iff, !Z.eqb_eq, !Z.ltb_ge.
    unfold compare in Hxy. cmp_cases; lia.
  - unfold l. rewrite list_filter_filter. apply filter_ext_in. intros x Hx.
    destruct (Hok x Hx) as [(_ & _ & Hg) _]. unfold leaves, compare, c; cbn.
    rewrite !negb_orb, !negb_involutive, !andb_true_iff, !negb_true_iff, !Z.eqb_eq, !Z.ltb_ge.
    word_unfold. cmp_cases; lia.
Qed.
End Reader.

Lemma foldl_visit_all a l acc : Forall (fun s => a <= blockRangeEnd s) l ->
  foldl (visit a (fun s l => l ++ [s])) acc l = acc ++ l.
Proof.
  intros Hl. revert acc. induction Hl as [|s l Hs Hl IH]; intros acc; cbn [foldl]; [by rewrite app_nil_r|].
  unfold visit at 2. destruct (Z.leb_spec a (blockRangeEnd s)); [|lia]. by rewrite IH, <- (app_assoc acc [s] l).
Qed.

(** With [startBlock] 0, as every caller of the repository passes, the walk ends and
    calls back, in key order, on exactly the segments of the index whose block range meets
    [0, endBlock]. *)
Theorem forEachSegment_from_zero {T} `{!BTree segment_btree_metadata_t T, !BTreeLaws compare} fuel (t : T) id endBlock :
  index_ok t -> Forall (fun s => 0 <= blockRangeStart s <= blockRangeEnd s) (bt_elems t) ->
  (length (bt_elems t) < fuel)%nat ->
  forEachSegment fuel t id 0 endBlock (fun s l => l ++ [s]) [] =
    Ret (filter (fun s => indexId s = id /\ blockRangeStart s <= endBlock /\ 0 <= blockRangeEnd s) (bt_elems t)).
Proof.
  intros Hok Hr Hf. rewrite forEachSegment_elems by (done || word). rewrite Forall_forall in Hr. f_equal.
  set (l := filter _ _). transitivity l.
  - assert (Forall (fun s => 0 <= blockRangeEnd s) l) as Hl.
    { apply Forall_forall. intros s [_ Hs]%list_elem_of_filter. specialize (Hr s Hs). cbn in Hr. lia. }
    by rewrite (foldl_visit_all 0 l []).
  - apply filter_ext_in. intros s Hs. specialize (Hr s Hs). cbn in Hr. lia.
Qed.

(** A walk with a larger [startBlock] begins at the segments that start there: a segment
    that starts earlier is not reported even when it reaches into the requested range. *)
Theorem forEachSegment_misses {T} `{!BTree segment_btree_metadata_t T, !BTreeLaws compare} fuel (t : T) id a b visited s :
  index_ok t -> in_u64 a -> (length (bt_elems t) < fuel)%nat ->
  forEachSegment fuel t id a b (fun s l => l ++ [s]) [] = Ret visited ->
  blockRangeStart s < a -> s ∉ visited.
Proof.
  intros Hok Ha Hf. rewrite forEachSegment_elems by done. intros [= <-] Hs.
  assert (forall l acc, (forall x, x ∈ l -> a <= blockRangeStart x) -> s ∉ acc ->
    s ∉ foldl (visit a (fun s l => l ++ [s])) acc l) as Hg.
  { induction l as [|x l IH]; intros acc Hl Hacc; [done|]. cbn [foldl]. apply IH; [intros; apply Hl; by right|].
    unfold visit. destruct (a <=? blockRangeEnd x); [|done]. rewrite elem_of_app, list_elem_of_singleton.
    intros [Hx|Hx]; [done|]. subst s. specialize (Hl x ltac:(left)). lia. }
  apply Hg; [|apply not_elem_of_nil]. intros x [(_ & Hx & _) _]%list_elem_of_filter. lia.
Qed.

(** An index that holds the largest key makes the walk over the last index id run for
    ever: the cursor wraps to the start of the index. *)
Theorem forEachSegment_diverges {T} `{!BTree segment_btree_metadata_t T, !BTreeLaws compare} (t : T) s a :
  bt_wf compare t -> Forall key_ok (bt_elems t) -> s ∈ bt_elems t -> is_max_key s -> in_u64 a ->
  forall A fuel (callback : segment_btree_metadata_t -> A -> A) acc,
    forEachSegment fuel t U16_MAX a U64_MAX callback acc = NoFuel.
Proof.
  intros Hwf Hok Hs (E1 & E2 & E3) Ha A fuel cb acc. unfold forEachSegment.
  assert (indexId (Segment a 0 0 0 0 0 U16_MAX 0) = U16_MAX) as Hc by done.
  assert (in_u64 (blockRangeStart (Segment a 0 0 0 0 0 U16_MAX 0))) as Hc2 by done.
  assert (in_u32 (mergeGeneration (Segment a 0 0 0 0 0 U16_MAX 0))) as Hc3 by (cbn; word).
  revert Hc Hc2 Hc3 acc. generalize (Segment a 0 0 0 0 0 U16_MAX 0) as c.
  induction fuel as [|fuel IH]; intros c Hc Hc2 Hc3 acc; [done|]. cbn [forEachSegment_loop].
  rewrite (bt_findNext_law (cmp:=compare)) by done. rewrite Forall_forall in Hok.
  destruct (filter (fun e => 0 <= compare e c) (bt_elems t)) as [|e r] eqn:Hl; cbn [head].
  - assert (s ∈ filter (fun e => 0 <= compare e c) (bt_elems t)) as Hin; [|rewrite Hl in Hin; by apply not_elem_of_nil in Hin].
    apply list_elem_of_filter. split; [|done]. unfold compare. rewrite E1, E2, E3. word_unfold. cmp_cases; lia.
  - assert (e ∈ filter (fun e => 0 <= compare e c) (bt_elems t)) as [He Hin]%list_elem_of_filter by (rewrite Hl; left).
    destruct (Hok e Hin) as (Hei & Hes & Heg).
    assert (indexId e = U16_MAX) as Hix.
    { unfold compare in He. rewrite Hc in He. word_unfold. revert He. cmp_cases; lia. }
    rewrite Hix. cbn [Z.eqb negb]. rewrite Z.eqb_refl. cbn [negb].
    destruct (Z.ltb_spec U64_MAX (blockRangeStart e)) as [Hlt|_]; [word_unfold; lia|].
    apply IH; unfold successor; rewrite Hix.
    + by destruct (_ =? _), (_ =? _).
    + destruct (_ =? _); cbn; [|done]. destruct (_ =? _); cbn; [word|apply u64_range].
    + destruct (_ =? _); cbn; [|apply u32_range]. destruct (_ =? _); cbn; word.
Qed.

(** ** The file and its writer *)
Section Writer.
Context {T R Fd M : Type} `{!BTree segment_btree_metadata_t T, !FreeSpaceFile R, !MmapHandle M, !FdHandle Fd M}.

(** [fast_hash] is libexcessive's [excessiveFastHash(data, words)]. *)
Context (fast_hash : list Z -> Z -> Z).

Record CatalogFile := {
  cf_fd : Fd;
  regions : R;
  segmentIndex : T;
  isSegmentBeingWritten : bool;
}.

Definition set_fd (f : CatalogFile) (fd : Fd) : CatalogFile :=
  {| cf_fd := fd; regions := regions f; segmentIndex := segmentIndex f; isSegmentBeingWritten := isSegmentBeingWritten f |}.
Definition set_regions (f : CatalogFile) (r : R) : CatalogFile :=
  {| cf_fd := cf_fd f; regions := r; segmentIndex := segmentIndex f; isSegmentBeingWritten := isSegmentBeingWritten f |}.
Definition set_index (f : CatalogFile) (t : T) : CatalogFile :=
  {| cf_fd := cf_fd f; regions := regions f; segmentIndex := t; isSegmentBeingWritten := isSegmentBeingWritten f |}.
Definition set_flag (f : CatalogFile) (b : bool) : CatalogFile :=
  {| cf_fd := cf_fd f; regions := regions f; segmentIndex := segmentIndex f; isSegmentBeingWritten := b |}.

(** [CatalogFileReader::openEntry]: the page-aligned window around the entry, and the
    cursor. *)
Definition openEntry (fd : Fd) (offset size : Z) : M :=
  let readOffset := Z.land offset (u64 (Z.lnot 4095)) in
  let handle := fd_getMmapHandle fd readOffset (u64 (size + (offset - readOffset))) in
  if negb (readOffset =? 0) then mm_seek handle (offset - readOffset) else handle.

(** [WriterGuard]: the flag is set for the extent of [p], however [p] ends. *)
Definition guarded {A} (p : prog CatalogFile A) : prog CatalogFile A := fun f =>
  let '(r, f) := p (set_flag f true) in (r, set_flag f false).

(** The arguments of [createEntry]. *)
Record entry_args := {
  ea_indexId : Z;
  ea_version : Z;
  ea_mergeGeneration : Z;
  ea_startBlock : Z;
  ea_endBlock : Z;
  ea_content : list Z;
}.

Definition ea_length (a : entry_args) : Z := u32 (Z.of_nat (length (ea_content a))).

(** The critical section that allocates, under [appendMutex], with the check after it. *)
Definition allocRegion (length : Z) : prog CatalogFile Z :=
  f ← getS;
  let '(offset, r) := fs_getFreeRegion (regions f) length in
  putS (set_regions f r);;
  if offset <? 0 then throw (runtime_error "CatalogFile::createEntry: failed to allocate file region")
  else mret offset.

(** The critical section that writes the payload, under shared [rwMutex]. *)
Definition writeRegion (content : list Z) (length offset : Z) : prog CatalogFile unit :=
  f ← getS;
  let '(n, fd) := fd_pwrite (cf_fd f) (take (Z.to_nat length) content) offset in
  putS (set_fd f fd);;
  if negb (n =? length) then throw (runtime_error "CatalogFile::createEntry: pwrite failed")
  else mret tt.

Definition entry_metadata (a : entry_args) (offset : Z) : segment_btree_metadata_t :=
  let length := ea_length a in
  Segment (ea_startBlock a) (ea_endBlock a) (u64 offset) length (fast_hash (ea_content a) (length / 8))
    (ea_mergeGeneration a) (ea_indexId a) (ea_version a).

(** The critical section that indexes the segment, under both mutexes. *)
Definition insertEntry (metadata : segment_btree_metadata_t) : prog CatalogFile unit :=
  f ← getS; putS (set_index f (bt_insert (segmentIndex f) metadata)).

Definition createEntry (a : entry_args) : prog CatalogFile unit :=
  guarded (
    offset ← allocRegion (ea_length a);
    writeRegion (ea_content a) (ea_length a) offset;;
    insertEntry (entry_metadata a offset)).

Definition deleteEntry (indexId startBlock mergeGeneration : Z) (f : CatalogFile) : CatalogFile :=
  let toRemove := Segment startBlock 0 0 0 0 mergeGeneration indexId 0 in
  let '(t, toRemove) := bt_remove (segmentIndex f) toRemove in
  let f := set_index f t in
  set_regions f (fs_markFreeRegion (regions f) (byteOffset toRemove) (byteLength toRemove)).

Definition isBusy (f : CatalogFile) : bool := isSegmentBeingWritten f.

Definition getTotalBytes (f : CatalogFile) : Z := fd_size (cf_fd f).

(** *** Writers in flight

    A thread inside [createEntry], between its critical sections.  [writer_step] runs the
    next section; [run_writer] is one thread on its own. *)
Inductive writer :=
| WStart (a : entry_args)
| WAllocated (a : entry_args) (offset : Z)
| WWritten (a : entry_args) (offset : Z)
| WDone (a : entry_args) (offset : Z)
| WFailed (a : entry_args) (e : exn).

Definition writer_step (f : CatalogFile) (w : writer) : option (CatalogFile * writer) :=
  match w with
  | WStart a =>
      match allocRegion (ea_length a) (set_flag f true) with
      | (Ret offset, f) => Some (f, WAllocated a offset)
      | (Throw e, f) => Some (set_flag f false, WFailed a e)
      | _ => None
      end
  | WAllocated a offset =>
      match writeRegion (ea_content a) (ea_length a) offset f with
      | (Ret _, f) => Some (f, WWritten a offset)
      | (Throw e, f) => Some (set_flag f false, WFailed a e)
      | _ => None
      end
  | WWritten a offset =>
      match insertEntry (entry_metadata a offset) f with
      | (Ret _, f) => Some (set_flag f false, WDone a offset)
      | _ => None
      end
  | WDone _ _ | WFailed _ _ => None
  end.

(** One section of one of the threads. *)
Inductive cf_step : CatalogFile * list writer -> CatalogFile * list writer -> Prop :=
| cf_step_writer f ws i w f' w' :
    ws !! i = Some w -> writer_step f w = Some (f', w') -> cf_step (f, ws) (f', <[i := w']> ws).

(** *** The state of a file with writers in flight *)

Definition seg_region (s : segment_btree_metadata_t) : Z * Z := (byteOffset s, byteLength s).
Definition seg_key (s : segment_btree_metadata_t) : Z * Z * Z := (indexId s, blockRangeStart s, mergeGeneration s).
Definition ea_key (a : entry_args) : Z * Z * Z := (ea_indexId a, ea_startBlock a, ea_mergeGeneration a).

(** The region a thread owns that is not indexed, and the key it is going to insert. *)
Definition w_region (w : writer) : list (Z * Z) :=
  match w with
  | WAllocated a off | WWritten a off => [(off, ea_length a)]
  | _ => []
  end.
Definition w_key (w : writer) : list (Z * Z * Z) :=
  match w with
  | WStart a | WAllocated a _ | WWritten a _ => [ea_key a]
  | _ => []
  end.

(** What a thread has added to the index. *)
Definition w_done (w : writer) : list segment_btree_metadata_t :=
  match w with WDone a off => [entry_metadata a off] | _ => [] end.

(** The arguments a caller may pass: values of the parameter types, a payload below 4 GiB. *)
Definition args_ok (a : entry_args) : Prop :=
  in_u16 (ea_indexId a) /\ in_u64 (ea_startBlock a) /\ in_u16 (ea_mergeGeneration a) /\
  Z.of_nat (length (ea_content a)) <= U32_MAX.

(** The bytes a reader finds at the entry [s]. *)
Definition payload (f : CatalogFile) (s : segment_btree_metadata_t) : list Z :=
  fd_load (cf_fd f) (byteOffset s) (Z.to_nat (byteLength s)).

(** What a thread knows: its payload is on disk once written, and indexed when done. *)
Definition writer_ok (f : CatalogFile) (w : writer) : Prop :=
  match w with
  | WStart a => args_ok a
  | WAllocated a off => args_ok a /\ in_u64 off
  | WWritten a off => args_ok a /\ in_u64 off /\ payload f (entry_metadata a off) = ea_content a
  | WDone a off =>
      args_ok a /\ in_u64 off /\ entry_metadata a off ∈ bt_elems (segmentIndex f) /\
      payload f (entry_metadata a off) = ea_content a
  | WFailed _ _ => True
  end.

Definition owned (f : CatalogFile) (ws : list writer) : list (Z * Z) :=
  map seg_region (bt_elems (segmentIndex f)) ++ concat (map w_region ws).

Definition keys (f : CatalogFile) (ws : list writer) : list (Z * Z * Z) :=
  map seg_key (bt_elems (segmentIndex f)) ++ concat (map w_key ws).

(** [f0] is the file when the threads started. *)
Record file_inv (f0 f : CatalogFile) (ws : list writer) : Prop := {
  fi_index : index_ok (segmentIndex f);
  fi_apart : apart (owned f ws);
  fi_live : owned f ws ⊆+ fs_live (regions f);
  fi_keys : NoDup (keys f ws);
  fi_writers : Forall (writer_ok f) ws;
  fi_bounds : Forall (fun s => in_u64 (byteOffset s) /\ in_u32 (byteLength s)) (bt_elems (segmentIndex f));
  fi_elems : bt_elems (segmentIndex f) ≡ₚ concat (map w_done ws) ++ bt_elems (segmentIndex f0);
  fi_kept s : s ∈ bt_elems (segmentIndex f0) -> payload f s = payload f0 s;
}.

Context `{!BTreeLaws compare, !FreeSpaceLaws R, !FdLaws Fd M}.
Implicit Types (f : CatalogFile) (w : writer) (ws : list writer) (a : entry_args).

Lemma ea_length_range a : in_u32 (ea_length a).
Proof. apply u32_range. Qed.

Lemma ea_length_nat a : args_ok a -> Z.to_nat (ea_length a) = length (ea_content a).
Proof. intros (_ & _ & _ & H). unfold ea_length. rewrite u32_small by (word_unfold; lia). lia. Qed.

Lemma entry_region a off : in_u64 off -> seg_region (entry_metadata a off) = (off, ea_length a).
Proof. intros H. unfold seg_region, entry_metadata; cbn. by rewrite u64_small. Qed.

Lemma concat_map_perm {A B} (g : A -> list B) l1 l2 : l1 ≡ₚ l2 -> concat (map g l1) ≡ₚ concat (map g l2).
Proof. intros H. by rewrite H. Qed.

Lemma file_inv_perm f0 f ws ws' : ws ≡ₚ ws' -> file_inv f0 f ws -> file_inv f0 f ws'.
Proof.
  intros Hp []. assert (owned f ws ≡ₚ owned f ws') as Ho by (unfold owned; by rewrite (concat_map_perm _ _ _ Hp)).
  assert (keys f ws ≡ₚ keys f ws') as Hk by (unfold keys; by rewrite (concat_map_perm _ _ _ Hp)).
  split; rewrite <- ?Ho, <- ?Hk, <- ?Hp, <- ?(concat_map_perm _ _ _ Hp); done.
Qed.

Lemma file_inv_flag f0 f ws b : file_inv f0 f ws -> file_inv f0 (set_flag f b) ws.
Proof.
  intros []. by split.
Qed.

Lemma seg_key_compare x y : compare x y = 0 -> seg_key x = seg_key y.
Proof. unfold compare, seg_key. cmp_cases; try lia. intros _. f_equal; [f_equal|]; lia. Qed.

(** What stays true of a thread while others work. *)
Lemma writer_ok_frame f f' w :
  writer_ok f w ->
  (forall s, s ∈ bt_elems (segmentIndex f) -> s ∈ bt_elems (segmentIndex f')) ->
  (forall s, seg_region s ∈ w_region w \/ s ∈ bt_elems (segmentIndex f) -> payload f' s = payload f s) ->
  writer_ok f' w.
Proof.
  intros Hw He Hp. destruct w as [a|a off|a off|a off|a e]; cbn in *; try done.
  - destruct Hw as (Ha & Ho & Hl). split; [done|]. split; [done|]. rewrite Hp; [done|]. left.
    rewrite entry_region by done. left.
  - destruct Hw as (Ha & Ho & Hin & Hl). split; [done|]. split; [done|]. split; [auto|]. rewrite Hp; auto.
Qed.

Lemma payload_frame f f' s off len : 0 <= byteLength s -> 0 <= len -> disjoint (off, len) (seg_region s) ->
  (forall i, i < off \/ off + len <= i -> fd_byte (cf_fd f') i = fd_byte (cf_fd f) i) ->
  payload f' s = payload f s.
Proof.
  intros Hl Hl2 Hd Hb. apply mem_load_ext. intros i Hi. apply Hb. unfold disjoint, seg_region in Hd; cbn in Hd. lia.
Qed.

Lemma NoDup_middle {A} (l1 : list A) x l2 : NoDup (l1 ++ x :: l2) -> NoDup (l1 ++ l2).
Proof. rewrite <- Permutation_middle. by intros [_ ?]%NoDup_cons. Qed.

(** *** One lemma per critical section *)

Lemma step_alloc f0 f a ws f' w' :
  file_inv f0 f (WStart a :: ws) -> writer_step f (WStart a) = Some (f', w') -> file_inv f0 f' (w' :: ws).
Proof.
  intros [] Hs. cbn [writer_step] in Hs. unfold allocRegion, mbind, prog_bind, getS, putS in Hs; cbn [set_flag regions] in Hs.
  destruct (fs_getFreeRegion (regions f) (ea_length a)) as [off r] eqn:Hg.
  apply Forall_cons in fi_writers0 as [Ha Hws].
  unfold owned, keys in *. cbn [map concat w_region w_key w_done app] in *.
  destruct (Z.ltb_spec off 0) as [Hneg|Hpos]; cbn in Hs; injection Hs as <- <-.
  - apply fs_get_fail_law in Hg; [|done].
    split; unfold owned, keys; cbn [map concat w_region w_key w_done app set_flag set_regions segmentIndex regions cf_fd]; try done.
    + by rewrite Hg.
    + by eapply NoDup_middle.
    + constructor; [done|]. eapply Forall_impl; [exact Hws|]. intros w Hw. by apply (writer_ok_frame f).
  - destruct (fs_get_law _ _ _ _ Hg) as (Hmax & Hl & Hd); [done|apply ea_length_range|].
    split; unfold owned, keys; cbn [map concat w_region w_key w_done app set_flag set_regions segmentIndex regions cf_fd]; try done.
    + rewrite <- Permutation_middle. split; [|done].
      apply Forall_forall. intros x Hx. rewrite Forall_forall in Hd. apply disjoint_sym, Hd.
      by eapply elem_of_submseteq.
    + rewrite <- Permutation_middle, Hl. by apply submseteq_skip.
    + constructor; [|eapply Forall_impl; [exact Hws|]; intros w Hw; by apply (writer_ok_frame f)].
      split; [done|]. unfold OFF_MAX in Hmax. word.
Qed.

Lemma step_write f0 f a off ws f' w' :
  file_inv f0 f (WAllocated a off :: ws) -> writer_step f (WAllocated a off) = Some (f', w') ->
  file_inv f0 f' (w' :: ws).
Proof.
  intros Hi Hs. pose proof Hi as []. cbn [writer_step] in Hs. unfold writeRegion, mbind, prog_bind, getS, putS in Hs.
  destruct (fd_pwrite (cf_fd f) _ off) as [n fd] eqn:Hg.
  apply Forall_cons in fi_writers0 as [[Ha Hoff] Hws].
  assert (take (Z.to_nat (ea_length a)) (ea_content a) = ea_content a) as Htk.
  { apply firstn_all2. rewrite ea_length_nat by done. lia. }
  rewrite Htk in Hg. pose proof (ea_length_nat a Ha) as Hlen. pose proof (ea_length_range a) as Hlr.
  destruct (fd_pwrite_law (cf_fd f) fd (ea_content a) off n Hg) as [Hout Hin]; [apply Hoff|].
  unfold owned, keys in *. cbn [map concat w_region w_key w_done app] in *.
  rewrite <- Permutation_middle in fi_apart0, fi_live0. destruct fi_apart0 as [Hd Hap].
  rewrite Forall_forall in Hd.
  assert (forall f1 s, cf_fd f1 = fd -> seg_region s ∈ map seg_region (bt_elems (segmentIndex f)) ++ concat (map w_region ws) ->
    0 <= byteLength s -> payload f1 s = payload f s) as Hpay.
  { intros f1 s Hf1 Hs1 Hb. apply (payload_frame _ _ _ off (ea_length a)); [done|apply Hlr|by apply Hd|].
    rewrite Hf1. intros i Hi1. apply Hout. lia. }
  assert (forall f1 s, cf_fd f1 = fd -> s ∈ bt_elems (segmentIndex f) -> payload f1 s = payload f s) as Hpe.
  { intros f1 s Hf1 Hs1. apply Hpay; [done| |].
    - apply elem_of_app. left. by apply (list_elem_of_fmap_2 seg_region).
    - rewrite Forall_forall in fi_bounds0. by apply fi_bounds0. }
  assert (forall f1, cf_fd f1 = fd -> segmentIndex f1 = segmentIndex f -> Forall (writer_ok f1) ws) as Hok.
  { intros f1 Hf1 Hix. apply Forall_forall. intros w Hw. rewrite Forall_forall in Hws.
    apply (writer_ok_frame f); [by apply Hws|by rewrite Hix|]. intros s [Hr|Hr]; [|by apply Hpe].
    apply Hpay; [done| |].
    - apply elem_of_app. right. apply list_elem_of_In, in_concat. exists (w_region w).
      split; [apply in_map|]; by apply list_elem_of_In.
    - assert (exists a0, byteLength s = ea_length a0) as [a0 ->]; [|apply ea_length_range].
      destruct w as [|a0 o|a0 o| |]; cbn in Hr; try by apply not_elem_of_nil in Hr.
      all: apply list_elem_of_singleton in Hr; injection Hr; eauto. }
  destruct (Z.eqb_spec n (ea_length a)) as [Hn|Hn]; cbn in Hs; injection Hs as <- <-.
  - split; unfold owned, keys; cbn [map concat w_region w_key w_done app set_fd segmentIndex regions cf_fd]; try done.
    + rewrite <- Permutation_middle. split; [by rewrite Forall_forall|done].
    + by rewrite <- Permutation_middle.
    + constructor; [|by apply Hok]. split; [done|]. split; [done|]. unfold payload, fd_load; cbn [set_fd cf_fd].
      cbn [byteOffset byteLength entry_metadata]. rewrite (u64_small off), Hlen by done.
      rewrite (mem_load_ext _ (mem_upd (fd_byte (cf_fd f)) off (ea_content a))).
      * apply mem_load_upd_same.
      * intros i _. apply Hin. unfold in_u32 in Hlr. lia.
    + intros s Hs. rewrite <- fi_kept0 by done. apply Hpe; [done|]. rewrite fi_elems0. apply elem_of_app. by right.
  - split; unfold owned, keys; cbn [map concat w_region w_key w_done app set_fd set_flag segmentIndex regions cf_fd]; try done.
    + etransitivity; [|exact fi_live0]. by apply submseteq_cons.
    + by eapply NoDup_middle.
    + constructor; [done|]. by apply Hok.
    + intros s Hs. rewrite <- fi_kept0 by done. apply Hpe; [done|]. rewrite fi_elems0. apply elem_of_app. by right.
Qed.

Lemma step_insert f0 f a off ws f' w' :
  file_inv f0 f (WWritten a off :: ws) -> writer_step f (WWritten a off) = Some (f', w') ->
  file_inv f0 f' (w' :: ws).
Proof.
  intros [] Hs. cbn in Hs. injection Hs as <- <-. set (s := entry_metadata a off) in *.
  apply Forall_cons in fi_writers0 as [(Ha & Hoff & Hp) Hws]. destruct fi_index0 as [Hwf Hok].
  assert (seg_key s = ea_key a) as Hk by done. unfold keys, owned in *. cbn [map concat w_region w_key w_done app] in *.
  rewrite <- Permutation_middle in fi_keys0, fi_apart0, fi_live0. apply NoDup_cons in fi_keys0 as [Hfresh Hnd].
  destruct (bt_insert_law (cmp:=compare) (segmentIndex f) s Hwf) as [Hwf' Hel].
  { intros x Hx Hc. apply Hfresh, elem_of_app. left. apply seg_key_compare in Hc. rewrite <- Hk, <- Hc.
    by apply (list_elem_of_fmap_2 seg_key). }
  assert (seg_region s = (off, ea_length a)) as Hr by (by apply entry_region).
  split; unfold owned, keys; cbn [map concat w_region w_key w_done app set_index set_flag segmentIndex regions cf_fd].
  - split; [done|]. rewrite Hel. constructor; [|done]. destruct Ha as (H1 & H2 & H3 & _). split.
    + split; [done|]. split; [done|]. unfold s, entry_metadata; cbn. clear -H3. word.
    + intros (_ & _ & E). unfold s, entry_metadata in E; cbn in E. clear -H3 E. word.
  - rewrite Hel. cbn [map app]. by rewrite Hr.
  - rewrite Hel. cbn [map app]. by rewrite Hr.
  - rewrite Hel. cbn [map app]. rewrite Hk. by constructor.
  - constructor; [|eapply Forall_impl; [exact Hws|]; intros w Hw; apply (writer_ok_frame f); [done| |done]].
    + split; [done|]. split; [done|]. split; [cbn [set_flag set_index segmentIndex]; rewrite Hel; left|exact Hp].
    + intros x Hx. cbn. rewrite Hel. by right.
  - rewrite Hel. constructor; [|done]. split; [apply u64_range|apply ea_length_range].
  - by rewrite Hel, fi_elems0.
  - done.
Qed.

(** *** Runs *)

Lemma step_inv f0 f w ws f' w' : file_inv f0 f (w :: ws) -> writer_step f w = Some (f', w') -> file_inv f0 f' (w' :: ws).
Proof.
  destruct w as [a|a off|a off|a off|a e]; [apply step_alloc|apply step_write|apply step_insert|done|done].
Qed.

Lemma steps_inv f0 c c' : rtc cf_step c c' -> file_inv f0 c.1 c.2 -> file_inv f0 c'.1 c'.2.
Proof.
  induction 1 as [|c1 c2 c3 Hs Hr IH]; [done|]. intros Hi. apply IH. clear IH Hr.
  destruct Hs as [f ws i w f' w' Hw Hs]; cbn in *.
  apply (file_inv_perm _ _ (w' :: delete i ws)).
  - symmetry. by eapply insert_perm.
  - eapply step_inv; [|done]. eapply file_inv_perm; [|done]. by apply delete_Permutation.
Qed.

(** A file at rest: ordered index, and every segment in a region of its own. *)
Record file_ok (f : CatalogFile) : Prop := {
  fo_index : index_ok (segmentIndex f);
  fo_apart : apart (map seg_region (bt_elems (segmentIndex f)));
  fo_live : map seg_region (bt_elems (segmentIndex f)) ⊆+ fs_live (regions f);
  fo_keys : NoDup (map seg_key (bt_elems (segmentIndex f)));
  fo_bounds : Forall (fun s => in_u64 (byteOffset s) /\ in_u32 (byteLength s)) (bt_elems (segmentIndex f));
}.

(** The calls [args] may run at the same time: their keys are new and distinct. *)
Definition calls_ok (f : CatalogFile) (args : list entry_args) : Prop :=
  Forall args_ok args /\ NoDup (map seg_key (bt_elems (segmentIndex f)) ++ map ea_key args).

Lemma start_inv f args : file_ok f -> calls_ok f args -> file_inv f f (map WStart args).
Proof.
  intros [] [Ha Hk].
  assert (concat (map w_region (map WStart args)) = []) as Hr by (clear; by induction args).
  assert (concat (map w_key (map WStart args)) = map ea_key args) as Hk2 by (clear; induction args; cbn; congruence).
  assert (concat (map w_done (map WStart args)) = []) as Hd by (clear; by induction args).
  split; unfold owned, keys; rewrite ?Hr, ?Hk2, ?Hd, ?app_nil_r; try done.
  clear -Ha. induction Ha; constructor; done.
Qed.

Definition finished (w : writer) : bool := match w with WDone _ _ | WFailed _ _ => true | _ => false end.

Lemma inv_ok f0 f ws : file_inv f0 f ws -> Forall (fun w => finished w = true) ws -> file_ok f.
Proof.
  intros [] Hd. unfold owned, keys in *.
  assert (concat (map w_region ws) = []) as Hr by (clear -Hd; induction Hd as [|[] ws Hw Hd IH]; cbn; done).
  assert (concat (map w_key ws) = []) as Hk by (clear -Hd; induction Hd as [|[] ws Hw Hd IH]; cbn; done).
  rewrite Hr, Hk, app_nil_r in *. by split.
Qed.

(** A thread that meets no other runs [createEntry]. *)
Lemma createEntry_run a f :
  exists f' w', rtc cf_step (f, [WStart a]) (f', [w']) /\ finished w' = true /\ isBusy f' = false /\
    match createEntry a f with
    | (Ret _, f1) => f1 = f' /\ exists off, w' = WDone a off
    | (Throw e, f1) => f1 = f' /\ w' = WFailed a e /\ segmentIndex f' = segmentIndex f /\
        (e = runtime_error "CatalogFile::createEntry: failed to allocate file region" \/
         e = runtime_error "CatalogFile::createEntry: pwrite failed")
    | _ => False
    end.
Proof.
  assert (forall f w f' w', writer_step f w = Some (f', w') -> cf_step (f, [w]) (f', [w'])) as Hstep
    by (intros; by apply (cf_step_writer _ [_] 0%nat w)).
  unfold createEntry, guarded.
  pose proof (Hstep f (WStart a)) as H1. cbn [writer_step] in H1.
  unfold allocRegion, mbind, prog_bind, getS, putS in *; cbn [set_flag regions] in *.
  destruct (fs_getFreeRegion (regions f) (ea_length a)) as [off r].
  destruct (off <? 0); cbn in H1 |- *.
  { eexists _, _. split; [by apply rtc_once, H1|]. split; [done|]. split; [done|]. repeat split. by left. }
  specialize (H1 _ _ eq_refl). set (f1 := set_regions (set_flag f true) r) in *.
  pose proof (Hstep f1 (WAllocated a off)) as H2. cbn [writer_step] in H2.
  unfold writeRegion, mbind, prog_bind, getS, putS in *.
  destruct (fd_pwrite (cf_fd f1) _ off) as [n fd]. destruct (n =? ea_length a); cbn in H2 |- *.
  2:{ eexists _, _. split; [eapply rtc_l; [exact H1|]; by apply rtc_once, H2|]. split; [done|]. split; [done|].
      repeat split. by right. }
  specialize (H2 _ _ eq_refl). eexists _, (WDone a off). split; [|split; [done|split; [|split; [done|by eexists]]]].
  - eapply rtc_l; [exact H1|]. eapply rtc_l; [exact H2|]. apply rtc_once, Hstep. reflexivity.
  - done.
Qed.
End Writer.
Arguments CatalogFile : clear implicits.

Section Theorems.
Context {T R Fd M : Type} `{!BTree segment_btree_metadata_t T, !FreeSpaceFile R, !MmapHandle M, !FdHandle Fd M}.
Context `{!BTreeLaws compare, !FreeSpaceLaws R, !FdLaws Fd M} (fast_hash : list Z -> Z -> Z).
Implicit Types (f : CatalogFile T R Fd).

(** C17: any number of threads inside [createEntry] on one file, interleaved section by
    section in any order: every call that has returned finds its segment in the index with
    exactly its payload behind it, the segments that were there before keep theirs, nothing
    else is indexed (calls that failed leave nothing), and the index stays ordered. *)
Theorem createEntry_interleaved f args f' ws :
  file_ok f -> calls_ok f args -> rtc (cf_step fast_hash) (f, map WStart args) (f', ws) ->
  index_ok (segmentIndex f') /\
  bt_elems (segmentIndex f') ≡ₚ concat (map (w_done fast_hash) ws) ++ bt_elems (segmentIndex f) /\
  (forall a off, WDone a off ∈ ws -> payload f' (entry_metadata fast_hash a off) = ea_content a) /\
  (forall s, s ∈ bt_elems (segmentIndex f) -> payload f' s = payload f s).
Proof.
  intros Hok Hargs Hsteps. pose proof (start_inv fast_hash f args Hok Hargs) as Hi.
  apply (steps_inv fast_hash f _ _ Hsteps) in Hi as [Hix _ _ _ Hw _ Hel Hkept]; cbn in *.
  split; [done|]. split; [done|]. split; [|done]. intros a off Hin. rewrite Forall_forall in Hw.
  by destruct (Hw _ Hin) as (_ & _ & _ & ?).
Qed.

Lemma createEntry_spec f a :
  file_ok f -> calls_ok f [a] ->
  match createEntry fast_hash a f with
  | (Ret _, f') =>
      isBusy f' = false /\ file_ok f' /\
      (exists off, bt_elems (segmentIndex f') ≡ₚ entry_metadata fast_hash a off :: bt_elems (segmentIndex f) /\
        payload f' (entry_metadata fast_hash a off) = ea_content a) /\
      (forall s, s ∈ bt_elems (segmentIndex f) -> payload f' s = payload f s)
  | (Throw e, f') =>
      isBusy f' = false /\ file_ok f' /\ segmentIndex f' = segmentIndex f /\
      (e = runtime_error "CatalogFile::createEntry: failed to allocate file region" \/
       e = runtime_error "CatalogFile::createEntry: pwrite failed") /\
      (forall s, s ∈ bt_elems (segmentIndex f) -> payload f' s = payload f s)
  | _ => False
  end.
Proof.
  intros Hok Ha. destruct (createEntry_run fast_hash a f) as (f' & w' & Hs & Hd & Hb & Hr).
  pose proof (start_inv fast_hash f [a] Hok Ha) as Hi. apply (steps_inv fast_hash f _ _ Hs) in Hi; cbn [fst snd] in Hi.
  pose proof (inv_ok fast_hash _ _ _ Hi ltac:(by constructor)) as Hok'. destruct Hi as [_ _ _ _ Hw _ Hel Hkept].
  apply Forall_cons in Hw as [Hw _].
  destruct (createEntry fast_hash a f) as [[u|e|u|] f1]; try done.
  - destruct Hr as [-> [off ->]]. destruct Hw as (_ & _ & _ & Hp). cbn in Hel. eauto 8.
  - destruct Hr as (-> & -> & Hix & He). auto.
Qed.

(** [createEntry] alone: it returns, with the segment indexed, its payload readable, every
    other payload untouched and the file well-formed; or it throws one of its two errors,
    with the index and every payload as they were.  The busy flag is clear on both ways
    out. *)
Theorem createEntry_correct f a :
  file_ok f -> calls_ok f [a] ->
  match createEntry fast_hash a f with
  | (Ret _, f') =>
      isBusy f' = false /\ file_ok f' /\
      (exists off, bt_elems (segmentIndex f') ≡ₚ entry_metadata fast_hash a off :: bt_elems (segmentIndex f) /\
        payload f' (entry_metadata fast_hash a off) = ea_content a) /\
      (forall s, s ∈ bt_elems (segmentIndex f) -> payload f' s = payload f s)
  | (Throw e, f') =>
      isBusy f' = false /\ file_ok f' /\ segmentIndex f' = segmentIndex f /\
      (e = runtime_error "CatalogFile::createEntry: failed to allocate file region" \/
       e = runtime_error "CatalogFile::createEntry: pwrite failed") /\
      (forall s, s ∈ bt_elems (segmentIndex f) -> payload f' s = payload f s)
  | _ => False
  end.
Proof. apply createEntry_spec. Qed.

(** [deleteEntry] of an indexed segment, when the tree's [remove] takes the entry out and
    hands it back: the region of that segment is free again and every other segment keeps
    its region and payload. *)
Theorem deleteEntry_correct f ix start gen t s :
  file_ok f -> bt_remove (segmentIndex f) (Segment start 0 0 0 0 gen ix 0) = (t, s) ->
  bt_wf compare t -> bt_elems (segmentIndex f) ≡ₚ s :: bt_elems t ->
  let f' := deleteEntry ix start gen f in
  file_ok f' /\ bt_elems (segmentIndex f') ≡ₚ bt_elems t /\
  fs_live (regions f) ≡ₚ seg_region s :: fs_live (regions f') /\
  forall x, x ∈ bt_elems (segmentIndex f') -> payload f' x = payload f x.
Proof.
  intros [[Hwf Hix] Hap Hlive Hk Hb] Hrm Hwf' Hel. unfold deleteEntry. rewrite Hrm.
  cbn [set_index set_regions segmentIndex regions]. rewrite Hel in Hap, Hlive, Hk, Hb, Hix.
  cbn [map] in *. destruct Hap as [_ Hap]. apply Forall_cons in Hb as [_ Hb].
  apply Forall_cons in Hix as [_ Hix]. apply NoDup_cons in Hk as [_ Hk].
  pose proof (fs_mark_law (regions f) (byteOffset s) (byteLength s)) as Hm.
  assert (seg_region s ∈ fs_live (regions f)) as Hin by (eapply elem_of_submseteq; [|exact Hlive]; left).
  specialize (Hm Hin). rewrite Hm in Hlive.
  split; [|split; [done|split; [|done]]].
  - split; cbn [set_index set_regions segmentIndex regions]; try done.
    apply submseteq_cons_l in Hlive as (l & Hl & Hsub). apply (Permutation_cons_inv (a:=seg_region s)) in Hl. by rewrite Hl.
  - exact Hm.
Qed.
End Theorems.

(** *** Reading an entry back *)

Lemma openEntry_window {Fd M} `{!MmapHandle M, !FdHandle Fd M, !MmapLaws M, !FdLaws Fd M} (fd : Fd) offset size :
  in_u64 offset -> 0 <= size -> size + 4096 <= U64_MAX ->
  let m : M := openEntry fd offset size in
  mm_tell m = (if decide (4096 <= offset) then offset mod 4096 else 0) /\
  mm_load m (offset mod 4096) (Z.to_nat size) = fd_load (M:=M) fd offset (Z.to_nat size).
Proof.
  intros Ho Hs Hs2. unfold openEntry. change (u64 (Z.lnot 4095)) with 18446744073709547520.
  rewrite land_page_mask by done. pose proof (Z.div_mod offset 4096 ltac:(lia)) as Hdm.
  pose proof (Z.mod_pos_bound offset 4096 ltac:(lia)) as Hmod.
  set (ro := 4096 * (offset / 4096)) in *. assert (offset - ro = offset mod 4096) as -> by lia.
  rewrite u64_small by word.
  destruct (fd_mmap_law (M:=M) fd ro (size + offset mod 4096)) as (Hsz & Ht & Hb);
    [unfold ro; word|unfold ro; rewrite Z.mul_comm; apply Z_mod_mult|lia|].
  set (m := fd_getMmapHandle fd ro _ : M) in *.
  assert (mm_load m (offset mod 4096) (Z.to_nat size) = fd_load (M:=M) fd offset (Z.to_nat size)) as Hl.
  { unfold fd_load. replace offset with (ro + offset mod 4096) at 2 by lia. apply mem_load_shift.
    intros i Hi. apply Hb. lia. }
  destruct (Z.eqb_spec ro 0) as [H0|H0]; cbn [negb].
  - rewrite decide_False by word. done.
  - rewrite decide_True by (unfold ro in H0; word).
    destruct (mm_seek_law m (offset mod 4096)) as (_ & Ht2 & _); [lia|]. split; [done|].
    by rewrite mm_seek_load by lia.
Qed.

(** [openEntry] gives a window whose cursor stands at the entry's first byte, so that reading
    [size] bytes there yields the payload, for every entry past the first page; for an entry
    in the first page the cursor is left at the start of the file. *)
Theorem openEntry_correct {T R Fd M} `{!MmapHandle M, !FdHandle Fd M, !MmapLaws M, !FdLaws Fd M}
    (f : CatalogFile T R Fd) (s : segment_btree_metadata_t) :
  in_u64 (byteOffset s) -> 0 <= byteLength s <= U32_MAX ->
  let m : M := openEntry (cf_fd f) (byteOffset s) (byteLength s) in
  (4096 <= byteOffset s -> mm_load m (mm_tell m) (Z.to_nat (byteLength s)) = payload (M:=M) f s) /\
  (byteOffset s < 4096 -> mm_tell m = 0).
Proof.
  intros Ho [Hl1 Hl2]. destruct (openEntry_window (M:=M) (cf_fd f) (byteOffset s) (byteLength s)) as [Ht Hl]; [done..|word|].
  split; intros H.
  - rewrite Ht, decide_True by done. exact Hl.
  - by rewrite Ht, decide_False by lia.
Qed.

(** ** A concrete catalog file *)

#[local] Instance seg_BTree : BTree segment_btree_metadata_t (list segment_btree_metadata_t) := sl_BTree compare.
#[local] Instance seg_BTreeLaws : BTreeLaws compare := sl_BTreeLaws compare.

Definition sample_file_t : Type := CatalogFile (list segment_btree_metadata_t) (list (Z * Z)) bytemap.
Definition no_hash (data : list Z) (words : Z) : Z := 0.

Definition cfile0 : sample_file_t :=
  {| cf_fd := Bytemap 4096 0 ∅; regions := []; segmentIndex := []; isSegmentBeingWritten := false |}.

Definition entry1 : entry_args := {| ea_indexId := 0; ea_version := 1; ea_mergeGeneration := 0; ea_startBlock := 5; ea_endBlock := 6; ea_content := [1; 2; 3; 4; 5; 6; 7; 8] |}.
Definition entry2 : entry_args := {| ea_indexId := 0; ea_version := 1; ea_mergeGeneration := 0; ea_startBlock := 6; ea_endBlock := 7; ea_content := [9; 8; 7] |}.

Lemma cfile0_ok : file_ok cfile0.
Proof. split; try constructor; try by_compute; constructor. Qed.

Lemma entries_ok : calls_ok cfile0 [entry1; entry2].
Proof.
  split; [|by_compute]. repeat constructor; cbn; try (word_unfold; lia).
Qed.

(** Both threads allocate, then the second one writes and finishes before the first. *)
Definition schedule (c : sample_file_t * list writer) (idxs : list nat) : option (sample_file_t * list writer) :=
  foldl (fun c i => '(f, ws) ← c; w ← ws !! i; '(f', w') ← writer_step no_hash f w; Some (f', <[i := w']> ws)) (Some c) idxs.

Lemma schedule_steps c idxs c' : schedule c idxs = Some c' -> rtc (cf_step no_hash) c c'.
Proof.
  unfold schedule. revert c. induction idxs as [|i idxs IH]; intros [f ws]; cbn [foldl].
  - intros [= <-]. done.
  - cbn. destruct (ws !! i) as [w|] eqn:Hw; cbn; [|clear; by induction idxs].
    destruct (writer_step no_hash f w) as [[f' w']|] eqn:Hs; cbn.
    + intros Hr. eapply rtc_l; [by apply (cf_step_writer _ _ _ i w)|]. by apply IH.
    + clear. by induction idxs.
Qed.

Definition after_both : sample_file_t * list writer := default (cfile0, []) (schedule (cfile0, map WStart [entry1; entry2]) [0; 1; 1; 1; 0; 0]%nat).

Lemma createEntry_interleaved_witness :
  index_ok (segmentIndex after_both.1) /\
  bt_elems (segmentIndex after_both.1) ≡ₚ [entry_metadata no_hash entry1 4096; entry_metadata no_hash entry2 4104] /\
  (forall a off, WDone a off ∈ after_both.2 -> payload after_both.1 (entry_metadata no_hash a off) = ea_content a) /\
  (forall s, s ∈ bt_elems (segmentIndex cfile0) -> payload after_both.1 s = payload cfile0 s).
Proof.
  apply (createEntry_interleaved no_hash cfile0 [entry1; entry2] after_both.1 after_both.2 cfile0_ok entries_ok).
  apply (schedule_steps _ [0; 1; 1; 1; 0; 0]%nat). vm_compute. reflexivity.
Defined.

Lemma createEntry_correct_witness :
  match createEntry no_hash entry1 cfile0 with
  | (Ret _, f') =>
      isBusy f' = false /\ file_ok f' /\
      (exists off, bt_elems (segmentIndex f') ≡ₚ entry_metadata no_hash entry1 off :: bt_elems (segmentIndex cfile0) /\
        payload f' (entry_metadata no_hash entry1 off) = ea_content entry1) /\
      (forall s, s ∈ bt_elems (segmentIndex cfile0) -> payload f' s = payload cfile0 s)
  | _ => False
  end.
Proof.
  assert (calls_ok cfile0 [entry1]) as H.
  { split; [|by_compute]. repeat constructor; cbn; word_unfold; lia. }
  pose proof (createEntry_correct no_hash cfile0 entry1 cfile0_ok H) as Hc.
  destruct (createEntry no_hash entry1 cfile0) as [[]] eqn:E; first [exact Hc | vm_compute in E; discriminate E].
Defined.

Definition cfile2 : sample_file_t := after_both.1.

Lemma cfile2_ok : file_ok cfile2.
Proof.
  pose proof (start_inv no_hash cfile0 _ cfile0_ok entries_ok) as Hi.
  apply (steps_inv no_hash cfile0 (cfile0, _) after_both) in Hi; [|apply (schedule_steps _ [0; 1; 1; 1; 0; 0]%nat); vm_compute; reflexivity].
  apply (inv_ok no_hash cfile0 _ after_both.2 Hi). by_compute.
Qed.

Lemma deleteEntry_correct_witness :
  let f' := deleteEntry 0 5 0 cfile2 in
  file_ok f' /\ bt_elems (segmentIndex f') ≡ₚ bt_elems [entry_metadata no_hash entry2 4104] /\
  fs_live (regions cfile2) ≡ₚ seg_region (entry_metadata no_hash entry1 4096) :: fs_live (regions f') /\
  forall x, x ∈ bt_elems (segmentIndex f') -> payload f' x = payload cfile2 x.
Proof.
  apply (deleteEntry_correct cfile2 0 5 0 [entry_metadata no_hash entry2 4104] (entry_metadata no_hash entry1 4096)).
  - exact cfile2_ok.
  - vm_compute. reflexivity.
  - by_compute.
  - vm_compute. reflexivity.
Defined.

Lemma openEntry_correct_witness :
  let m : bytemap := openEntry (cf_fd cfile2) 4104 3 in
  mm_load m (mm_tell m) 3 = [9; 8; 7].
Proof.
  refine (eq_trans (proj1 (openEntry_correct (M:=bytemap) cfile2 (entry_metadata no_hash entry2 4104) _ _) _) _);
    first [by_compute | vm_compute; reflexivity].
Defined.

Definition seg (start stop gen ix : Z) : segment_btree_metadata_t := Segment start stop 4096 8 0 gen ix 1.
Definition sample_index : list segment_btree_metadata_t := [seg 0 4 0 0; seg 2 9 0 0; seg 6 7 0 0; seg 0 9 0 1].

Lemma sample_index_ok : index_ok sample_index.
Proof.
  split; [unfold bt_wf; by_compute|]. repeat constructor; try (cbn; word_unfold; lia); intros (E & _); cbn in E; word_unfold; lia.
Qed.

Lemma successor_correct_witness :
  (~ is_max_key (seg 7 8 U32_MAX 3) -> 0 <= compare (seg 8 9 0 3) (successor (seg 7 8 U32_MAX 3)) <-> 0 < compare (seg 8 9 0 3) (seg 7 8 U32_MAX 3)) /\
  successor (seg U64_MAX U64_MAX U32_MAX U16_MAX) = with_key (seg U64_MAX U64_MAX U32_MAX U16_MAX) U16_MAX 0 0.
Proof.
  split.
  - apply (successor_correct (seg 7 8 U32_MAX 3) (seg 8 9 0 3)); by_compute.
  - apply (successor_correct (seg U64_MAX U64_MAX U32_MAX U16_MAX) (seg 8 9 0 3)); [by_compute..|done].
Defined.

Lemma forEachSegment_from_zero_witness :
  forEachSegment 9 sample_index 0 0 5 (fun s l => l ++ [s]) [] = Ret [seg 0 4 0 0; seg 2 9 0 0].
Proof.
  refine (eq_trans (forEachSegment_from_zero 9 sample_index 0 5 sample_index_ok _ _) eq_refl).
  - by_compute.
  - cbn. lia.
Defined.

(** The segment of blocks 2 to 9 meets the range [5, 8] and is not visited. *)
Lemma forEachSegment_misses_witness :
  forEachSegment 9 sample_index 0 5 8 (fun s l => l ++ [s]) [] = Ret [seg 6 7 0 0] /\ seg 2 9 0 0 ∉ [seg 6 7 0 0].
Proof.
  assert (forEachSegment 9 sample_index 0 5 8 (fun s l => l ++ [s]) [] = Ret [seg 6 7 0 0]) as E by reflexivity.
  split; [exact E|].
  apply (forEachSegment_misses 9 sample_index 0 5 8 [seg 6 7 0 0] (seg 2 9 0 0) sample_index_ok ltac:(word) ltac:(cbn; lia) E).
  cbn. lia.
Defined.

Lemma forEachSegment_diverges_witness :
  forEachSegment 1000 [seg U64_MAX U64_MAX U32_MAX U16_MAX] U16_MAX 0 U64_MAX (fun s l => l ++ [s]) [] = NoFuel.
Proof.
  apply (forEachSegment_diverges [seg U64_MAX U64_MAX U32_MAX U16_MAX] (seg U64_MAX U64_MAX U32_MAX U16_MAX) 0).
  - unfold bt_wf. by_compute.
  - by_compute.
  - left.
  - done.
  - word.
Defined.
