(* ===== verification/Catalog.v ===== *)
(** * Catalog

    The multi-file catalog of segments (src/src/storage/Catalog.h and .cpp): the table of
    contents (TOC), the choice of a file for a new segment, the background write with its
    TOC update, and the range scan.  The writer runs as tasks on a thread pool: the
    catalog and its pending tasks form a transition system. *)

From Stdlib Require Import SpecFloat.
From S2P Require Import Prelude Excessive Memory CatalogFile.

Definition CATALOG_FILE_MAX_BYTES : Z := 2047 * 1024 * 1024.

(** ** [uint256_t] of libexcessive's bigint, as an integer *)
Definition setBit (x i : Z) : Z := Z.lor x (Z.shiftl 1 i).
Definition countBits (x : Z) : Z := Z.of_nat (length (filter (fun i => Z.testbit x i = true) (seqZ 0 256))).

Record catalog_contents_entry_t := TocEntry {
  fileId : Z;
  blockRangeMin : Z;
  blockRangeMax : Z;
  totalBytes : Z;
  bloom : Z;
  segmentCount : Z;
}.

#[global] Instance toc_entry_eq_dec : EqDecision catalog_contents_entry_t.
Proof. solve_decision. Defined.

Definition bloomKeyHash (indexId : Z) : Z :=
  let miniHash := u64 (indexId * 15879638260049341073 + 5277654339219660263) in
  let hash1 := miniHash mod 2404975667 in
  let hash2 := miniHash mod 3414420799 in
  setBit (setBit 0 (Z.land hash1 255)) (Z.land hash2 255).

Definition bloomMaybeContains (bits indexId : Z) : bool :=
  let hash := bloomKeyHash indexId in Z.land bits hash =? hash.

Definition idToFilename (id : Z) : string := pretty id +:+ ".bin".

Definition blockRangeDistance (e : catalog_contents_entry_t) (segStart segEnd : Z) : Z :=
  if segmentCount e =? 0 then 0
  else if segEnd <? blockRangeMin e then u64 (blockRangeMin e - segEnd)
  else if blockRangeMax e <? segStart then u64 (segStart - blockRangeMax e)
  else 0.

(** The reverse of the order of file ids. *)
Definition compare (a b : catalog_contents_entry_t) : Z :=
  if fileId a <? fileId b then 1
  else if fileId b <? fileId a then -1
  else 0.

Definition set_fileId (key : catalog_contents_entry_t) (id : Z) : catalog_contents_entry_t :=
  TocEntry id (blockRangeMin key) (blockRangeMax key) (totalBytes key) (bloom key) (segmentCount key).

#[global] Instance toc_compare_Comparator : Comparator compare.
Proof. split; unfold compare; intros; cmp_cases; lia. Qed.

Lemma toc_compare_eq_0 a b : compare a b = 0 <-> fileId a = fileId b.
Proof. unfold compare. cmp_cases; lia. Qed.

(** *** The bloom filter *)

Lemma bloomMaybeContains_bits bits ix : bloomMaybeContains bits ix = true <->
  forall n, 0 <= n -> Z.testbit (bloomKeyHash ix) n = true -> Z.testbit bits n = true.
Proof.
  unfold bloomMaybeContains. rewrite Z.eqb_eq. split.
  - intros H n Hn Hh. rewrite <- H, Z.land_spec, andb_true_iff in Hh. tauto.
  - intros H. apply Z.bits_inj'. intros n Hn. rewrite Z.land_spec. specialize (H n Hn).
    destruct (Z.testbit (bloomKeyHash ix) n); [by rewrite H|apply andb_false_r].
Qed.

Lemma bloom_added bits ix : bloomMaybeContains (Z.lor bits (bloomKeyHash ix)) ix = true.
Proof. apply bloomMaybeContains_bits. intros n _ Hn. by rewrite Z.lor_spec, Hn, orb_true_r. Qed.

Lemma bloom_mono bits more ix : bloomMaybeContains bits ix = true -> bloomMaybeContains (Z.lor bits more) ix = true.
Proof.
  rewrite !bloomMaybeContains_bits. intros H n Hn Hh. by rewrite Z.lor_spec, H.
Qed.

(** *** Arithmetic of the candidate score *)

(** [(int)sqrt((double)d)], on binary64; the conversion of the result to [int]. *)
Definition trunc (x : spec_float) : Z :=
  match x with
  | S754_finite s m e =>
      let v := if 0 <=? e then Z.pos m * 2 ^ e else Z.pos m / 2 ^ (- e) in if s then - v else v
  | _ => 0
  end.
Definition int_sqrt (d : Z) : Z := i32 (trunc (SFsqrt 53 1024 (binary_normalize 53 1024 d 0 false))).

Definition candidateScore (key : catalog_contents_entry_t) (indexId startBlock endBlock : Z) : Z :=
  let score := i32 (256 - countBits (bloom key)) in
  let score := if bloomMaybeContains (bloom key) indexId then i32 (score + 100) else score in
  let score := i32 (score - Z.quot (int_sqrt (blockRangeDistance key startBlock endBlock)) 10) in
  i32 (score - segmentCount key).

(** ** What the catalog uses of a catalog file

    [createEntry], [getTotalBytes] and what the index of the file holds; a new file.  The
    laws are the part of the contract of [CatalogFile] that the catalog relies on. *)
Class SegmentFile (CF : Type) := {
  sf_new : CF;
  sf_createEntry : entry_args -> prog CF unit;
  sf_getTotalBytes : CF -> Z;
  sf_segments : CF -> list segment_btree_metadata_t;
  sf_read : CF -> segment_btree_metadata_t -> list Z;   (* what a reader of the segment sees *)
}.

(** [s] is a segment written for the call [a]. *)
Definition describes (s : segment_btree_metadata_t) (a : entry_args) : Prop :=
  indexId s = ea_indexId a /\ blockRangeStart s = ea_startBlock a /\
  blockRangeEnd s = ea_endBlock a /\ mergeGeneration s = ea_mergeGeneration a /\
  encodingVersion s = ea_version a /\ byteLength s = ea_length a.

Class SegmentFileLaws (CF : Type) `{!SegmentFile CF} := {
  sf_ok : CF -> Prop;
  sf_new_law : sf_ok sf_new /\ sf_segments sf_new = [];
  sf_create_law (f : CF) a : sf_ok f -> args_ok a -> ea_key a ∉ map seg_key (sf_segments f) ->
    match sf_createEntry a f with
    | (Ret _, f') => sf_ok f' /\ (forall x, x ∈ sf_segments f -> sf_read f' x = sf_read f x) /\
        exists s, describes s a /\ sf_read f' s = ea_content a /\ sf_segments f' ≡ₚ s :: sf_segments f
    | (Throw _, f') => sf_ok f' /\ (forall x, x ∈ sf_segments f -> sf_read f' x = sf_read f x) /\ sf_segments f' = sf_segments f
    | _ => False
    end;
}.

Section Catalog.
Context {T CF : Type} `{!BTree catalog_contents_entry_t T, !SegmentFile CF}.

(** [StaticPriorityQueue<uint64_t, 16>]: the ids in the order [sort] gives them. *)
Context (pq_sort : list (Z * Z) -> list Z).

(** [files] holds the catalog files on disk by id; a file being written is identified by
    its id, since the cache shares one accessor per file that is in use (CatalogCache.v). *)
Record Catalog := {
  tocBTree : T;
  lastFileId : Z;
  files : gmap Z CF;
  filesBeingWritten : gset Z;
}.

Definition set_toc (c : Catalog) (t : T) : Catalog :=
  {| tocBTree := t; lastFileId := lastFileId c; files := files c; filesBeingWritten := filesBeingWritten c |}.
Definition set_lastFileId (c : Catalog) (id : Z) : Catalog :=
  {| tocBTree := tocBTree c; lastFileId := id; files := files c; filesBeingWritten := filesBeingWritten c |}.
Definition set_files (c : Catalog) (fs : gmap Z CF) : Catalog :=
  {| tocBTree := tocBTree c; lastFileId := lastFileId c; files := fs; filesBeingWritten := filesBeingWritten c |}.
Definition set_beingWritten (c : Catalog) (s : gset Z) : Catalog :=
  {| tocBTree := tocBTree c; lastFileId := lastFileId c; files := files c; filesBeingWritten := s |}.

(** The constructor, on the TOC stored in [toc.bin] and the files of the directory. *)
Definition openCatalog (toc : T) (fs : gmap Z CF) : Catalog :=
  {| tocBTree := toc; lastFileId := 0; files := fs; filesBeingWritten := ∅ |}.

(** *** [rangeScan] *)
Fixpoint rangeScan_loop (fuel : nat) (toc : T) (indexBloom startBlock endBlock : Z)
    (key : catalog_contents_entry_t) (out : list Z) : outcome (list Z) :=
  match fuel with
  | O => NoFuel
  | S fuel =>
      match bt_findNext toc key with
      | None => Ret out
      | Some key =>
          let out :=
            if (Z.land indexBloom (bloom key) =? indexBloom) && (blockRangeMin key <=? endBlock) &&
               (startBlock <=? blockRangeMax key)
            then out ++ [fileId key] else out in
          rangeScan_loop fuel toc indexBloom startBlock endBlock (set_fileId key (u64 (fileId key - 1))) out
      end
  end.

Definition rangeScan (fuel : nat) (now : Z) (c : Catalog) (indexId startBlock endBlock : Z) : outcome (list Z) :=
  let indexBloom := bloomKeyHash indexId in
  rangeScan_loop fuel (tocBTree c) indexBloom startBlock endBlock (TocEntry now 0 0 0 0 0) [].

(** *** [selectFileFor] *)

(** The loop that collects up to 16 candidates, with their scores. *)
Fixpoint collect_loop (fuel : nat) (toc : T) (indexId startBlock endBlock size : Z)
    (key : catalog_contents_entry_t) (candidates : list (Z * Z)) : outcome (list (Z * Z)) :=
  match fuel with
  | O => NoFuel
  | S fuel =>
      match bt_findNext toc key with
      | None => Ret candidates
      | Some key =>
          if (length candidates <? 16)%nat then
            let candidates :=
              if u64 (totalBytes key + size) <=? CATALOG_FILE_MAX_BYTES
              then candidates ++ [(fileId key, candidateScore key indexId startBlock endBlock)] else candidates in
            collect_loop fuel toc indexId startBlock endBlock size (set_fileId key (u64 (fileId key - 1))) candidates
          else Ret candidates
      end
  end.

Definition SEVERE_BUG : exn :=
  runtime_error "Catalog file not found in BTree, despite supposedly being indexed (SEVERE BUG, REPORT THIS!)".

(** The first candidate, in the queue's order, that opens and is not being written; with
    its TOC entry.  [canOpen] is whether the operating system opens the file. *)
Fixpoint choose_loop (canOpen : Z -> bool) (c : Catalog) (candidates : list Z) :
    outcome (option (Z * catalog_contents_entry_t)) :=
  match candidates with
  | [] => Ret None
  | id :: candidates =>
      match bt_find (tocBTree c) (TocEntry id 0 0 0 0 0) with
      | None => Throw SEVERE_BUG
      | Some key =>
          if bool_decide (is_Some (files c !! id)) && canOpen id && negb (bool_decide (id ∈ filesBeingWritten c))
          then Ret (Some (id, key))
          else choose_loop canOpen c candidates
      end
  end.

(** The file chosen, [None] when a new one cannot be created, and its TOC entry; [now1]
    and [now2] are the two readings of the clock. *)
Definition selectFileFor (fuel : nat) (canOpen : Z -> bool) (now1 now2 : Z) (indexId startBlock endBlock size : Z) :
    prog Catalog (option Z * catalog_contents_entry_t) :=
  c ← getS;
  candidates ← liftO (collect_loop fuel (tocBTree c) indexId startBlock endBlock size (TocEntry now1 0 0 0 0 0) []);
  choice ← liftO (choose_loop canOpen c (pq_sort candidates));
  match choice with
  | Some (id, key) => mret (Some id, key)
  | None =>
      let newId := if now2 <=? lastFileId c then u64 (now2 + 1) else now2 in
      let c := set_lastFileId c newId in
      let key := TocEntry newId U64_MAX 0 0 0 0 in
      if canOpen newId then
        putS (set_files c (<[newId := default sf_new (files c !! newId)]> (files c)));;
        mret (Some newId, key)
      else putS c;; mret (None, key)
  end.

(** *** [writeSegment] and its task *)
Record task := {
  tk_args : entry_args;
  tk_file : Z;
  tk_key : catalog_contents_entry_t;
  tk_stored : bool;         (* createEntry has returned *)
}.

(** Everything up to [executor.submit]; [errno] is the text of the error. *)
Definition writeSegment (fuel : nat) (canOpen : Z -> bool) (now1 now2 : Z) (errno : string) (a : entry_args) : prog Catalog task :=
  sel ← selectFileFor fuel canOpen now1 now2 (ea_indexId a) (ea_startBlock a) (ea_endBlock a)
          (u32 (Z.of_nat (length (ea_content a))));
  match sel with
  | (None, _) => throw (runtime_error ("Unable to find a catalog file to write a segment too.  Errno: " +:+ errno))
  | (Some file, key) =>
      modifyS (fun c => set_beingWritten c ({[file]} ∪ filesBeingWritten c));;
      mret {| tk_args := a; tk_file := file; tk_key := key; tk_stored := false |}
  end.

(** The lambda, first part: [createEntry], with the handler that clears the mark. *)
Definition task_store (t : task) : prog Catalog task :=
  c ← getS;
  f ← liftO (deref NullDeref (files c !! tk_file t));
  let '(r, f) := sf_createEntry (tk_args t) f in
  let c := set_files c (<[tk_file t := f]> (files c)) in
  match r with
  | Throw e => putS (set_beingWritten c (filesBeingWritten c ∖ {[tk_file t]}));; throw e
  | _ => putS c;; liftO r;; mret {| tk_args := tk_args t; tk_file := tk_file t; tk_key := tk_key t; tk_stored := true |}
  end.

(** The TOC entry after the update. *)
Definition updatedEntry (key : catalog_contents_entry_t) (bytes : Z) (a : entry_args) : catalog_contents_entry_t :=
  TocEntry (fileId key) (Z.min (blockRangeMin key) (ea_startBlock a)) (Z.max (blockRangeMax key) (ea_endBlock a))
    bytes (Z.lor (bloom key) (bloomKeyHash (ea_indexId a))) (u32 (segmentCount key + 1)).

(** The lambda, second part, under [tocWriteMutex], then the mark is cleared. *)
Definition task_index (t : task) : prog Catalog unit :=
  c ← getS;
  f ← liftO (deref NullDeref (files c !! tk_file t));
  let key := default (tk_key t) (bt_find (tocBTree c) (tk_key t)) in
  let key := updatedEntry key (sf_getTotalBytes f) (tk_args t) in
  let c := set_toc c (bt_overwrite (tocBTree c) key) in
  putS (set_beingWritten c (filesBeingWritten c ∖ {[tk_file t]})).

(** ** The TOC *)

(** An ordered tree of entries whose ids are positive 64-bit integers. *)
Definition entry_ok (e : catalog_contents_entry_t) : Prop := 1 <= fileId e <= U64_MAX.
Definition toc_ok (toc : T) : Prop := bt_wf compare toc /\ Forall entry_ok (bt_elems toc).

(** The entries from which a scan for [ix] over [a, b] takes the file. *)
Definition matches (ix a b : Z) (e : catalog_contents_entry_t) : bool :=
  bloomMaybeContains (bloom e) ix && (blockRangeMin e <=? b) && (a <=? blockRangeMax e).

Lemma rangeScan_loop_scan fuel toc ix a b key out :
  rangeScan_loop fuel toc (bloomKeyHash ix) a b key out =
    (fun l => out ++ map fileId (filter (fun e => matches ix a b e = true) l)) <$>
      scan fuel toc (fun _ => false) (fun e => set_fileId e (u64 (fileId e - 1))) key.
Proof.
  revert key out. induction fuel as [|fuel IH]; intros key out; [done|]. simpl.
  destruct (bt_findNext toc key) as [e|]; [|by cbn; rewrite app_nil_r].
  rewrite IH. destruct (scan fuel _ _ _ _) as [l| | |]; cbn; [|done..].
  assert (((Z.land (bloomKeyHash ix) (bloom e) =? bloomKeyHash ix) && (blockRangeMin e <=? b) && (a <=? blockRangeMax e)) = matches ix a b e) as ->.
  { unfold matches, bloomMaybeContains. by rewrite Z.land_comm. }
  destruct (matches ix a b e) eqn:Hm; [rewrite decide_True by done|rewrite decide_False by congruence];
    cbn [map]; rewrite <- ?app_assoc; done.
Qed.

Context `{!BTreeLaws compare}.

(** Going to [fileId - 1] steps to the next older file. *)
Lemma older_next e x : entry_ok e -> entry_ok x ->
  0 <= compare x (set_fileId e (u64 (fileId e - 1))) <-> 0 < compare x e.
Proof.
  unfold entry_ok. intros He Hx. unfold compare, set_fileId; cbn. rewrite u64_small by word. cmp_cases; lia.
Qed.

Lemma rangeScan_elems fuel now c ix a b : toc_ok (tocBTree c) -> (length (bt_elems (tocBTree c)) < fuel)%nat ->
  rangeScan fuel now c ix a b =
    Ret (map fileId (filter (fun e => fileId e <= now /\ matches ix a b e = true) (bt_elems (tocBTree c)))).
Proof.
  intros [Hwf Hok] Hf. rewrite Forall_forall in Hok. unfold rangeScan.
  rewrite rangeScan_loop_scan, (scan_filter compare); [|done| |done|done].
  - cbn. do 2 f_equal. rewrite list_filter_filter. apply filter_ext_in. intros e _.
    unfold compare; cbn. cmp_cases; intuition lia.
  - intros e x He Hx _. by apply older_next; apply Hok.
Qed.

(** *** Candidates *)

Lemma select_collect_spec fuel toc ix a b size key cands :
  toc_ok toc -> (length (bt_elems toc) < fuel)%nat ->
  exists l, collect_loop fuel toc ix a b size key cands = Ret l /\
    ((length cands <= 16)%nat -> (length l <= 16)%nat) /\
    forall id, id ∈ map fst l -> id ∈ map fst cands \/
      exists e, e ∈ bt_elems toc /\ fileId e = id /\ u64 (totalBytes e + size) <= CATALOG_FILE_MAX_BYTES.
Proof.
  intros [Hwf Hok] Hf. rewrite Forall_forall in Hok.
  assert (length (filter (fun e => (0 <= compare e key)%Z) (bt_elems toc)) < fuel)%nat as Hf2
    by (eapply Nat.le_lt_trans; [apply length_filter|done]). clear Hf.
  revert key cands Hf2. induction fuel as [|fuel IH]; intros key cands Hf2; [lia|]. cbn [collect_loop].
  rewrite (bt_findNext_law (cmp:=compare)) by done.
  destruct (filter (fun e => 0 <= compare e key) (bt_elems toc)) as [|e r] eqn:Hl; cbn [head].
  { exists cands. split; [done|]. split; [done|]. by left. }
  destruct (Nat.ltb_spec (length cands) 16) as [Hlt|Hge]; [|exists cands; split; [done|]; split; [done|by left]].
  assert (e ∈ bt_elems toc) as He.
  { assert (e ∈ filter (fun e => 0 <= compare e key) (bt_elems toc)) as Hin by (rewrite Hl; left).
    by apply list_elem_of_filter in Hin as [_ ?]. }
  assert (filter (fun x => 0 <= compare x (set_fileId e (u64 (fileId e - 1)))) (bt_elems toc) = r) as Hr.
  { rewrite <- (filter_ge_gt compare _ _ _ _ Hwf Hl). apply filter_ext_in.
    intros x Hx. by apply older_next; apply Hok. }
  set (cands' := if _ <=? _ then _ else _).
  destruct (IH (set_fileId e (u64 (fileId e - 1))) cands') as (l & Hc & Hlen & Hid).
  { rewrite Hr. cbn in Hf2. lia. }
  exists l. split; [done|]. unfold cands' in *.
  destruct (Z.leb_spec (u64 (totalBytes e + size)) CATALOG_FILE_MAX_BYTES) as [Hcap|]; [|done].
  split; [intros _; apply Hlen; rewrite length_app; cbn; lia|].
  intros id Hin. apply Hid in Hin as [Hin|]; [|by right]. rewrite map_app in Hin.
  apply elem_of_app in Hin as [|Hin]; [by left|right]. apply list_elem_of_singleton in Hin. exists e. split; [done|]. by split.
Qed.

Lemma find_entry toc e k : bt_wf compare toc -> bt_find toc k = Some e -> e ∈ bt_elems toc /\ fileId e = fileId k.
Proof.
  intros Hwf. rewrite (bt_find_law (cmp:=compare)) by done. intros Hh.
  assert (e ∈ filter (fun e => compare e k = 0) (bt_elems toc)) as [He Hin]%list_elem_of_filter
    by (destruct (filter _ _); [done|injection Hh as ->; left]).
  by apply toc_compare_eq_0 in He.
Qed.

Lemma find_present toc e k : bt_wf compare toc -> e ∈ bt_elems toc -> fileId e = fileId k -> bt_find toc k = Some e.
Proof.
  intros Hwf He Hk. rewrite (bt_find_law (cmp:=compare)) by done. unfold bt_wf in Hwf.
  revert Hwf He. generalize (bt_elems toc) as l. intros l Hwf He.
  induction Hwf as [|x l Hs IH Hx]; [by apply not_elem_of_nil in He|].
  rewrite filter_cons. apply elem_of_cons in He as [->|He].
  - by rewrite decide_True by (by apply toc_compare_eq_0).
  - rewrite decide_False; [by apply IH|]. intros Hc%toc_compare_eq_0. rewrite Forall_forall in Hx.
    specialize (Hx e He). cbn in Hx. assert (compare x e = 0) by (apply toc_compare_eq_0; congruence). lia.
Qed.

Lemma choose_loop_spec canOpen c ids : bt_wf compare (tocBTree c) ->
  (forall id, id ∈ ids -> exists e, e ∈ bt_elems (tocBTree c) /\ fileId e = id) ->
  exists r, choose_loop canOpen c ids = Ret r /\
    match r with
    | Some (id, key) => id ∈ ids /\ key ∈ bt_elems (tocBTree c) /\ fileId key = id /\
        is_Some (files c !! id) /\ canOpen id = true /\ (id ∉ filesBeingWritten c)
    | None => True
    end.
Proof.
  intros Hwf. induction ids as [|id ids IH]; intros Hin; cbn [choose_loop]; [by exists None|].
  destruct (Hin id) as (e & He & Hid); [left|].
  rewrite (find_present _ e) by done.
  destruct (bool_decide (is_Some _)) eqn:Hf; cbn.
  2:{ destruct IH as (r & Hr & Hs); [intros; apply Hin; by right|]. exists r. split; [done|].
      destruct r as [[]|]; [|done]. destruct Hs. split; [by right|done]. }
  destruct (canOpen id) eqn:Ho; cbn.
  2:{ destruct IH as (r & Hr & Hs); [intros; apply Hin; by right|]. exists r. split; [done|].
      destruct r as [[]|]; [|done]. destruct Hs. split; [by right|done]. }
  destruct (bool_decide (id ∈ _)) eqn:Hb; cbn.
  { destruct IH as (r & Hr & Hs); [intros; apply Hin; by right|]. exists r. split; [done|].
      destruct r as [[]|]; [|done]. destruct Hs. split; [by right|done]. }
  exists (Some (id, e)). split; [done|]. apply bool_decide_eq_true in Hf. apply bool_decide_eq_false in Hb.
  split; [left|]. done.
Qed.
End Catalog.
Arguments Catalog : clear implicits.

(** ** [CatalogFile] keeps the contract

    A task runs [createEntry] as one step here: that its critical sections may interleave
    with those of other tasks on the same file is the subject of
    [CatalogFile.createEntry_interleaved]. *)
Section Implementation.
Context {T R Fd M : Type} `{!BTree segment_btree_metadata_t T, !FreeSpaceFile R, !MmapHandle M, !FdHandle Fd M}.
Context (fast_hash : list Z -> Z -> Z) (newFd : Fd) (newRegions : R).

(** The constructor on a file that was just created. *)
Definition newCatalogFile : CatalogFile T R Fd :=
  {| cf_fd := newFd; regions := newRegions; segmentIndex := bt_empty; isSegmentBeingWritten := false |}.

(** The bytes at the cursor of the window a reader opens on the entry. *)
Definition read_segment (f : CatalogFile T R Fd) (s : segment_btree_metadata_t) : list Z :=
  let view : M := openEntry (cf_fd f) (byteOffset s) (byteLength s) in
  mm_load view (mm_tell view) (Z.to_nat (byteLength s)).

Definition CatalogFile_SegmentFile : SegmentFile (CatalogFile T R Fd) := {|
  sf_new := newCatalogFile;
  sf_createEntry := createEntry fast_hash;
  sf_getTotalBytes := getTotalBytes;
  sf_segments := fun f => bt_elems (segmentIndex f);
  sf_read := read_segment;
|}.

Context `{!BTreeLaws CatalogFile.compare, !FreeSpaceLaws R, !FreeSpaceHeader R, !MmapLaws M, !FdLaws Fd M}.
Implicit Types (f : CatalogFile T R Fd).

Lemma newCatalogFile_ok : file_ok newCatalogFile.
Proof.
  pose proof (bt_empty_elems (cmp:=CatalogFile.compare) (T:=T)) as He.
  split; unfold index_ok, bt_wf, newCatalogFile; cbn [segmentIndex]; rewrite ?He; cbn.
  - split; constructor.
  - done.
  - apply submseteq_nil_l.
  - constructor.
  - constructor.
Qed.

(** The entries of a well-formed file lie past its first page, where [openEntry] is right. *)
Lemma entry_bounds f s : file_ok f -> s ∈ bt_elems (segmentIndex f) ->
  in_u64 (byteOffset s) /\ 4096 <= byteOffset s /\ in_u32 (byteLength s).
Proof.
  intros [_ _ Hl _ Hb] Hs. rewrite Forall_forall in Hb. destruct (Hb s Hs) as [H1 H2]. split; [done|]. split; [|done].
  apply (fs_header_law (regions f) (seg_region s)). eapply elem_of_submseteq; [|exact Hl].
  by apply (list_elem_of_fmap_2 seg_region).
Qed.

Lemma read_payload f s : file_ok f -> s ∈ bt_elems (segmentIndex f) -> read_segment f s = payload (M:=M) f s.
Proof.
  intros Hok Hs. destruct (entry_bounds f s Hok Hs) as (H1 & H2 & [H3 H4]). unfold read_segment.
  destruct (openEntry_window (M:=M) (cf_fd f) (byteOffset s) (byteLength s)) as [Ht Hl]; [done..|word|].
  rewrite Ht, decide_True by done. exact Hl.
Qed.

Definition CatalogFile_SegmentFileLaws : SegmentFileLaws (SegmentFile0:=CatalogFile_SegmentFile) (CatalogFile T R Fd).
Proof.
  refine {| sf_ok := (file_ok : CatalogFile T R Fd -> Prop) |}.
  - split; [apply newCatalogFile_ok|]. apply (bt_empty_elems (cmp:=CatalogFile.compare)).
  - intros f a Hok Ha Hk. cbn [sf_segments sf_read sf_createEntry CatalogFile_SegmentFile] in *.
    assert (calls_ok f [a]) as Hc.
    { split; [by constructor|]. cbn [map]. rewrite Permutation_app_comm. cbn. constructor; [done|apply Hok]. }
    pose proof (createEntry_spec fast_hash f a Hok Hc) as H.
    destruct (createEntry fast_hash a f) as [[u|e|u|] f']; try done.
    + destruct H as (_ & Hok' & (off & Hel & Hp) & Hkept). split; [done|].
      assert (forall x, x ∈ entry_metadata fast_hash a off :: bt_elems (segmentIndex f) -> read_segment f' x = payload (M:=M) f' x) as Hr
        by (intros x Hx; apply read_payload; [done|by rewrite Hel]).
      split; [intros x Hx; rewrite Hr, read_payload by (done || by right); by apply Hkept|].
      exists (entry_metadata fast_hash a off). split; [done|]. split; [|done]. rewrite Hr by left. exact Hp.
    + destruct H as (_ & Hok' & Hix & _ & Hkept). split; [done|]. split; [|by rewrite Hix].
      intros x Hx. rewrite !read_payload by (done || by rewrite Hix). by apply Hkept.
Defined.
End Implementation.
