(* ===== verification/CatalogTasks.v ===== *)
(** * CatalogTasks

    The catalog and the segment writes it has in flight on the thread pool, as a
    transition system (src/src/storage/Catalog.cpp: [writeSegment] and the lambda it
    submits).  The main invariant is that the TOC never under-reports: whatever the
    interleaving, every segment of every file is covered by the TOC entry of its file, or
    by a task that is about to update it.  It makes [rangeScan] complete. *)

From S2P Require Import Prelude Excessive Memory CatalogFile Catalog.

Section Tasks.
Context {T CF : Type} `{!BTree catalog_contents_entry_t T, !SegmentFile CF}.
Context `{!BTreeLaws compare, !SegmentFileLaws CF}.
Context (pq_sort : list (Z * Z) -> list Z) (pq_sort_law : forall l, pq_sort l ≡ₚ map fst l).
Implicit Types (c : Catalog T CF) (t : task) (ts : list task).

Lemma unique_entry (toc : T) e1 e2 : bt_wf compare toc -> e1 ∈ bt_elems toc -> e2 ∈ bt_elems toc ->
  fileId e1 = fileId e2 -> e1 = e2.
Proof.
  intros Hwf H1 H2 Hid. pose proof (find_present toc e1 e1 Hwf H1 eq_refl) as E1.
  pose proof (find_present toc e2 e1 Hwf H2 ltac:(done)) as E2. congruence.
Qed.

(** What [selectFileFor] hands to its caller: the id of a file, and its TOC entry. *)
Definition selected (c c' : Catalog T CF) (now2 size : Z) (r : option Z * catalog_contents_entry_t) : Prop :=
  match r with
  | (Some id, key) =>
      (c' = c /\ key ∈ bt_elems (tocBTree c) /\ fileId key = id /\ is_Some (files c !! id) /\
       (id ∉ filesBeingWritten c) /\ u64 (totalBytes key + size) <= CATALOG_FILE_MAX_BYTES) \/
      (id = (if now2 <=? lastFileId c then u64 (now2 + 1) else now2) /\ key = TocEntry id U64_MAX 0 0 0 0 /\
       c' = set_files (set_lastFileId c id) (<[id := default sf_new (files c !! id)]> (files c)))
  | (None, _) => c' = set_lastFileId c (if now2 <=? lastFileId c then u64 (now2 + 1) else now2)
  end.

Lemma selectFileFor_spec fuel canOpen now1 now2 ix a b size c :
  toc_ok (tocBTree c) -> (length (bt_elems (tocBTree c)) < fuel)%nat ->
  exists r c', selectFileFor pq_sort fuel canOpen now1 now2 ix a b size c = (Ret r, c') /\ selected c c' now2 size r.
Proof.
  intros Hok Hf. pose proof Hok as [Hwf _]. unfold selectFileFor, mbind, prog_bind, getS, putS, liftO.
  destruct (select_collect_spec fuel (tocBTree c) ix a b size (TocEntry now1 0 0 0 0 0) [] Hok Hf) as (l & -> & _ & Hl).
  assert (forall id, id ∈ pq_sort l -> exists e, e ∈ bt_elems (tocBTree c) /\ fileId e = id /\ u64 (totalBytes e + size) <= CATALOG_FILE_MAX_BYTES) as Hids.
  { intros id. rewrite pq_sort_law. intros Hin. apply Hl in Hin as [Hin|]; [by apply not_elem_of_nil in Hin|done]. }
  destruct (choose_loop_spec canOpen c (pq_sort l) Hwf) as (r & -> & Hr).
  { intros id Hin. destruct (Hids id Hin) as (e & ? & ? & _). eauto. }
  destruct r as [[id key]|].
  - eexists _, c. split; [done|]. left. destruct Hr as (Hin & Hkey & Hid & Hsome & _ & Hbw).
    destruct (Hids id Hin) as (e & He & Heid & Hcap). rewrite (unique_entry _ e key Hwf) in Hcap by (done || congruence). done.
  - destruct (canOpen _); eexists _, _; (split; [done|]); [by right|done].
Qed.

(** ** The system *)

Definition fresh_call (a : entry_args) (c : Catalog T CF) (ts : list task) : Prop :=
  (forall fid f, files c !! fid = Some f -> ea_key a ∉ map seg_key (sf_segments f)) /\
  ea_key a ∉ map (fun t => ea_key (tk_args t)) ts.

(** The sections of the tasks in flight that succeed. *)
Inductive task_step : Catalog T CF * list task -> Catalog T CF * list task -> Prop :=
| step_store c ts i t t' c' :
    ts !! i = Some t -> tk_stored t = false -> task_store t c = (Ret t', c') -> task_step (c, ts) (c', <[i := t']> ts)
| step_index c ts i t c' :
    ts !! i = Some t -> tk_stored t = true -> task_index t c = (Ret tt, c') -> task_step (c, ts) (c', delete i ts).

(** A submission by the committing thread, with any clock and any operating system; or a
    section of one of the tasks in flight.  The last component is the history: the calls
    that were accepted and have not failed since. *)
Inductive cat_step : Catalog T CF * list task * list entry_args -> Catalog T CF * list task * list entry_args -> Prop :=
| step_submit fuel canOpen now1 now2 errno a c ts l t c' :
    (length (bt_elems (tocBTree c)) < fuel)%nat -> 1 <= now2 < U64_MAX -> args_ok a -> fresh_call a c ts ->
    writeSegment pq_sort fuel canOpen now1 now2 errno a c = (Ret t, c') -> cat_step (c, ts, l) (c', ts ++ [t], a :: l)
| step_refuse fuel canOpen now1 now2 errno a c ts l e c' :
    (length (bt_elems (tocBTree c)) < fuel)%nat -> 1 <= now2 < U64_MAX ->
    writeSegment pq_sort fuel canOpen now1 now2 errno a c = (Throw e, c') -> cat_step (c, ts, l) (c', ts, l)
| step_task x y l : task_step x y -> cat_step (x, l) (y, l)
| step_store_fail c ts l i t e c' :
    ts !! i = Some t -> tk_stored t = false -> task_store t c = (Throw e, c') ->
    cat_step (c, ts, l) (c', delete i ts, filter (fun b => ea_key b <> ea_key (tk_args t)) l).

(** The TOC entry of the file [fid] covers the segment. *)
Definition covered (toc : T) (fid : Z) (s : segment_btree_metadata_t) : Prop :=
  exists e, e ∈ bt_elems toc /\ fileId e = fid /\ bloomMaybeContains (bloom e) (indexId s) = true /\
    blockRangeMin e <= blockRangeStart s /\ blockRangeEnd s <= blockRangeMax e.

(** A task that has written [s] to [fid] and has not updated the TOC yet. *)
Definition in_flight (ts : list task) (fid : Z) (s : segment_btree_metadata_t) : Prop :=
  exists t, t ∈ ts /\ tk_stored t = true /\ tk_file t = fid /\ describes s (tk_args t).

Definition task_ok (c : Catalog T CF) (t : task) : Prop :=
  args_ok (tk_args t) /\ is_Some (files c !! tk_file t) /\ fileId (tk_key t) = tk_file t /\
  1 <= tk_file t <= U64_MAX.

Definition unstored_keys (ts : list task) : list (Z * Z * Z) :=
  map (fun t => ea_key (tk_args t)) (filter (fun t => tk_stored t = false) ts).

Record cat_inv (c : Catalog T CF) (ts : list task) : Prop := {
  ci_toc : toc_ok (tocBTree c);
  ci_files fid f : files c !! fid = Some f -> sf_ok f;
  ci_tasks : Forall (task_ok c) ts;
  ci_fresh fid f k : files c !! fid = Some f -> k ∈ unstored_keys ts -> k ∉ map seg_key (sf_segments f);
  ci_distinct : NoDup (unstored_keys ts);
  ci_cover fid f s : files c !! fid = Some f -> s ∈ sf_segments f ->
    covered (tocBTree c) fid s \/ in_flight ts fid s;
}.

Lemma cat_inv_perm c ts ts' : ts ≡ₚ ts' -> cat_inv c ts -> cat_inv c ts'.
Proof.
  intros Hp []. assert (unstored_keys ts ≡ₚ unstored_keys ts') as Hk by (unfold unstored_keys; by rewrite Hp).
  split; try done.
  - by rewrite <- Hp.
  - intros fid f k. rewrite <- Hk. apply ci_fresh0.
  - by rewrite <- Hk.
  - intros fid f s Hf Hs. destruct (ci_cover0 fid f s Hf Hs) as [|(t & Ht & H)]; [by left|right].
    exists t. by rewrite <- Hp.
Qed.

(** A catalog on disk whose TOC covers every segment. *)
Lemma open_inv toc fs : toc_ok toc -> (forall fid f, fs !! fid = Some f -> sf_ok f) ->
  (forall fid f s, fs !! fid = Some f -> s ∈ sf_segments f -> covered toc fid s) ->
  cat_inv (openCatalog toc fs) [].
Proof.
  intros Ht Hf Hc. split; try done.
  - intros fid f k _ Hk. by apply not_elem_of_nil in Hk.
  - constructor.
  - intros fid f s Hfs Hs. left. by eapply Hc.
Qed.

(** *** The steps *)

Lemma unstored_keys_cons t ts : unstored_keys (t :: ts) =
  (if tk_stored t then [] else [ea_key (tk_args t)]) ++ unstored_keys ts.
Proof. unfold unstored_keys. rewrite filter_cons. destruct (tk_stored t); cbn; done. Qed.

(** The files of [c] are still there, next to new ones. *)
Definition files_grow (c c' : Catalog T CF) : Prop :=
  (forall fid f, files c' !! fid = Some f -> files c !! fid = Some f \/ f = sf_new) /\
  (forall fid f, files c !! fid = Some f -> files c' !! fid = Some f).

(** The first half of a submission: the chosen file exists and nothing else changed. *)
Lemma selected_inv c c' ts now2 size r : 1 <= now2 < U64_MAX -> cat_inv c ts -> selected c c' now2 size r ->
  cat_inv c' ts /\
  files_grow c c' /\
  match r with
  | (Some id, key) => fileId key = id /\ is_Some (files c' !! id) /\ 1 <= id <= U64_MAX
  | _ => True
  end.
Proof.
  intros Hnow Hi Hsel. pose proof Hi as [].
  destruct r as [[id|] key]; cbn in Hsel.
  2:{ subst c'. split; [by split|]. split; [split; auto|done]. }
  destruct Hsel as [(-> & Hkey & Hid & Hsome & _)|(Hid & -> & ->)].
  - split; [done|]. split; [split; auto|]. split; [done|]. split; [done|].
    destruct ci_toc0 as [_ Hok]. rewrite Forall_forall in Hok. specialize (Hok key Hkey). by rewrite <- Hid.
  - assert (forall fid f, <[id:=default sf_new (files c !! id)]> (files c) !! fid = Some f ->
      files c !! fid = Some f \/ f = sf_new) as Hcase.
    { intros fid f [[<- <-]|[_ Hf]]%lookup_insert_Some; [|by left]. destruct (files c !! id); [by left|by right]. }
    destruct sf_new_law as [Hnew Hnil]. split; [|split; [split; [exact Hcase|]|]].
    + split; cbn; try done.
      * intros fid f [Hf| ->]%Hcase; [by eapply ci_files0|done].
      * eapply Forall_impl; [exact ci_tasks0|]. intros t (H1 & H2 & H3). split; [done|]. split; [|done].
        cbn. apply lookup_insert_is_Some. destruct (decide (id = tk_file t)); auto.
      * intros fid f k [Hf| ->]%Hcase; [by eapply ci_fresh0|]. rewrite Hnil. intros _. apply not_elem_of_nil.
      * intros fid f s [Hf| ->]%Hcase; [by eapply ci_cover0|]. rewrite Hnil. intros Hx. by apply not_elem_of_nil in Hx.
    + intros fid f Hf. cbn. destruct (decide (fid = id)) as [->|Hne]; [|by rewrite lookup_insert_ne].
      by rewrite lookup_insert_eq, Hf.
    + split; [done|]. cbn. split; [rewrite lookup_insert_eq; eauto|]. subst id. destruct (_ <=? _); [rewrite u64_small by word; lia|lia].
Qed.

Lemma beingWritten_inv c ts s : cat_inv c ts -> cat_inv (set_beingWritten c s) ts.
Proof. intros []. by split. Qed.

Lemma submit_inv fuel canOpen now1 now2 errno a c ts r c' :
  (length (bt_elems (tocBTree c)) < fuel)%nat -> 1 <= now2 < U64_MAX -> cat_inv c ts ->
  writeSegment pq_sort fuel canOpen now1 now2 errno a c = (r, c') ->
  match r with
  | Ret t => args_ok a -> fresh_call a c ts -> cat_inv c' (t :: ts)
  | Throw _ => cat_inv c' ts
  | _ => False
  end.
Proof.
  intros Hf Hnow Hi Hw. pose proof Hi as [Htoc _ _ _ _ _].
  destruct (selectFileFor_spec fuel canOpen now1 now2 (ea_indexId a) (ea_startBlock a) (ea_endBlock a)
    (u32 (Z.of_nat (length (ea_content a)))) c Htoc Hf) as (sel & c1 & Hsel & Hs).
  apply (selected_inv _ _ ts) in Hs as (Hi1 & [Hnew _] & Hs); [|done..].
  unfold writeSegment in Hw. rewrite (prog_bind_Ret _ _ _ _ _ Hsel) in Hw.
  destruct sel as [[id|] key]; cbn in Hw; injection Hw as <- <-; [|done].
  intros Ha [Hfr1 Hfr2]. destruct Hs as (Hid & Hsome & Hrange).
  pose proof (beingWritten_inv c1 ts ({[id]} ∪ filesBeingWritten c1) Hi1) as [].
  assert (forall fid f, files c1 !! fid = Some f -> ea_key a ∉ map seg_key (sf_segments f)) as Hfr.
  { intros fid f [Hff| ->]%Hnew; [by eapply Hfr1|]. destruct sf_new_law as [_ ->]. apply not_elem_of_nil. }
  split; try done.
  - by constructor.
  - intros fid f k Hff. rewrite unstored_keys_cons. cbn. intros [->|Hk]%elem_of_cons; [by eapply Hfr|by eapply ci_fresh0].
  - rewrite unstored_keys_cons. cbn. constructor; [|done]. intros Hin. apply Hfr2.
    unfold unstored_keys in Hin. apply list_elem_of_fmap in Hin as (t & -> & Ht).
    apply list_elem_of_filter in Ht as [_ Ht]. by apply (list_elem_of_fmap_2 (fun t => ea_key (tk_args t))).
  - intros fid f s Hff Hss. destruct (ci_cover0 fid f s Hff Hss) as [|(t & Ht & H)]; [by left|right].
    exists t. split; [by right|done].
Qed.

Lemma store_inv c t ts r c' : tk_stored t = false -> cat_inv c (t :: ts) -> task_store t c = (r, c') ->
  match r with
  | Ret t' => cat_inv c' (t' :: ts)
  | Throw _ => cat_inv c' ts
  | _ => False
  end.
Proof.
  intros Hst [] Hr. apply Forall_cons in ci_tasks0 as [(Ha & Hsome & Hkey & Hrange) Hts].
  rewrite unstored_keys_cons, Hst in ci_distinct0, ci_fresh0. cbn [app] in *.
  destruct Hsome as [f Hf]. pose proof (ci_files0 _ _ Hf) as Hok.
  pose proof (ci_fresh0 _ _ (ea_key (tk_args t)) Hf ltac:(left)) as Hfr.
  pose proof (sf_create_law f (tk_args t) Hok Ha Hfr) as Hc.
  unfold task_store, mbind, prog_bind, getS, putS, liftO in Hr. rewrite Hf in Hr. cbn [deref] in Hr.
  destruct (sf_createEntry (tk_args t) f) as [o f'].
  apply NoDup_cons in ci_distinct0 as [Hnk Hnd].
  assert (forall fid g, <[tk_file t := f']> (files c) !! fid = Some g ->
    (fid = tk_file t /\ g = f') \/ (fid <> tk_file t /\ files c !! fid = Some g)) as Hcase.
  { intros fid g [[<- <-]|[Hne Hg]]%lookup_insert_Some; auto. }
  assert (sf_ok f' -> forall fid g, <[tk_file t := f']> (files c) !! fid = Some g -> sf_ok g) as Hoks.
  { intros Hok' fid g [[_ ->]|[_ Hg]]%Hcase; [done|by eapply ci_files0]. }
  assert (Forall (task_ok (set_files c (<[tk_file t := f']> (files c)))) ts) as Hts'.
  { eapply Forall_impl; [exact Hts|]. intros u (H1 & H2 & H3). split; [done|]. split; [|done].
    cbn. apply lookup_insert_is_Some. destruct (decide (tk_file t = tk_file u)); auto. }
  destruct o as [u|e|u|]; cbn in Hr; injection Hr as <- <-; try done.
  - destruct Hc as (Hok' & _ & s & Hd & _ & Hseg).
    assert (seg_key s = ea_key (tk_args t)) as Hks by (destruct Hd as (E1 & E2 & _ & E3 & _); unfold seg_key, ea_key; congruence).
    split; cbn [set_files tocBTree files]; try done; [by apply Hoks| | |].
    + constructor; [|done]. split; [done|]. split; [|done]. cbn. rewrite lookup_insert_eq. eauto.
    + intros fid g k Hg. rewrite unstored_keys_cons. cbn. intros Hk.
      apply Hcase in Hg as [[-> ->]|[_ Hg]]; [|by eapply ci_fresh0; [|right]].
      rewrite Hseg. cbn. rewrite Hks. apply not_elem_of_cons. split; [congruence|]. by eapply ci_fresh0; [|right].
    + intros fid g x Hg Hx.
      assert (covered (tocBTree c) fid x \/ in_flight (t :: ts) fid x \/ (fid = tk_file t /\ x = s)) as [|[(v & Hv & Hv2 & H)|[-> ->]]].
      { apply Hcase in Hg as [[-> ->]|[_ Hg]].
        - rewrite Hseg in Hx. apply elem_of_cons in Hx as [->|Hx]; [auto|]. destruct (ci_cover0 _ _ _ Hf Hx); auto.
        - destruct (ci_cover0 _ _ _ Hg Hx); auto. }
      * by left.
      * right. exists v. apply elem_of_cons in Hv as [->|Hv]; [congruence|]. split; [by right|done].
      * right. eexists. split; [left|done].
  - destruct Hc as (Hok' & _ & Hseg).
    apply beingWritten_inv. split; cbn [set_files tocBTree files]; try done; [by apply Hoks| |].
    + intros fid g k Hg Hk. apply Hcase in Hg as [[-> ->]|[_ Hg]]; [rewrite Hseg|]; by eapply ci_fresh0; [|right].
    + intros fid g x Hg Hx.
      assert (covered (tocBTree c) fid x \/ in_flight (t :: ts) fid x) as [|(v & Hv & Hv2 & H)].
      { apply Hcase in Hg as [[-> ->]|[_ Hg]]; [rewrite Hseg in Hx|]; by eapply ci_cover0. }
      * by left.
      * right. exists v. apply elem_of_cons in Hv as [->|Hv]; [congruence|]. done.
Qed.

(** The entry the task writes covers its segment and all that the old entry covered. *)
Lemma index_covers c t f : toc_ok (tocBTree c) -> task_ok c t ->
  let key := updatedEntry (default (tk_key t) (bt_find (tocBTree c) (tk_key t))) (sf_getTotalBytes f) (tk_args t) in
  let toc := bt_overwrite (tocBTree c) key in
  toc_ok toc /\
  (forall s, describes s (tk_args t) -> covered toc (tk_file t) s) /\
  (forall fid s, covered (tocBTree c) fid s -> covered toc fid s).
Proof.
  intros [Hwf Hok] (_ & _ & Hkey & Hrange). set (old := default _ _). cbn zeta.
  assert (fileId old = tk_file t) as Hold.
  { unfold old. destruct (bt_find (tocBTree c) (tk_key t)) as [e|] eqn:Hf; cbn; [|done].
    apply find_entry in Hf as [_ ->]; done. }
  set (new := updatedEntry old _ _). assert (fileId new = tk_file t) as Hnew by done.
  destruct (bt_overwrite_law (cmp:=compare) (tocBTree c) new Hwf) as [Hwf' Hel].
  split; [split; [done|]|split].
  - apply Forall_forall. intros x [->|[Hx _]]%Hel; [by unfold entry_ok; rewrite Hnew|].
    rewrite Forall_forall in Hok. by apply Hok.
  - intros s (E1 & E2 & E3 & _). exists new. split; [apply Hel; by left|]. split; [done|].
    unfold new, updatedEntry; cbn. rewrite E1, E2, E3. split; [apply bloom_added|lia].
  - intros fid s (e & He & Hid & Hb & Hmin & Hmax). destruct (decide (fid = tk_file t)) as [->|Hne].
    + assert (old = e) as Hoe by (unfold old; by rewrite (find_present _ e) by (done || congruence)).
      exists new. split; [apply Hel; by left|]. split; [done|]. unfold new, updatedEntry; cbn. rewrite Hoe.
      split; [by apply bloom_mono|lia].
    + exists e. split; [apply Hel; right; split; [done|]|done]. rewrite toc_compare_eq_0. congruence.
Qed.

Lemma index_inv c t ts r c' : cat_inv c (t :: ts) -> task_index t c = (r, c') -> r = Ret tt /\ (tk_stored t = true -> cat_inv c' ts).
Proof.
  intros [] Hr. apply Forall_cons in ci_tasks0 as [Ht Hts]. pose proof Ht as (_ & [f Hf] & _).
  unfold task_index, mbind, prog_bind, getS, putS, liftO in Hr. rewrite Hf in Hr. cbn in Hr. injection Hr as <- <-.
  split; [done|]. intros Hst. destruct (index_covers c t f ci_toc0 Ht) as (Htoc & Hself & Hmono).
  rewrite unstored_keys_cons, Hst in ci_distinct0, ci_fresh0. cbn [app] in *.
  apply beingWritten_inv. split; try done.
  intros fid g s Hg Hs. cbn [set_toc tocBTree files] in *.
  destruct (ci_cover0 fid g s Hg Hs) as [Hc|(v & Hv & Hv2 & Hvf & Hd)]; [left; by apply Hmono|].
  apply elem_of_cons in Hv as [->|Hv]; [left; subst fid; by apply Hself|right; by exists v].
Qed.

Lemma task_step_inv x y : task_step x y -> cat_inv x.1 x.2 -> cat_inv y.1 y.2.
Proof.
  intros Hs Hi. destruct Hs as [c ts i t t' c' Ht Hst Hr|c ts i t c' Ht Hst Hr]; cbn [fst snd] in *.
  - apply (cat_inv_perm _ _ _ (delete_Permutation _ _ _ Ht)) in Hi. pose proof (store_inv _ _ _ _ _ Hst Hi Hr) as H.
    eapply cat_inv_perm; [|exact H]. symmetry. by eapply insert_perm.
  - apply (cat_inv_perm _ _ _ (delete_Permutation _ _ _ Ht)) in Hi. by apply (index_inv _ _ _ _ _ Hi Hr).
Qed.

Lemma cat_step_inv x y : cat_step x y -> cat_inv x.1.1 x.1.2 -> cat_inv y.1.1 y.1.2.
Proof.
  intros Hs Hi. destruct Hs as [fuel co now1 now2 errno a c ts l t c' Hf Hn Ha Hfr Hw|
    fuel co now1 now2 errno a c ts l e c' Hf Hn Hw|x y l Hst|c ts l i t e c' Ht Hst Hr]; cbn [fst snd] in *.
  - pose proof (submit_inv _ _ _ _ _ _ _ _ _ _ Hf Hn Hi Hw Ha Hfr) as H.
    eapply cat_inv_perm; [|exact H]. by rewrite Permutation_app_comm.
  - exact (submit_inv _ _ _ _ _ _ _ _ _ _ Hf Hn Hi Hw).
  - by eapply task_step_inv.
  - apply (cat_inv_perm _ _ _ (delete_Permutation _ _ _ Ht)) in Hi. exact (store_inv _ _ _ _ _ Hst Hi Hr).
Qed.

Lemma cat_steps_inv x y : rtc cat_step x y -> cat_inv x.1.1 x.1.2 -> cat_inv y.1.1 y.1.2.
Proof. induction 1; [done|]. intros Hi. apply IHrtc. by eapply cat_step_inv. Qed.

(** C14: the range scan is complete.  Start from any catalog whose TOC covers its files, run any
    interleaving of submissions and background writes: every segment of a file whose TOC
    update is not still pending is found by every range scan for its index over a range
    that meets its blocks, provided the id of the file is not ahead of the clock. *)
Theorem rangeScan_complete c0 c ts l fid f s fuel now a b :
  cat_inv c0 [] -> rtc cat_step (c0, [], []) (c, ts, l) ->
  files c !! fid = Some f -> s ∈ sf_segments f -> Forall (fun t => tk_file t <> fid \/ tk_stored t = false) ts ->
  fid <= now -> blockRangeStart s <= b -> a <= blockRangeEnd s -> (length (bt_elems (tocBTree c)) < fuel)%nat ->
  exists ids, rangeScan fuel now c (indexId s) a b = Ret ids /\ fid ∈ ids.
Proof.
  intros H0 Hs Hf Hseg Hquiet Hnow Hb Ha Hfuel. pose proof (cat_steps_inv _ _ Hs H0) as []; cbn [fst snd] in *.
  eexists. split; [by apply rangeScan_elems|].
  destruct (ci_cover0 fid f s Hf Hseg) as [(e & He & Hid & Hbl & Hmin & Hmax)|(t & Ht & Hst & Htf & _)].
  - rewrite <- Hid. apply (list_elem_of_fmap_2 fileId). apply list_elem_of_filter. split; [|done]. split; [lia|].
    unfold matches. rewrite Hbl, !andb_true_iff, !Z.leb_le. split; [split; [done|lia]|lia].
  - rewrite Forall_forall in Hquiet. destruct (Hquiet t Ht); congruence.
Qed.

(** C38: the range scan ends, newest file first, and its answer is sound: each file listed has a
    TOC entry whose bloom filter admits the index and whose block range meets the query;
    files whose id is ahead of the clock are never listed.  The header of the class documents
    the iteration as one in ascending file id. *)
Theorem rangeScan_exact c fuel now ix a b :
  toc_ok (tocBTree c) -> (length (bt_elems (tocBTree c)) < fuel)%nat ->
  rangeScan fuel now c ix a b =
    Ret (map fileId (filter (fun e => fileId e <= now /\ matches ix a b e = true) (bt_elems (tocBTree c)))).
Proof. apply rangeScan_elems. Qed.

(** The file chosen for a segment is an existing one that is not being written and that the
    segment does not take past the size limit, with its current TOC entry, or a new one with
    an empty entry; the loop over the TOC ends, and the consistency error of the source is
    never raised. *)
Theorem selectFileFor_sound fuel canOpen now1 now2 ix a b size c :
  toc_ok (tocBTree c) -> (length (bt_elems (tocBTree c)) < fuel)%nat ->
  exists r c', selectFileFor pq_sort fuel canOpen now1 now2 ix a b size c = (Ret r, c') /\ selected c c' now2 size r.
Proof. apply selectFileFor_spec. Qed.

(** In every reachable state the tasks in flight never fail for want of a file, the TOC stays
    ordered, and a task that has stored its segment ends by returning. *)
Theorem tasks_safe c0 c ts l t :
  cat_inv c0 [] -> rtc cat_step (c0, [], []) (c, ts, l) -> t ∈ ts ->
  toc_ok (tocBTree c) /\ is_Some (files c !! tk_file t) /\
  (tk_stored t = true -> fst (task_index t c) = Ret tt) /\
  (tk_stored t = false -> match fst (task_store t c) with Ret _ | Throw _ => True | _ => False end).
Proof.
  intros H0 Hs Ht. pose proof (cat_steps_inv _ _ Hs H0) as Hi; cbn [fst snd] in Hi. pose proof Hi as [].
  split; [done|]. rewrite Forall_forall in ci_tasks0. split; [by destruct (ci_tasks0 t Ht) as (_ & ? & _)|].
  apply list_elem_of_lookup in Ht as [i Hti]. pose proof (cat_inv_perm _ _ _ (delete_Permutation _ _ _ Hti) Hi) as Hi'.
  split; intros Hst.
  - destruct (task_index t c) as [r c'] eqn:Hr. by destruct (index_inv _ _ _ _ _ Hi' Hr).
  - destruct (task_store t c) as [r c'] eqn:Hr. pose proof (store_inv _ _ _ _ _ Hst Hi' Hr) as H. by destruct r.
Qed.
End Tasks.

(** A scan never misses for the bloom filter: once an index id was added to a filter, adding
    others keeps it there. *)
Theorem bloom_no_false_negatives (bits : Z) (ids : list Z) ix :
  ix ∈ ids -> bloomMaybeContains (foldl (fun b i => Z.lor b (bloomKeyHash i)) bits ids) ix = true.
Proof.
  revert bits. induction ids as [|i ids IH]; intros bits Hin; [by apply not_elem_of_nil in Hin|].
  cbn [foldl]. apply elem_of_cons in Hin as [->|Hin]; [|by apply IH].
  assert (forall l b, bloomMaybeContains b i = true -> bloomMaybeContains (foldl (fun b i => Z.lor b (bloomKeyHash i)) b l) i = true) as Hg.
  { induction l as [|j l IHl]; intros b Hb; [done|]. cbn. apply IHl. by apply bloom_mono. }
  apply Hg. apply bloom_added.
Qed.

(** The id of a new file is past every id given out before when the clock has passed the last
    one; but when two files were already created within one millisecond the third one gets
    the id of the second, and after the clock has stepped back it gets an older one. *)
Theorem new_file_id {T CF} `{!BTree catalog_contents_entry_t T, !SegmentFile CF} pq_sort fuel canOpen now1 now2 ix a b size (c : Catalog T CF) id key c' :
  selectFileFor pq_sort fuel canOpen now1 now2 ix a b size c = (Ret (Some id, key), c') ->
  lastFileId c' <> lastFileId c \/ files c' <> files c -> 0 <= now2 < U64_MAX ->
  (lastFileId c < now2 -> lastFileId c < id) /\
  (lastFileId c = now2 -> id = lastFileId c + 1) /\
  (lastFileId c = now2 + 1 -> id = lastFileId c) /\
  (now2 + 1 < lastFileId c -> id < lastFileId c).
Proof.
  intros Hs Hch Hnow. unfold selectFileFor, mbind, prog_bind, getS, putS, liftO in Hs.
  destruct (collect_loop _ _ _ _ _ _ _ _) as [l| | |]; try discriminate Hs.
  destruct (choose_loop _ _ _) as [[[i k]|]| | |]; try discriminate Hs.
  - injection Hs as <- <- <-. tauto.
  - destruct (canOpen _); [|discriminate Hs]. injection Hs as <- <- <-. clear Hch.
    destruct (Z.leb_spec now2 (lastFileId c)); rewrite ?u64_small by word; lia.
Qed.

(** ** A concrete catalog *)

#[local] Existing Instance seg_BTree.
#[local] Existing Instance seg_BTreeLaws.
#[local] Instance toc_BTree : BTree catalog_contents_entry_t (list catalog_contents_entry_t) := sl_BTree compare.
#[local] Instance toc_BTreeLaws : BTreeLaws compare := sl_BTreeLaws compare.
#[local] Instance file_impl : SegmentFile sample_file_t := CatalogFile_SegmentFile no_hash (Bytemap 4096 0 ∅) [].
#[local] Instance file_laws : SegmentFileLaws sample_file_t := CatalogFile_SegmentFileLaws no_hash (Bytemap 4096 0 ∅) [].

Definition sample_catalog_t : Type := Catalog (list catalog_contents_entry_t) sample_file_t.
Definition in_order (l : list (Z * Z)) : list Z := map fst l.

Definition cat0 : sample_catalog_t := openCatalog [] ∅.

Lemma cat0_inv : cat_inv cat0 [].
Proof.
  apply open_inv; [split; constructor| |]; intros fid f *; by rewrite lookup_empty.
Qed.

Definition submit (now : Z) (a : entry_args) (c : sample_catalog_t) : outcome task * sample_catalog_t :=
  writeSegment in_order 9 (fun _ => true) now now "" a c.

Definition task1 : task := {| tk_args := entry1; tk_file := 1000; tk_key := TocEntry 1000 U64_MAX 0 0 0 0; tk_stored := false |}.
Definition task1' : task := {| tk_args := entry1; tk_file := 1000; tk_key := TocEntry 1000 U64_MAX 0 0 0 0; tk_stored := true |}.
Definition task2 : task := {| tk_args := entry2; tk_file := 1001; tk_key := TocEntry 1001 U64_MAX 0 0 0 0; tk_stored := false |}.
Definition cat1 : sample_catalog_t := (submit 1000 entry1 cat0).2.
Definition cat2 : sample_catalog_t := (submit 1000 entry2 cat1).2.
Definition cat3 : sample_catalog_t := (task_store task1 cat2).2.
Definition cat4 : sample_catalog_t := (task_index task1' cat3).2.

(** Two segments are submitted within one millisecond; the first write completes. *)
Lemma cat_run3 : rtc (cat_step in_order) (cat0, [], []) (cat3, [task1'; task2], [entry2; entry1]).
Proof.
  eapply rtc_l; [apply (step_submit in_order 9 (fun _ => true) 1000 1000 "" entry1 cat0 [] [] task1 cat1)|].
  - cbn; lia.
  - word.
  - repeat split; cbn; word_unfold; lia.
  - split; [|apply not_elem_of_nil]. change (files cat0) with (∅ : gmap Z sample_file_t). intros fid f H. by rewrite lookup_empty in H.
  - vm_compute. reflexivity.
  - eapply rtc_l; [apply (step_submit in_order 9 (fun _ => true) 1000 1000 "" entry2 cat1 [task1] [entry1] task2 cat2)|].
    + vm_compute; lia.
    + word.
    + repeat split; cbn; word_unfold; lia.
    + split; [|by_compute]. change (files cat1) with (<[1000 := sf_new]> (∅ : gmap Z sample_file_t)).
      intros fid f [[<- <-]|[_ Hf]]%lookup_insert_Some; [apply not_elem_of_nil|by rewrite lookup_empty in Hf].
    + vm_compute. reflexivity.
    + apply rtc_once, step_task. apply (step_store cat2 [task1; task2] 0 task1 task1' cat3); [done|done|vm_compute; reflexivity].
Qed.

Lemma cat_run4 : rtc (cat_step in_order) (cat0, [], []) (cat4, [task2], [entry2; entry1]).
Proof.
  eapply rtc_r; [exact cat_run3|]. apply step_task. apply (step_index cat3 [task1'; task2] 0 task1' cat4); [done|done|vm_compute; reflexivity].
Qed.

Lemma rangeScan_complete_witness :
  exists ids, rangeScan 9 2000 cat4 0 0 U64_MAX = Ret ids /\ 1000 ∈ ids.
Proof.
  refine (rangeScan_complete in_order (fun _ => reflexivity _) cat0 cat4 [task2] [entry2; entry1] 1000 (default sf_new (files cat4 !! 1000))
    (entry_metadata no_hash entry1 4096) 9 2000 0 U64_MAX cat0_inv cat_run4 _ _ _ _ _ _ _).
  - vm_compute. reflexivity.
  - by_compute.
  - constructor; [by right|constructor].
  - lia.
  - by_compute.
  - by_compute.
  - vm_compute. lia.
Defined.

Lemma cat4_toc : toc_ok (tocBTree cat4).
Proof. exact (ci_toc _ _ (cat_steps_inv in_order (fun _ => reflexivity _) _ _ cat_run4 cat0_inv)). Qed.

Lemma rangeScan_exact_witness : rangeScan 9 2000 cat4 0 5 5 = Ret [1000] /\ rangeScan 9 2000 cat4 7 5 5 = Ret [].
Proof.
  split; refine (eq_trans (rangeScan_exact cat4 9 2000 _ _ _ cat4_toc _) _); try (vm_compute; reflexivity); vm_compute; lia.
Defined.

Lemma selectFileFor_sound_witness : exists r c',
  selectFileFor in_order 9 (fun _ => true) 3000 3000 0 7 8 8 cat4 = (Ret r, c') /\ selected cat4 c' 3000 8 r.
Proof. apply (selectFileFor_sound in_order (fun _ => reflexivity _) _ _ _ _ _ _ _ _ _ cat4_toc). vm_compute. lia. Defined.

Lemma tasks_safe_witness :
  toc_ok (tocBTree cat3) /\ is_Some (files cat3 !! 1000) /\
  (tk_stored task1' = true -> fst (task_index task1' cat3) = Ret tt) /\
  (tk_stored task1' = false -> match fst (task_store task1' cat3) with Ret _ | Throw _ => True | _ => False end).
Proof.
  apply (tasks_safe in_order (fun _ => reflexivity _) cat0 cat3 [task1'; task2] [entry2; entry1] task1' cat0_inv cat_run3). left.
Defined.

Lemma bloom_no_false_negatives_witness :
  bloomMaybeContains (foldl (fun b i => Z.lor b (bloomKeyHash i)) 0 [3; 1; 4]) 1 = true.
Proof. apply (bloom_no_false_negatives 0 [3; 1; 4] 1). right. left. Defined.

(** A third segment in the same millisecond is given the file of the second. *)
Lemma new_file_id_witness : exists key c',
  selectFileFor in_order 9 (fun _ => true) 1000 1000 0 8 9 8 cat2 = (Ret (Some 1001, key), c') /\ 1001 = lastFileId cat2.
Proof.
  eexists _, _. split; [vm_compute; reflexivity|].
  refine (proj1 (proj2 (proj2 (new_file_id in_order 9 (fun _ => true) 999 1000 0 8 9 8 (set_files cat2 ∅) 1001 _ _ eq_refl _ _))) _).
  - right. vm_compute. discriminate.
  - word.
  - reflexivity.
Defined.
