(* ===== verification/CatalogContents.v ===== *)
(** * CatalogContents

    What the catalog holds.  The history of a run (the calls of [writeSegment] that were
    accepted and did not fail) and the segments on disk describe each other: nothing that
    was submitted is lost, altered or duplicated, whatever the interleaving of the
    background tasks (src/src/storage/Catalog.cpp). *)

From S2P Require Import Prelude Excessive Memory CatalogFile Catalog CatalogTasks.

Section Contents.
Context {T CF : Type} `{!BTree catalog_contents_entry_t T, !SegmentFile CF}.
Context `{!BTreeLaws compare, !SegmentFileLaws CF}.
Context (pq_sort : list (Z * Z) -> list Z) (pq_sort_law : forall l, pq_sort l ≡ₚ map fst l).
Implicit Types (c : Catalog T CF) (t : task) (ts : list task) (a : entry_args) (l : list entry_args).

(** The file [f] holds the segment of the call [a]: a reader of [s] sees its payload. *)
Definition written (f : CF) (s : segment_btree_metadata_t) (a : entry_args) : Prop :=
  s ∈ sf_segments f /\ describes s a /\ sf_read f s = ea_content a.

Definition stored (c : Catalog T CF) (a : entry_args) : Prop :=
  exists fid f s, files c !! fid = Some f /\ written f s a.

Definition pending (ts : list task) (a : entry_args) : Prop :=
  exists t, t ∈ ts /\ tk_stored t = false /\ tk_args t = a.

Definition task_keys (ts : list task) : list (Z * Z * Z) := map (fun t => ea_key (tk_args t)) ts.

(** [l] is the history of the state. *)
Record cat_log (c : Catalog T CF) (ts : list task) (l : list entry_args) : Prop := {
  cl_recorded a : a ∈ l -> pending ts a \/ stored c a;
  cl_tasks t : t ∈ ts -> tk_args t ∈ l;
  cl_segments fid f s : files c !! fid = Some f -> s ∈ sf_segments f -> exists a, a ∈ l /\ written f s a;
  cl_keys : NoDup (map ea_key l);
  cl_distinct : NoDup (task_keys ts);
}.

Lemma cat_log_perm c ts ts' l : ts ≡ₚ ts' -> cat_log c ts l -> cat_log c ts' l.
Proof.
  intros Hp []. split; try done.
  - intros a Ha. destruct (cl_recorded0 a Ha) as [(t & Ht & H)|]; [left|by right]. exists t. by rewrite <- Hp.
  - intros t. rewrite <- Hp. apply cl_tasks0.
  - unfold task_keys. by rewrite <- Hp.
Qed.

Lemma cat_log_beingWritten c ts l s : cat_log c ts l -> cat_log (set_beingWritten c s) ts l.
Proof. intros []. by split. Qed.

Lemma cat_log_toc c ts l toc : cat_log c ts l -> cat_log (set_toc c toc) ts l.
Proof. intros []. by split. Qed.

Lemma describes_key s a : describes s a -> seg_key s = ea_key a.
Proof. intros (E1 & E2 & _ & E3 & _). unfold seg_key, ea_key. congruence. Qed.

Lemma written_key f s a : written f s a -> ea_key a ∈ map seg_key (sf_segments f).
Proof. intros (Hs & Hd & _). rewrite <- (describes_key s a Hd). by apply (list_elem_of_fmap_2 seg_key). Qed.

(** Two calls of the history with the same key are one call. *)
Lemma same_call l a b : NoDup (map ea_key l) -> a ∈ l -> b ∈ l -> ea_key a = ea_key b -> a = b.
Proof.
  intros Hnd Ha Hb Hk. apply list_elem_of_lookup in Ha as [i Hi], Hb as [j Hj].
  assert (i = j) as ->; [|congruence]. change (map ea_key l) with (ea_key <$> l) in Hnd.
  apply (NoDup_lookup _ _ _ (ea_key a) Hnd); rewrite list_lookup_fmap, ?Hi, ?Hj; cbn; congruence.
Qed.

(** *** The steps *)

Lemma grow_log c c' ts l : files_grow c c' -> cat_log c ts l -> cat_log c' ts l.
Proof.
  intros [Hback Hforth] []. split; try done.
  - intros a Ha. destruct (cl_recorded0 a Ha) as [|(fid & f & s & Hf & Hw)]; [by left|right]. exists fid, f, s. auto.
  - intros fid f s Hf Hs. apply Hback in Hf as [Hf|Hf]; [by eapply cl_segments0|]. subst f.
    destruct sf_new_law as [_ Hnil]. rewrite Hnil in Hs. by apply not_elem_of_nil in Hs.
Qed.

Lemma submit_log fuel canOpen now1 now2 errno a c ts l r c' :
  (length (bt_elems (tocBTree c)) < fuel)%nat -> 1 <= now2 < U64_MAX -> cat_inv c ts -> cat_log c ts l ->
  writeSegment pq_sort fuel canOpen now1 now2 errno a c = (r, c') ->
  match r with
  | Ret t => fresh_call a c ts -> cat_log c' (t :: ts) (a :: l)
  | _ => cat_log c' ts l
  end.
Proof.
  intros Hf Hnow Hi Hl Hw.
  destruct (selectFileFor_spec pq_sort pq_sort_law fuel canOpen now1 now2 (ea_indexId a) (ea_startBlock a) (ea_endBlock a)
    (u32 (Z.of_nat (length (ea_content a)))) c (ci_toc _ _ Hi) Hf) as (sel & c1 & Hsel & Hs).
  apply (selected_inv _ _ ts) in Hs as (_ & Hg & _); [|done..]. pose proof (grow_log _ _ _ _ Hg Hl) as Hl1.
  unfold writeSegment in Hw. rewrite (prog_bind_Ret _ _ _ _ _ Hsel) in Hw.
  destruct sel as [[id|] key]; cbn in Hw; injection Hw as <- <-; [|done].
  intros [Hfr1 Hfr2]. apply cat_log_beingWritten. pose proof Hl as [Hrec _ _ _ _]. destruct Hl1 as [H1 H2 H3 H4 H5]. split.
  - intros b [->|Hb]%elem_of_cons; [left; eexists; split; [left|done]|].
    destruct (H1 b Hb) as [(t & Ht & H)|]; [left|by right]. exists t. split; [by right|done].
  - intros t [->|Ht]%elem_of_cons; [left|right; by apply H2].
  - intros fid f s Hff Hs. destruct (H3 fid f s Hff Hs) as (b & Hb & H). exists b. split; [by right|done].
  - cbn. constructor; [|done]. intros Hin. apply list_elem_of_fmap in Hin as (b & Hk & Hb).
    destruct (Hrec b Hb) as [(t & Ht & _ & <-)|(fid & f & s & Hff & Hwr)].
    + apply Hfr2. rewrite Hk. by apply (list_elem_of_fmap_2 (fun t => ea_key (tk_args t))).
    + apply (Hfr1 fid f Hff). rewrite Hk. by eapply written_key.
  - cbn. by constructor.
Qed.

Lemma remove_task_log c t ts l : tk_stored t = true -> cat_log c (t :: ts) l -> cat_log c ts l.
Proof.
  intros Hst []. apply NoDup_cons in cl_distinct0 as [_ Hnd]. split; try done.
  - intros a Ha. destruct (cl_recorded0 a Ha) as [(v & Hv & Hf & H)|]; [left|by right].
    apply elem_of_cons in Hv as [->|Hv]; [congruence|]. by exists v.
  - intros v Hv. apply cl_tasks0. by right.
Qed.

Lemma store_log c t ts l r c' : tk_stored t = false -> cat_inv c (t :: ts) -> cat_log c (t :: ts) l ->
  task_store t c = (r, c') ->
  match r with
  | Ret t' => cat_log c' (t' :: ts) l
  | Throw _ => cat_log c' ts (filter (fun b => ea_key b <> ea_key (tk_args t)) l)
  | _ => False
  end.
Proof.
  intros Hst [] Hl Hr. pose proof Hl as []. apply Forall_cons in ci_tasks as [(Ha & [f Hf] & _) _].
  rewrite unstored_keys_cons, Hst in ci_fresh. cbn [app] in ci_fresh.
  pose proof (ci_files _ _ Hf) as Hok. pose proof (ci_fresh _ _ (ea_key (tk_args t)) Hf ltac:(left)) as Hfr.
  pose proof (sf_create_law f (tk_args t) Hok Ha Hfr) as Hc.
  unfold task_store, mbind, prog_bind, getS, putS, liftO in Hr. rewrite Hf in Hr. cbn [deref] in Hr.
  destruct (sf_createEntry (tk_args t) f) as [o f']. pose proof cl_distinct0 as [Hnt Hnd]%NoDup_cons.
  assert (forall x a, (forall y, y ∈ sf_segments f -> sf_read f' y = sf_read f y) -> (forall y, y ∈ sf_segments f -> y ∈ sf_segments f') ->
    written f x a -> written f' x a) as Hkeep by (intros x a Hrd Hin (H1 & H2 & H3); split; [auto|]; split; [done|]; by rewrite Hrd).
  assert (forall a, (forall x, written f x a -> written f' x a) -> stored c a -> stored (set_files c (<[tk_file t := f']> (files c))) a) as Hsto.
  { intros a Hw (fid & g & x & Hg & Hx). destruct (decide (fid = tk_file t)) as [->|Hne].
    - exists (tk_file t), f', x. cbn. rewrite lookup_insert_eq. rewrite Hf in Hg. injection Hg as <-. auto.
    - exists fid, g, x. cbn. by rewrite lookup_insert_ne. }
  destruct o as [u|e|u|]; cbn in Hr; injection Hr as <- <-; try done.
  - destruct Hc as (_ & Hrd & s & Hd & Hrs & Hseg).
    assert (forall y, y ∈ sf_segments f -> y ∈ sf_segments f') as Hin by (intros y Hy; rewrite Hseg; by right).
    assert (written f' s (tk_args t)) as Hnew by (split; [rewrite Hseg; left|done]).
    split; try done.
    + intros a Hal. destruct (cl_recorded0 a Hal) as [(v & Hv & Hvf & Hva)|Hs]; [|right; apply Hsto; [by intros x; apply Hkeep|done]].
      apply elem_of_cons in Hv as [->|Hv]; [|left; exists v; split; [by right|done]]. right. subst a.
      exists (tk_file t), f', s. cbn. by rewrite lookup_insert_eq.
    + intros v [->|Hv]%elem_of_cons; [apply (cl_tasks0 t); left|apply cl_tasks0; by right].
    + intros fid g x Hg Hx. cbn in Hg. apply lookup_insert_Some in Hg as [[<- <-]|[Hne Hg]]; [|by eapply cl_segments0].
      rewrite Hseg in Hx. apply elem_of_cons in Hx as [->|Hx].
      * exists (tk_args t). split; [apply cl_tasks0; left|done].
      * destruct (cl_segments0 _ _ _ Hf Hx) as (a & Hal & Hw). exists a. split; [done|]. by apply Hkeep.
  - destruct Hc as (_ & Hrd & Hseg). apply cat_log_beingWritten.
    assert (forall y, y ∈ sf_segments f -> y ∈ sf_segments f') as Hin by (by rewrite Hseg).
    split.
    + intros a [Hne Hal]%list_elem_of_filter. destruct (cl_recorded0 a Hal) as [(v & Hv & Hvf & Hva)|Hs]; [|right; apply Hsto; [by intros x; apply Hkeep|done]].
      apply elem_of_cons in Hv as [->|Hv]; [congruence|]. left. by exists v.
    + intros v Hv. apply list_elem_of_filter. split; [|apply cl_tasks0; by right]. intros Hk. apply Hnt. rewrite <- Hk.
      by apply (list_elem_of_fmap_2 (fun t => ea_key (tk_args t))).
    + intros fid g x Hg Hx. cbn in Hg.
      assert (exists g0, files c !! fid = Some g0 /\ x ∈ sf_segments g0 /\ forall a, written g0 x a -> written g x a) as (g0 & Hg0 & Hx0 & Hw).
      { apply lookup_insert_Some in Hg as [[<- <-]|[Hne Hg]]; [|by exists g].
        exists f. split; [done|]. split; [by rewrite <- Hseg|]. intros a. by apply Hkeep. }
      destruct (cl_segments0 _ _ _ Hg0 Hx0) as (a & Hal & Hwa). exists a. split; [|auto]. apply list_elem_of_filter. split; [|done].
      intros Hk. apply (ci_fresh _ _ (ea_key (tk_args t)) Hg0 ltac:(left)). rewrite <- Hk. by eapply written_key.
    + eapply sublist_NoDup; [exact cl_keys0|]. apply sublist_map, sublist_filter.
    + done.
Qed.

Lemma index_log c t ts l r c' : tk_stored t = true -> cat_log c (t :: ts) l -> task_index t c = (r, c') -> r = Ret tt -> cat_log c' ts l.
Proof.
  intros Hst Hl Hr ->. unfold task_index, mbind, prog_bind, getS, putS, liftO in Hr.
  destruct (files c !! tk_file t); cbn in Hr; [|discriminate Hr]. injection Hr as <-.
  apply cat_log_beingWritten, cat_log_toc. by eapply remove_task_log.
Qed.

Lemma task_step_log x y l : task_step x y -> cat_inv x.1 x.2 -> cat_log x.1 x.2 l -> cat_log y.1 y.2 l.
Proof.
  intros Hs Hi Hl. destruct Hs as [c ts i t t' c' Ht Hst Hr|c ts i t c' Ht Hst Hr]; cbn [fst snd] in *;
    apply (cat_inv_perm _ _ _ (delete_Permutation _ _ _ Ht)) in Hi; apply (cat_log_perm _ _ _ _ (delete_Permutation _ _ _ Ht)) in Hl.
  - pose proof (store_log _ _ _ _ _ _ Hst Hi Hl Hr) as H. eapply cat_log_perm; [|exact H]. symmetry. by eapply insert_perm.
  - by eapply index_log.
Qed.

Lemma cat_step_log x y : cat_step pq_sort x y -> cat_inv x.1.1 x.1.2 -> cat_log x.1.1 x.1.2 x.2 -> cat_log y.1.1 y.1.2 y.2.
Proof.
  intros Hs Hi Hl. destruct Hs as [fuel co now1 now2 errno a c ts l t c' Hf Hn Ha Hfr Hw|
    fuel co now1 now2 errno a c ts l e c' Hf Hn Hw|x y l Hst|c ts l i t e c' Ht Hst Hr]; cbn [fst snd] in *.
  - pose proof (submit_log _ _ _ _ _ _ _ _ _ _ _ Hf Hn Hi Hl Hw Hfr) as H.
    eapply cat_log_perm; [|exact H]. by rewrite Permutation_app_comm.
  - exact (submit_log _ _ _ _ _ _ _ _ _ _ _ Hf Hn Hi Hl Hw).
  - by eapply task_step_log.
  - apply (cat_inv_perm _ _ _ (delete_Permutation _ _ _ Ht)) in Hi. apply (cat_log_perm _ _ _ _ (delete_Permutation _ _ _ Ht)) in Hl.
    exact (store_log _ _ _ _ _ _ Hst Hi Hl Hr).
Qed.

Lemma cat_steps_log x y : rtc (cat_step pq_sort) x y -> cat_inv x.1.1 x.1.2 -> cat_log x.1.1 x.1.2 x.2 -> cat_log y.1.1 y.1.2 y.2.
Proof.
  induction 1 as [|x y z Hs _ IH]; [done|]. intros Hi Hl. apply IH; [|by eapply cat_step_log].
  by eapply cat_step_inv.
Qed.

Lemma empty_log toc : cat_log (openCatalog toc ∅) [] [].
Proof.
  split; try apply NoDup_nil_2.
  - intros a Ha. by apply not_elem_of_nil in Ha.
  - intros t Ht. by apply not_elem_of_nil in Ht.
  - intros fid f s Hf. cbn in Hf. by rewrite lookup_empty in Hf.
Qed.

(** C16: no segment is lost, altered or invented: from a new catalog, after any interleaving of
    submissions and background writes, every call that was accepted and has not failed is
    either still waiting for its write or is on disk, in a file whose reader sees exactly
    its bytes; and every segment of every file is that of one such call.  When the pool is
    idle, files and history are therefore the same thing. *)
Theorem segments_durable toc c ts l :
  toc_ok toc -> rtc (cat_step pq_sort) (openCatalog toc ∅, [], []) (c, ts, l) ->
  (forall a, a ∈ l -> ~ pending ts a -> stored c a) /\
  (forall fid f s, files c !! fid = Some f -> s ∈ sf_segments f -> exists a, a ∈ l /\ written f s a) /\
  NoDup (map ea_key l).
Proof.
  intros Htoc Hs. assert (cat_inv (openCatalog (CF:=CF) toc ∅) []) as H0.
  { apply open_inv; [done| |]; intros *; by rewrite lookup_empty. }
  destruct (cat_steps_log _ _ Hs H0 (empty_log toc)) as [H1 _ H3 H4 _]; cbn [fst snd] in *.
  split; [|done]. intros a Ha Hp. by destruct (H1 a Ha).
Qed.
End Contents.

(** The run of CatalogTasks: two segments submitted, one written and indexed. *)
#[local] Existing Instance seg_BTree.
#[local] Existing Instance seg_BTreeLaws.
#[local] Existing Instance toc_BTree.
#[local] Existing Instance toc_BTreeLaws.
#[local] Existing Instance file_impl.
#[local] Existing Instance file_laws.

Lemma segments_durable_witness : stored cat4 entry1.
Proof.
  refine (proj1 (segments_durable in_order (fun _ => reflexivity _) [] cat4 [task2] [entry2; entry1] (ci_toc _ _ cat0_inv) cat_run4) entry1 _ _).
  - right. left.
  - intros (t & Ht & _ & Ha). apply list_elem_of_singleton in Ht as ->. discriminate Ha.
Defined.
