(* ===== verification/CatalogStats.v ===== *)
(** * CatalogStats

    The statistics of the TOC (src/src/storage/Catalog.cpp, the lambda of [writeSegment]):
    whatever the interleaving of the tasks, the entry of a file counts and bounds exactly the
    segments whose tasks have reached it.  And what a process that dies with tasks in its
    pool leaves behind. *)

From S2P Require Import Prelude Excessive Memory CatalogFile Catalog CatalogTasks CatalogContents.

(** The entry of a file describes exactly these segments. *)
Record exact_entry (e : catalog_contents_entry_t) (segs : list segment_btree_metadata_t) : Prop := {
  ex_count : segmentCount e = u32 (Z.of_nat (length segs));
  ex_min : blockRangeMin e = foldr (fun s => Z.min (blockRangeStart s)) U64_MAX segs;
  ex_max : blockRangeMax e = foldr (fun s => Z.max (blockRangeEnd s)) 0 segs;
  ex_bloom : bloom e = foldr (fun s => Z.lor (bloomKeyHash (indexId s))) 0 segs;
}.

(** The entry of a file that has none yet. *)
Definition noEntry (fid : Z) : catalog_contents_entry_t := TocEntry fid U64_MAX 0 0 0 0.

Lemma noEntry_exact fid : exact_entry (noEntry fid) [].
Proof. by split. Qed.

Lemma updatedEntry_exact e segs bytes s a : exact_entry e segs -> describes s a -> exact_entry (updatedEntry e bytes a) (s :: segs).
Proof.
  intros [Hc Hmin Hmax Hb] (E1 & E2 & E3 & _). unfold updatedEntry. split; cbn.
  - rewrite Hc. unfold u32. rewrite Z.add_mod_idemp_l by lia. f_equal. lia.
  - rewrite E2, <- Hmin. lia.
  - rewrite E3, <- Hmax. lia.
  - rewrite E1, <- Hb. by rewrite Z.lor_comm.
Qed.

Lemma foldr_perm {A} (f : A -> Z -> Z) (z : Z) l l' : (forall x y w, f x (f y w) = f y (f x w)) -> l ≡ₚ l' -> foldr f z l = foldr f z l'.
Proof. intros Hf Hp. induction Hp; cbn; congruence || by rewrite Hf. Qed.

Lemma exact_entry_perm e l l' : l ≡ₚ l' -> exact_entry e l -> exact_entry e l'.
Proof.
  intros Hp [Hc Hmin Hmax Hb]. split.
  - by rewrite Hc, Hp.
  - rewrite Hmin. apply foldr_perm; [intros; lia|done].
  - rewrite Hmax. apply foldr_perm; [intros; lia|done].
  - rewrite Hb. apply foldr_perm; [|done]. intros. by rewrite !Z.lor_assoc, (Z.lor_comm (bloomKeyHash (indexId x))).
Qed.

Section Stats.
Context {T CF : Type} `{!BTree catalog_contents_entry_t T, !SegmentFile CF}.
Context `{!BTreeLaws compare, !SegmentFileLaws CF}.
Context (pq_sort : list (Z * Z) -> list Z) (pq_sort_law : forall l, pq_sort l ≡ₚ map fst l).
Implicit Types (c : Catalog T CF) (t : task) (ts : list task) (l : list entry_args).

(** The TOC entry of [fid], or the one it would start from. *)
Definition entry_of (toc : T) (fid : Z) : catalog_contents_entry_t := default (noEntry fid) (bt_find toc (noEntry fid)).

(** The tasks that have written their segment to [fid] and not updated the TOC. *)
Definition stored_tasks (ts : list task) (fid : Z) : list task := filter (fun t => tk_stored t = true /\ tk_file t = fid) ts.

Record toc_exact (c : Catalog T CF) (ts : list task) : Prop := {
  te_files fid f : files c !! fid = Some f -> exists counted waiting,
    sf_segments f ≡ₚ counted ++ waiting /\ exact_entry (entry_of (tocBTree c) fid) counted /\
    exists ts', ts' ≡ₚ stored_tasks ts fid /\ Forall2 (fun s t => describes s (tk_args t)) waiting ts';
  te_entries e : e ∈ bt_elems (tocBTree c) -> is_Some (files c !! fileId e);
  te_keys t : t ∈ ts -> bt_find (tocBTree c) (noEntry (tk_file t)) = None -> tk_key t = noEntry (tk_file t);
}.

Lemma toc_exact_perm c ts ts' : ts ≡ₚ ts' -> toc_exact c ts -> toc_exact c ts'.
Proof.
  intros Hp [H1 H2 H3]. split; [|done|].
  - intros fid f Hf. destruct (H1 fid f Hf) as (I & Wt & Hs & He & ts2 & Hts & Hd). exists I, Wt. split; [done|]. split; [done|].
    exists ts2. split; [|done]. rewrite Hts. unfold stored_tasks. by rewrite Hp.
  - intros t. rewrite <- Hp. apply H3.
Qed.

Lemma stored_tasks_cons t ts fid : stored_tasks (t :: ts) fid =
  if decide (tk_stored t = true /\ tk_file t = fid) then t :: stored_tasks ts fid else stored_tasks ts fid.
Proof. unfold stored_tasks. by rewrite filter_cons. Qed.

Lemma stored_tasks_none ts fid : (forall t, t ∈ ts -> tk_file t <> fid) -> stored_tasks ts fid = [].
Proof.
  intros H. induction ts as [|t ts IH]; [done|]. rewrite stored_tasks_cons, decide_False.
  - apply IH. intros u Hu. apply H. by right.
  - intros [_ Hf]. apply (H t); [left|done].
Qed.

(** A file that is there but has neither entry nor tasks yet. *)
Lemma entry_of_absent toc fid : bt_wf compare toc -> (forall e, e ∈ bt_elems toc -> fileId e <> fid) ->
  bt_find toc (noEntry fid) = None.
Proof.
  intros Hwf Hno. destruct (bt_find toc (noEntry fid)) as [e|] eqn:Hf; [|done].
  apply find_entry in Hf as [He Hid]; [|done]. by destruct (Hno e He).
Qed.

Lemma selected_exact c c' ts now2 size r : cat_inv c ts -> toc_exact c ts -> selected c c' now2 size r ->
  toc_exact c' ts /\
  match r with
  | (Some id, key) => bt_find (tocBTree c') (noEntry id) = None -> key = noEntry id
  | _ => True
  end.
Proof.
  intros Hi [H1 H2 H3] Hsel. pose proof (ci_toc _ _ Hi) as [Hwf _]. destruct r as [[id|] key]; cbn in Hsel.
  2:{ subst c'. split; [by split|done]. }
  destruct Hsel as [(-> & Hkey & Hid & _)|(Hid & -> & ->)].
  - split; [by split|]. rewrite (find_present _ key) by done. discriminate.
  - split; [|done]. split; cbn [set_files set_lastFileId files tocBTree]; [| |done].
    + intros fid f [[<- <-]|[_ Hf]]%lookup_insert_Some; [|by apply H1].
      destruct (files c !! id) as [f0|] eqn:Hf; [by apply H1|]. cbn. destruct sf_new_law as [_ ->].
      exists [], []. split; [done|]. unfold entry_of. rewrite entry_of_absent; [|done|].
      2:{ intros e He Heq. destruct (H2 e He) as [g Hg]. congruence. }
      split; [apply noEntry_exact|]. exists []. split; [|constructor]. rewrite stored_tasks_none; [done|].
      intros t Ht Htf. pose proof (ci_tasks _ _ Hi) as Hts. rewrite Forall_forall in Hts.
      destruct (Hts t Ht) as (_ & [g Hg] & _). congruence.
    + intros e He. apply lookup_insert_is_Some. destruct (decide (id = fileId e)); auto.
Qed.

Lemma beingWritten_exact c ts s : toc_exact c ts -> toc_exact (set_beingWritten c s) ts.
Proof. intros []. by split. Qed.

Lemma submit_exact fuel canOpen now1 now2 errno a c ts r c' :
  (length (bt_elems (tocBTree c)) < fuel)%nat -> cat_inv c ts -> toc_exact c ts ->
  writeSegment pq_sort fuel canOpen now1 now2 errno a c = (r, c') ->
  match r with
  | Ret t => toc_exact c' (t :: ts)
  | _ => toc_exact c' ts
  end.
Proof.
  intros Hf Hi He Hw.
  destruct (selectFileFor_spec pq_sort pq_sort_law fuel canOpen now1 now2 (ea_indexId a) (ea_startBlock a) (ea_endBlock a)
    (u32 (Z.of_nat (length (ea_content a)))) c (ci_toc _ _ Hi) Hf) as (sel & c1 & Hsel & Hs).
  apply (selected_exact _ _ ts) in Hs as [He1 Hkey]; [|done..].
  unfold writeSegment in Hw. rewrite (prog_bind_Ret _ _ _ _ _ Hsel) in Hw.
  destruct sel as [[id|] key]; cbn in Hw; injection Hw as <- <-; [|done].
  destruct (beingWritten_exact _ _ ({[id]} ∪ filesBeingWritten c1) He1) as [H1 H2 H3]. split; [|done|].
  - intros fid f Hff. rewrite stored_tasks_cons, decide_False by (by intros [? _]). by apply H1.
  - intros t [->|Ht]%elem_of_cons; [done|by apply H3].
Qed.
Lemma store_exact c t ts r c' : tk_stored t = false -> cat_inv c (t :: ts) -> toc_exact c (t :: ts) -> task_store t c = (r, c') ->
  match r with
  | Ret t' => toc_exact c' (t' :: ts)
  | _ => toc_exact c' ts
  end.
Proof.
  intros Hst [_ Hfiles Htasks Hfresh _ _] [H1 H2 H3] Hr. apply Forall_cons in Htasks as [(Ha & [f Hf] & _) _].
  rewrite unstored_keys_cons, Hst in Hfresh. cbn [app] in Hfresh.
  pose proof (sf_create_law f (tk_args t) (Hfiles _ _ Hf) Ha (Hfresh _ _ (ea_key (tk_args t)) Hf ltac:(left))) as Hc.
  unfold task_store, mbind, prog_bind, getS, putS, liftO in Hr. rewrite Hf in Hr. cbn [deref] in Hr.
  destruct (sf_createEntry (tk_args t) f) as [o f'].
  assert (forall fid g, <[tk_file t := f']> (files c) !! fid = Some g -> is_Some (files c !! fid)) as Hex.
  { intros fid g [[<- _]|[_ Hg]]%lookup_insert_Some; eauto. }
  assert (forall fid, stored_tasks (t :: ts) fid = stored_tasks ts fid) as Hsame.
  { intros fid. rewrite stored_tasks_cons, decide_False; [done|]. rewrite Hst. by intros [? _]. }
  assert (forall e, e ∈ bt_elems (tocBTree c) -> is_Some (<[tk_file t := f']> (files c) !! fileId e)) as Hent.
  { intros e He. apply lookup_insert_is_Some. destruct (decide (tk_file t = fileId e)); auto. }
  assert (forall u, u ∈ ts -> bt_find (tocBTree c) (noEntry (tk_file u)) = None -> tk_key u = noEntry (tk_file u)) as Hkeys.
  { intros u Hu. apply H3. by right. }
  destruct o as [u|e|u|]; cbn in Hr; injection Hr as <- <-; try done.
  - destruct Hc as (_ & _ & s & Hd & _ & Hseg). split; cbn [set_files files tocBTree]; [|done|].
    + intros fid g [[<- <-]|[Hne Hg]]%lookup_insert_Some.
      * destruct (H1 _ _ Hf) as (I & Wt & Hs & He & ts2 & Hts & Hds). exists I, (s :: Wt). split.
        { rewrite Hseg, Hs. apply Permutation_middle. }
        split; [done|].
        exists ({| tk_args := tk_args t; tk_file := tk_file t; tk_key := tk_key t; tk_stored := true |} :: ts2). split; [|by constructor].
        rewrite stored_tasks_cons, decide_True by done. by rewrite Hts, Hsame.
      * destruct (H1 _ _ Hg) as (I & Wt & Hs & He & ts2 & Hts & Hds). exists I, Wt. split; [done|]. split; [done|].
        exists ts2. split; [|done]. rewrite stored_tasks_cons, decide_False by (cbn; by intros [_ ?]). by rewrite Hts, Hsame.
    + intros v [->|Hv]%elem_of_cons; [|by apply Hkeys]. cbn. apply H3. left.
  - destruct Hc as (_ & _ & Hseg). apply beingWritten_exact. split; cbn [set_files files tocBTree]; [|done|done].
    intros fid g [[<- <-]|[Hne Hg]]%lookup_insert_Some.
    + destruct (H1 _ _ Hf) as (I & Wt & Hs & He & ts2 & Hts & Hds). exists I, Wt. rewrite Hseg. split; [done|]. split; [done|].
      exists ts2. by rewrite <- Hsame.
    + destruct (H1 _ _ Hg) as (I & Wt & Hs & He & ts2 & Hts & Hds). exists I, Wt. split; [done|]. split; [done|].
      exists ts2. by rewrite <- Hsame.
Qed.

(** The entries after an overwrite. *)
Lemma entry_of_overwrite (toc : T) key fid : bt_wf compare toc ->
  entry_of (bt_overwrite toc key) fid = if decide (fid = fileId key) then key else entry_of toc fid.
Proof.
  intros Hwf. destruct (bt_overwrite_law (cmp:=compare) toc key Hwf) as [Hwf' Hel]. unfold entry_of. case_decide as Hfid.
  - by rewrite (find_present _ key) by (done || (apply Hel; by left)).
  - destruct (bt_find toc (noEntry fid)) as [e|] eqn:Hf.
    + apply find_entry in Hf as [He Hid]; [|done]. rewrite (find_present _ e); [done|done| |done].
      apply Hel. right. split; [done|]. rewrite toc_compare_eq_0. cbn in Hid. congruence.
    + rewrite entry_of_absent; [done|done|]. intros e [->|[He _]]%Hel; [congruence|]. intros Hid.
      by rewrite (find_present _ e) in Hf.
Qed.

Lemma index_exact c t ts r c' : tk_stored t = true -> cat_inv c (t :: ts) -> toc_exact c (t :: ts) ->
  task_index t c = (r, c') -> toc_exact c' ts.
Proof.
  intros Hst [[Hwf _] _ Htasks _ _ _] [H1 H2 H3] Hr. apply Forall_cons in Htasks as [(_ & [f Hf] & Hkid & _) _].
  unfold task_index, mbind, prog_bind, getS, putS, liftO in Hr. rewrite Hf in Hr. cbn in Hr. injection Hr as _ <-.
  apply beingWritten_exact. assert (default (tk_key t) (bt_find (tocBTree c) (tk_key t)) = entry_of (tocBTree c) (tk_file t)) as Hold.
  { unfold entry_of. assert (bt_find (tocBTree c) (tk_key t) = bt_find (tocBTree c) (noEntry (tk_file t))) as ->.
    { destruct (bt_find (tocBTree c) (noEntry (tk_file t))) as [e|] eqn:E.
      - apply find_entry in E as [He Hid]; [|done]. cbn in Hid. by rewrite (find_present _ e) by (done || congruence).
      - destruct (bt_find (tocBTree c) (tk_key t)) as [e|] eqn:E2; [|done].
        apply find_entry in E2 as [He Hid]; [|done]. rewrite (find_present _ e) in E by (done || cbn; congruence). discriminate. }
    destruct (bt_find (tocBTree c) (noEntry (tk_file t))) eqn:E; [done|]. cbn. apply H3; [left|done]. }
  rewrite Hold. set (new := updatedEntry _ _ _).
  assert (fileId (entry_of (tocBTree c) (tk_file t)) = tk_file t) as Hnew.
  { unfold entry_of. destruct (bt_find (tocBTree c) (noEntry (tk_file t))) as [e|] eqn:E; cbn; [|reflexivity]. by apply find_entry in E as [_ ?]. }
  pose proof (fun fid => entry_of_overwrite (tocBTree c) new fid Hwf) as Hentry.
  change (fileId new) with (fileId (entry_of (tocBTree c) (tk_file t))) in Hentry. rewrite Hnew in Hentry.
  split; cbn [set_toc files tocBTree].
  - intros fid g Hg. destruct (H1 _ _ Hg) as (I & Wt & Hs & He & ts2 & Hts & Hds). rewrite Hentry. rewrite stored_tasks_cons in Hts.
    destruct (decide (fid = tk_file t)) as [->|Hne].
    + rewrite decide_True in Hts by done. apply Permutation_cons_inv_r in Hts as (l1 & l2 & -> & Hts).
      apply Forall2_app_inv_r in Hds as (w1 & w2 & Hd1 & Hd2 & ->). apply Forall2_cons_inv_r in Hd2 as (s & w2' & Hd & Hd2 & ->).
      exists (s :: I), (w1 ++ w2'). split.
      { rewrite Hs. cbn. rewrite <- Permutation_middle, <- Permutation_middle. done. }
      split; [by apply updatedEntry_exact|]. exists (l1 ++ l2). split; [done|by apply Forall2_app].
    + rewrite decide_False in Hts by (intros [_ ?]; congruence). exists I, Wt. eauto.
  - destruct (bt_overwrite_law (cmp:=compare) (tocBTree c) new Hwf) as [_ Hel].
    intros e [->|[He _]]%Hel; [|by apply H2]. cbn. rewrite Hnew. eauto.
  - intros u Hu Hnone. apply H3; [by right|]. apply entry_of_absent; [done|]. intros e He Hid.
    destruct (bt_overwrite_law (cmp:=compare) (tocBTree c) new Hwf) as [Hwf' Hel].
    destruct (decide (compare e new = 0)) as [Hc|Hc].
    + rewrite toc_compare_eq_0 in Hc. rewrite (find_present _ new) in Hnone; [done|done|apply Hel; by left|cbn in *; congruence].
    + rewrite (find_present _ e) in Hnone; [done|done|apply Hel; by right|done].
Qed.

Lemma cat_step_exact x y : cat_step pq_sort x y -> cat_inv x.1.1 x.1.2 -> toc_exact x.1.1 x.1.2 -> toc_exact y.1.1 y.1.2.
Proof.
  intros Hs Hi He. destruct Hs as [fuel co now1 now2 errno a c ts l t c' Hf Hn Ha Hfr Hw|
    fuel co now1 now2 errno a c ts l e c' Hf Hn Hw|x y l Hst|c ts l i t e c' Ht Hst Hr]; cbn [fst snd] in *.
  - pose proof (submit_exact _ _ _ _ _ _ _ _ _ _ Hf Hi He Hw) as H. eapply toc_exact_perm; [|exact H]. by rewrite Permutation_app_comm.
  - exact (submit_exact _ _ _ _ _ _ _ _ _ _ Hf Hi He Hw).
  - destruct Hst as [c ts i t t' c' Ht Hst Hr|c ts i t c' Ht Hst Hr]; cbn [fst snd] in *;
      apply (cat_inv_perm _ _ _ (delete_Permutation _ _ _ Ht)) in Hi; apply (toc_exact_perm _ _ _ (delete_Permutation _ _ _ Ht)) in He.
    + pose proof (store_exact _ _ _ _ _ Hst Hi He Hr) as H. eapply toc_exact_perm; [|exact H]. symmetry. by eapply insert_perm.
    + by eapply index_exact.
  - apply (cat_inv_perm _ _ _ (delete_Permutation _ _ _ Ht)) in Hi. apply (toc_exact_perm _ _ _ (delete_Permutation _ _ _ Ht)) in He.
    exact (store_exact _ _ _ _ _ Hst Hi He Hr).
Qed.

Lemma cat_steps_exact x y : rtc (cat_step pq_sort) x y -> cat_inv x.1.1 x.1.2 -> toc_exact x.1.1 x.1.2 -> toc_exact y.1.1 y.1.2.
Proof.
  induction 1 as [|x y z Hs _ IH]; [done|]. intros Hi He. apply IH; [by eapply cat_step_inv|by eapply cat_step_exact].
Qed.

Lemma open_empty_exact : toc_exact (openCatalog bt_empty ∅) [].
Proof.
  split; cbn.
  - intros fid f. by rewrite lookup_empty.
  - intros e. rewrite (bt_empty_elems (cmp:=compare)). intros He. by apply not_elem_of_nil in He.
  - intros t Ht. by apply not_elem_of_nil in Ht.
Qed.

Lemma open_empty_inv : cat_inv (openCatalog (bt_empty : T) (∅ : gmap Z CF)) [].
Proof. apply open_inv; [split; unfold bt_wf; rewrite (bt_empty_elems (cmp:=compare)); constructor| |]; intros *; by rewrite lookup_empty. Qed.

(** C22: the TOC is exact.  From a new catalog, after any interleaving of submissions and
    background writes, whenever no task is pending on a file, its TOC entry has exactly the
    number of its segments (mod 2^32), the least first block, the greatest last block and
    the union of the bloom hashes of their indexes, however often its tasks raced. *)
Theorem toc_statistics c ts l fid f :
  rtc (cat_step pq_sort) (openCatalog bt_empty ∅, [], []) (c, ts, l) ->
  files c !! fid = Some f -> Forall (fun t => tk_file t <> fid \/ tk_stored t = false) ts ->
  exact_entry (entry_of (tocBTree c) fid) (sf_segments f).
Proof.
  intros Hs Hf Hq. destruct (cat_steps_exact _ _ Hs open_empty_inv open_empty_exact) as [H1 _ _]; cbn [fst snd] in *.
  destruct (H1 fid f Hf) as (I & Wt & Hseg & He & ts2 & Hts & Hd).
  assert (stored_tasks ts fid = []) as Hnil.
  { clear -Hq. induction Hq as [|t ts Ht Hts IH]; [done|]. rewrite stored_tasks_cons, decide_False; [done|].
    intros [H1 H2]. destruct Ht; congruence. }
  rewrite Hnil in Hts. apply Permutation_nil_r in Hts as ->. apply Forall2_nil_inv_r in Hd as ->.
  rewrite app_nil_r in Hseg. by apply (exact_entry_perm _ I).
Qed.
(** ** A process that dies

    The files stay as they are and the tasks of the pool are gone. *)
Definition crashed (c : Catalog T CF) : Catalog T CF := openCatalog (tocBTree c) (files c).

(** The history without the calls of the tasks that are lost. *)
Definition survivors (ts : list task) (l : list entry_args) : list entry_args :=
  filter (fun a => ea_key a ∉ task_keys ts) l.

Lemma crashed_inv c ts : cat_inv c ts -> Forall (fun t => tk_stored t = false) ts -> cat_inv (crashed c) [].
Proof.
  intros [] Hq. split; try done.
  - intros fid f k _ Hk. by apply not_elem_of_nil in Hk.
  - constructor.
  - intros fid f s Hf Hs. destruct (ci_cover fid f s Hf Hs) as [|(t & Ht & Hst & _)]; [by left|].
    rewrite Forall_forall in Hq. specialize (Hq t Ht). congruence.
Qed.

Lemma crashed_log c ts l : cat_inv c ts -> cat_log c ts l -> Forall (fun t => tk_stored t = false) ts ->
  cat_log (crashed c) [] (survivors ts l).
Proof.
  intros [] [] Hq. split.
  - intros a [Hne Ha]%list_elem_of_filter. destruct (cl_recorded a Ha) as [(t & Ht & _ & <-)|Hs]; [|by right].
    exfalso. apply Hne. unfold task_keys. by apply (list_elem_of_fmap_2 (fun t => ea_key (tk_args t))).
  - intros t Ht. by apply not_elem_of_nil in Ht.
  - intros fid f s Hf Hs. destruct (cl_segments fid f s Hf Hs) as (a & Ha & Hw). exists a. split; [|done].
    apply list_elem_of_filter. split; [|done]. intros Hin. apply (ci_fresh fid f (ea_key a) Hf); [|by eapply written_key].
    unfold unstored_keys. replace (filter _ ts) with ts; [done|].
    clear -Hq. induction Hq as [|t ts Ht _ IH]; [done|]. rewrite filter_cons_True by done. by f_equal.
  - eapply sublist_NoDup; [exact cl_keys|]. apply sublist_map, sublist_filter.
  - constructor.
Qed.

(** In general the tasks that had stored their segment are left without their TOC update: a new
    process does not know them, and what they have stored stays. *)
Definition unwritten (ts : list task) : list task := filter (fun t => tk_stored t = false) ts.
Definition half_done (ts : list task) : list task := filter (fun t => tk_stored t = true) ts.

Lemma half_done_stored ts : Forall (fun t => tk_stored t = true) (half_done ts).
Proof. apply Forall_forall. by intros t [Ht _]%list_elem_of_filter. Qed.

Lemma stored_keys ts : Forall (fun t => tk_stored t = true) ts -> unstored_keys ts = [].
Proof. induction 1 as [|t ts Ht _ IH]; [done|]. by rewrite unstored_keys_cons, Ht. Qed.

Lemma unwritten_stored ts : Forall (fun t => tk_stored t = true) ts -> unwritten ts = [] /\ half_done ts = ts.
Proof.
  unfold unwritten, half_done. induction 1 as [|t ts Ht _ [IH1 IH2]]; [done|].
  rewrite filter_cons_False, filter_cons_True by congruence. by rewrite IH1, IH2.
Qed.

Lemma killed_inv c ts : cat_inv c ts -> cat_inv (crashed c) (half_done ts).
Proof.
  intros []. rewrite Forall_forall in ci_tasks. split; try done.
  - apply Forall_forall. intros t [_ Ht]%list_elem_of_filter. by apply ci_tasks.
  - intros fid f k _. rewrite stored_keys by apply half_done_stored. intros Hk. by apply not_elem_of_nil in Hk.
  - rewrite stored_keys by apply half_done_stored. constructor.
  - intros fid f s Hf Hs. destruct (ci_cover fid f s Hf Hs) as [|(t & Ht & Hst & H)]; [by left|right]. exists t.
    split; [|done]. by apply list_elem_of_filter.
Qed.

Lemma killed_log c ts l : cat_inv c ts -> cat_log c ts l -> cat_log (crashed c) (half_done ts) (survivors (unwritten ts) l).
Proof.
  intros [] []. assert (forall t, t ∈ half_done ts -> tk_args t ∈ survivors (unwritten ts) l) as Hin.
  { intros t [Hst Ht]%list_elem_of_filter. apply list_elem_of_filter. split; [|by apply cl_tasks].
    intros (u & Hk & [Hu Hu2]%list_elem_of_filter)%list_elem_of_fmap.
    apply list_elem_of_lookup in Ht as [i Hi], Hu2 as [j Hj]. assert (i = j) as <-; [|congruence].
    apply (NoDup_lookup _ _ _ (ea_key (tk_args t)) cl_distinct); unfold task_keys.
    - exact (eq_trans (list_lookup_fmap _ ts i) (f_equal _ Hi)).
    - rewrite Hk. exact (eq_trans (list_lookup_fmap _ ts j) (f_equal _ Hj)). }
  split.
  - intros a [Hne Ha]%list_elem_of_filter. destruct (cl_recorded a Ha) as [(t & Ht & Hst & <-)|Hs]; [|by right].
    exfalso. apply Hne. apply (list_elem_of_fmap_2 (fun t => ea_key (tk_args t))). by apply list_elem_of_filter.
  - exact Hin.
  - intros fid f s Hf Hs. destruct (cl_segments fid f s Hf Hs) as (a & Ha & Hw). exists a. split; [|done].
    apply list_elem_of_filter. split; [|done]. intros Hk. apply (ci_fresh fid f (ea_key a) Hf Hk). by eapply written_key.
  - eapply sublist_NoDup; [exact cl_keys|]. apply sublist_map, sublist_filter.
  - eapply sublist_NoDup; [exact cl_distinct|]. apply sublist_map, sublist_filter.
Qed.

(** The catalog with its tasks and its history, and the tasks of earlier processes that were
    left between their sections. *)
Definition cat_holds c ts (limbo : list task) l : Prop :=
  Forall (fun t => tk_stored t = true) limbo /\ cat_inv c (ts ++ limbo) /\ cat_log c (ts ++ limbo) l.

(** What the tasks that are left have stored is on disk. *)
Lemma limbo_stored c ts limbo l z : cat_holds c ts limbo l -> z ∈ limbo -> stored c (tk_args z).
Proof.
  intros (Hz & _ & Hl) Hin. assert (z ∈ ts ++ limbo) as Hin2 by (apply elem_of_app; by right).
  destruct (cl_recorded _ _ _ Hl (tk_args z)) as [(t & Ht & Hst & Ha)|]; [by apply (cl_tasks _ _ _ Hl)| |done].
  rewrite Forall_forall in Hz. specialize (Hz z Hin). apply list_elem_of_lookup in Ht as [i Hi], Hin2 as [j Hj].
  assert (i = j) as ->; [|congruence]. apply (NoDup_lookup _ _ _ (ea_key (tk_args z)) (cl_distinct _ _ _ Hl)); unfold task_keys.
  - rewrite <- Ha. exact (eq_trans (list_lookup_fmap _ _ i) (f_equal _ Hi)).
  - exact (eq_trans (list_lookup_fmap _ _ j) (f_equal _ Hj)).
Qed.

(** So a submission is new for them as well. *)
Lemma fresh_limbo c ts limbo l a : cat_holds c ts limbo l -> fresh_call a c ts -> fresh_call a c (ts ++ limbo).
Proof.
  intros Hh [H1 H2]. split; [done|]. rewrite map_app, not_elem_of_app. split; [done|]. intros (z & Hk & Hin)%list_elem_of_fmap.
  destruct (limbo_stored _ _ _ _ _ Hh Hin) as (fid & f & s & Hf & Hw). apply (H1 fid f Hf). rewrite Hk. by eapply written_key.
Qed.

Lemma delete_app_l {A} (l1 l2 : list A) i : (i < length l1)%nat -> delete i (l1 ++ l2) = delete i l1 ++ l2.
Proof. revert i. induction l1 as [|x l1 IH]; intros [|i] Hi; cbn in *; [lia|lia|done|]. rewrite IH by lia. done. Qed.

Lemma task_step_limbo c ts c' ts' limbo : task_step (c, ts) (c', ts') -> task_step (c, ts ++ limbo) (c', ts' ++ limbo).
Proof.
  inversion 1 as [? ? i t t' ? Ht Hst Hr|? ? i t ? Ht Hst Hr]; subst; apply lookup_lt_Some in Ht as Hlt.
  - rewrite <- insert_app_l by done. eapply step_store; [by apply lookup_app_l_Some|done..].
  - rewrite <- delete_app_l by done. eapply step_index; [by apply lookup_app_l_Some|done..].
Qed.

Lemma holds_step x y limbo : cat_step pq_sort x y -> cat_holds x.1.1 x.1.2 limbo x.2 -> cat_holds y.1.1 y.1.2 limbo y.2.
Proof.
  intros Hs Hh. pose proof Hh as (Hz & Hi & Hl). split; [done|].
  destruct Hs as [fuel co now1 now2 errno a c ts l t c' Hf Hn Ha Hfr Hw|
    fuel co now1 now2 errno a c ts l e c' Hf Hn Hw|[c ts] [c' ts'] l Hst|c ts l i t e c' Ht Hst Hr]; cbn [fst snd] in *.
  - apply (fresh_limbo c ts limbo l a Hh) in Hfr. assert (t :: ts ++ limbo ≡ₚ (ts ++ [t]) ++ limbo) as Hp by solve_Permutation.
    split; [eapply cat_inv_perm|eapply cat_log_perm]; try exact Hp.
    + by apply (submit_inv pq_sort pq_sort_law _ _ _ _ _ _ _ (ts ++ limbo) _ _ Hf Hn Hi Hw).
    + by apply (submit_log pq_sort pq_sort_law _ _ _ _ _ _ _ (ts ++ limbo) l _ _ Hf Hn Hi Hl Hw).
  - split; [exact (submit_inv pq_sort pq_sort_law _ _ _ _ _ _ _ (ts ++ limbo) _ _ Hf Hn Hi Hw)|
      exact (submit_log pq_sort pq_sort_law _ _ _ _ _ _ _ (ts ++ limbo) l _ _ Hf Hn Hi Hl Hw)].
  - apply (task_step_limbo _ _ _ _ limbo) in Hst.
    split; [exact (task_step_inv _ _ Hst Hi)|exact (task_step_log _ _ l Hst Hi Hl)].
  - apply lookup_lt_Some in Ht as Hlt. apply (lookup_app_l_Some _ limbo) in Ht.
    pose proof (step_store_fail pq_sort c (ts ++ limbo) l i t e c' Ht Hst Hr) as H. rewrite delete_app_l in H by done.
    split; [exact (cat_step_inv pq_sort pq_sort_law _ _ H Hi)|exact (cat_step_log pq_sort pq_sort_law _ _ H Hi Hl)].
Qed.

Lemma holds_steps x y limbo : rtc (cat_step pq_sort) x y -> cat_holds x.1.1 x.1.2 limbo x.2 -> cat_holds y.1.1 y.1.2 limbo y.2.
Proof. induction 1 as [|x y z Hs _ IH]; [done|]. intros Hh. by eapply IH, holds_step. Qed.

(** The end of the process: the tasks between their sections join those that were left. *)
Lemma holds_killed c ts limbo l : cat_holds c ts limbo l -> cat_holds (crashed c) [] (half_done ts ++ limbo) (survivors (unwritten ts) l).
Proof.
  intros (Hz & Hi & Hl). destruct (unwritten_stored limbo Hz) as [Hu Hh].
  assert (half_done (ts ++ limbo) = half_done ts ++ limbo) as E1 by (unfold half_done at 1; rewrite filter_app; f_equal; exact Hh).
  assert (unwritten (ts ++ limbo) = unwritten ts) as E2 by (unfold unwritten at 1; rewrite filter_app; unfold unwritten in Hu; rewrite Hu; apply app_nil_r).
  split; [apply Forall_app; split; [apply half_done_stored|done]|]. cbn [app]. rewrite <- E1, <- E2.
  split; [by apply killed_inv|by apply killed_log].
Qed.

(** C23: what a crash of the process leaves in the catalog.  Every accepted call is on disk or was
    waiting for its write.  If no task stood between its two sections, the catalog that is
    opened again is consistent and holds exactly the other calls.  A task that did stand there,
    with the first segment of a new file, has written a segment that no range scan finds. *)
Theorem pool_crash c ts l :
  rtc (cat_step pq_sort) (openCatalog bt_empty ∅, [], []) (c, ts, l) ->
  (forall a, a ∈ l -> pending ts a \/ stored (crashed c) a) /\
  (Forall (fun t => tk_stored t = false) ts -> cat_inv (crashed c) [] /\ cat_log (crashed c) [] (survivors ts l)) /\
  (forall t fuel now ix a b, t ∈ ts -> bt_find (tocBTree c) (noEntry (tk_file t)) = None ->
     (length (bt_elems (tocBTree c)) < fuel)%nat ->
     exists ids, rangeScan fuel now (crashed c) ix a b = Ret ids /\ tk_file t ∉ ids).
Proof.
  intros Hs. pose proof (cat_steps_inv pq_sort pq_sort_law _ _ Hs open_empty_inv) as Hi.
  pose proof (cat_steps_log pq_sort pq_sort_law _ _ Hs open_empty_inv (empty_log _)) as Hl. cbn [fst snd] in *.
  split; [apply Hl|]. split.
  - intros Hq. split; [by eapply crashed_inv|by apply crashed_log].
  - intros t fuel now ix a b _ Hnone Hf. eexists. split; [by apply rangeScan_elems; [apply Hi|]|].
    intros Hin. apply list_elem_of_fmap in Hin as (e & Hid & He). apply list_elem_of_filter in He as [_ He].
    rewrite (find_present _ e) in Hnone; [done|apply (ci_toc _ _ Hi)|done|done].
Qed.
End Stats.

(** ** The run of CatalogTasks: two segments submitted *)
#[local] Existing Instance seg_BTree.
#[local] Existing Instance seg_BTreeLaws.
#[local] Existing Instance toc_BTree.
#[local] Existing Instance toc_BTreeLaws.
#[local] Existing Instance file_impl.
#[local] Existing Instance file_laws.

(** The first one written and indexed. *)
Lemma toc_statistics_witness : exists f s, files cat4 !! 1000 = Some f /\ sf_segments f = [s] /\
  segmentCount (entry_of (tocBTree cat4) 1000) = 1 /\ blockRangeMin (entry_of (tocBTree cat4) 1000) = Z.min (blockRangeStart s) U64_MAX.
Proof.
  assert (is_Some (files cat4 !! 1000)) as [f Hf] by by_compute.
  assert (exact_entry (entry_of (tocBTree cat4) 1000) (sf_segments f)) as [Hc Hmin _ _].
  { apply (toc_statistics in_order (fun _ => reflexivity _) cat4 [task2] [entry2; entry1] 1000 f cat_run4 Hf). by_compute. }
  assert (option_map (fun f => length (sf_segments f)) (files cat4 !! 1000) = Some 1%nat) as Hlen by by_compute.
  rewrite Hf in Hlen. change (Some (length (sf_segments f)) = Some 1%nat) in Hlen. apply (inj Some) in Hlen. exists f.
  destruct (sf_segments f) as [|s segs]; [discriminate Hlen|]. destruct segs; [|discriminate Hlen]. exists s. split; [done|]. split; [done|].
  split; [exact Hc|exact Hmin].
Defined.

(** The process dies with the first one written but not indexed, and the second one waiting:
    the first is in its file and no scan finds it. *)
Lemma pool_crash_witness : stored (crashed cat3) entry1 /\
  exists ids, rangeScan 9 2000 (crashed cat3) 0 0 100 = Ret ids /\ 1000 ∉ ids.
Proof.
  destruct (pool_crash in_order (fun _ => reflexivity _) cat3 [task1'; task2] [entry2; entry1] cat_run3) as (H1 & _ & H3). split.
  - destruct (H1 entry1) as [(t & Ht & Hst & Ha)|]; [right; left| |done].
    apply elem_of_cons in Ht as [->|Ht]; [discriminate Hst|]. apply list_elem_of_singleton in Ht as ->. discriminate Ha.
  - apply (H3 task1' 9%nat 2000 0 0 100); [left|by_compute|by_compute].
Defined.
