(* ===== verification/CatalogCache.v ===== *)
(** * CatalogCache

    The catalog over its cache of open files, as src/src/storage/Catalog.cpp has it: every
    file is reached through [catalogCache], the tasks hold accessors, and the set of files
    being written is a set of accessors.  Catalog.v identifies a file by its id instead; the
    simulation here shows that it may, since the cache never gives up an accessor that a
    task holds. *)

From Stdlib Require Import Ascii.
From S2P Require Import Prelude Excessive Memory FileCache CatalogFile Catalog CatalogTasks CatalogContents.

(** ** Names *)

Lemma idToFilename_inj a b : idToFilename a = idToFilename b -> a = b.
Proof. unfold idToFilename. intros H%string_app_inj_l. by apply (inj pretty) in H. Qed.

Lemma idToFilename_relative id : String.get 0 (idToFilename id) <> Some "/"%char.
Proof. by apply pretty_relative. Qed.

Lemma Forall2_elem_impl {A B} (P Q : A -> B -> Prop) l k : Forall2 P l k -> (forall x y, x ∈ l -> P x y -> Q x y) -> Forall2 Q l k.
Proof. induction 1 as [|x y l k Hxy Hl IH]; intros H; constructor; [apply H; [left|done]|apply IH; intros; apply H; [by right|done]]. Qed.

Section CatalogCache.
Context {T CF Fd : Type} `{!BTree catalog_contents_entry_t T, !SegmentFile CF}.
Context (pq_sort : list (Z * Z) -> list Z).

(** The handles and the hash map, as in FileCache.v; the clock at the [n]-th call of [open],
    and the pointers to an accessor that readers have then. *)
Context (valid : Fd -> bool).
Context (slots : gmap string (open_path_t (A:=nat) (H:=Fd)) -> list (string * open_path_t (A:=nat) (H:=Fd)))
  (capacity_after : gmap string (open_path_t (A:=nat) (H:=Fd)) -> Z -> Z).
Context (clock : nat -> Z) (readers : nat -> nat -> Z).

(** An accessor is known by the number of the call that made it.  [cc_objects] gives the full
    path of its file, and [cc_files] the files of the directory by full path. *)
Record CachedCatalog := {
  cc_toc : T;
  cc_lastFileId : Z;
  cc_cache : CustomizableFileCache nat Fd;
  cc_calls : nat;
  cc_objects : gmap nat string;
  cc_files : gmap string CF;
  cc_beingWritten : gset nat;
}.

(** The constructor, on the TOC stored in [toc.bin] and the files of the directory. *)
Definition cc_openCatalog (catalogDir : string) (toc : T) (fs : gmap string CF) : CachedCatalog :=
  {| cc_toc := toc; cc_lastFileId := 0; cc_cache := newCache catalogDir 32; cc_calls := 0; cc_objects := ∅; cc_files := fs; cc_beingWritten := ∅ |}.

Definition cc_set_toc (t : T) (s : CachedCatalog) : CachedCatalog :=
  {| cc_toc := t; cc_lastFileId := cc_lastFileId s; cc_cache := cc_cache s; cc_calls := cc_calls s; cc_objects := cc_objects s;
     cc_files := cc_files s; cc_beingWritten := cc_beingWritten s |}.
Definition cc_set_lastFileId (id : Z) (s : CachedCatalog) : CachedCatalog :=
  {| cc_toc := cc_toc s; cc_lastFileId := id; cc_cache := cc_cache s; cc_calls := cc_calls s; cc_objects := cc_objects s;
     cc_files := cc_files s; cc_beingWritten := cc_beingWritten s |}.
Definition cc_set_file (full : string) (f : CF) (s : CachedCatalog) : CachedCatalog :=
  {| cc_toc := cc_toc s; cc_lastFileId := cc_lastFileId s; cc_cache := cc_cache s; cc_calls := cc_calls s; cc_objects := cc_objects s;
     cc_files := <[full := f]> (cc_files s); cc_beingWritten := cc_beingWritten s |}.
Definition cc_set_beingWritten (w : gset nat) (s : CachedCatalog) : CachedCatalog :=
  {| cc_toc := cc_toc s; cc_lastFileId := cc_lastFileId s; cc_cache := cc_cache s; cc_calls := cc_calls s; cc_objects := cc_objects s;
     cc_files := cc_files s; cc_beingWritten := w |}.

(** After a call of [open] that made no accessor. *)
Definition cc_set_cache (c : CustomizableFileCache nat Fd) (s : CachedCatalog) : CachedCatalog :=
  {| cc_toc := cc_toc s; cc_lastFileId := cc_lastFileId s; cc_cache := c; cc_calls := S (cc_calls s); cc_objects := cc_objects s;
     cc_files := cc_files s; cc_beingWritten := cc_beingWritten s |}.

(** [buildCatalogFile]: the accessor of the file [full], which is empty when it did not exist. *)
Definition buildCatalogFile (full : string) (c : CustomizableFileCache nat Fd) (s : CachedCatalog) : CachedCatalog :=
  {| cc_toc := cc_toc s; cc_lastFileId := cc_lastFileId s; cc_cache := c; cc_calls := S (cc_calls s);
     cc_objects := <[cc_calls s := full]> (cc_objects s); cc_files := <[full := default sf_new (cc_files s !! full)]> (cc_files s);
     cc_beingWritten := cc_beingWritten s |}.

(** What a call meets: [os] is what the operating system answers for a file it finds, or
    may create; [held] are the accessors of the tasks, each a pointer besides the cache's own. *)
Definition cc_call (os : string -> option Fd) (create : bool) (held : list nat) (s : CachedCatalog) : call_env (A:=nat) (H:=Fd) := {|
  now := clock (cc_calls s);
  refs := fun a => 1 + Z.of_nat (length (filter (fun b => b = a) held)) + readers (cc_calls s) a;
  os_open := fun full => if create || bool_decide (is_Some (cc_files s !! full)) then os full else None;
  builder := fun _ => cc_calls s;
|}.

(** [catalogCache.open]; [buildCatalogFile] has run when the accessor is the one of this call. *)
Definition cc_open (os : string -> option Fd) (create : bool) (held : list nat) (path : string) : prog CachedCatalog (option nat) :=
  fun s =>
    let '(r, c) := open valid (fun _ => false) slots capacity_after (cc_call os create held s) path (cc_cache s) in
    match r with
    | Ret (Some a) => (r, if decide (a = cc_calls s) then buildCatalogFile (fullPath (cc_cache s) path) c s else cc_set_cache c s)
    | _ => (r, cc_set_cache c s)
    end.

Definition cc_getCatalogFile (os : string -> option Fd) (held : list nat) (fileId : Z) : prog CachedCatalog (option nat) :=
  cc_open os false held (idToFilename fileId).

(** The file of an accessor. *)
Definition cc_file (s : CachedCatalog) (a : nat) : option (string * CF) :=
  full ← cc_objects s !! a; f ← cc_files s !! full; Some (full, f).

(** *** [selectFileFor] *)
Fixpoint cc_choose (os : string -> option Fd) (held : list nat) (candidates : list Z) : prog CachedCatalog (option (nat * catalog_contents_entry_t)) :=
  match candidates with
  | [] => mret None
  | id :: candidates =>
      file ← cc_open os false held (idToFilename id);
      s ← getS;
      match bt_find (cc_toc s) (TocEntry id 0 0 0 0 0) with
      | None => throw SEVERE_BUG
      | Some key =>
          match file with
          | Some a => if negb (bool_decide (a ∈ cc_beingWritten s)) then mret (Some (a, key)) else cc_choose os held candidates
          | None => cc_choose os held candidates
          end
      end
  end.

Definition cc_selectFileFor (fuel : nat) (os : string -> option Fd) (held : list nat) (now1 now2 : Z) (indexId startBlock endBlock size : Z) :
    prog CachedCatalog (option nat * catalog_contents_entry_t) :=
  s ← getS;
  candidates ← liftO (collect_loop fuel (cc_toc s) indexId startBlock endBlock size (TocEntry now1 0 0 0 0 0) []);
  choice ← cc_choose os held (pq_sort candidates);
  match choice with
  | Some (a, key) => mret (Some a, key)
  | None =>
      s ← getS;
      let newId := if now2 <=? cc_lastFileId s then u64 (now2 + 1) else now2 in
      putS (cc_set_lastFileId newId s);;
      file ← cc_open os true held (idToFilename newId);
      mret (file, TocEntry newId U64_MAX 0 0 0 0)
  end.

(** *** [writeSegment] and its task *)
Record cc_task := {
  ct_args : entry_args;
  ct_file : nat;          (* the accessor the lambda has captured *)
  ct_key : catalog_contents_entry_t;
  ct_stored : bool;
}.

Definition cc_writeSegment (fuel : nat) (os : string -> option Fd) (held : list nat) (now1 now2 : Z) (errno : string) (a : entry_args) :
    prog CachedCatalog cc_task :=
  sel ← cc_selectFileFor fuel os held now1 now2 (ea_indexId a) (ea_startBlock a) (ea_endBlock a)
          (u32 (Z.of_nat (length (ea_content a))));
  match sel with
  | (None, _) => throw (runtime_error ("Unable to find a catalog file to write a segment too.  Errno: " +:+ errno))
  | (Some file, key) =>
      modifyS (fun s => cc_set_beingWritten ({[file]} ∪ cc_beingWritten s) s);;
      mret {| ct_args := a; ct_file := file; ct_key := key; ct_stored := false |}
  end.

Definition cc_task_store (t : cc_task) : prog CachedCatalog cc_task :=
  s ← getS;
  pf ← liftO (deref NullDeref (cc_file s (ct_file t)));
  let '(r, f) := sf_createEntry (ct_args t) pf.2 in
  let s := cc_set_file pf.1 f s in
  match r with
  | Throw e => putS (cc_set_beingWritten (cc_beingWritten s ∖ {[ct_file t]}) s);; throw e
  | _ => putS s;; liftO r;; mret {| ct_args := ct_args t; ct_file := ct_file t; ct_key := ct_key t; ct_stored := true |}
  end.

Definition cc_task_index (t : cc_task) : prog CachedCatalog unit :=
  s ← getS;
  pf ← liftO (deref NullDeref (cc_file s (ct_file t)));
  let key := default (ct_key t) (bt_find (cc_toc s) (ct_key t)) in
  let key := updatedEntry key (sf_getTotalBytes pf.2) (ct_args t) in
  let s := cc_set_toc (bt_overwrite (cc_toc s) key) s in
  putS (cc_set_beingWritten (cc_beingWritten s ∖ {[ct_file t]}) s).

(** ** The correspondence with the catalog by ids *)

Abbreviation Catalog := (Catalog T CF).
Implicit Types (s : CachedCatalog) (c : Catalog) (ats : list task) (ts : list cc_task).

Definition fullOf s (id : Z) : string := fullPath (cc_cache s) (idToFilename id).
Abbreviation cc_cached s a id := (cached valid (cc_cache s) (fullOf s id) a).

Lemma fullOf_eq s id : fullOf s id = root (cc_cache s) +:+ idToFilename id.
Proof.
  unfold fullOf, fullPath. pose proof (idToFilename_relative id) as Hn. destruct (String.get 0 (idToFilename id)); [|done].
  rewrite bool_decide_eq_false_2; [done|congruence].
Qed.

Lemma fullOf_inj s a b : fullOf s a = fullOf s b -> a = b.
Proof. rewrite !fullOf_eq. intros H%(inj (String.append _)). by apply idToFilename_inj. Qed.

Lemma fullOf_root s s' id : root (cc_cache s') = root (cc_cache s) -> fullOf s' id = fullOf s id.
Proof. rewrite !fullOf_eq. by intros ->. Qed.

(** A cached entry is an accessor of its own path, made by an earlier call, and its file is there. *)
Definition cc_cache_ok s : Prop := forall f p, openPaths (cc_cache s) !! f = Some p ->
  (accessor p < cc_calls s)%nat /\ cc_objects s !! accessor p = Some f /\ is_Some (cc_files s !! f).

Definition task_rep s (t : cc_task) (at' : task) : Prop :=
  ct_args t = tk_args at' /\ ct_key t = tk_key at' /\ ct_stored t = tk_stored at' /\ cc_cached s (ct_file t) (tk_file at').

(** The same TOC and files; the tasks hold accessors of their files, all of them cached; a file
    is being written when its accessor is. *)
Record cc_rep s ts c ats : Prop := {
  rep_toc : cc_toc s = tocBTree c;
  rep_last : cc_lastFileId s = lastFileId c;
  rep_files id : files c !! id = cc_files s !! fullOf s id;
  rep_cache : cc_cache_ok s;
  rep_tasks : Forall2 (task_rep s) ts ats;
  rep_marked a : a ∈ cc_beingWritten s -> a ∈ map ct_file ts;
  rep_being id : id ∈ filesBeingWritten c <-> exists a, a ∈ cc_beingWritten s /\ cc_cached s a id;
}.

Lemma cached_file s a id : cc_cache_ok s -> cc_cached s a id -> exists f, cc_file s a = Some (fullOf s id, f) /\ cc_files s !! fullOf s id = Some f.
Proof.
  intros Hok (p & Hp & _ & <-). destruct (Hok _ _ Hp) as (_ & Ho & [f Hf]). exists f. split; [|done].
  unfold cc_file. rewrite Ho. cbn. by rewrite Hf.
Qed.

Lemma cached_unique s a id id' : cc_cache_ok s -> cc_cached s a id -> cc_cached s a id' -> id = id'.
Proof.
  intros Hok (p & Hp & _ & <-) (p' & Hp' & _ & He). destruct (Hok _ _ Hp) as (_ & Ho & _). destruct (Hok _ _ Hp') as (_ & Ho' & _).
  apply (fullOf_inj s). congruence.
Qed.

Lemma cached_same s a b id : cc_cached s a id -> cc_cached s b id -> a = b.
Proof. intros (p & Hp & _ & <-) (q & Hq & _ & <-). congruence. Qed.

(** The file [id] exists after a successful [open]. *)
Definition created (r : option nat) (id : Z) c : Catalog :=
  match r with Some _ => set_files c (<[id := default sf_new (files c !! id)]> (files c)) | None => c end.

Lemma created_existing r id c : is_Some (files c !! id) -> created r id c = c.
Proof. intros [f Hf]. destruct r; [|done]. unfold created. rewrite Hf. cbn. rewrite insert_id by done. by destruct c. Qed.

(** The operating system gives a valid handle for the path. *)
Definition os_opens (os : string -> option Fd) (full : string) : bool := match os full with Some h => valid h | None => false end.

Lemma os_opens_handle os full : os_opens os full = true <-> exists h, os full = Some h /\ valid h = true.
Proof. unfold os_opens. destruct (os full) as [h|]; [|split; [done|by intros (h & ? & _)]]. split; [by exists h|by intros (h' & [= <-] & ?)]. Qed.

Hypothesis slots_law : forall m, slots m ≡ₚ map_to_list m.
(** Nobody holds fewer pointers than none. *)
Hypothesis readers_law : forall n a, 0 <= readers n a.

(** The accessor of a task is cached under the path of its file. *)
Lemma held_cached s ts c ats a : cc_rep s ts c ats -> a ∈ map ct_file ts -> exists id, cc_cached s a id.
Proof.
  intros Hr (t & -> & Ht)%list_elem_of_fmap. apply list_elem_of_lookup in Ht as [i Hi].
  destruct (Forall2_lookup_l _ _ _ _ _ (rep_tasks _ _ _ _ Hr) Hi) as (at' & _ & _ & _ & _ & Hc). eauto.
Qed.

(** A change of the cache that keeps the accessors of the tasks. *)
Lemma rep_recache s s' ts c c' ats : cc_rep s ts c ats ->
  cc_toc s' = cc_toc s -> cc_lastFileId s' = cc_lastFileId s -> cc_beingWritten s' = cc_beingWritten s ->
  root (cc_cache s') = root (cc_cache s) -> cc_cache_ok s' ->
  (forall f a, a ∈ map ct_file ts -> cached valid (cc_cache s) f a -> cached valid (cc_cache s') f a) ->
  tocBTree c' = tocBTree c -> lastFileId c' = lastFileId c -> filesBeingWritten c' = filesBeingWritten c ->
  (forall id, files c' !! id = cc_files s' !! fullOf s id) -> cc_rep s' ts c' ats.
Proof.
  intros Hr E1 E2 E3 Hroot Hok Hkeep C1 C2 C3 Hfiles.
  assert (forall a id, a ∈ map ct_file ts -> cc_cached s a id -> cc_cached s' a id) as Hkeep'.
  { intros a id Ha Hc. rewrite (fullOf_root s s') by done. by apply Hkeep. }
  split.
  - rewrite E1, C1. apply Hr.
  - rewrite E2, C2. apply Hr.
  - intros id. rewrite (fullOf_root s s') by done. apply Hfiles.
  - done.
  - eapply Forall2_elem_impl; [apply (rep_tasks _ _ _ _ Hr)|]. intros t at' Ht (H1 & H2 & H3 & H4).
    split; [done|]. split; [done|]. split; [done|]. apply Hkeep'; [by apply list_elem_of_fmap_2|done].
  - intros a. rewrite E3. apply Hr.
  - intros id. rewrite C3, (rep_being _ _ _ _ Hr), E3. split; intros (a & Ha & Hc); exists a; (split; [done|]).
    + apply Hkeep'; [by apply (rep_marked _ _ _ _ Hr)|done].
    + pose proof (rep_marked _ _ _ _ Hr a Ha) as Hm. destruct (held_cached _ _ _ _ _ Hr Hm) as [id' Hid'].
      by rewrite (cached_unique s' a id id' Hok Hc (Hkeep' _ _ Hm Hid')).
Qed.

Lemma refs_held os create s (held : list nat) a : a ∈ held -> 1 < refs (cc_call os create held s) a.
Proof.
  intros Ha. cbn. pose proof (readers_law (cc_calls s) a). assert (a ∈ filter (fun b => b = a) held) as Hf by by apply list_elem_of_filter.
  destruct (filter (fun b => b = a) held); [by apply not_elem_of_nil in Hf|]. cbn [length]. lia.
Qed.

(** An [open] that found its file in the cache, or none. *)
Lemma rep_set_cache s ts c ats cache' : cc_rep s ts c ats -> root cache' = root (cc_cache s) ->
  (forall f p, openPaths cache' !! f = Some p -> exists q, openPaths (cc_cache s) !! f = Some q /\ accessor p = accessor q) ->
  (forall f a, a ∈ map ct_file ts -> cached valid (cc_cache s) f a -> cached valid cache' f a) ->
  cc_rep (cc_set_cache cache' s) ts c ats.
Proof.
  intros Hr Hroot Hent Hheld. eapply (rep_recache s); [done..| |done|done|done|done|apply Hr].
  intros f p Hp. destruct (Hent f p Hp) as (q & Hq & ->).
  destruct (rep_cache _ _ _ _ Hr f q Hq) as (Hlt & Hobj & Hf). cbn. split; [lia|done].
Qed.

(** An [open] that made an accessor. *)
Lemma rep_build s ts c ats cache' id : cc_rep s ts c ats -> root cache' = root (cc_cache s) ->
  (forall f p, openPaths cache' !! f = Some p -> (exists q, openPaths (cc_cache s) !! f = Some q /\ accessor p = accessor q) \/
    (f = fullOf s id /\ accessor p = cc_calls s)) ->
  (forall f a, a ∈ map ct_file ts -> cached valid (cc_cache s) f a -> cached valid cache' f a) ->
  cc_rep (buildCatalogFile (fullOf s id) cache' s) ts (created (Some (cc_calls s)) id c) ats.
Proof.
  intros Hr Hroot Hent Hheld. eapply (rep_recache s); [done..| |done|done|done|done|].
  - intros f p Hp. cbn in Hp |- *. destruct (Hent f p Hp) as [(q & Hq & ->)|(-> & ->)].
    + destruct (rep_cache _ _ _ _ Hr f q Hq) as (Hlt & Hobj & Hf). split; [lia|]. rewrite lookup_insert_ne by lia. split; [done|].
      apply lookup_insert_is_Some. destruct (decide (fullOf s id = f)); auto.
    + rewrite !lookup_insert_eq. split; [lia|done].
  - intros id'. cbn. rewrite (rep_files _ _ _ _ Hr). destruct (decide (id' = id)) as [->|Hn]; [by rewrite !lookup_insert_eq|].
    rewrite !lookup_insert_ne by (done || (intros E; by apply Hn, (fullOf_inj s))). apply Hr.
Qed.

(** [catalogCache.open] on a file of the catalog. *)
Lemma cc_open_rep os create id s ts c ats r s' : cc_rep s ts c ats ->
  cc_open os create (map ct_file ts) (idToFilename id) s = (r, s') ->
  exists o, r = Ret o /\ cc_rep s' ts (created o id c) ats /\ root (cc_cache s') = root (cc_cache s) /\
    cc_beingWritten s' = cc_beingWritten s /\
    (forall f, is_Some (openPaths (cc_cache s') !! f) -> is_Some (openPaths (cc_cache s) !! f) \/ (f = fullOf s id /\ is_Some o)) /\
    (forall a, cc_cached s a id -> o = Some a) /\
    match o with
    | Some a => cc_cached s' a id /\ (create = true \/ is_Some (files c !! id)) /\
        (is_Some (openPaths (cc_cache s) !! fullOf s id) \/ os_opens os (fullOf s id) = true)
    | None => openPaths (cc_cache s') !! fullOf s id = None /\ (os_opens os (fullOf s id) = true -> create = false /\ files c !! id = None)
    end.
Proof.
  intros Hr. pose proof (rep_cache _ _ _ _ Hr) as Hok. unfold cc_open.
  destruct (open _ _ _ _ _ _ _) as [r0 cache'] eqn:Ho.
  destruct (open_result valid _ slots capacity_after _ _ _ _ _ (fun _ => eq_refl) Ho) as (o & -> & Hres).
  destruct (open_spec valid _ slots capacity_after slots_law _ _ _ _ _ Ho) as (Hroot & Hkeep & Hnew & Hhit).
  pose proof (open_entries valid _ slots capacity_after _ _ _ _ _ Ho) as Hent.
  change (fullPath (cc_cache s) (idToFilename id)) with (fullOf s id) in *.
  assert (forall f a, a ∈ map ct_file ts -> cached valid (cc_cache s) f a -> cached valid cache' f a) as Hheld.
  { intros f a Ha Hc. apply Hkeep; [done|by apply refs_held]. }
  assert (forall f, is_Some (openPaths cache' !! f) -> is_Some (openPaths (cc_cache s) !! f) \/ (f = fullOf s id /\ is_Some o)) as Hpaths.
  { intros f [p Hp]. destruct (Hent f p Hp) as [(q & Hq & _)|(-> & h & _ & [= ->])]; [left|right]; eauto. }
  assert (forall a, cc_cached s a id -> o = Some a) as Hcached by (intros a Ha; specialize (Hhit a Ha); congruence).
  assert (forall s2, cc_cache s2 = cache' -> fullOf s2 id = fullOf s id) as Hfull by (intros s2 E; apply fullOf_root; by rewrite E).
  intros Hs. exists o. pose proof (rep_files _ _ _ _ Hr id) as Hfile.
  destruct (decide (o = Some (cc_calls s))) as [->|Hne].
  - rewrite decide_True in Hs by done. injection Hs as <- <-. split; [done|].
    destruct Hres as [(p & Hp & _ & Hacc)|(h & Hos & Hv & _)]; [destruct (Hok _ _ Hp); lia|]. cbn in Hos.
    split; [|split; [done|split; [done|split; [done|split; [done|]]]]].
    + apply rep_build; [done|done| |done]. intros f p Hp. destruct (Hent f p Hp) as [|(-> & h' & -> & _)]; [by left|by right].
    + rewrite (Hfull (buildCatalogFile _ _ _)) by done. split; [by apply Hnew|]. split.
      * destruct create; [by left|right]. destruct (bool_decide _) eqn:Hb; [|done]. rewrite Hfile. by apply bool_decide_eq_true in Hb.
      * right. apply os_opens_handle. exists h. by destruct (_ || _).
  - assert (s' = cc_set_cache cache' s /\ r = Ret o) as [-> ->].
    { destruct o as [a|]; [rewrite decide_False in Hs by congruence|]; by injection Hs as <- <-. }
    assert (forall a, o = Some a -> is_Some (openPaths (cc_cache s) !! fullOf s id) /\ is_Some (files c !! id)) as Hhave.
    { intros a ->. destruct Hres as [(p & Hp & _)|(h & _ & _ & Ha)]; [|by destruct Hne; rewrite Ha].
      rewrite Hfile. split; [by exists p|]. by destruct (Hok _ _ Hp) as (_ & _ & ?). }
    assert (created o id c = c) as -> by (destruct o as [a|]; [apply created_existing; by eapply Hhave|done]).
    split; [done|]. split; [|split; [done|split; [done|split; [done|split; [done|]]]]].
    + apply rep_set_cache; [done|done| |done]. intros f p Hp. destruct (Hent f p Hp) as [|(_ & h & _ & [= He])]; [done|by rewrite He in Hne].
    + destruct o as [a|].
      * rewrite Hfull by done. split; [by apply Hnew|]. destruct (Hhave a eq_refl). split; [by right|by left].
      * destruct Hres as [H1 H2]. split; [done|]. intros (h & Hh & Hv)%os_opens_handle. cbn in H2. rewrite Hfile.
        destruct create; [specialize (H2 h Hh); congruence|]. split; [done|]. cbn in H2. destruct (bool_decide _) eqn:Hb; [specialize (H2 h Hh); congruence|].
        apply bool_decide_eq_false in Hb. by apply eq_None_not_Some.
Qed.

(** A candidate that is passed over. *)
Lemma choose_skip canOpen c id ids : is_Some (bt_find (tocBTree c) (TocEntry id 0 0 0 0 0)) ->
  (id ∈ filesBeingWritten c) \/ files c !! id = None \/ canOpen id = false ->
  choose_loop canOpen c (id :: ids) = choose_loop canOpen c ids.
Proof.
  intros [key Hkey] H. cbn [choose_loop]. rewrite Hkey. destruct H as [H|[->| ->]]; [|done|by rewrite andb_false_r].
  by rewrite (bool_decide_eq_true_2 (id ∈ _)), andb_false_r by done.
Qed.

(** One candidate: it is taken, or passed over because it is being written, has no file, or does
    not open. *)
Lemma cc_candidate os id s ts c ats : cc_rep s ts c ats ->
  exists o s1, cc_open os false (map ct_file ts) (idToFilename id) s = (Ret o, s1) /\ cc_rep s1 ts c ats /\
    root (cc_cache s1) = root (cc_cache s) /\
    ((exists a, o = Some a /\ (a ∉ cc_beingWritten s1) /\ cc_cached s1 a id /\ is_Some (files c !! id) /\ (id ∉ filesBeingWritten c) /\
        (is_Some (openPaths (cc_cache s) !! fullOf s id) \/ os_opens os (fullOf s id) = true)) \/
     ((forall a, o = Some a -> a ∈ cc_beingWritten s1) /\
      ((id ∈ filesBeingWritten c) \/
        openPaths (cc_cache s1) !! fullOf s id = None /\ (os_opens os (fullOf s id) = true -> files c !! id = None)) /\
      (forall f, is_Some (openPaths (cc_cache s1) !! f) ->
        is_Some (openPaths (cc_cache s) !! f) \/ exists id', f = fullOf s id' /\ id' ∈ filesBeingWritten c))).
Proof.
  intros Hr. destruct (cc_open os false (map ct_file ts) (idToFilename id) s) as [r s1] eqn:Ho.
  destruct (cc_open_rep _ _ _ _ _ _ _ _ _ Hr Ho) as (o & -> & Hr1 & Hroot & _ & Hpaths & _ & Hres). exists o, s1. split; [done|].
  assert (created o id c = c) as Hc.
  { destruct o as [a|]; [|done]. destruct Hres as (_ & [|Hf] & _); [done|]. by apply created_existing. }
  rewrite Hc in Hr1. split; [done|]. split; [done|]. destruct o as [a|].
  - destruct Hres as (Hca & [|Hf] & Hex); [done|]. destruct (decide (a ∈ cc_beingWritten s1)) as [Ha|Ha].
    + right. assert (id ∈ filesBeingWritten c) as Hb by (apply (rep_being _ _ _ _ Hr1); by exists a).
      split; [by intros ? [= <-]|]. split; [by left|]. intros f Hf1. destruct (Hpaths f Hf1) as [|[-> _]]; [by left|right; eauto].
    + left. exists a. do 4 (split; [done|]). split; [|done].
      rewrite (rep_being _ _ _ _ Hr1). intros (b & Hb & Hcb). by rewrite (cached_same s1 b a id Hcb Hca) in Hb.
  - right. destruct Hres as [H1 H2]. split; [done|]. split; [right; split; [done|]; intros Hop; by destruct (H2 Hop)|].
    intros f Hf1. destruct (Hpaths f Hf1) as [|[_ Hn]]; [by left|by destruct Hn].
Qed.

(** The loop over the candidates.  A candidate that opens is taken unless it is being written;
    a candidate that was passed over is being written, has no file, or does not open. *)
Lemma cc_choose_rep os ids s ts c ats : cc_rep s ts c ats ->
  (forall id, id ∈ ids -> is_Some (bt_find (tocBTree c) (TocEntry id 0 0 0 0 0))) ->
  exists r s', cc_choose os (map ct_file ts) ids s = (Ret r, s') /\ cc_rep s' ts c ats /\ root (cc_cache s') = root (cc_cache s) /\
    match r with
    | Some (a, key) => exists id, cc_cached s' a id /\ is_Some (files c !! id) /\ (id ∉ filesBeingWritten c) /\
        (is_Some (openPaths (cc_cache s) !! fullOf s id) \/ os_opens os (fullOf s id) = true) /\
        forall canOpen : Z -> bool, canOpen id = true -> (forall id', canOpen id' = true -> id' = id \/ os_opens os (fullOf s id') = true) ->
          choose_loop canOpen c ids = Ret (Some (id, key))
    | None =>
        (forall f, is_Some (openPaths (cc_cache s') !! f) -> is_Some (openPaths (cc_cache s) !! f) \/ exists id, f = fullOf s id /\ id ∈ filesBeingWritten c) /\
        forall canOpen : Z -> bool, (forall id, canOpen id = true -> is_Some (openPaths (cc_cache s') !! fullOf s id) \/ os_opens os (fullOf s id) = true) ->
          choose_loop canOpen c ids = Ret None
    end.
Proof.
  revert s. induction ids as [|id ids IH]; intros s Hr Hfind.
  { exists None, s. split; [done|]. split; [done|]. split; [done|]. split; [by left|done]. }
  destruct (Hfind id) as [key Hkey]; [left|]. cbn [cc_choose]. unfold mbind, prog_bind at 1.
  destruct (cc_candidate os id s ts c ats Hr) as (o & s1 & -> & Hr1 & Hroot & Hcase).
  unfold getS at 1, prog_bind at 1. rewrite (rep_toc _ _ _ _ Hr1), Hkey.
  destruct Hcase as [(a & -> & Ha & Hca & Hf & Hnb & Hex)|(Hskip & Hp & Hpaths1)].
  { rewrite (bool_decide_eq_false_2 (a ∈ _)) by done. cbn [negb]. exists (Some (a, key)), s1. split; [done|]. split; [done|]. split; [done|]. exists id.
    do 4 (split; [done|]). intros canOpen Hcan _. cbn [choose_loop]. by rewrite Hkey, bool_decide_eq_true_2, Hcan, bool_decide_eq_false_2 by done. }
  assert (forall id', fullOf s1 id' = fullOf s id') as Hfull by (intros id'; by apply fullOf_root).
  destruct (IH s1 Hr1) as (r & s2 & Hrun & Hr2 & Hroot2 & Hr2s); [intros id' Hin; apply Hfind; by right|].
  exists r, s2. split; [destruct o as [a|]; [rewrite bool_decide_eq_true_2 by (by apply Hskip)|]; exact Hrun|].
  split; [done|]. split; [congruence|].
  destruct r as [[a k]|].
  - destruct Hr2s as (idc & H1 & H2 & H3 & H4 & H5). rewrite Hfull in H4. exists idc. split; [done|]. split; [done|]. split; [done|]. split.
    { destruct H4 as [H4|]; [|by right]. destruct (Hpaths1 _ H4) as [|(id' & E & Hid')]; [by left|]. apply fullOf_inj in E as <-. done. }
    intros canOpen Hcan Hco. rewrite <- (H5 canOpen Hcan) by (intros id'; rewrite Hfull; apply Hco). apply (choose_skip canOpen c id ids); [eauto|].
    destruct Hp as [Hin|(Hun & Hno)]; [by left|right]. destruct (canOpen id) eqn:Hci; [left|by right].
    destruct (Hco id Hci) as [->|Hop]; [|by apply Hno]. destruct H4 as [[? H4]|Hop]; [congruence|by apply Hno].
  - destruct Hr2s as [H1 H2]. setoid_rewrite Hfull in H1. split.
    { intros f Hf. destruct (H1 f Hf) as [Hf1|]; [by apply Hpaths1|by right]. }
    intros canOpen Hco. rewrite <- (H2 canOpen) by (intros id'; rewrite Hfull; apply Hco).
    apply (choose_skip canOpen c id ids); [eauto|].
    destruct Hp as [Hin|(Hun & Hno)]; [by left|]. destruct (canOpen id) eqn:Hci; [|by right; right].
    destruct (Hco id Hci) as [Hin|Hop]; [|by right; left; apply Hno]. left.
    destruct (H1 _ Hin) as [[? H]|(id' & E & Hid')]; [congruence|]. by apply fullOf_inj in E as ->.
Qed.

Context `{!BTreeLaws Catalog.compare} (pq_sort_law : forall l, pq_sort l ≡ₚ map fst l).

Lemma rep_lastFileId s ts c ats id : cc_rep s ts c ats -> cc_rep (cc_set_lastFileId id s) ts (set_lastFileId c id) ats.
Proof. by intros []. Qed.

(** [selectFileFor] through the cache is [selectFileFor] by ids, on an operating system that
    opens what is cached as well. *)
Lemma cc_select_rep fuel os now1 now2 ix a b size s ts c ats :
  cc_rep s ts c ats -> toc_ok (tocBTree c) -> (length (bt_elems (tocBTree c)) < fuel)%nat ->
  exists canOpen r key s' r' c', cc_selectFileFor fuel os (map ct_file ts) now1 now2 ix a b size s = (Ret (r, key), s') /\
    selectFileFor pq_sort fuel canOpen now1 now2 ix a b size c = (Ret (r', key), c') /\ cc_rep s' ts c' ats /\
    (forall id, os_opens os (fullOf s id) = true -> canOpen id = true) /\
    match r, r' with Some x, Some id => cc_cached s' x id | None, None => True | _, _ => False end.
Proof.
  intros Hr Htoc Hfuel. unfold cc_selectFileFor, selectFileFor. unfold mbind, prog_bind, getS, putS, liftO.
  rewrite (rep_toc _ _ _ _ Hr). destruct (select_collect_spec fuel (tocBTree c) ix a b size (TocEntry now1 0 0 0 0 0) [] Htoc Hfuel) as (l & -> & _ & Hl).
  destruct (cc_choose_rep os (pq_sort l) s ts c ats Hr) as (r & s1 & -> & Hr1 & Hroot & Hres).
  { intros id Hid. rewrite pq_sort_law in Hid. destruct (Hl id Hid) as [Hin|(e & He & Hid' & _)]; [by apply not_elem_of_nil in Hin|].
    rewrite (find_present _ e); [by eexists|apply Htoc|exact He|exact Hid']. }
  destruct r as [[x key]|].
  - destruct Hres as (id & Hca & _ & _ & _ & Hchoose). exists (fun id' => bool_decide (id' = id) || os_opens os (fullOf s id')), (Some x), key, s1, (Some id), c.
    split; [done|]. rewrite Hchoose; [|by rewrite bool_decide_eq_true_2|intros id' [H%bool_decide_eq_true|H]%orb_true_iff; auto].
    split; [done|]. split; [done|]. split; [intros id' ->; apply orb_true_r|done].
  - destruct Hres as [_ Hchoose]. rewrite (rep_last _ _ _ _ Hr1). set (newId := if _ <=? _ then _ else _).
    pose proof (rep_lastFileId _ _ _ _ newId Hr1) as Hr2. destruct (cc_open os true _ _ _) as [r s2] eqn:Ho.
    destruct (cc_open_rep _ _ _ _ _ _ _ _ _ Hr2 Ho) as (o & -> & Hr3 & _ & _ & _ & _ & Hres). rewrite (fullOf_root s (cc_set_lastFileId newId s1) newId Hroot) in Hres.
    exists (fun id' => if decide (id' = newId) then bool_decide (is_Some o) else os_opens os (fullOf s id')).
    exists o, (TocEntry newId U64_MAX 0 0 0 0), s2, ((fun _ => newId) <$> o), (created o newId (set_lastFileId c newId)).
    split; [done|]. rewrite Hchoose.
    + rewrite decide_True by done. destruct o as [x|].
      * rewrite bool_decide_eq_true_2 by done. split; [done|]. split; [done|]. split; [|by destruct Hres].
        intros id Hid. by destruct (decide _).
      * rewrite bool_decide_eq_false_2 by (by intros [? ?]). split; [done|]. split; [done|]. split; [|done].
        intros id Hid. destruct (decide _) as [->|_]; [|done]. by destruct (proj2 Hres Hid).
    + intros id. destruct (decide _) as [->|_]; [|by right]. intros Ho1%bool_decide_eq_true. destruct o as [x|]; [|by destruct Ho1].
      destruct Hres as (_ & _ & [H|H]); [left|by right]. exact H.
Qed.

(** A mark is put on an accessor and on its file, and a task that holds it is queued. *)
Lemma rep_mark s ts c ats x id t at' : cc_rep s ts c ats -> task_rep s t at' -> ct_file t = x -> tk_file at' = id ->
  cc_rep (cc_set_beingWritten ({[x]} ∪ cc_beingWritten s) s) (ts ++ [t]) (set_beingWritten c ({[id]} ∪ filesBeingWritten c)) (ats ++ [at']).
Proof.
  intros Hr Ht Hx Hid. pose proof (rep_cache _ _ _ _ Hr) as Hok. pose proof (proj2 (proj2 (proj2 Ht))) as Hc. rewrite Hx, Hid in Hc.
  split; try apply Hr.
  - apply Forall2_app; [apply Hr|by constructor].
  - intros b Hb. cbn in Hb. rewrite map_app. apply elem_of_app. apply elem_of_union in Hb as [->%elem_of_singleton|Hb].
    + right. cbn. rewrite Hx. left.
    + left. by apply (rep_marked _ _ _ _ Hr).
  - intros id'. cbn. rewrite elem_of_union, elem_of_singleton, (rep_being _ _ _ _ Hr). split.
    + intros [->|(b & Hb & Hcb)]; [exists x|exists b]; set_solver.
    + intros (b & [->%elem_of_singleton|Hb]%elem_of_union & Hcb); [left; exact (cached_unique s x id' id Hok Hcb Hc)|right; by exists b].
Qed.

(** A task ends: its mark is cleared. *)
Lemma rep_unmark s ts c ats i t at' : cc_rep s ts c ats -> ts !! i = Some t -> ats !! i = Some at' ->
  cc_rep (cc_set_beingWritten (cc_beingWritten s ∖ {[ct_file t]}) s) (delete i ts)
    (set_beingWritten c (filesBeingWritten c ∖ {[tk_file at']})) (delete i ats).
Proof.
  intros Hr Ht Hat. pose proof (rep_cache _ _ _ _ Hr) as Hok.
  destruct (Forall2_lookup_lr _ _ _ _ _ _ (rep_tasks _ _ _ _ Hr) Ht Hat) as (_ & _ & _ & Hc).
  split; try apply Hr.
  - apply Forall2_delete, Hr.
  - intros b [Hb Hne]%elem_of_difference. rewrite elem_of_singleton in Hne. apply (rep_marked _ _ _ _ Hr) in Hb.
    rewrite (delete_Permutation _ _ _ Ht) in Hb. cbn in Hb. by apply elem_of_cons in Hb as [|Hb].
  - intros id. cbn. rewrite elem_of_difference, elem_of_singleton, (rep_being _ _ _ _ Hr). split.
    + intros [(b & Hb & Hcb) Hne]. exists b. split; [|done]. rewrite elem_of_difference, elem_of_singleton. split; [done|].
      intros ->. by apply Hne, (cached_unique s (ct_file t)).
    + intros (b & [Hb Hne]%elem_of_difference & Hcb). rewrite elem_of_singleton in Hne. split; [by exists b|].
      intros ->. by apply Hne, (cached_same s b (ct_file t) (tk_file at')).
Qed.

(** The contents of a file change. *)
Lemma rep_set_file s ts c ats id f : cc_rep s ts c ats ->
  cc_rep (cc_set_file (fullOf s id) f s) ts (set_files c (<[id := f]> (files c))) ats.
Proof.
  intros Hr. split; try apply Hr.
  - intros id'. cbn. change (fullOf (cc_set_file _ _ s) id') with (fullOf s id'). destruct (decide (id' = id)) as [->|Hne]; [by rewrite !lookup_insert_eq|].
    rewrite !lookup_insert_ne by (done || (intros E; by apply Hne, (fullOf_inj s))). apply Hr.
  - intros g p Hp. destruct (rep_cache _ _ _ _ Hr g p Hp) as (H1 & H2 & H3). split; [done|]. split; [done|]. cbn.
    apply lookup_insert_is_Some. destruct (decide (fullOf s id = g)); auto.
Qed.

Lemma rep_task_file s ts c ats i t at' : cc_rep s ts c ats -> ts !! i = Some t -> ats !! i = Some at' ->
  exists f, cc_file s (ct_file t) = Some (fullOf s (tk_file at'), f) /\ files c !! tk_file at' = Some f.
Proof.
  intros Hr Ht Hat. destruct (Forall2_lookup_lr _ _ _ _ _ _ (rep_tasks _ _ _ _ Hr) Ht Hat) as (_ & _ & _ & Hc).
  destruct (cached_file s _ _ (rep_cache _ _ _ _ Hr) Hc) as (f & H1 & H2). exists f. by rewrite (rep_files _ _ _ _ Hr).
Qed.

Lemma cc_write_rep fuel os now1 now2 errno a s ts c ats :
  cc_rep s ts c ats -> toc_ok (tocBTree c) -> (length (bt_elems (tocBTree c)) < fuel)%nat ->
  exists canOpen s' c', (forall id, os_opens os (fullOf s id) = true -> canOpen id = true) /\
    ((exists t at', cc_writeSegment fuel os (map ct_file ts) now1 now2 errno a s = (Ret t, s') /\
        writeSegment pq_sort fuel canOpen now1 now2 errno a c = (Ret at', c') /\ cc_rep s' (ts ++ [t]) c' (ats ++ [at'])) \/
     (exists e, cc_writeSegment fuel os (map ct_file ts) now1 now2 errno a s = (Throw e, s') /\
        writeSegment pq_sort fuel canOpen now1 now2 errno a c = (Throw e, c') /\ cc_rep s' ts c' ats)).
Proof.
  intros Hr Htoc Hfuel. unfold cc_writeSegment, writeSegment. unfold mbind, prog_bind.
  destruct (cc_select_rep fuel os now1 now2 (ea_indexId a) (ea_startBlock a) (ea_endBlock a) (u32 (Z.of_nat (length (ea_content a)))) s ts c ats Hr Htoc Hfuel)
    as (canOpen & r & key & s' & r' & c' & -> & H2 & Hr' & Hopen & Hres).
  destruct r as [x|], r' as [id|]; try done.
  - exists canOpen, (cc_set_beingWritten ({[x]} ∪ cc_beingWritten s') s'), (set_beingWritten c' ({[id]} ∪ filesBeingWritten c')).
    split; [done|]. left. eexists _, _. split; [done|]. rewrite H2. split; [done|]. by apply rep_mark.
  - exists canOpen, s', c'. split; [done|]. right. eexists. split; [done|]. by rewrite H2.
Qed.

Lemma cc_store_rep s ts c ats i t at' r s' : cc_rep s ts c ats -> ts !! i = Some t -> ats !! i = Some at' -> cc_task_store t s = (r, s') ->
  exists r' c', task_store at' c = (r', c') /\
    match r, r' with
    | Ret t', Ret at'' => cc_rep s' (<[i := t']> ts) c' (<[i := at'']> ats)
    | Throw e, Throw e' => e = e' /\ cc_rep s' (delete i ts) c' (delete i ats)
    | Undef u, Undef u' => u = u' /\ cc_rep s' ts c' ats
    | NoFuel, NoFuel => True
    | _, _ => False
    end.
Proof.
  intros Hr Ht Hat. destruct (Forall2_lookup_lr _ _ _ _ _ _ (rep_tasks _ _ _ _ Hr) Ht Hat) as (Ea & Ek & _ & Hc).
  destruct (rep_task_file _ _ _ _ _ _ _ Hr Ht Hat) as (f & Hf & Hf').
  unfold cc_task_store, task_store. unfold mbind, prog_bind, getS, putS, liftO. rewrite Hf, Hf', Ea. cbn [deref fst snd].
  destruct (sf_createEntry (tk_args at') f) as [r0 f']. pose proof (rep_set_file s ts c ats (tk_file at') f' Hr) as Hr'.
  destruct r0 as [u|e|u|]; intros [= <- <-]; eexists _, _; (split; [reflexivity|]); try done.
  - destruct Hr'. split; try done.
    + apply Forall2_insert; [done|]. by split.
    + intros b Hb. specialize (rep_marked0 b Hb). rewrite list_fmap_insert. cbn.
      rewrite list_insert_id; [done|]. rewrite list_lookup_fmap. by rewrite Ht.
  - split; [done|]. by apply (rep_unmark _ _ _ _ i t at' Hr').
Qed.

Lemma cc_index_rep s ts c ats i t at' : cc_rep s ts c ats -> ts !! i = Some t -> ats !! i = Some at' ->
  exists s' c', cc_task_index t s = (Ret tt, s') /\ task_index at' c = (Ret tt, c') /\ cc_rep s' (delete i ts) c' (delete i ats).
Proof.
  intros Hr Ht Hat. destruct (Forall2_lookup_lr _ _ _ _ _ _ (rep_tasks _ _ _ _ Hr) Ht Hat) as (Ea & Ek & _ & Hc).
  destruct (rep_task_file _ _ _ _ _ _ _ Hr Ht Hat) as (f & Hf & Hf').
  unfold cc_task_index, task_index. unfold mbind, prog_bind, getS, putS, liftO. rewrite Hf, Hf', Ea, Ek, (rep_toc _ _ _ _ Hr). cbn [deref fst snd].
  eexists _, _. split; [reflexivity|]. split; [reflexivity|].
  match goal with |- context [cc_set_toc ?toc s] => assert (cc_rep (cc_set_toc toc s) ts (set_toc c toc) ats) as Hr' by (by destruct Hr) end.
  exact (rep_unmark _ _ _ _ i t at' Hr' Ht Hat).
Qed.

(** ** The system *)
Context `{!SegmentFileLaws CF}.

Definition cc_fresh_call (a : entry_args) s ts : Prop :=
  (forall full f, cc_files s !! full = Some f -> ea_key a ∉ map seg_key (sf_segments f)) /\
  ea_key a ∉ map (fun t => ea_key (ct_args t)) ts.

(** The steps of [cat_step], each through the cache; and a reader that opens a file. *)
Inductive cc_step : CachedCatalog * list cc_task * list entry_args -> CachedCatalog * list cc_task * list entry_args -> Prop :=
| cc_step_submit fuel os now1 now2 errno a s ts l t s' :
    (length (bt_elems (cc_toc s)) < fuel)%nat -> 1 <= now2 < U64_MAX -> args_ok a -> cc_fresh_call a s ts ->
    cc_writeSegment fuel os (map ct_file ts) now1 now2 errno a s = (Ret t, s') -> cc_step (s, ts, l) (s', ts ++ [t], a :: l)
| cc_step_refuse fuel os now1 now2 errno a s ts l e s' :
    (length (bt_elems (cc_toc s)) < fuel)%nat -> 1 <= now2 < U64_MAX ->
    cc_writeSegment fuel os (map ct_file ts) now1 now2 errno a s = (Throw e, s') -> cc_step (s, ts, l) (s', ts, l)
| cc_step_read os id s ts l r s' : cc_getCatalogFile os (map ct_file ts) id s = (Ret r, s') -> cc_step (s, ts, l) (s', ts, l)
| cc_step_store s ts l i t t' s' :
    ts !! i = Some t -> ct_stored t = false -> cc_task_store t s = (Ret t', s') -> cc_step (s, ts, l) (s', <[i := t']> ts, l)
| cc_step_store_fail s ts l i t e s' :
    ts !! i = Some t -> ct_stored t = false -> cc_task_store t s = (Throw e, s') ->
    cc_step (s, ts, l) (s', delete i ts, filter (fun b => ea_key b <> ea_key (ct_args t)) l)
| cc_step_index s ts l i t s' :
    ts !! i = Some t -> ct_stored t = true -> cc_task_index t s = (Ret tt, s') -> cc_step (s, ts, l) (s', delete i ts, l).

Lemma rep_fresh s ts c ats a : cc_rep s ts c ats -> cc_fresh_call a s ts -> fresh_call a c ats.
Proof.
  intros Hr [H1 H2]. split; [intros fid f; rewrite (rep_files _ _ _ _ Hr); apply H1|].
  assert (map (fun t => ea_key (tk_args t)) ats = map (fun t => ea_key (ct_args t)) ts) as ->; [|done].
  pose proof (rep_tasks _ _ _ _ Hr) as Ht. clear -Ht. induction Ht as [|t at' ts ats (E & _) _ IH]; [done|]. cbn. by rewrite E, IH.
Qed.

(** Each step is a step of the catalog by ids, or none. *)
Lemma cc_step_sim x y c ats : cc_step x y -> cc_rep x.1.1 x.1.2 c ats -> toc_ok (tocBTree c) ->
  exists c' ats', rtc (cat_step pq_sort) (c, ats, x.2) (c', ats', y.2) /\ cc_rep y.1.1 y.1.2 c' ats'.
Proof.
  intros Hs Hr Hi. destruct Hs as [fuel os now1 now2 errno a s ts l t s' Hf Hn Ha Hfr Hw|fuel os now1 now2 errno a s ts l e s' Hf Hn Hw|
    os id s ts l r s' Hg|s ts l i t t' s' Ht Hst Hw|s ts l i t e s' Ht Hst Hw|s ts l i t s' Ht Hst Hw]; cbn [fst snd] in *.
  - rewrite (rep_toc _ _ _ _ Hr) in Hf.
    destruct (cc_write_rep fuel os now1 now2 errno a s ts c ats Hr Hi Hf) as (canOpen & s2 & c' & _ & [(t2 & at' & E & Hw' & Hr')|(e & E & _)]); [|congruence].
    rewrite Hw in E. injection E as <- <-. exists c', (ats ++ [at']). split; [|done].
    eapply rtc_once, step_submit; [exact Hf|exact Hn|exact Ha|by eapply rep_fresh|exact Hw'].
  - rewrite (rep_toc _ _ _ _ Hr) in Hf.
    destruct (cc_write_rep fuel os now1 now2 errno a s ts c ats Hr Hi Hf) as (canOpen & s2 & c' & _ & [(t2 & at' & E & _)|(e' & E & Hw' & Hr')]); [congruence|].
    rewrite Hw in E. injection E as <- <-. exists c', ats. split; [|done]. eapply rtc_once, step_refuse; [exact Hf|exact Hn|exact Hw'].
  - destruct (cc_open_rep _ _ _ _ _ _ _ _ _ Hr Hg) as (o & _ & Hr' & _ & _ & _ & _ & Hres). exists c, ats. split; [done|].
    destruct o as [a|]; [|done]. destruct Hres as (_ & [|Hf] & _); [done|]. by rewrite created_existing in Hr'.
  - destruct (Forall2_lookup_l _ _ _ _ _ (rep_tasks _ _ _ _ Hr) Ht) as (at' & Hat & _ & _ & Est & _).
    destruct (cc_store_rep _ _ _ _ _ _ _ _ _ Hr Ht Hat Hw) as (r' & c' & Hw' & H). destruct r' as [at2| | |]; try done.
    exists c', (<[i := at2]> ats). split; [|done]. apply rtc_once, step_task. eapply step_store; [exact Hat|congruence|exact Hw'].
  - destruct (Forall2_lookup_l _ _ _ _ _ (rep_tasks _ _ _ _ Hr) Ht) as (at' & Hat & Ea & _ & Est & _).
    destruct (cc_store_rep _ _ _ _ _ _ _ _ _ Hr Ht Hat Hw) as (r' & c' & Hw' & H). destruct r' as [|e'| |]; try done. destruct H as [<- H].
    exists c', (delete i ats). split; [|done]. rewrite Ea. eapply rtc_once, step_store_fail; [exact Hat|congruence|exact Hw'].
  - destruct (Forall2_lookup_l _ _ _ _ _ (rep_tasks _ _ _ _ Hr) Ht) as (at' & Hat & _ & _ & Est & _).
    destruct (cc_index_rep _ _ _ _ _ _ _ Hr Ht Hat) as (s2 & c' & E & Hw' & Hr'). rewrite Hw in E. injection E as <-.
    exists c', (delete i ats). split; [|done]. apply rtc_once, step_task. eapply step_index; [exact Hat|congruence|exact Hw'].
Qed.

Lemma cc_steps_sim x y : rtc cc_step x y -> forall c ats, cc_rep x.1.1 x.1.2 c ats -> cat_inv c ats ->
  exists c' ats', rtc (cat_step pq_sort) (c, ats, x.2) (c', ats', y.2) /\ cc_rep y.1.1 y.1.2 c' ats'.
Proof.
  induction 1 as [x|x y z Hxy _ IH]; intros c ats Hr Hi; [by exists c, ats|].
  destruct (cc_step_sim _ _ _ _ Hxy Hr (ci_toc _ _ Hi)) as (c1 & ats1 & H1 & Hr1).
  pose proof (cat_steps_inv pq_sort pq_sort_law _ _ H1 Hi) as Hi1.
  destruct (IH c1 ats1 Hr1 Hi1) as (c2 & ats2 & H2 & Hr2). exists c2, ats2. split; [by etrans|done].
Qed.

Lemma cc_open_catalog_rep dir toc fs afs : (forall id, afs !! id = fs !! fullOf (cc_openCatalog dir toc fs) id) ->
  cc_rep (cc_openCatalog dir toc fs) [] (openCatalog toc afs) [].
Proof.
  intros Hfs. split.
  - done.
  - done.
  - exact Hfs.
  - intros f p Hp. cbn in Hp. by rewrite lookup_empty in Hp.
  - constructor.
  - intros a Ha. by apply elem_of_empty in Ha.
  - intros id. split; [by intros ?%elem_of_empty|by intros (a & ?%elem_of_empty & _)].
Qed.

(** [cc_getCatalogFile] gives the file, or nothing when there is none. *)
Lemma getCatalogFile_rep os id s ts c ats : cc_rep s ts c ats -> os_opens os (fullOf s id) = true ->
  match files c !! id with
  | Some f => exists a s', cc_getCatalogFile os (map ct_file ts) id s = (Ret (Some a), s') /\ cc_file s' a = Some (fullOf s id, f)
  | None => exists s', cc_getCatalogFile os (map ct_file ts) id s = (Ret None, s')
  end.
Proof.
  intros Hr Hos. unfold cc_getCatalogFile. destruct (cc_open _ _ _ _ _) as [r s'] eqn:Ho.
  destruct (cc_open_rep _ _ _ _ _ _ _ _ _ Hr Ho) as (o & -> & Hr' & Hroot & _ & _ & _ & Hres). destruct (files c !! id) as [f|] eqn:Hf.
  - destruct o as [a|]; [|destruct (proj2 Hres Hos); congruence]. exists a, s'. split; [done|]. rewrite created_existing in Hr' by eauto.
    destruct Hres as (Hc & _). destruct (cached_file s' a id (rep_cache _ _ _ _ Hr') Hc) as (f' & H1 & H2).
    rewrite <- (rep_files _ _ _ _ Hr'), Hf in H2. injection H2 as <-. by rewrite H1, (fullOf_root s s').
  - destruct o as [a|]; [destruct Hres as (_ & [|[? Hf']] & _); [done|congruence]|by exists s'].
Qed.

(** C15: the cache of open files is not observable.  Whatever the size of the cache, the hash map, the
    clocks, the operating system and the pointers of readers, any run of the catalog with its
    files behind the cache (submissions, both sections of the tasks, failures, readers that
    open files, evictions in between) is a run of the catalog that knows its files by id, with
    the same TOC, the same tasks and the same history: opening a file that the run has made
    gives its contents, and opening another gives nothing.  Two tasks on one file hold the
    same accessor, hence the same locks. *)
Theorem cached_catalog dir toc fs afs s ts l :
  (forall id, afs !! id = fs !! fullOf (cc_openCatalog dir toc fs) id) -> cat_inv (openCatalog toc afs) [] ->
  rtc cc_step (cc_openCatalog dir toc fs, [], []) (s, ts, l) ->
  exists c ats, rtc (cat_step pq_sort) (openCatalog toc afs, [], []) (c, ats, l) /\
    cc_toc s = tocBTree c /\ map ct_args ts = map tk_args ats /\
    (forall os id, os_opens os (fullOf s id) = true ->
      match files c !! id with
      | Some f => exists a s', cc_getCatalogFile os (map ct_file ts) id s = (Ret (Some a), s') /\ cc_file s' a = Some (fullOf s id, f)
      | None => exists s', cc_getCatalogFile os (map ct_file ts) id s = (Ret None, s')
      end) /\
    (forall i j t t' at' at2, ts !! i = Some t -> ts !! j = Some t' -> ats !! i = Some at' -> ats !! j = Some at2 ->
      (ct_file t = ct_file t' <-> tk_file at' = tk_file at2)).
Proof.
  intros Hfs Hi Hs. destruct (cc_steps_sim _ _ Hs _ _ (cc_open_catalog_rep dir toc fs afs Hfs) Hi) as (c & ats & Hrun & Hr).
  cbn [fst snd] in *. exists c, ats. split; [done|]. split; [apply Hr|]. split; [|split].
  - pose proof (rep_tasks _ _ _ _ Hr) as Ht. clear -Ht. induction Ht as [|t at' ts ats (E & _) _ IH]; [done|]. cbn. by rewrite E, IH.
  - intros os id Hos. by apply (getCatalogFile_rep os id s ts c ats).
  - intros i j t t' at' at2 Hi1 Hj1 Hi2 Hj2. pose proof (rep_tasks _ _ _ _ Hr) as Ht.
    destruct (Forall2_lookup_lr _ _ _ _ _ _ Ht Hi1 Hi2) as (_ & _ & _ & H1). destruct (Forall2_lookup_lr _ _ _ _ _ _ Ht Hj1 Hj2) as (_ & _ & _ & H2).
    split; intros E.
    + rewrite <- E in H2. exact (cached_unique s _ _ _ (rep_cache _ _ _ _ Hr) H1 H2).
    + rewrite <- E in H2. exact (cached_same s _ _ _ H1 H2).
Qed.
End CatalogCache.

(** ** A run on a directory that was empty *)
#[local] Existing Instance seg_BTree.
#[local] Existing Instance seg_BTreeLaws.
#[local] Existing Instance CatalogTasks.toc_BTree.
#[local] Existing Instance CatalogTasks.toc_BTreeLaws.
#[local] Existing Instance CatalogTasks.file_impl.
#[local] Existing Instance CatalogTasks.file_laws.

Definition cc_sample : Type := CachedCatalog (T:=list catalog_contents_entry_t) (CF:=sample_file_t) (Fd:=Z).
Definition cc_os (path : string) : option Z := Some 0.
Definition cc0 : cc_sample := cc_openCatalog "data/catalog" [] ∅.

Definition cc_put (now : Z) (a : entry_args) (ts : list cc_task) : cc_sample -> outcome cc_task * cc_sample :=
  cc_writeSegment in_order (fun _ => true) map_to_list (fun _ n => n) Z.of_nat (fun _ _ => 0) 9 cc_os (map ct_file ts) now now "" a.
Definition cc_get (id : Z) (ts : list cc_task) : cc_sample -> outcome (option nat) * cc_sample :=
  cc_getCatalogFile (fun _ => true) map_to_list (fun _ n => n) Z.of_nat (fun _ _ => 0) cc_os (map ct_file ts) id.
Abbreviation cc_sample_step := (cc_step (T:=list catalog_contents_entry_t) (CF:=sample_file_t) in_order (fun _ : Z => true) map_to_list (fun _ n => n) Z.of_nat (fun _ _ => 0)).

Definition ct1 : cc_task := {| ct_args := entry1; ct_file := 0; ct_key := TocEntry 1000 U64_MAX 0 0 0 0; ct_stored := false |}.
Definition ct1' : cc_task := {| ct_args := entry1; ct_file := 0; ct_key := TocEntry 1000 U64_MAX 0 0 0 0; ct_stored := true |}.
Definition ct2 : cc_task := {| ct_args := entry2; ct_file := 1; ct_key := TocEntry 1001 U64_MAX 0 0 0 0; ct_stored := false |}.
Definition cc1 : cc_sample := (cc_put 1000 entry1 [] cc0).2.
Definition cc2 : cc_sample := (cc_put 1000 entry2 [ct1] cc1).2.
Definition cc3 : cc_sample := (cc_task_store ct1 cc2).2.
Definition cc4 : cc_sample := (cc_task_index ct1' cc3).2.

(** The accessor of a file that a task holds comes back; a file nobody made is not there. *)
Example cc_reads : (cc_get 1000 [ct2] cc4).1 = Ret (Some 0%nat) /\ (cc_get 1001 [ct2] cc4).1 = Ret (Some 1%nat) /\ (cc_get 7 [ct2] cc4).1 = Ret None.
Proof. vm_compute. done. Qed.

(** With room for one accessor, reading another file evicts one that nobody holds: the file is
    opened again, with its contents; while a task holds the accessor it stays. *)
Definition cc_small : cc_sample :=
  {| cc_toc := []; cc_lastFileId := 0; cc_cache := newCache "data/catalog" 1; cc_calls := 0; cc_objects := ∅;
     cc_files := <["data/catalog/7.bin" := sf_new]> ∅; cc_beingWritten := ∅ |}.

Example cc_evicted :
  let s1 := (cc_task_store ct1 (cc_put 1000 entry1 [] cc_small).2).2 in
  let s2 := (cc_task_index ct1' s1).2 in
  let '(r, s3) := cc_get 1000 [] (cc_get 7 [] s2).2 in
  (cc_get 1000 [ct1'] (cc_get 7 [ct1'] s1).2).1 = Ret (Some 0%nat) /\
  r = Ret (Some 2%nat) /\ sf_segments <$> (snd <$> cc_file s3 2) = sf_segments <$> (snd <$> cc_file s1 0).
Proof. vm_compute. done. Qed.

Lemma cc_run : rtc cc_sample_step (cc0, [], []) (cc4, [ct2], [entry2; entry1]).
Proof.
  eapply rtc_l; [apply (cc_step_submit in_order (fun _ => true) map_to_list (fun _ n => n) Z.of_nat (fun _ _ => 0) 9 cc_os 1000 1000 "" entry1 cc0 [] [] ct1 cc1)|].
  - cbn; lia.
  - word.
  - repeat split; cbn; word_unfold; lia.
  - split; [|apply not_elem_of_nil]. change (cc_files cc0) with (∅ : gmap string sample_file_t). intros f cf H. by rewrite lookup_empty in H.
  - vm_compute. reflexivity.
  - eapply rtc_l; [apply (cc_step_submit in_order (fun _ => true) map_to_list (fun _ n => n) Z.of_nat (fun _ _ => 0) 9 cc_os 1000 1000 "" entry2 cc1 [ct1] [entry1] ct2 cc2)|].
    + vm_compute; lia.
    + word.
    + repeat split; cbn; word_unfold; lia.
    + split; [|by_compute]. replace (cc_files cc1) with (<["data/catalog/1000.bin" := sf_new]> (∅ : gmap string sample_file_t)) by (vm_compute; reflexivity).
      intros f cf [[<- <-]|[_ Hf]]%lookup_insert_Some; [apply not_elem_of_nil|by rewrite lookup_empty in Hf].
    + vm_compute. reflexivity.
    + eapply rtc_l; [apply (cc_step_store in_order (fun _ => true) map_to_list (fun _ n => n) Z.of_nat (fun _ _ => 0) cc2 [ct1; ct2] _ 0 ct1 ct1' cc3); [done|done|vm_compute; reflexivity]|].
      apply rtc_once. apply (cc_step_index in_order (fun _ => true) map_to_list (fun _ n => n) Z.of_nat (fun _ _ => 0) cc3 [ct1'; ct2] _ 0 ct1' cc4); [done|done|vm_compute; reflexivity].
Qed.

Lemma cached_catalog_witness : exists c ats, rtc (cat_step in_order) (openCatalog [] ∅, [], []) (c, ats, [entry2; entry1]) /\
  cc_toc cc4 = tocBTree c /\ [entry2] = map tk_args ats /\ exists a s', cc_get 1000 [ct2] cc4 = (Ret (Some a), s').
Proof.
  destruct (cached_catalog in_order (fun _ => true) map_to_list (fun _ n => n) Z.of_nat (fun _ _ => 0) (fun _ => reflexivity _) ltac:(lia)
    (fun _ => reflexivity _) "data/catalog" [] ∅ ∅ cc4 [ct2] [entry2; entry1]) as (c & ats & H1 & H2 & H3 & _).
  - intros id. by rewrite !lookup_empty.
  - exact cat0_inv.
  - exact cc_run.
  - exists c, ats. split; [exact H1|]. split; [exact H2|]. split; [exact H3|]. do 2 eexists. vm_compute. reflexivity.
Defined.
