(* ===== verification/SumIndex.v ===== *)
(** * SumIndex

    The read path of the test suite's index (src/src/testutil/TestChainDesign.cpp:
    [readLatestSegment]): a range scan of the catalog, a walk over the segments of each
    file, and the payload of the newest one, through every layer of the storage.  It
    gives the [TestWorld] that the rest of the application model takes as an input. *)

From S2P Require Import Prelude Excessive Memory TestChainDesign CatalogFile Catalog CatalogTasks CatalogContents.

Section SumIndex.
Context {TT T R Fd M : Type}.
Context `{!BTree catalog_contents_entry_t TT, !BTree segment_btree_metadata_t T, !FreeSpaceFile R, !MmapHandle M, !FdHandle Fd M}.
Context (fast_hash : list Z -> Z -> Z) (newFd : Fd) (newRegions : R).

(** Whether the operating system opens a file, and whether a mapping succeeded, so that
    [directPointer] is not null. *)
Context (canOpen : Z -> bool) (mapped : M -> bool).

Abbreviation CF := (CatalogFile T R Fd).
Abbreviation Cat := (Catalog TT CF).

Definition getCatalogFile (c : Cat) (fileId : Z) : option CF :=
  if canOpen fileId then files c !! fileId else None.

(** The variables the callback captures. *)
Record latest := { found : bool; bestEnd : Z; bestGen : Z; bestSum : Z; bestCount : Z }.

Definition nothing : latest := {| found := false; bestEnd := 0; bestGen := 0; bestSum := 0; bestCount := 0 |}.

Definition better (s : segment_btree_metadata_t) (b : latest) : bool :=
  negb (found b) || (bestEnd b <? blockRangeEnd s) ||
  ((blockRangeEnd s =? bestEnd b) && (bestGen b <? mergeGeneration s)).

(** The callback of the walk. *)
Definition visitSegment (fd : Fd) (wantVersion : Z) (s : segment_btree_metadata_t) (b : latest) : latest :=
  if negb (encodingVersion s =? wantVersion) then b
  else if byteLength s <? 8 then b
  else if negb (better s b) then b
  else
    let view : M := openEntry fd (byteOffset s) (byteLength s) in
    let data := mm_tell view in
    if negb (mapped view) then b
    else {| found := true; bestEnd := blockRangeEnd s; bestGen := mergeGeneration s;
            bestSum := int_of_bytes (mm_load view data 4); bestCount := int_of_bytes (mm_load view (data + 4) 4) |}.

Fixpoint files_loop (fuel : nat) (c : Cat) (indexId wantVersion : Z) (fileIds : list Z) (b : latest) : outcome latest :=
  match fileIds with
  | [] => Ret b
  | id :: fileIds =>
      match getCatalogFile c id with
      | None => files_loop fuel c indexId wantVersion fileIds b
      | Some file =>
          b ← forEachSegment fuel (segmentIndex file) indexId 0 U64_MAX (visitSegment (cf_fd file) wantVersion) b;
          files_loop fuel c indexId wantVersion fileIds b
      end
  end.

(** The result with [outSum] and [outCount]. *)
Definition readLatestSegment (fuel : nat) (now : Z) (cat : option Cat) (indexId wantVersion : Z) : outcome (bool * Z * Z) :=
  match cat with
  | None => Ret (false, 0, 0)
  | Some c =>
      fileIds ← rangeScan fuel now c indexId 0 U64_MAX;
      if (length fileIds =? 0)%nat then Ret (false, 0, 0)
      else
        b ← files_loop fuel c indexId wantVersion fileIds nothing;
        if negb (found b) then Ret (false, 0, 0) else Ret (true, bestSum b, bestCount b)
  end.

(** What the sum indexes answer while the catalog is [c]. *)
Definition catalogWorld (fuel : nat) (now : Z) (c : Cat) : TestWorld := fun indexId =>
  match readLatestSegment fuel now (Some c) indexId (TestChainDesign.encodingVersion newTestSumIndex) with
  | Ret (_, sum, count) => (sum, count)
  | _ => (0, 0)
  end.

(** ** The newest segment *)

(** The segments the callback may take. *)
Definition wanted (wantVersion : Z) (s : segment_btree_metadata_t) : Prop :=
  encodingVersion s = wantVersion /\ 8 <= byteLength s /\ 0 <= blockRangeEnd s.

Definition not_newer (s' s : segment_btree_metadata_t) : Prop :=
  blockRangeEnd s' < blockRangeEnd s \/ (blockRangeEnd s' = blockRangeEnd s /\ mergeGeneration s' <= mergeGeneration s).

(** What the two [memcpy] decode. *)
Definition decode_sum (payload : list Z) : Z := int_of_bytes (take 4 payload).
Definition decode_count (payload : list Z) : Z := int_of_bytes (take 4 (drop 4 payload)).

(** [b] is the outcome of a walk over [l]. *)
Definition newest (wantVersion : Z) (l : list (CF * segment_btree_metadata_t)) (b : latest) : Prop :=
  if found b then
    exists f s, (f, s) ∈ l /\ wanted wantVersion s /\ bestEnd b = blockRangeEnd s /\ bestGen b = mergeGeneration s /\
      bestSum b = decode_sum (read_segment (M:=M) f s) /\ bestCount b = decode_count (read_segment (M:=M) f s) /\
      forall f' s', (f', s') ∈ l -> wanted wantVersion s' -> not_newer s' s
  else forall f s, (f, s) ∈ l -> ~ wanted wantVersion s.

Definition visit_pair (wantVersion : Z) (b : latest) (p : CF * segment_btree_metadata_t) : latest :=
  visit 0 (visitSegment (cf_fd p.1) wantVersion) b p.2.

Context (mapped_all : forall view, mapped view = true).

Lemma decode_window (f : CF) s : 8 <= byteLength s ->
  let view : M := openEntry (cf_fd f) (byteOffset s) (byteLength s) in
  int_of_bytes (mm_load view (mm_tell view) 4) = decode_sum (read_segment (M:=M) f s) /\
  int_of_bytes (mm_load view (mm_tell view + 4) 4) = decode_count (read_segment (M:=M) f s).
Proof.
  intros Hl view. unfold decode_sum, decode_count, read_segment. fold view.
  replace (Z.to_nat (byteLength s)) with (4 + (4 + (Z.to_nat (byteLength s) - 8)))%nat by lia. rewrite !mm_load_app.
  rewrite (take_app_length' _ _ 4), (drop_app_length' _ _ 4), (take_app_length' _ _ 4) by (by rewrite length_mm_load). done.
Qed.

Lemma visit_newest v l b f s : newest v l b -> newest v (l ++ [(f, s)]) (visit_pair v b (f, s)).
Proof.
  intros Hb. assert (forall b', newest v l b' -> ~ wanted v s -> newest v (l ++ [(f, s)]) b') as Hskip.
  { intros b' Hb' Hw. unfold newest in *. destruct (found b').
    - destruct Hb' as (f0 & s0 & Hin & H1 & H2 & H3 & H4 & H5 & Hmax). exists f0, s0. split; [apply elem_of_app; by left|].
      do 5 (split; [done|]). intros f' s' [Hi|Hi]%elem_of_app; [by eapply Hmax|]. apply list_elem_of_singleton in Hi as [= -> ->]. done.
    - intros f' s' [Hi|Hi]%elem_of_app; [by eapply Hb'|]. by apply list_elem_of_singleton in Hi as [= -> ->]. }
  unfold visit_pair, visit; cbn [fst snd]. unfold wanted in Hskip.
  destruct (Z.leb_spec 0 (blockRangeEnd s)); [|apply Hskip; [done|lia]]. unfold visitSegment.
  destruct (Z.eqb_spec (encodingVersion s) v) as [Hv|]; cbn [negb]; [|apply Hskip; [done|lia]].
  destruct (Z.ltb_spec (byteLength s) 8); [apply Hskip; [done|lia]|].
  rewrite mapped_all. cbn [negb]. clear Hskip. unfold better.
  assert (forall f' s', (f', s') ∈ l ++ [(f, s)] -> (f', s') ∈ l \/ s' = s) as Hcase.
  { intros f' s' [Hi|Hi]%elem_of_app; [by left|right]. by apply list_elem_of_singleton in Hi as [= -> ->]. }
  unfold newest in *. destruct (found b) eqn:Hfb; cbn [negb orb].
  - destruct Hb as (f0 & s0 & Hin & Hw & He & Hg & H4 & H5 & Hmax).
    destruct (_ || _) eqn:Hbt; cbn [negb]; [cbn [found bestEnd bestGen bestSum bestCount]|rewrite Hfb].
    + apply orb_true_iff in Hbt. rewrite andb_true_iff, !Z.ltb_lt, Z.eqb_eq in Hbt.
      destruct (decode_window f s) as [-> ->]; [done|]. exists f, s. split; [apply elem_of_app; right; left|].
      do 5 (split; [done|]). intros f' s' [Hi|Hi]%Hcase Hw'; [specialize (Hmax f' s' Hi Hw')|subst s']; unfold not_newer in *; lia.
    + apply orb_false_iff in Hbt. rewrite andb_false_iff, !Z.ltb_ge, Z.eqb_neq in Hbt.
      exists f0, s0. split; [apply elem_of_app; by left|]. do 5 (split; [done|]).
      intros f' s' [Hi|Hi]%Hcase Hw'; [by eapply Hmax|subst s'; unfold not_newer; lia].
  - destruct (decode_window f s) as [-> ->]; [done|]. exists f, s. split; [apply elem_of_app; right; left|].
    do 5 (split; [done|]). intros f' s' [Hi|Hi]%Hcase Hw'; [by destruct (Hb f' s')|subst s'; unfold not_newer; lia].
Qed.

Lemma fold_newest v l0 l b : newest v l0 b -> newest v (l0 ++ l) (foldl (visit_pair v) b l).
Proof.
  revert l0 b. induction l as [|[f s] l IH]; intros l0 b Hb; cbn [foldl]; [by rewrite app_nil_r|].
  rewrite (cons_middle _ l0 l), app_assoc. apply IH. by apply visit_newest.
Qed.
(** ** The whole read *)

(** The fuel covers every tree a read may walk. *)
Definition enough_fuel (fuel : nat) (c : Cat) : Prop :=
  (length (bt_elems (tocBTree c)) < fuel)%nat /\
  forall fid f, files c !! fid = Some f -> (length (bt_elems (segmentIndex f)) < fuel)%nat.

Definition of_index (ix : Z) (s : segment_btree_metadata_t) : Prop := indexId s = ix /\ 0 <= blockRangeStart s <= U64_MAX.

#[local] Instance of_index_dec ix s : Decision (of_index ix s).
Proof. unfold of_index. apply _. Defined.

Definition pairs_of (ix : Z) (f : CF) : list (CF * segment_btree_metadata_t) :=
  map (pair f) (filter (of_index ix) (bt_elems (segmentIndex f))).

Definition all_pairs (c : Cat) (ix : Z) (fileIds : list Z) : list (CF * segment_btree_metadata_t) :=
  concat (map (fun id => match files c !! id with Some f => pairs_of ix f | None => [] end) fileIds).

Context (canOpen_all : forall id, canOpen id = true).
Context `{!BTreeLaws Catalog.compare, !BTreeLaws CatalogFile.compare, !FreeSpaceLaws R, !FreeSpaceHeader R, !MmapLaws M, !FdLaws Fd M}.

Lemma foldl_pairs v (f : CF) l b : foldl (visit 0 (visitSegment (cf_fd f) v)) b l = foldl (visit_pair v) b (map (pair f) l).
Proof. revert b. induction l as [|s l IH]; intros b; [done|]. cbn [foldl map]. by rewrite IH. Qed.

Lemma files_loop_spec fuel c ix v ids b :
  enough_fuel fuel c -> (forall fid f, files c !! fid = Some f -> file_ok f) ->
  files_loop fuel c ix v ids b = Ret (foldl (visit_pair v) b (all_pairs c ix ids)).
Proof.
  intros [_ Hfuel] Hok. revert b. induction ids as [|id ids IH]; intros b; [done|]. unfold all_pairs. cbn [files_loop map concat].
  unfold getCatalogFile. rewrite canOpen_all. destruct (files c !! id) as [f|] eqn:Hf; [|apply IH].
  rewrite (forEachSegment_elems fuel) by (word || (by eapply Hfuel) || (by eapply fo_index, Hok)). cbn [mbind outcome_bind].
  rewrite IH, foldl_app. by rewrite foldl_pairs.
Qed.

Lemma all_pairs_elem c ix ids f s : (f, s) ∈ all_pairs c ix ids <->
  exists id, id ∈ ids /\ files c !! id = Some f /\ s ∈ bt_elems (segmentIndex f) /\ of_index ix s.
Proof.
  unfold all_pairs. rewrite list_elem_of_In, in_concat. split.
  - intros (l & Hl & Hin). apply in_map_iff in Hl as (id & <- & Hid). exists id. rewrite list_elem_of_In.
    destruct (files c !! id) as [g|] eqn:Hg; [|done]. apply list_elem_of_In in Hin. unfold pairs_of in Hin.
    apply list_elem_of_fmap in Hin as (x & [= -> ->] & Hx). apply list_elem_of_filter in Hx as [H1 H2]. done.
  - intros (id & Hid & Hf & Hs & Hix). exists (pairs_of ix f). split.
    + apply in_map_iff. exists id. rewrite Hf. split; [done|]. by apply list_elem_of_In.
    + apply list_elem_of_In. apply (list_elem_of_fmap_2 (pair f)). by apply list_elem_of_filter.
Qed.

(** The outcome of [readLatestSegment]: the payload of a newest segment of the index. *)
Definition reads_newest (c : Cat) (ix v : Z) (r : bool * Z * Z) : Prop :=
  let is_wanted f s := s ∈ bt_elems (segmentIndex f) /\ indexId s = ix /\ wanted v s in
  match r with
  | (true, sum, count) =>
      exists fid f s, files c !! fid = Some f /\ is_wanted f s /\
        sum = decode_sum (read_segment (M:=M) f s) /\ count = decode_count (read_segment (M:=M) f s) /\
        forall fid' f' s', files c !! fid' = Some f' -> is_wanted f' s' -> not_newer s' s
  | (false, sum, count) => sum = 0 /\ count = 0 /\ forall fid f s, files c !! fid = Some f -> ~ is_wanted f s
  end.

#[local] Instance sum_files : SegmentFile CF := CatalogFile_SegmentFile (M:=M) fast_hash newFd newRegions.
#[local] Instance sum_files_laws : SegmentFileLaws CF := CatalogFile_SegmentFileLaws (M:=M) fast_hash newFd newRegions.

(** A scan over all blocks lists every file with a segment of the index. *)
Lemma covered_scanned fuel now c ts ids fid f s :
  cat_inv c ts -> enough_fuel fuel c -> rangeScan fuel now c (indexId s) 0 U64_MAX = Ret ids ->
  files c !! fid = Some f -> s ∈ bt_elems (segmentIndex f) -> fid <= now -> 0 <= blockRangeEnd s ->
  covered (tocBTree c) fid s -> fid ∈ ids.
Proof.
  intros Hi [Hfuel _] Hscan Hf Hs Hnow Hend (e & He & Hid & Hbl & Hmin & Hmax). pose proof Hi as [].
  rewrite rangeScan_elems in Hscan by done. injection Hscan as <-.
  rewrite <- Hid. apply (list_elem_of_fmap_2 fileId). apply list_elem_of_filter. split; [|done]. split; [lia|].
  destruct (ci_files fid f Hf) as [[_ Hok] _ _ _ _]. rewrite Forall_forall in Hok. destruct (Hok s Hs) as [(_ & Hst & _) _].
  unfold matches. rewrite Hbl, !andb_true_iff, !Z.leb_le. unfold in_u64 in Hst. split; [split; [done|lia]|lia].
Qed.

Lemma scan_lists fuel now c ts ids fid f s :
  cat_inv c ts -> Forall (fun t => tk_stored t = false) ts -> enough_fuel fuel c ->
  rangeScan fuel now c (indexId s) 0 U64_MAX = Ret ids ->
  files c !! fid = Some f -> s ∈ bt_elems (segmentIndex f) -> fid <= now -> 0 <= blockRangeEnd s -> fid ∈ ids.
Proof.
  intros Hi Hquiet Hfuel Hscan Hf Hs Hnow Hend. eapply covered_scanned; try done.
  destruct (ci_cover _ _ Hi fid f s Hf Hs) as [|(t & Ht & Hst & _)]; [done|].
  rewrite Forall_forall in Hquiet. by rewrite (Hquiet t Ht) in Hst.
Qed.

Lemma readLatest_spec fuel now c ts ix v :
  cat_inv c ts -> Forall (fun t => tk_stored t = false) ts -> enough_fuel fuel c ->
  (forall fid, is_Some (files c !! fid) -> fid <= now) ->
  exists r, readLatestSegment fuel now (Some c) ix v = Ret r /\ reads_newest c ix v r.
Proof.
  intros Hi Hquiet Hfuel Hnow. pose proof Hi as []. unfold readLatestSegment.
  destruct (rangeScan fuel now c ix 0 U64_MAX) as [ids| | |] eqn:Hscan.
  2-4: by rewrite rangeScan_elems in Hscan by apply Hfuel || done.
  assert (forall fid f s, files c !! fid = Some f -> s ∈ bt_elems (segmentIndex f) /\ indexId s = ix /\ wanted v s -> (f, s) ∈ all_pairs c ix ids) as Hall.
  { intros fid f s Hf (Hs & Hix & Hw). subst ix. apply all_pairs_elem. exists fid.
    split; [eapply (scan_lists fuel now c ts); try done; [eauto|apply Hw]|]. split; [done|]. split; [done|]. split; [done|].
    destruct (ci_files fid f Hf) as [[_ Hok] _ _ _ _]. rewrite Forall_forall in Hok. by destruct (Hok s Hs) as [(_ & Hst & _) _]. }
  cbn [mbind outcome_bind]. pose proof (fold_newest v [] (all_pairs c ix ids) nothing) as Hn.
  specialize (Hn ltac:(intros f s Hin; by apply not_elem_of_nil in Hin)). cbn [app] in Hn.
  rewrite files_loop_spec by done. set (b := foldl _ _ _) in *.
  assert (found b = false -> reads_newest c ix v (false, 0, 0)) as Hnone.
  { intros Hb. unfold newest in Hn. rewrite Hb in Hn. split; [done|]. split; [done|]. intros fid f s Hf Hs.
    apply (Hn f s); [by eapply Hall|apply Hs]. }
  destruct (Nat.eqb_spec (length ids) 0) as [H0|_].
  - exists (false, 0, 0). split; [done|]. apply Hnone. by destruct ids.
  - cbn [mbind outcome_bind]. destruct (found b) eqn:Hb; cbn [negb]; [|by eexists; split; [done|apply Hnone]].
    eexists. split; [done|]. unfold newest in Hn. rewrite Hb in Hn. destruct Hn as (f & s & Hin & Hw & _ & _ & Hsum & Hcount & Hmax).
    apply all_pairs_elem in Hin as (fid & _ & Hf & Hs & Hix & _). exists fid, f, s. split; [done|]. split; [done|].
    split; [done|]. split; [done|]. intros fid' f' s' Hf' Hs'. apply (Hmax f' s'); [by eapply Hall|apply Hs'].
Qed.
End SumIndex.

Section ReadPath.
Context {TT T R Fd M : Type}.
Context `{!BTree catalog_contents_entry_t TT, !BTree segment_btree_metadata_t T, !FreeSpaceFile R, !MmapHandle M, !FdHandle Fd M}.
Context `{!BTreeLaws Catalog.compare, !BTreeLaws CatalogFile.compare, !FreeSpaceLaws R, !FreeSpaceHeader R, !MmapLaws M, !FdLaws Fd M}.
Context (fast_hash : list Z -> Z -> Z) (newFd : Fd) (newRegions : R).
Context (pq_sort : list (Z * Z) -> list Z) (pq_sort_law : forall l, pq_sort l ≡ₚ map fst l).

#[local] Instance th_files : SegmentFile (CatalogFile T R Fd) := CatalogFile_SegmentFile (M:=M) fast_hash newFd newRegions.
#[local] Instance th_files_laws : SegmentFileLaws (CatalogFile T R Fd) := CatalogFile_SegmentFileLaws (M:=M) fast_hash newFd newRegions.

(** C29: the read path of the sum index, through every layer of the storage: in each state of
    the catalog reachable by submissions and background writes in which no task stands
    between its write and its TOC update, the read ends and answers with the payload of a
    newest segment of the index (by end block, then by merge generation) among all the
    segments of all the files, or with "not found" when there is none. *)
Theorem readLatestSegment_correct canOpen mapped (c0 c : Catalog TT (CatalogFile T R Fd)) ts l fuel now ix v :
  (forall id, canOpen id = true) -> (forall view : M, mapped view = true) ->
  cat_inv c0 [] -> rtc (cat_step pq_sort) (c0, [], []) (c, ts, l) -> Forall (fun t => tk_stored t = false) ts ->
  enough_fuel fuel c -> (forall fid, is_Some (files c !! fid) -> fid <= now) ->
  exists r, readLatestSegment canOpen mapped fuel now (Some c) ix v = Ret r /\ reads_newest (M:=M) c ix v r.
Proof.
  intros Ho Hm H0 Hs Hq Hf Hn. pose proof (cat_steps_inv pq_sort pq_sort_law _ _ Hs H0) as Hi; cbn [fst snd] in Hi.
  by apply (readLatest_spec fast_hash newFd newRegions canOpen mapped Hm Ho fuel now c ts ix v Hi).
Qed.
End ReadPath.

(** ** The read after the run of CatalogTasks: sum 0x04030201, count 0x08070605. *)

#[local] Existing Instance seg_BTree.
#[local] Existing Instance seg_BTreeLaws.
#[local] Existing Instance toc_BTree.
#[local] Existing Instance toc_BTreeLaws.

Lemma readLatestSegment_correct_witness : exists r,
  readLatestSegment (fun _ => true) (fun _ : bytemap => true) 9 2000 (Some cat4) 0 1 = Ret r /\ reads_newest (M:=bytemap) cat4 0 1 r /\
  r = (true, 67305985, 134678021).
Proof.
  destruct (readLatestSegment_correct (M:=bytemap) no_hash (Bytemap 4096 0 ∅) [] in_order (fun _ => reflexivity _) (fun _ => true) (fun _ => true)
    cat0 cat4 [task2] [entry2; entry1] 9 2000 0 1 (fun _ => eq_refl) (fun _ => eq_refl) cat0_inv cat_run4) as (r & Hr & Hs).
  - repeat constructor.
  - split; [vm_compute; lia|].
    assert (map_Forall (fun _ f => (length (bt_elems (segmentIndex f)) < 9)%nat) (files cat4)) as H by by_compute. exact H.
  - assert (map_Forall (fun fid _ => fid <= 2000) (files cat4)) as H by by_compute.
    intros fid [f Hf]. exact (H fid f Hf).
  - exists r. split; [exact Hr|]. split; [exact Hs|]. assert (Ret r = Ret (true, 67305985, 134678021)) as E; [|by injection E].
    rewrite <- Hr. vm_compute. reflexivity.
Defined.
