(* ===== verification/Backend.v ===== *)
(** * BlockchainBackend

    The committed chain (src/src/blockchain/BlockchainBackend.h and .cpp): construction
    from a chain design, fresh state overrides, the commit of a block with its cadence
    check, verification, journal append, timestamp index and sealed segments, and the
    queries.  The journal and the catalog enter through their interfaces. *)

From S2P Require Import Prelude Excessive Memory Transaction Registry StateOverride ChainDesign Journal CatalogFile.
From S2P Require BlockTimestampTracker.

Definition LONG_TIME_MILLIS : Z := 1000 * 3600.
Definition WANTED_TX_PER_BLOCK : Z := 180.
Definition MAX_TX_PER_BLOCK : Z := 1024.

(** [BlockchainConfig] (BlockchainConfig.h). *)
Record BlockchainConfig := {
  targetBlockTimeMs : Z;
  targetThroughput : Z;
  maxSegmentsPerIndex : Z;
  maxMergeableSegmentBytes : Z;
}.

Definition defaultConfig : BlockchainConfig :=
  {| targetBlockTimeMs := 60000; targetThroughput := 180; maxSegmentsPerIndex := 64;
     maxMergeableSegmentBytes := 512 * 1024 * 1024 |}.

(** [blockchain_metadata_header_t], without its constant version. *)
Record metadata_header := { lastBlockTimestamp : Z; currentBlockHeight : Z }.

(** The block time wanted for [size] transactions; the division is the caller's to guard. *)
Definition blockTime (config : BlockchainConfig) (size : Z) : Z :=
  Z.max (Z.min (u64 (targetBlockTimeMs config * targetThroughput config) / size) (600 * 1000)) 100.

(** The cadence check is skipped for a full block; an empty one divides by zero. *)
Definition tooEarly (config : BlockchainConfig) (size duration : Z) : outcome bool :=
  if negb (size =? MAX_TX_PER_BLOCK) then
    if u32 size =? 0 then Undef DivByZero
    else mret ((duration <? blockTime config (u32 size)) ||
               ((LONG_TIME_MILLIS <? duration) && (WANTED_TX_PER_BLOCK / 2 <? size)) || (MAX_TX_PER_BLOCK <? size))
  else mret false.

(** The virtual interface [BlockchainIndex], without the catalog pointer, which is the same
    for all. *)
Class BlockchainIndex (Ix : Type) := {
  ix_encodingVersion : Ix -> Z;
  ix_attach : Z -> Ix -> Ix;
}.

(** [Catalog::writeSegment] as the backend calls it. *)
Class SegmentSink (C : Type) := { cat_writeSegment : entry_args -> prog C unit }.

(** What a call of [addBlock] meets: the clock, and what the indexes answer from disk while
    it verifies, while it applies and while it seals the [i]-th family.  Background tasks may
    index older segments in between. *)
Record commit_env (W : Type) := { e_millis : Z; e_verify : W; e_apply : W; e_seal : nat -> W }.
Arguments e_millis {W} _.
Arguments e_verify {W} _.
Arguments e_apply {W} _.
Arguments e_seal {W} _ _.

Section Backend.
Context {Tx W F Ix M J C T : Type}.
Context `{!IndexOverrideFamily F W Ix, !BlockchainIndex Ix, !Transaction Tx W (StateOverride F) M}.
Context `{!Journal J M Tx, !SegmentSink C, !BTree BlockTimestampTracker.block_timestamp_entry_t T}.

Record Backend := {
  config : BlockchainConfig;
  header : metadata_header;
  journal : J;
  indexes : BackendRegistry Ix;
  overrideReg : StateOverrideRegistry F;
  txTypes : TransactionTypeRegistry M Tx;
  catalog : C;
  timestampTracker : BlockTimestampTracker.tracker T;
  lastBlockTime : Z;
}.

(** ** Construction *)

Fixpoint attachIndexes_loop (i n : nat) (indexes : BackendRegistry Ix) : BackendRegistry Ix :=
  match n with
  | O => indexes
  | S n =>
      let indexId := u16 (Z.of_nat i) in
      let indexes :=
        match getIndexAt indexes indexId with
        | None => indexes
        | Some _ => updIndexAt indexes (Z.to_nat indexId) (ix_attach indexId)
        end in
      attachIndexes_loop (S i) n indexes
  end.

Definition attachIndexesToStorage (indexes : BackendRegistry Ix) : BackendRegistry Ix :=
  attachIndexes_loop 0 (length (br_entries indexes)) indexes.

(** The constructor: [isNew] when metadata.bin was created.  The registries are filled by the
    hooks of the design, in this order. *)
Definition openBackend (config : BlockchainConfig) (isNew : bool) (stored : metadata_header) (journal : J)
    (design : ChainDesign Tx F Ix M) (catalog : C) (tr : BlockTimestampTracker.tracker T) : Backend :=
  let header := if isNew then {| lastBlockTimestamp := 0; currentBlockHeight := 0 |} else stored in
  let indexes := cd_registerIndexes design emptyBackendRegistry in
  let overrideReg := cd_registerOverrides design emptyOverrideRegistry in
  let txTypes := cd_registerTransactionTypes design emptyTypeRegistry in
  {| config := config;
     header := header;
     journal := journal;
     indexes := attachIndexesToStorage indexes;
     overrideReg := overrideReg;
     txTypes := txTypes;
     catalog := catalog;
     timestampTracker := tr;
     lastBlockTime := 0 |}.

(** ** Access *)

Definition getConfig (b : Backend) : BlockchainConfig := config b.

(** [index<T>(id)]: the null pointer is [None]. *)
Definition index (b : Backend) (key : TypeKey) (id : Z) : option Ix := getIndex (indexes b) key id.

Definition getTransactionTypeRegistry (b : Backend) : TransactionTypeRegistry M Tx := txTypes b.
Definition getStateOverrideRegistry (b : Backend) : StateOverrideRegistry F := overrideReg b.

(** ** Fresh overrides *)

Definition pairCount (b : Backend) (s : StateOverride F) : Z :=
  Z.min (familySize s) (Z.of_nat (length (br_entries (indexes b)))).

Fixpoint attachOverride_loop (indexes : BackendRegistry Ix) (i n : nat) (s : StateOverride F) : outcome (StateOverride F) :=
  match n with
  | O => Ret s
  | S n =>
      match getIndexAt indexes (u16 (Z.of_nat i)) with
      | None => attachOverride_loop indexes (S i) n s
      | Some idx => s ← familyAtUpd s (Z.of_nat i) (attach (W:=W) idx); attachOverride_loop indexes (S i) n s
      end
  end.

Definition attachOverrideFamilies (b : Backend) (s : StateOverride F) : outcome (StateOverride F) :=
  attachOverride_loop (indexes b) 0 (Z.to_nat (pairCount b s)) s.

Definition newStateOverride (b : Backend) : outcome (StateOverride F) :=
  attachOverrideFamilies b (StateOverride.newStateOverride (overrideReg b)).

(** ** Sealing *)

Fixpoint seal_loop (indexes : BackendRegistry Ix) (w : nat -> W) (state : StateOverride F) (blockNumber : Z) (i n : nat) : prog C unit :=
  match n with
  | O => mret tt
  | S n =>
      fam ← liftO (familyAt state (Z.of_nat i));
      let payload := seal (Ix:=Ix) (w i) fam in
      if (length payload =? 0)%nat then seal_loop indexes w state blockNumber (S i) n
      else
        match getIndexAt indexes (u16 (Z.of_nat i)) with
        | None => seal_loop indexes w state blockNumber (S i) n
        | Some idx =>
            cat_writeSegment {| ea_indexId := u16 (Z.of_nat i); ea_version := ix_encodingVersion idx; ea_mergeGeneration := 0;
              ea_startBlock := blockNumber; ea_endBlock := u64 (blockNumber + 1); ea_content := payload |};;
            seal_loop indexes w state blockNumber (S i) n
        end
  end.

Definition sealOverrideToSegments (b : Backend) (w : nat -> W) (state : StateOverride F) (blockNumber : Z) : prog C unit :=
  seal_loop (indexes b) w state blockNumber 0 (Z.to_nat (pairCount b state)).

(** ** [addBlock] *)

Fixpoint verify_loop (w : W) (s : StateOverride F) (txs : list Tx) : outcome (StateOverride F) :=
  match txs with
  | [] => Ret s
  | tx :: txs =>
      if negb (tx_verify tx w s) then Throw (runtime_error "Transaction verification failed")
      else verify_loop w (applied w s tx) txs
  end.

Definition set_header (b : Backend) (h : metadata_header) : Backend :=
  {| config := config b; header := h; journal := journal b; indexes := indexes b; overrideReg := overrideReg b; txTypes := txTypes b;
     catalog := catalog b; timestampTracker := timestampTracker b; lastBlockTime := lastBlockTime b |}.
Definition set_journal (b : Backend) (j : J) : Backend :=
  {| config := config b; header := header b; journal := j; indexes := indexes b; overrideReg := overrideReg b; txTypes := txTypes b;
     catalog := catalog b; timestampTracker := timestampTracker b; lastBlockTime := lastBlockTime b |}.
Definition set_catalog (b : Backend) (c : C) : Backend :=
  {| config := config b; header := header b; journal := journal b; indexes := indexes b; overrideReg := overrideReg b; txTypes := txTypes b;
     catalog := c; timestampTracker := timestampTracker b; lastBlockTime := lastBlockTime b |}.
Definition set_tracker (b : Backend) (t : BlockTimestampTracker.tracker T) : Backend :=
  {| config := config b; header := header b; journal := journal b; indexes := indexes b; overrideReg := overrideReg b; txTypes := txTypes b;
     catalog := catalog b; timestampTracker := t; lastBlockTime := lastBlockTime b |}.
Definition set_lastBlockTime (b : Backend) (t : Z) : Backend :=
  {| config := config b; header := header b; journal := journal b; indexes := indexes b; overrideReg := overrideReg b; txTypes := txTypes b;
     catalog := catalog b; timestampTracker := timestampTracker b; lastBlockTime := t |}.

(** The journal part: height, epoch file, timestamp, timestamp index. *)
Definition writeBlock (millis : Z) (transactions : list Tx) : prog Backend Z :=
  b ← getS;
  let blockNumber := currentBlockHeight (header b) in
  putS (set_header b {| lastBlockTimestamp := lastBlockTimestamp (header b); currentBlockHeight := blockNumber + 1 |});;
  j ← liftO (j_appendBlock (journal b) blockNumber millis transactions);
  modifyS (fun b => set_journal b j);;
  modifyS (fun b => set_header b {| lastBlockTimestamp := millis; currentBlockHeight := currentBlockHeight (header b) |});;
  modifyS (fun b => set_tracker b (BlockTimestampTracker.addBlock (timestampTracker b) millis blockNumber));;
  mret blockNumber.

(** Running a catalog operation on the backend's catalog. *)
Definition on_catalog {A} (p : prog C A) : prog Backend A := fun b =>
  let '(r, c) := p (catalog b) in (r, set_catalog b c).

(** The figure of the log message after a commit. *)
Definition logThroughput (size duration : Z) : outcome Z :=
  if duration =? 0 then Undef DivByZero else Ret (u32 (u64 (size * 60000) / duration)).

Definition addBlock (env : commit_env W) (transactions : list Tx) : prog Backend Z :=
  b ← getS;
  let millis := e_millis env in
  let duration := u64 (millis - lastBlockTimestamp (header b)) in
  let size := Z.of_nat (length transactions) in
  early ← liftO (tooEarly (config b) size duration);
  if early : bool then mret (-1)
  else
    verificationOverride ← liftO (newStateOverride b);
    _ ← liftO (verify_loop (e_verify env) verificationOverride transactions);
    blockNumber ← writeBlock millis transactions;
    b ← getS;
    blockOverride ← liftO (newStateOverride b);
    let blockOverride := foldl (applied (e_apply env)) blockOverride transactions in
    on_catalog (sealOverrideToSegments b (e_seal env) blockOverride blockNumber);;
    _ ← liftO (logThroughput size duration);
    modifyS (fun b => set_lastBlockTime b duration);;
    mret blockNumber.

(** ** Queries *)

Definition getBlock (blockNumber : Z) : prog Backend (list Tx) := fun b =>
  if currentBlockHeight (header b) <=? blockNumber then (Throw (range_error "Block number out of range"), b)
  else let '(r, j) := j_readBlock (journal b) (txTypes b) blockNumber in (r, set_journal b j).

Fixpoint collect_loop (blockNumbers : list Z) (allTransactions : list Tx) : prog Backend (list Tx) :=
  match blockNumbers with
  | [] => mret allTransactions
  | bn :: blockNumbers => blockTxs ← getBlock bn; collect_loop blockNumbers (allTransactions ++ blockTxs)
  end.

Definition getTransactionsByTimeWindow (fuel : nat) (startMillis endMillis : Z) : prog Backend (list Tx) :=
  if endMillis <? startMillis then throw (invalid_argument "Start time must be before end time")
  else
    b ← getS;
    blockNumbers ← liftO (BlockTimestampTracker.getBlocksInWindow fuel (timestampTracker b) startMillis endMillis);
    collect_loop blockNumbers [].

Definition getBlockHeight (b : Backend) : Z := currentBlockHeight (header b).
Definition getLastBlockTimestamp (b : Backend) : Z := lastBlockTimestamp (header b).
Definition getLastBlockTime (b : Backend) : Z := lastBlockTime b.

(** ** Wiring

    The design registered the indexes [iregs] and the overrides [oregs], no type more than
    256 times. *)
Definition wired (iregs : list (TypeKey * Ix)) (oregs : list (TypeKey * F)) (b : Backend) : Prop :=
  indexes b = registerIndexes iregs /\ overrideReg b = registerOverrides oregs /\
  ids_fit (fst <$> iregs) /\ ids_fit (fst <$> oregs) /\ Z.of_nat (length iregs) <= 65536.

Definition attached_regs (iregs : list (TypeKey * Ix)) : list (TypeKey * Ix) :=
  imap (fun n '(k, ix) => (k, ix_attach (Z.of_nat n) ix)) iregs.

Lemma length_entries (iregs : list (TypeKey * Ix)) : length (br_entries (registerIndexes iregs)) = length iregs.
Proof. destruct (registerIndexes_spec iregs) as [_ ->]. by rewrite length_fmap, length_slots, length_fmap. Qed.

Lemma u16_nat n m : (n < m)%nat -> Z.of_nat m <= 65536 -> u16 (Z.of_nat n) = Z.of_nat n.
Proof. intros. apply u16_small. word. Qed.

Lemma attach_loop_spec pre todo : ids_fit (fst <$> pre ++ todo) -> Z.of_nat (length (pre ++ todo)) <= 65536 ->
  attachIndexes_loop (length pre) (length todo) (registerIndexes (pre ++ todo)) =
    registerIndexes (pre ++ imap (fun n '(k, ix) => (k, ix_attach (Z.of_nat (length pre + n)) ix)) todo).
Proof.
  revert pre. induction todo as [|[k ix] todo IH]; intros pre Hfit Hlen; [done|]. cbn [length attachIndexes_loop].
  rewrite length_app in Hlen; cbn [length] in Hlen.
  rewrite (u16_nat _ (length pre + S (length todo))) by lia. rewrite getIndexAt_nth by done.
  rewrite lookup_app_r, Nat.sub_diag by done. cbn [lookup list_lookup fmap option_fmap option_map].
  rewrite Nat2Z.id, updIndexAt_nth, alter_app_r_alt, Nat.sub_diag by done.
  change (alter (on_snd (ix_attach (Z.of_nat (length pre)))) 0%nat ((k, ix) :: todo))
    with ((k, ix_attach (Z.of_nat (length pre)) ix) :: todo).
  rewrite (cons_middle _ pre todo), (app_assoc pre _ todo).
  specialize (IH (pre ++ [(k, ix_attach (Z.of_nat (length pre)) ix)])).
  assert (length (pre ++ [(k, ix_attach (Z.of_nat (length pre)) ix)]) = S (length pre)) as Hp by (rewrite length_app; cbn; lia).
  rewrite <- Hp, IH.
  - rewrite <- app_assoc. cbn [app imap]. rewrite Nat.add_0_r. do 3 f_equal. apply imap_ext. intros n [k' i'] _.
    cbn. by rewrite Hp, Nat.add_succ_r.
  - rewrite !fmap_app in *. rewrite <- app_assoc. exact Hfit.
  - rewrite length_app, Hp. lia.
Qed.

Lemma attachIndexes_regs iregs : ids_fit (fst <$> iregs) -> Z.of_nat (length iregs) <= 65536 ->
  attachIndexesToStorage (registerIndexes iregs) = registerIndexes (attached_regs iregs).
Proof.
  intros Hfit Hlen. unfold attachIndexesToStorage. rewrite length_entries. apply (attach_loop_spec [] iregs); done.
Qed.

(** ** Fresh overrides *)

(** The family at position [n] of a fresh override. *)
Definition fresh_family (iregs : list (TypeKey * Ix)) (n : nat) (f : F) : F :=
  match iregs !! n with Some (_, ix) => attach (W:=W) ix f | None => f end.

Lemma attachOverride_loop_spec iregs ks i n s :
  ids_fit (fst <$> iregs) -> Z.of_nat (length iregs) <= 65536 ->
  has_layout ks s -> ids_fit ks -> (i + n <= length ks)%nat -> (i + n <= length iregs)%nat ->
  exists s', attachOverride_loop (registerIndexes iregs) i n s = Ret s' /\ has_layout ks s' /\
    forall m, familyAt s' (Z.of_nat m) =
      if decide (i <= m < i + n)%nat then fresh_family iregs m <$> familyAt s (Z.of_nat m) else familyAt s (Z.of_nat m).
Proof.
  intros Hfi Hlen. revert i s. induction n as [|n IH]; intros i s Hl Hfit Hk Hi; cbn [attachOverride_loop].
  - exists s. split; [done|]. split; [done|]. intros m. by rewrite decide_False by lia.
  - rewrite (u16_nat i (length iregs)) by lia. rewrite getIndexAt_nth by done.
    destruct (lookup_lt_is_Some_2 iregs i) as [[k ix] Hix]; [lia|]. rewrite Hix. cbn [fmap option_fmap option_map snd].
    destruct (familyAtUpd_layout ks s i (attach (W:=W) ix) Hl Hfit) as (f & s1 & Hf & Hu & Hl1 & Hf1 & Hne); [lia|].
    rewrite Hu. cbn. destruct (IH (S i) s1 Hl1 Hfit) as (s' & Hr & Hl' & Hall); [lia..|].
    exists s'. split; [done|]. split; [done|]. intros m. rewrite Hall.
    destruct (decide (m = i)) as [->|Hm].
    + rewrite decide_False, decide_True by lia. rewrite Hf1, Hf. cbn. unfold fresh_family. by rewrite Hix.
    + rewrite Hne by done. repeat case_decide; try done; lia.
Qed.

(** A fresh override: one family per registration, attached to the index of its position. *)
Lemma newStateOverride_wired iregs oregs b : wired iregs oregs b ->
  exists s, newStateOverride b = Ret s /\ has_layout (fst <$> oregs) s /\
    forall n k f, oregs !! n = Some (k, f) -> familyAt s (Z.of_nat n) = Ret (fresh_family iregs n f).
Proof.
  intros (Hix & Hov & Hfi & Hfo & Hlen). unfold newStateOverride, attachOverrideFamilies, pairCount.
  rewrite Hix, Hov, length_entries. set (s0 := StateOverride.newStateOverride (registerOverrides oregs)).
  destruct (newStateOverride_spec oregs) as [Hl _]. fold s0 in Hl.
  assert (familySize s0 = Z.of_nat (length oregs)) as Hsz.
  { unfold familySize. destruct Hl as [-> _]. by rewrite length_fmap, length_slots, length_fmap. }
  rewrite Hsz, <- Nat2Z.inj_min, Nat2Z.id.
  destruct (attachOverride_loop_spec iregs (fst <$> oregs) 0 (length oregs `min` length iregs) s0 Hfi Hlen Hl Hfo)
    as (s & Hr & Hls & Hall); [rewrite length_fmap; lia|lia|].
  exists s. split; [done|]. split; [done|]. intros n k f Hn. rewrite Hall.
  assert (familyAt s0 (Z.of_nat n) = Ret f) as Hf0 by (unfold s0; rewrite newStateOverride_familyAt by done; by rewrite Hn).
  rewrite Hf0. case_decide as Hd; [done|]. unfold fresh_family. apply lookup_lt_Some in Hn.
  destruct (iregs !! n) as [[? ?]|] eqn:E; [|done]. apply lookup_lt_Some in E. lia.
Qed.

(** ** Sealing *)

(** The segment of the [i]-th family, if it sealed to anything. *)
Definition seal_call (iregs : list (TypeKey * Ix)) (w : nat -> W) (s : StateOverride F) (bn : Z) (i : nat) : option entry_args :=
  match familyAt s (Z.of_nat i), iregs !! i with
  | Ret fam, Some (_, ix) =>
      match seal (Ix:=Ix) (w i) fam with
      | [] => None
      | payload => Some {| ea_indexId := Z.of_nat i; ea_version := ix_encodingVersion ix; ea_mergeGeneration := 0;
          ea_startBlock := bn; ea_endBlock := u64 (bn + 1); ea_content := payload |}
      end
  | _, _ => None
  end.

Definition submit_all (calls : list entry_args) : prog C unit := foldr (fun a p => cat_writeSegment a;; p) (mret tt) calls.

Lemma prog_bind_ext {S A B} (m : prog S A) (k1 k2 : A -> prog S B) st :
  (forall a st', k1 a st' = k2 a st') -> (m ≫= k1) st = (m ≫= k2) st.
Proof. intros H. unfold mbind, prog_bind. destruct (m st) as [[] ?]; auto. Qed.

Lemma seal_loop_spec iregs ks w s bn i n c :
  ids_fit (fst <$> iregs) -> Z.of_nat (length iregs) <= 65536 ->
  has_layout ks s -> ids_fit ks -> (i + n <= length ks)%nat -> (i + n <= length iregs)%nat ->
  seal_loop (registerIndexes iregs) w s bn i n c = submit_all (omap (seal_call iregs w s bn) (seq i n)) c.
Proof.
  intros Hfi Hlen Hl Hfit. revert i c. induction n as [|n IH]; intros i c Hk Hi; [done|]. cbn [seal_loop seq omap list_omap].
  destruct (lookup_lt_is_Some_2 ks i) as [k Hki]; [lia|].
  destruct (familyAt_layout _ _ _ _ Hl Hfit Hki) as [Hat Hsome].
  destruct (family_at_is_Some _ _ _ Hsome) as [fam Hfam]. rewrite Hfam in Hat.
  destruct (lookup_lt_is_Some_2 iregs i) as [[k' ix] Hix]; [lia|].
  unfold seal_call at 1. rewrite Hat, Hix. unfold liftO at 1. unfold mbind at 1, prog_bind at 1.
  rewrite (u16_nat i (length iregs)) by lia. rewrite getIndexAt_nth, Hix by done. cbn [fmap option_fmap option_map snd].
  destruct (seal (w i) fam) as [|z p] eqn:Hseal; cbn [length Nat.eqb].
  - apply IH; lia.
  - cbn [submit_all foldr]. apply prog_bind_ext. intros _ c'. apply IH; lia.
Qed.
End Backend.
Arguments Backend : clear implicits.
