(* ===== verification/BackendCorrect.v ===== *)
(** * BackendCorrect

    What a [BlockchainBackend] promises: a backend represents a chain of blocks, committing
    appends to it, the queries answer from it, and every way a commit is refused.  The
    proofs use the journal, the tracker and the catalog through their interfaces. *)

From S2P Require Import Prelude Excessive Memory Transaction Registry StateOverride ChainDesign Journal CatalogFile Backend.
From S2P Require BlockTimestampTracker.

Section Chain.
Context {Tx W F Ix M J C T : Type}.
Context `{!IndexOverrideFamily F W Ix, !BlockchainIndex Ix, !Transaction Tx W (StateOverride F) M}.
Context `{!Journal J M Tx, !JournalLaws J M Tx, !SegmentSink C}.
Context `{!BTree BlockTimestampTracker.block_timestamp_entry_t T, !BTreeLaws BlockTimestampTracker.compare}.
Context (iregs : list (TypeKey * Ix)) (oregs : list (TypeKey * F)).
Implicit Types (b : Backend Tx F Ix M J C T) (blocks : list (Z * list Tx)) (txs : list Tx) (env : commit_env W).

(** The timestamp index entries of a chain. *)
Definition chain_entries (blocks : list (Z * list Tx)) : list BlockTimestampTracker.block_timestamp_entry_t :=
  imap (fun n blk => BlockTimestampTracker.Entry blk.1 (Z.of_nat n)) blocks.

(** The entries of all blocks but the [hidden] ones. *)
Definition visible_entries (hidden : list nat) (blocks : list (Z * list Tx)) : list BlockTimestampTracker.block_timestamp_entry_t :=
  filter (fun e => Z.to_nat (BlockTimestampTracker.blockNumber e) ∉ hidden) (chain_entries blocks).

(** [b] holds the blocks [blocks], of which the timestamp index misses the [hidden] ones. *)
Record chain_rep (b : Backend Tx F Ix M J C T) (blocks : list (Z * list Tx)) (hidden : list nat) : Prop := {
  cr_wired : wired iregs oregs b;
  cr_height : currentBlockHeight (header b) = Z.of_nat (length blocks);
  cr_journal : j_rep (journal b) blocks;
  cr_types : j_decodes (txTypes b);
  cr_hidden : Forall (fun n => (n < length blocks)%nat) hidden;
  cr_tracker_ok : BlockTimestampTracker.tracker_ok (timestampTracker b);
  cr_tracker : BlockTimestampTracker.entries (timestampTracker b) ≡ₚ visible_entries hidden blocks;
}.

(** [b] is the backend of the chain [blocks]. *)
Record backend_rep (b : Backend Tx F Ix M J C T) (blocks : list (Z * list Tx)) : Prop := {
  br_chain : chain_rep b blocks [];
  br_last : lastBlockTimestamp (header b) = default 0 (fst <$> last blocks);
}.

Definition duration_of (env : commit_env W) (b : Backend Tx F Ix M J C T) : Z := u64 (e_millis env - lastBlockTimestamp (header b)).

(** The segments the commit of [txs] as block [bn] submits, [s] being the fresh override. *)
Definition commit_calls (env : commit_env W) (s : StateOverride F) (txs : list Tx) (bn : Z) : list entry_args :=
  omap (seal_call iregs (e_seal env) (foldl (applied (e_apply env)) s txs) bn) (seq 0 (length oregs `min` length iregs)).

Lemma chain_entries_fresh blocks ts : BlockTimestampTracker.Entry ts (Z.of_nat (length blocks)) ∉ chain_entries blocks.
Proof.
  unfold chain_entries. intros Hin. apply list_elem_of_lookup in Hin as [n Hn]. rewrite list_lookup_imap in Hn.
  destruct (blocks !! n) as [blk|] eqn:E; [|done]. cbn in Hn. injection Hn as _ Hn.
  apply lookup_lt_Some in E. lia.
Qed.

Lemma chain_entries_snoc blocks blk :
  chain_entries (blocks ++ [blk]) = chain_entries blocks ++ [BlockTimestampTracker.Entry blk.1 (Z.of_nat (length blocks))].
Proof. unfold chain_entries. rewrite imap_app. cbn. by rewrite Nat.add_0_r. Qed.

(** The application's [apply] keeps the layout of the override. *)
Context (apply_layout : forall ks (w : W) s tx, has_layout ks s -> has_layout ks (applied (M:=M) w s tx)).

Lemma applied_layout ks w s txs : has_layout ks s -> has_layout ks (foldl (applied (M:=M) w) s txs).
Proof. revert s. induction txs as [|tx txs IH]; intros s Hs; [done|]. apply IH. by apply apply_layout. Qed.

Lemma layout_size ks s : has_layout ks s -> familySize (F:=F) s = Z.of_nat (length ks).
Proof. intros [Ho _]. unfold familySize. by rewrite Ho, length_fmap, length_slots. Qed.

Lemma visible_entries_all blocks : visible_entries [] blocks = chain_entries blocks.
Proof.
  unfold visible_entries. induction (chain_entries blocks) as [|e l IH]; [done|].
  rewrite filter_cons_True, IH by apply not_elem_of_nil. done.
Qed.

Lemma visible_entries_snoc hidden blocks blk : Forall (fun n => (n < length blocks)%nat) hidden ->
  visible_entries hidden (blocks ++ [blk]) = visible_entries hidden blocks ++ [BlockTimestampTracker.Entry blk.1 (Z.of_nat (length blocks))].
Proof.
  intros Hh. unfold visible_entries. rewrite chain_entries_snoc, filter_app. f_equal. rewrite filter_cons_True; [done|].
  cbn. rewrite Nat2Z.id. intros Hin. rewrite Forall_forall in Hh. specialize (Hh _ Hin). lia.
Qed.

Lemma hidden_snoc hidden blocks (blk : Z * list Tx) : Forall (fun n => (n < length blocks)%nat) hidden ->
  Forall (fun n => (n < length (blocks ++ [blk]))%nat) hidden.
Proof. intros Hh. eapply Forall_impl; [exact Hh|]. intros n. cbn. rewrite length_app. lia. Qed.

(** The journal part of a commit. *)
Lemma writeBlock_spec b blocks hidden ms txs :
  chain_rep b blocks hidden -> j_fits (journal b) blocks (ms, txs) -> in_u64 ms -> Z.of_nat (length blocks) < U64_MAX ->
  exists b', writeBlock ms txs b = (Ret (Z.of_nat (length blocks)), b') /\
    chain_rep b' (blocks ++ [(ms, txs)]) hidden /\ lastBlockTimestamp (header b') = ms /\
    catalog b' = catalog b /\ indexes b' = indexes b /\ overrideReg b' = overrideReg b.
Proof.
  intros [Hw Hh Hj Hty Hhid Htok Htr] Hfits Hms Hlen. unfold writeBlock.
  destruct (j_append_law (journal b) blocks (ms, txs) Hj Hfits) as (j' & Ha & Hj'). cbn [fst snd] in Ha.
  unfold mbind, prog_bind, getS, putS, modifyS, liftO; cbn. rewrite Hh, Ha.
  eexists. split; [done|]. split; [|done].
  destruct (BlockTimestampTracker.addBlock_elems (timestampTracker b) ms (Z.of_nat (length blocks)) Htok) as [Htok' Htr'].
  - split; [done|]. cbn. lia.
  - rewrite Htr. unfold visible_entries. intros [_ Hin]%list_elem_of_filter. by apply chain_entries_fresh in Hin.
  - split; cbn; try done.
    + rewrite length_app; cbn. lia.
    + by apply hidden_snoc.
    + rewrite visible_entries_snoc, Htr', Htr by done. by rewrite Permutation_app_comm.
Qed.

(** The whole of a commit, after the checks. *)
Lemma addBlock_run b blocks hidden env txs s v r c' :
  chain_rep b blocks hidden ->
  tooEarly (config b) (Z.of_nat (length txs)) (duration_of env b) = Ret false ->
  newStateOverride b = Ret s -> verify_loop (e_verify env) s txs = Ret v ->
  j_fits (journal b) blocks (e_millis env, txs) -> in_u64 (e_millis env) -> Z.of_nat (length blocks) < U64_MAX ->
  submit_all (commit_calls env s txs (Z.of_nat (length blocks))) (catalog b) = (r, c') ->
  exists b', chain_rep b' (blocks ++ [(e_millis env, txs)]) hidden /\ lastBlockTimestamp (header b') = e_millis env /\ catalog b' = c' /\
    addBlock env txs b =
      match r with
      | Ret _ =>
          if duration_of env b =? 0 then (Undef DivByZero, b')
          else (Ret (Z.of_nat (length blocks)), set_lastBlockTime b' (duration_of env b))
      | Throw e => (Throw e, b')
      | Undef u => (Undef u, b')
      | NoFuel => (NoFuel, b')
      end.
Proof.
  intros Hr He Hs Hv Hfits Hms Hlen Hc.
  destruct (writeBlock_spec b blocks hidden (e_millis env) txs Hr Hfits Hms Hlen) as (b1 & Hwb & Hr1 & Hts & Hcat & Hix & Hov).
  exists (set_catalog b1 c'). split; [by destruct Hr1|]. split; [done|]. split; [done|].
  unfold addBlock. rewrite (prog_bind_Ret getS _ _ b b) by done. cbn beta zeta. fold (duration_of env b).
  rewrite He. rewrite (prog_bind_Ret _ _ _ false b) by done. rewrite Hs. rewrite (prog_bind_Ret _ _ _ s b) by done.
  rewrite Hv. rewrite (prog_bind_Ret _ _ _ v b) by done. rewrite (prog_bind_Ret _ _ _ _ _ Hwb).
  rewrite (prog_bind_Ret getS _ _ b1 b1) by done.
  assert (newStateOverride b1 = Ret s) as Hs1.
  { rewrite <- Hs. unfold newStateOverride, attachOverrideFamilies, pairCount. by rewrite Hix, Hov. }
  rewrite Hs1. rewrite (prog_bind_Ret _ _ _ s b1) by done.
  destruct (cr_wired _ _ _ Hr) as (Ei & Eo & Hfi & Hfo & Hli).
  destruct (newStateOverride_wired iregs oregs b) as (s' & Hs' & Hlay & _); [done|]. rewrite Hs in Hs'. injection Hs' as <-.
  pose proof (applied_layout _ (e_apply env) _ txs Hlay) as Hlay2. set (st := foldl _ s txs) in *.
  assert (sealOverrideToSegments b1 (e_seal env) st (Z.of_nat (length blocks)) (catalog b1) = (r, c')) as Hseal.
  { rewrite <- Hc, Hcat. unfold sealOverrideToSegments, pairCount. rewrite (layout_size _ _ Hlay2), Hix, Ei, length_entries, length_fmap.
    rewrite <- Nat2Z.inj_min, Nat2Z.id. apply (seal_loop_spec iregs (fst <$> oregs)); try done; rewrite ?length_fmap; lia. }
  unfold mbind at 1, prog_bind at 1, on_catalog. rewrite Hseal. destruct r as [[]|e|u|]; [|done..].
  unfold logThroughput. destruct (duration_of env b =? 0); done.
Qed.

Lemma backend_rep_snoc b blocks blk : chain_rep b (blocks ++ [blk]) [] -> lastBlockTimestamp (header b) = blk.1 -> backend_rep b (blocks ++ [blk]).
Proof. intros Hr Hts. split; [done|]. by rewrite last_snoc. Qed.

(** What [chain_rep] depends on: everything but the catalog and the volatile fields. *)
Lemma chain_rep_same b b2 blocks hidden : chain_rep b blocks hidden ->
  wired iregs oregs b2 -> j_decodes (txTypes b2) -> currentBlockHeight (header b2) = currentBlockHeight (header b) ->
  journal b2 = journal b -> timestampTracker b2 = timestampTracker b -> chain_rep b2 blocks hidden.
Proof. intros [] Hw Ht Hh Hj Htr. split; rewrite ?Hh, ?Hj, ?Htr; done. Qed.

Lemma backend_rep_same b b2 blocks : backend_rep b blocks -> wired iregs oregs b2 -> j_decodes (txTypes b2) ->
  header b2 = header b -> journal b2 = journal b -> timestampTracker b2 = timestampTracker b -> backend_rep b2 blocks.
Proof. intros [Hr Hl] Hw Ht Hh Hj Htr. split; [|by rewrite Hh]. eapply chain_rep_same; [done..| |done|done]. by rewrite Hh. Qed.

(** ** Reading back *)

Lemma set_journal_chain b blocks hidden j : chain_rep b blocks hidden -> j_rep j blocks -> chain_rep (set_journal b j) blocks hidden.
Proof. intros [] Hj. by split. Qed.

Lemma getBlock_chain b blocks hidden i blk : chain_rep b blocks hidden -> blocks !! i = Some blk ->
  exists j, getBlock (Z.of_nat i) b = (Ret blk.2, set_journal b j) /\ chain_rep (set_journal b j) blocks hidden.
Proof.
  intros Hr Hi. pose proof Hr as [_ Hh Hj Hty _ _ _]. unfold getBlock. rewrite Hh. apply lookup_lt_Some in Hi as Hlt.
  destruct (Z.leb_spec (Z.of_nat (length blocks)) (Z.of_nat i)); [lia|].
  destruct (j_read_law (journal b) (txTypes b) blocks i blk Hj Hty Hi) as (j' & -> & Hj'). exists j'. split; [done|].
  by apply set_journal_chain.
Qed.

Lemma getBlock_spec b blocks i blk : backend_rep b blocks -> blocks !! i = Some blk ->
  exists b', getBlock (Z.of_nat i) b = (Ret blk.2, b') /\ backend_rep b' blocks.
Proof.
  intros [Hr Hl] Hi. destruct (getBlock_chain b blocks [] i blk Hr Hi) as (j & Hg & Hr'). eexists. by split.
Qed.

Lemma br_height b blocks : backend_rep b blocks -> currentBlockHeight (header b) = Z.of_nat (length blocks).
Proof. intros [[] _]. done. Qed.

(** The transactions of the blocks numbered [bns]. *)
Definition txs_of (blocks : list (Z * list Tx)) (bns : list nat) : list Tx :=
  concat (map (fun n => default [] (snd <$> blocks !! n)) bns).

Lemma collect_loop_spec b blocks hidden bns acc : chain_rep b blocks hidden -> Forall (fun n => (n < length blocks)%nat) bns ->
  exists j, collect_loop (map Z.of_nat bns) acc b = (Ret (acc ++ txs_of blocks bns), set_journal b j) /\
    chain_rep (set_journal b j) blocks hidden.
Proof.
  intros Hr Hb. revert b acc Hr. induction Hb as [|n bns Hn Hb IH]; intros b acc Hr; cbn [map collect_loop].
  - exists (journal b). unfold txs_of; cbn. rewrite app_nil_r. split; [by destruct b|]. apply set_journal_chain; [done|]. apply Hr.
  - destruct (lookup_lt_is_Some_2 _ _ Hn) as [blk Hblk].
    destruct (getBlock_chain b blocks hidden n blk Hr Hblk) as (j & Hg & Hr1). rewrite (prog_bind_Ret _ _ _ _ _ Hg).
    destruct (IH _ (acc ++ blk.2) Hr1) as (j2 & Hc & Hr2). exists j2. split; [|done]. rewrite Hc.
    unfold txs_of; cbn. by rewrite Hblk, <- app_assoc.
Qed.

(** The numbers of the blocks in a window, ordered by (timestamp, number). *)
Definition in_window (blocks : list (Z * list Tx)) (startMillis endMillis : Z) (n : nat) : Prop :=
  exists blk, blocks !! n = Some blk /\ startMillis <= blk.1 <= endMillis.

Definition earlier (blocks : list (Z * list Tx)) (m n : nat) : Prop :=
  forall x y, blocks !! m = Some x -> blocks !! n = Some y -> x.1 < y.1 \/ (x.1 = y.1 /\ (m < n)%nat).

Lemma entries_numbers es blocks : es ⊆+ chain_entries blocks ->
  Forall (fun e => exists blk, blocks !! Z.to_nat (BlockTimestampTracker.blockNumber e) = Some blk /\
    blk.1 = BlockTimestampTracker.timestamp e /\ 0 <= BlockTimestampTracker.blockNumber e) es.
Proof.
  intros Hs. apply Forall_forall. intros e He. eapply elem_of_submseteq in Hs; [|exact He].
  apply list_elem_of_lookup in Hs as [n Hn]. unfold chain_entries in Hn. rewrite list_lookup_imap in Hn.
  destruct (blocks !! n) as [blk|] eqn:E; [|done]. cbn in Hn. injection Hn as <-. cbn. rewrite Nat2Z.id. eauto with lia.
Qed.

Lemma NoDup_chain_numbers blocks :
  NoDup (map (fun e => Z.to_nat (BlockTimestampTracker.blockNumber e)) (chain_entries blocks)).
Proof.
  replace (map _ (chain_entries blocks)) with (seq 0 (length blocks)); [apply NoDup_seq|].
  unfold chain_entries. apply list_eq. intros n.
  change (map ?f ?l) with (f <$> l). rewrite list_lookup_fmap, list_lookup_imap.
  destruct (blocks !! n) as [blk|] eqn:E; cbn; rewrite ?Nat2Z.id.
  - apply lookup_lt_Some in E. by apply lookup_seq_lt.
  - apply lookup_ge_None in E. by apply lookup_seq_ge.
Qed.

(** Entries in the order of the index are blocks in the order of (timestamp, number). *)
Lemma entries_sorted es blocks : es ⊆+ chain_entries blocks ->
  StronglySorted (fun x y => BlockTimestampTracker.compare x y < 0) es ->
  StronglySorted (earlier blocks) (map (fun e => Z.to_nat (BlockTimestampTracker.blockNumber e)) es).
Proof.
  intros Hsub Hs. apply entries_numbers in Hsub. induction Hs as [|e l Hs IH He]; [constructor|].
  apply Forall_cons in Hsub as [He1 Hl]. cbn [map]. constructor; [by apply IH|].
  apply Forall_forall. intros n Hn. apply list_elem_of_fmap in Hn as (e2 & -> & He2).
  rewrite Forall_forall in He, Hl. specialize (He e2 He2). destruct (Hl e2 He2) as (blk2 & Hb2 & Ht2 & Hp2).
  destruct He1 as (blk1 & Hb1 & Ht1 & Hp1). intros x y Hx Hy. rewrite Hb1 in Hx. rewrite Hb2 in Hy. injection Hx as <-. injection Hy as <-.
  unfold BlockTimestampTracker.compare in He. revert He. cmp_cases; lia.
Qed.

Lemma window_numbers b blocks hidden fuel startMillis endMillis : chain_rep b blocks hidden -> in_u64 startMillis ->
  (length blocks < fuel)%nat ->
  exists bns, BlockTimestampTracker.getBlocksInWindow fuel (timestampTracker b) startMillis endMillis = Ret (map Z.of_nat bns) /\
    NoDup bns /\ (forall n, n ∈ bns <-> in_window blocks startMillis endMillis n /\ n ∉ hidden) /\ StronglySorted (earlier blocks) bns.
Proof.
  intros [_ _ _ _ _ Htok Htr] Hst Hf. pose proof Htok as [Hwf _].
  set (es := BlockTimestampTracker.entries (timestampTracker b)) in *.
  set (P := fun e => startMillis <= BlockTimestampTracker.timestamp e <= endMillis).
  assert (visible_entries hidden blocks `sublist_of` chain_entries blocks) as Hvis by apply sublist_filter.
  assert (length es <= length blocks)%nat as Hlen.
  { rewrite Htr. apply sublist_length in Hvis. unfold chain_entries in Hvis. by rewrite length_imap in Hvis. }
  assert (es ⊆+ chain_entries blocks) as Hsub by (rewrite Htr; by apply sublist_submseteq).
  assert (filter P es ⊆+ chain_entries blocks) as Hfsub by (etrans; [apply sublist_submseteq, sublist_filter|done]).
  exists (map (fun e => Z.to_nat (BlockTimestampTracker.blockNumber e)) (filter P es)). split; [|split; [|split]].
  - rewrite BlockTimestampTracker.getBlocksInWindow_elems by (done || (fold es; lia)). fold es P. f_equal.
    apply entries_numbers in Hfsub. induction Hfsub as [|e l He Hl IH]; [done|]. cbn [map]. rewrite IH. f_equal.
    destruct He as (blk & _ & _ & Hpos). by rewrite Z2Nat.id.
  - eapply sublist_NoDup; [|apply sublist_map, sublist_filter].
    change (NoDup ((fun e => Z.to_nat (BlockTimestampTracker.blockNumber e)) <$> es)). rewrite Htr.
    eapply sublist_NoDup; [apply (NoDup_chain_numbers blocks)|]. by apply sublist_map.
  - intros n. split.
    + intros Hin. apply list_elem_of_fmap in Hin as (e & -> & He). apply list_elem_of_filter in He as [HP He].
      pose proof (entries_numbers es blocks Hsub) as Hall. rewrite Forall_forall in Hall.
      destruct (Hall e He) as (blk & Hblk & Hts & _). rewrite Htr in He. apply list_elem_of_filter in He as [Hhid _].
      split; [|done]. exists blk. split; [done|]. by rewrite Hts.
    + intros [(blk & Hblk & Hin) Hhid]. apply list_elem_of_fmap. exists (BlockTimestampTracker.Entry blk.1 (Z.of_nat n)). cbn.
      rewrite Nat2Z.id. split; [done|]. apply list_elem_of_filter. split; [done|]. rewrite Htr.
      apply list_elem_of_filter. cbn. rewrite Nat2Z.id. split; [done|].
      apply list_elem_of_lookup. exists n. unfold chain_entries. by rewrite list_lookup_imap, Hblk.
  - assert (StronglySorted (fun x y => BlockTimestampTracker.compare x y < 0) (filter P es)) as Hs by (by apply StronglySorted_filter).
    by apply entries_sorted.
Qed.

(** ** The promises *)

(** C5: a commit that passes the checks appends exactly one block: [addBlock] returns its number,
    the backend now represents the chain with that block (journal, height, last timestamp
    and timestamp index together), and the catalog has received, in registration order, one
    segment [bn, bn + 1) for each family that sealed to a non-empty payload in the state
    reached by applying the transactions to a fresh override. *)
Theorem addBlock_commits b blocks env txs s v c' :
  backend_rep b blocks ->
  tooEarly (config b) (Z.of_nat (length txs)) (duration_of env b) = Ret false ->
  newStateOverride b = Ret s -> verify_loop (e_verify env) s txs = Ret v ->
  j_fits (journal b) blocks (e_millis env, txs) -> in_u64 (e_millis env) -> Z.of_nat (length blocks) < U64_MAX ->
  duration_of env b <> 0 ->
  submit_all (commit_calls env s txs (Z.of_nat (length blocks))) (catalog b) = (Ret tt, c') ->
  exists b', addBlock env txs b = (Ret (Z.of_nat (length blocks)), b') /\
    backend_rep b' (blocks ++ [(e_millis env, txs)]) /\ catalog b' = c' /\ getLastBlockTime b' = duration_of env b.
Proof.
  intros Hr He Hs Hv Hf Hms Hlen Hd Hc.
  destruct (addBlock_run b blocks [] env txs s v (Ret tt) c' (br_chain _ _ Hr) He Hs Hv Hf Hms Hlen Hc) as (b' & Hr' & Hts & Hcat & Hrun).
  destruct (Z.eqb_spec (duration_of env b) 0); [done|]. eexists. split; [exact Hrun|]. split; [|done].
  apply backend_rep_snoc; [|done]. destruct Hr'. by split.
Qed.

(** When the catalog refuses a segment, its exception leaves [addBlock] after the block is
    already in the journal: the height has advanced although the caller sees a failure. *)
Theorem addBlock_catalog_failure b blocks env txs s v e c' :
  backend_rep b blocks ->
  tooEarly (config b) (Z.of_nat (length txs)) (duration_of env b) = Ret false ->
  newStateOverride b = Ret s -> verify_loop (e_verify env) s txs = Ret v ->
  j_fits (journal b) blocks (e_millis env, txs) -> in_u64 (e_millis env) -> Z.of_nat (length blocks) < U64_MAX ->
  submit_all (commit_calls env s txs (Z.of_nat (length blocks))) (catalog b) = (Throw e, c') ->
  exists b', addBlock env txs b = (Throw e, b') /\ backend_rep b' (blocks ++ [(e_millis env, txs)]).
Proof.
  intros Hr He Hs Hv Hf Hms Hlen Hc.
  destruct (addBlock_run b blocks [] env txs s v (Throw e) c' (br_chain _ _ Hr) He Hs Hv Hf Hms Hlen Hc) as (b' & Hr' & Hts & _ & Hrun).
  exists b'. split; [done|]. by apply backend_rep_snoc.
Qed.

(** A full block sealed in the same millisecond as the block before it passes the cadence
    check, is written to the journal, and then divides by zero computing a figure for the log
    message, before the metadata header is synced. *)
Theorem addBlock_full_block_crash b blocks env txs s v c' :
  backend_rep b blocks -> Z.of_nat (length txs) = MAX_TX_PER_BLOCK -> e_millis env = lastBlockTimestamp (header b) ->
  newStateOverride b = Ret s -> verify_loop (e_verify env) s txs = Ret v ->
  j_fits (journal b) blocks (e_millis env, txs) -> in_u64 (e_millis env) -> Z.of_nat (length blocks) < U64_MAX ->
  submit_all (commit_calls env s txs (Z.of_nat (length blocks))) (catalog b) = (Ret tt, c') ->
  exists b', addBlock env txs b = (Undef DivByZero, b') /\ backend_rep b' (blocks ++ [(e_millis env, txs)]).
Proof.
  intros Hr Hn Ht Hs Hv Hf Hms Hlen Hc.
  assert (duration_of env b = 0) as Hd by (unfold duration_of; by rewrite Ht, Z.sub_diag).
  destruct (addBlock_run b blocks [] env txs s v (Ret tt) c' (br_chain _ _ Hr)) as (b' & Hr' & Hts & _ & Hrun); try done.
  - rewrite Hd. unfold tooEarly. by rewrite Hn.
  - rewrite Hd in Hrun. cbn in Hrun. exists b'. split; [done|]. by apply backend_rep_snoc.
Qed.

(** The blocks read back: every block below the height returns the transactions it was
    committed with, and any other number throws [std::range_error]. *)
Theorem getBlock_correct b blocks n : backend_rep b blocks -> 0 <= n ->
  match blocks !! Z.to_nat n with
  | Some blk => exists b', getBlock n b = (Ret blk.2, b') /\ backend_rep b' blocks
  | None => getBlock n b = (Throw (range_error "Block number out of range"), b)
  end.
Proof.
  intros Hr Hn. destruct (blocks !! Z.to_nat n) as [blk|] eqn:Hb.
  - destruct (getBlock_spec b blocks _ blk Hr Hb) as (b' & Hg & Hr'). rewrite Z2Nat.id in Hg by done. eauto.
  - unfold getBlock. rewrite (br_height b blocks Hr). apply lookup_ge_None in Hb.
    by destruct (Z.leb_spec (Z.of_nat (length blocks)) n); [|lia].
Qed.

Lemma window_query_chain b blocks hidden fuel startMillis endMillis :
  chain_rep b blocks hidden -> in_u64 startMillis -> startMillis <= endMillis -> (length blocks < fuel)%nat ->
  exists bns j,
     getTransactionsByTimeWindow fuel startMillis endMillis b = (Ret (txs_of blocks bns), set_journal b j) /\
     chain_rep (set_journal b j) blocks hidden /\ NoDup bns /\ StronglySorted (earlier blocks) bns /\
     forall n, n ∈ bns <-> in_window blocks startMillis endMillis n /\ n ∉ hidden.
Proof.
  intros Hr Hst Hle Hf. unfold getTransactionsByTimeWindow. destruct (Z.ltb_spec endMillis startMillis); [lia|].
  destruct (window_numbers b blocks hidden fuel startMillis endMillis Hr Hst Hf) as (bns & Hw & Hnd & Hin & Hs).
  destruct (collect_loop_spec b blocks hidden bns [] Hr) as (j & Hc & Hr').
  { apply Forall_forall. intros n Hn. apply Hin in Hn as [(blk & Hblk & _) _]. by eapply lookup_lt_Some. }
  exists bns, j. split; [|done]. rewrite (prog_bind_Ret getS _ _ b b) by done. rewrite Hw.
  by rewrite (prog_bind_Ret _ _ _ (map Z.of_nat bns) b).
Qed.

Lemma window_query b blocks fuel startMillis endMillis :
  backend_rep b blocks -> in_u64 startMillis -> startMillis <= endMillis -> (length blocks < fuel)%nat ->
  exists bns b',
     getTransactionsByTimeWindow fuel startMillis endMillis b = (Ret (txs_of blocks bns), b') /\
     backend_rep b' blocks /\ NoDup bns /\ StronglySorted (earlier blocks) bns /\
     forall n, n ∈ bns <-> in_window blocks startMillis endMillis n.
Proof.
  intros [Hr Hl] Hst Hle Hf.
  destruct (window_query_chain b blocks [] fuel startMillis endMillis Hr Hst Hle Hf) as (bns & j & Hw & Hr' & Hnd & Hs & Hin).
  exists bns, (set_journal b j). split; [done|]. split; [by split|]. split; [done|]. split; [done|].
  intros n. rewrite Hin. split; [by intros [? _]|]. intros Hn. split; [done|apply not_elem_of_nil].
Qed.

(** The time-window query returns the transactions of exactly the blocks whose timestamp is in
    the closed window, block by block in the order of (timestamp, number), each block's in
    execution order; a reversed window throws [std::invalid_argument]. *)
Theorem getTransactionsByTimeWindow_correct b blocks fuel startMillis endMillis :
  backend_rep b blocks -> in_u64 startMillis -> (length blocks < fuel)%nat ->
  (endMillis < startMillis -> getTransactionsByTimeWindow fuel startMillis endMillis b =
     (Throw (invalid_argument "Start time must be before end time"), b)) /\
  (startMillis <= endMillis -> exists bns b',
     getTransactionsByTimeWindow fuel startMillis endMillis b = (Ret (txs_of blocks bns), b') /\
     backend_rep b' blocks /\ NoDup bns /\ StronglySorted (earlier blocks) bns /\
     forall n, n ∈ bns <-> in_window blocks startMillis endMillis n).
Proof.
  intros Hr Hst Hf. split; intros Hle; [|by apply window_query].
  unfold getTransactionsByTimeWindow. by destruct (Z.ltb_spec endMillis startMillis); [|lia].
Qed.
End Chain.

Section Checks.
Context {Tx W F Ix M J C T : Type}.
Context `{!IndexOverrideFamily F W Ix, !BlockchainIndex Ix, !Transaction Tx W (StateOverride F) M}.
Context `{!Journal J M Tx, !SegmentSink C, !BTree BlockTimestampTracker.block_timestamp_entry_t T}.
Implicit Types (b : Backend Tx F Ix M J C T) (txs : list Tx) (env : commit_env W).

(** C36: every refusal leaves the backend exactly as it was: [-1] for a block the cadence check
    holds back, the exception of a transaction that does not verify, and the division by
    zero of an empty block. *)
Theorem addBlock_refused b env txs s :
  (tooEarly (config b) (Z.of_nat (length txs)) (duration_of env b) = Ret true -> addBlock env txs b = (Ret (-1), b)) /\
  (tooEarly (config b) (Z.of_nat (length txs)) (duration_of env b) = Ret false ->
   newStateOverride b = Ret s -> verify_loop (e_verify env) s txs = Throw (runtime_error "Transaction verification failed") ->
   addBlock env txs b = (Throw (runtime_error "Transaction verification failed"), b)) /\
  (txs = [] -> addBlock env txs b = (Undef DivByZero, b)).
Proof.
  unfold addBlock. rewrite (prog_bind_Ret getS _ _ b b) by done. cbn beta zeta. fold (duration_of env b).
  split; [|split].
  - intros He. by rewrite He.
  - intros He Hs Hv. rewrite He, (prog_bind_Ret _ _ _ false b) by done.
    rewrite Hs, (prog_bind_Ret _ _ _ s b) by done. by rewrite Hv.
  - by intros ->.
Qed.

(** The cadence rule for a block of [n] transactions, other than a full one: it is held back
    until the block time has passed (target time times target throughput over [n], between
    100 ms and 10 minutes), whenever it is larger than a full block, and whenever it has more
    than 90 transactions and the last block is more than an hour old. *)
Theorem cadence cfg n d : 0 < n < 4294967296 -> n <> MAX_TX_PER_BLOCK ->
  in_u32 (targetBlockTimeMs cfg) -> in_u32 (targetThroughput cfg) ->
  tooEarly cfg n d = Ret true <->
    (d < 100 \/ (d < 600000 /\ d < targetBlockTimeMs cfg * targetThroughput cfg / n)) \/
    (3600000 < d /\ 90 < n) \/ 1024 < n.
Proof.
  intros Hn Hne H1 H2. unfold tooEarly. destruct (Z.eqb_spec n MAX_TX_PER_BLOCK); [done|]. cbn [negb].
  rewrite u32_small by word. destruct (Z.eqb_spec n 0); [lia|]. unfold blockTime.
  assert (0 <= targetBlockTimeMs cfg * targetThroughput cfg <= 18446744065119617025) as Hp by (unfold in_u32, U32_MAX in *; nia).
  rewrite u64_small by (unfold in_u64, U64_MAX; lia).
  change LONG_TIME_MILLIS with 3600000. change (WANTED_TX_PER_BLOCK / 2) with 90. change MAX_TX_PER_BLOCK with 1024 in *.
  set (q := targetBlockTimeMs cfg * targetThroughput cfg / n).
  transitivity ((d <? Z.max (Z.min q (600 * 1000)) 100) || ((3600000 <? d) && (90 <? n)) || (1024 <? n) = true).
  - split; [by intros [= ->]|by intros ->].
  - rewrite !orb_true_iff, andb_true_iff, !Z.ltb_lt. lia.
Qed.

(** C37: a backend whose last block is more than an hour old never accepts a block of more than 90
    transactions that is not completely full: every attempt, however often it is repeated and
    however long it waits, is refused and changes nothing.  On a new chain the last block
    counts as sealed in 1970. *)
Theorem addBlock_stuck b txs (envs : list (commit_env W)) :
  90 < Z.of_nat (length txs) < 4294967296 -> Z.of_nat (length txs) <> MAX_TX_PER_BLOCK ->
  Forall (fun env => LONG_TIME_MILLIS < duration_of env b) envs ->
  foldl (fun st env => let '(rs, b1) := st in let '(r, b2) := addBlock env txs b1 in (rs ++ [r], b2)) ([], b) envs =
    (map (fun _ => Ret (-1)) envs, b).
Proof.
  intros Hn Hne Henvs. set (step := fun st env => _).
  assert (forall rs, foldl step (rs, b) envs = (rs ++ map (fun _ => Ret (-1)) envs, b)) as H; [|apply H].
  induction Henvs as [|env envs Hd Henvs IH]; intros rs; [by cbn; rewrite app_nil_r|].
  cbn [foldl map]. unfold step at 2.
  assert (addBlock env txs b = (Ret (-1), b)) as ->.
  { unfold addBlock. rewrite (prog_bind_Ret getS _ _ b b) by done. cbn beta zeta. fold (duration_of env b).
    assert (tooEarly (config b) (Z.of_nat (length txs)) (duration_of env b) = Ret true) as ->; [|done].
    unfold tooEarly. destruct (Z.eqb_spec (Z.of_nat (length txs)) MAX_TX_PER_BLOCK); [done|]. cbn [negb].
    rewrite u32_small by word. destruct (Z.eqb_spec (Z.of_nat (length txs)) 0); [lia|].
    change (WANTED_TX_PER_BLOCK / 2) with 90.
    destruct (Z.ltb_spec LONG_TIME_MILLIS (duration_of env b)), (Z.ltb_spec 90 (Z.of_nat (length txs))); try lia.
    by rewrite orb_true_r. }
  rewrite IH. by rewrite <- app_assoc.
Qed.

(** The wiring of a backend that has just been constructed. *)
Lemma openBackend_wiring cfg isNew stored (j : J) (d : ChainDesign Tx F Ix M) (c : C) (tr : BlockTimestampTracker.tracker T) iregs oregs tregs :
  registers d iregs oregs tregs -> design_fits iregs oregs ->
  wired (attached_regs iregs) oregs (openBackend cfg isNew stored j d c tr).
Proof.
  intros [Hi Ho _] [Hfi Hfo Hlen].
  assert (fst <$> attached_regs iregs = fst <$> iregs) as Hk.
  { unfold attached_regs. apply list_eq. intros n. rewrite !list_lookup_fmap, list_lookup_imap. by destruct (iregs !! n) as [[]|]. }
  split; [cbn; rewrite Hi; by apply attachIndexes_regs|]. split; [done|]. rewrite Hk. split; [done|]. split; [done|].
  unfold attached_regs. by rewrite length_imap.
Qed.

(** Construction wires by position: the [n]-th registered index is attached under id [n], and
    in every fresh override the [n]-th family is a new instance attached to that index. *)
Theorem openBackend_wired cfg isNew stored (j : J) (d : ChainDesign Tx F Ix M) (c : C) (tr : BlockTimestampTracker.tracker T) iregs oregs tregs :
  registers d iregs oregs tregs -> design_fits iregs oregs ->
  let b := openBackend cfg isNew stored j d c tr in
  wired (attached_regs iregs) oregs b /\
  exists s, newStateOverride b = Ret s /\ has_layout (fst <$> oregs) s /\
    forall n k f, oregs !! n = Some (k, f) ->
      familyAt s (Z.of_nat n) = Ret match iregs !! n with Some (_, ix) => attach (W:=W) (ix_attach (Z.of_nat n) ix) f | None => f end.
Proof.
  intros Hd Hfit b. pose proof (openBackend_wiring cfg isNew stored j d c tr _ _ _ Hd Hfit) as Hw. fold b in Hw.
  split; [done|]. destruct (newStateOverride_wired _ _ _ Hw) as (s & Hs & Hl & Hf). exists s. split; [done|]. split; [done|].
  intros n k f Hn. rewrite (Hf n k f Hn). unfold fresh_family, attached_regs. rewrite list_lookup_imap.
  by destruct (iregs !! n) as [[]|].
Qed.

(** C26: typed access is typed: [index<T>(id)] gives the [id]-th index the design registered under
    [T], attached under its position among all indexes, and null for any other type or id; a
    type id resolves to the factory the design registered last for it. *)
Theorem openBackend_typed cfg isNew stored (j : J) (d : ChainDesign Tx F Ix M) (c : C) (tr : BlockTimestampTracker.tracker T) iregs oregs tregs :
  registers d iregs oregs tregs -> design_fits iregs oregs ->
  let b := openBackend cfg isNew stored j d c tr in
  (forall k id, in_u8 id -> index b k id = of_key k (attached_regs iregs) !! Z.to_nat id) /\
  (forall k id ix, in_u8 id -> index b k id = Some ix ->
     exists n ix0, iregs !! n = Some (k, ix0) /\ ix = ix_attach (Z.of_nat n) ix0) /\
  (forall typeId, getFactory (getTransactionTypeRegistry b) typeId = factory_of tregs typeId).
Proof.
  intros Hd Hfit b. destruct (openBackend_wiring cfg isNew stored j d c tr _ _ _ Hd Hfit) as (Hix & _). fold b in Hix.
  assert (forall k id, in_u8 id -> index b k id = of_key k (attached_regs iregs) !! Z.to_nat id) as H.
  { intros k id Hid. unfold index. rewrite Hix. by apply getIndex_key. }
  split; [done|]. split.
  - intros k id ix Hid. rewrite H by done. intros Hin%list_elem_of_lookup_2. apply of_key_elem in Hin.
    apply list_elem_of_lookup in Hin as [n Hn]. unfold attached_regs in Hn. rewrite list_lookup_imap in Hn.
    destruct (iregs !! n) as [[k0 ix0]|] eqn:E; [|done]. cbn in Hn. injection Hn as -> <-. eauto.
  - intros typeId. cbn. rewrite (reg_types _ _ _ _ Hd). apply registerTypes_getFactory.
Qed.

(** An index without an override family beside it is never written. *)
Theorem unpaired_index_unwritten (iregs : list (TypeKey * Ix)) (oregs : list (TypeKey * F)) env s txs bn n :
  (length oregs <= n)%nat ->
  Forall (fun a => ea_indexId a <> Z.of_nat n) (commit_calls (M:=M) iregs oregs env s txs bn).
Proof.
  intros Hn. apply Forall_forall. intros a Ha. unfold commit_calls in Ha. apply list_elem_of_omap in Ha as (i & Hi & Ha).
  apply elem_of_seq in Hi. unfold seal_call in Ha. destruct (familyAt _ _); try done. destruct (iregs !! i) as [[? ?]|]; [|done].
  destruct (seal _ _); [done|]. injection Ha as <-. cbn. lia.
Qed.
End Checks.
