(* ===== verification/Frontend.v ===== *)
(** * BlockchainFrontend

    The application's handle on the chain (src/src/blockchain/BlockchainFrontend.h and
    .cpp): the mempool with its speculative state, the block-builder thread, the queries
    and the file the mempool survives in.  The builder thread and the application interleave
    at the critical sections of [mempoolMutex]: a step relation. *)

From S2P Require Import Prelude Excessive Memory Transaction Registry StateOverride MEVBuilder Journal CatalogFile Backend BackendCorrect.
From S2P Require BlockTimestampTracker.

(** Mapping a file with the given bytes, the cursor at its start. *)
Class FileMapping (M : Type) := { map_file : list Z -> M }.
Class FileMappingLaws (M : Type) `{!MmapHandle M, !FileMapping M} : Prop := {
  map_file_law bs : let m : M := map_file bs in
    mm_size m = Z.of_nat (length bs) /\ mm_tell m = 0 /\ mm_load m 0 (length bs) = bs;
}.

Section Frontend.
Context {Tx W F Ix M J C T : Type}.
Context `{!MmapHandle M, !FileMapping M}.
Context `{!IndexOverrideFamily F W Ix, !BlockchainIndex Ix, !Transaction Tx W (StateOverride F) M}.
Context `{!Journal J M Tx, !SegmentSink C, !BTree BlockTimestampTracker.block_timestamp_entry_t T}.
Abbreviation Backend := (Backend Tx F Ix M J C T).

Record Frontend := { fe_state : StateOverride F; mempool : list Tx }.

Definition getMempoolSize (fe : Frontend) : Z := Z.of_nat (length (mempool fe)).

Definition sendTransaction (w : W) (tx : Tx) (fe : Frontend) : Frontend :=
  {| fe_state := applied w (fe_state fe) tx; mempool := mempool fe ++ [tx] |}.

Definition rebuildSpeculativeState (w : W) (backend : Backend) (fe : Frontend) : outcome Frontend :=
  s ← newStateOverride backend;
  mret {| fe_state := foldl (applied w) s (mempool fe); mempool := mempool fe |}.

(** ** The builder thread *)

(** The first critical section: [toBuild] and the mempool left; [now] gives the clock
    readings inside [buildBlock], [millis] the one before it. *)
Definition build_section (fuel : nat) (now : nat -> Z) (millis : Z) (w : W) (config : BlockchainConfig)
    (backend : Backend) (fe : Frontend) : outcome (list Tx * Frontend) :=
  let deadline := u64 (millis + 10) in
  if (0 <? length (mempool fe))%nat then
    fresh ← newStateOverride backend;
    '(toBuild, pool) ← buildBlock fuel now w fresh (mempool fe) (u16 (targetThroughput config)) deadline;
    mret (toBuild, {| fe_state := fe_state fe; mempool := pool |})
  else mret ([], fe).

(** The second one, after [addBlock] has returned [blockNumber]. *)
Definition finish_section (w : W) (blockNumber : Z) (toBuild : list Tx) (backend : Backend) (fe : Frontend) : outcome Frontend :=
  if blockNumber =? -1 then mret {| fe_state := fe_state fe; mempool := mempool fe ++ toBuild |}
  else rebuildSpeculativeState w backend fe.

(** Where the thread is. *)
Inductive phase :=
| Idle
| Building (toBuild : list Tx)
| Finishing (toBuild : list Tx) (blockNumber : Z).

(** [sent] and [committed] record the history. *)
Record chain := {
  ch_fe : Frontend;
  ch_backend : Backend;
  ch_phase : phase;
  ch_sent : list Tx;
  ch_committed : list Tx;
}.

Inductive chain_step (config : BlockchainConfig) : chain -> chain -> Prop :=
| step_send w tx fe b ph snt com :
    chain_step config {| ch_fe := fe; ch_backend := b; ch_phase := ph; ch_sent := snt; ch_committed := com |}
      {| ch_fe := sendTransaction w tx fe; ch_backend := b; ch_phase := ph; ch_sent := snt ++ [tx]; ch_committed := com |}
| step_build fuel now millis w fe fe' toBuild b snt com :
    (length (mempool fe) < fuel)%nat ->
    build_section fuel now millis w config b fe = Ret (toBuild, fe') ->
    chain_step config {| ch_fe := fe; ch_backend := b; ch_phase := Idle; ch_sent := snt; ch_committed := com |}
      {| ch_fe := fe'; ch_backend := b; ch_phase := match toBuild with [] => Idle | _ => Building toBuild end;
         ch_sent := snt; ch_committed := com |}
| step_addBlock env fe toBuild b b' n snt com :
    addBlock env toBuild b = (Ret n, b') ->
    chain_step config {| ch_fe := fe; ch_backend := b; ch_phase := Building toBuild; ch_sent := snt; ch_committed := com |}
      {| ch_fe := fe; ch_backend := b'; ch_phase := Finishing toBuild n; ch_sent := snt;
         ch_committed := if n =? -1 then com else com ++ toBuild |}
| step_finish w fe fe' toBuild b n snt com :
    finish_section w n toBuild b fe = Ret fe' ->
    chain_step config {| ch_fe := fe; ch_backend := b; ch_phase := Finishing toBuild n; ch_sent := snt; ch_committed := com |}
      {| ch_fe := fe'; ch_backend := b; ch_phase := Idle; ch_sent := snt; ch_committed := com |}.

(** The transactions the builder thread holds. *)
Definition in_hand (ph : phase) : list Tx :=
  match ph with
  | Idle => []
  | Building toBuild => toBuild
  | Finishing toBuild n => if n =? -1 then toBuild else []
  end.

(** ** The mempool file *)

(** The bytes of mempool.bin after [saveMempool]. *)
Definition saveMempool (fe : Frontend) : list Z :=
  let count := u32 (Z.of_nat (length (mempool fe))) in
  let totalSize := u64 (foldl (fun n tx => n + tx_size tx) 0 (mempool fe)) in
  if 0 <? totalSize then
    let m : M := map_file (le_encode 4 count ++ replicate (Z.to_nat totalSize) 0) in
    let m := mm_seek m 4 in
    let m := write_all (mempool fe) m in
    mm_load m 0 (4 + Z.to_nat totalSize)
  else le_encode 4 count.

Fixpoint load_loop (w : W) (reg : TransactionTypeRegistry M Tx) (n : nat) (fe : Frontend) : prog M Frontend :=
  match n with
  | O => mret fe
  | S n =>
      tx ← read reg;
      load_loop w reg n
        match tx with
        | Some tx => {| fe_state := applied w (fe_state fe) tx; mempool := mempool fe ++ [tx] |}
        | None => fe
        end
  end.

Definition loadMempool (w : W) (backend : Backend) (file : list Z) (fe : Frontend) : outcome Frontend :=
  let reg := getTransactionTypeRegistry backend in
  if (length file <? 4)%nat then mret fe
  else
    let count := le_decode (take 4 file) in
    if count =? 0 then mret fe
    else if (length file <=? 4)%nat then mret fe
    else fst (load_loop w reg (Z.to_nat count) fe (mm_seek (map_file file) 4)).

(** The constructor: [file] is mempool.bin if it can be opened. *)
Definition openFrontend (w : W) (backend : Backend) (file : option (list Z)) : outcome Frontend :=
  s ← newStateOverride backend;
  let fe := {| fe_state := s; mempool := [] |} in
  match file with
  | Some bytes => loadMempool w backend bytes fe
  | None => mret fe
  end.

(** ** Queries *)

Definition getTransactionById (id : Z) : prog Backend (option Tx) :=
  let blockNumber := Z.shiftr id 20 in
  let txIndex := Z.land id 1048575 in
  transactions ← getBlock blockNumber;
  if txIndex <? u32 (Z.of_nat (length transactions)) then mret (transactions !! Z.to_nat txIndex)
  else mret None.

(** The three parts of a time-window query: the time of the chain, the mempool under its mutex,
    and the backend.  Nothing keeps the builder thread from running between them;
    LedgerRefinement.v has both the parts one by one and the whole. *)
Definition windowPending (startMillis endMillis : Z) (fe : Frontend) : list Tx :=
  filter (fun tx => startMillis <= tx_getTimestamp tx /\ tx_getTimestamp tx <= endMillis) (mempool fe).

Definition getTransactionsByTimeWindow (fuel : nat) (startMillis endMillis : Z) (fe : Frontend) : prog Backend (list Tx) :=
  backend ← getS;
  let results :=
    if getLastBlockTimestamp backend <? endMillis then windowPending startMillis endMillis fe else [] in
  more ← Backend.getTransactionsByTimeWindow fuel startMillis endMillis;
  mret (results ++ more).

(** ** Lemmas *)

Lemma build_section_spec fuel now millis w config (b : Backend) fe toBuild fe' :
  (length (mempool fe) < fuel)%nat -> build_section fuel now millis w config b fe = Ret (toBuild, fe') ->
  mempool fe ≡ₚ toBuild ++ mempool fe' /\ mempool fe' `sublist_of` mempool fe /\ fe_state fe' = fe_state fe /\
  Z.of_nat (length toBuild) <= u16 (targetThroughput config).
Proof.
  intros Hf. unfold build_section. destruct (Nat.ltb_spec 0 (length (mempool fe))) as [Hlt|Hge].
  2:{ intros [= <- <-]. split; [done|]. split; [done|]. split; [done|]. cbn. apply u16_range. }
  destruct (newStateOverride b) as [fresh| | |]; cbn; try discriminate.
  destruct (buildBlock_spec (M:=M) fuel now w fresh (mempool fe) (u16 (targetThroughput config)) (u64 (millis + 10)))
    as (sel & idxs & Hb & Hr & Hlen & _); [apply u16_range|done|].
  rewrite Hb. cbn. intros [= <- <-]. destruct (greedy_run_facts _ _ _ _ _ Hr) as [Hnd Hf2]. cbn [mempool fe_state].
  split; [by apply keep_perm|]. split; [apply keep_from_sublist|done].
Qed.

Lemma finish_section_mempool w n toBuild (b : Backend) fe fe' : finish_section w n toBuild b fe = Ret fe' ->
  mempool fe' = mempool fe ++ (if n =? -1 then toBuild else []).
Proof.
  unfold finish_section. destruct (n =? -1); [by intros [= <-]|]. unfold rebuildSpeculativeState.
  destruct (newStateOverride b); cbn; try discriminate. intros [= <-]. cbn. by rewrite app_nil_r.
Qed.

(** Every transaction that was sent is in exactly one place. *)
Definition accounted (c : chain) : Prop :=
  ch_sent c ≡ₚ mempool (ch_fe c) ++ in_hand (ch_phase c) ++ ch_committed c.

(** A step adds [s] to what was sent and [k] to what is committed, and every transaction stays
    in one place. *)
Lemma chain_step_flow config c c' : chain_step config c c' -> exists s k,
  ch_sent c' = ch_sent c ++ s /\ ch_committed c' = ch_committed c ++ k /\
  mempool (ch_fe c) ++ in_hand (ch_phase c) ++ s ≡ₚ mempool (ch_fe c') ++ in_hand (ch_phase c') ++ k.
Proof.
  destruct 1 as [w tx fe b ph snt com|fuel now millis w fe fe' toBuild b snt com Hf Hb|
    env fe toBuild b b' n snt com Ha|w fe fe' toBuild b n snt com Hfin]; cbn.
  - exists [tx], []. rewrite !app_nil_r, <- app_assoc. split; [done|]. split; [done|]. apply Permutation_app_head, Permutation_app_comm.
  - exists [], []. rewrite !app_nil_r. split; [done|]. split; [done|]. apply build_section_spec in Hb as (Hp & _); [|done].
    rewrite Hp, (Permutation_app_comm toBuild). by destruct toBuild.
  - exists [], (if n =? -1 then [] else toBuild). rewrite !app_nil_r. destruct (n =? -1); by rewrite ?app_nil_r.
  - exists [], []. rewrite !app_nil_r. apply finish_section_mempool in Hfin as ->. by destruct (n =? -1).
Qed.

Lemma chain_step_accounted config c c' : chain_step config c c' -> accounted c -> accounted c'.
Proof.
  intros (s & k & Hs & Hk & Hp)%chain_step_flow. unfold accounted. rewrite Hs, Hk. intros ->.
  rewrite <- !app_assoc, (Permutation_app_comm _ s), !app_assoc, <- (app_assoc (mempool _) _ s), Hp, <- !app_assoc.
  do 2 apply Permutation_app_head. apply Permutation_app_comm.
Qed.

Lemma chain_steps_flow config c c' : rtc (chain_step config) c c' -> exists s k,
  ch_sent c' = ch_sent c ++ s /\ ch_committed c' = ch_committed c ++ k /\
  mempool (ch_fe c) ++ in_hand (ch_phase c) ++ s ≡ₚ mempool (ch_fe c') ++ in_hand (ch_phase c') ++ k.
Proof.
  induction 1 as [c|c1 c2 c3 Hs _ (s2 & k2 & -> & -> & Hp2)]; [exists [], []; by rewrite !app_nil_r|].
  destruct (chain_step_flow _ _ _ Hs) as (s1 & k1 & -> & -> & Hp1). exists (s1 ++ s2), (k1 ++ k2). rewrite <- !app_assoc.
  split; [done|]. split; [done|]. rewrite (app_assoc (in_hand (ch_phase c1))), app_assoc, Hp1, <- !app_assoc.
  rewrite (Permutation_app_comm k1 s2), (app_assoc (in_hand (ch_phase c2))), app_assoc, Hp2, <- !app_assoc.
  do 2 apply Permutation_app_head. apply Permutation_app_comm.
Qed.

Lemma chain_steps_accounted config c c' : rtc (chain_step config) c c' -> accounted c -> accounted c'.
Proof. induction 1 as [|c1 c2 c3 Hs Hr IH]; [done|]. intros Ha. by eapply IH, chain_step_accounted. Qed.

(** *** The mempool file *)
Context (enc : Tx -> list Z) `{!MmapLaws M, !FileMappingLaws M, !TransactionEncoding enc}.

Lemma sizes_enc (txs : list Tx) n : foldl (fun n tx => n + tx_size tx) n txs = n + Z.of_nat (length (enc_all enc txs)).
Proof.
  revert n. induction txs as [|tx txs IH]; intros n; cbn [foldl]; [cbn; lia|].
  rewrite IH, (size_enc (enc:=enc)). unfold enc_all; cbn [map concat]. rewrite length_app. lia.
Qed.

Lemma enc_all_nil_inv (txs : list Tx) : length (enc_all enc txs) = 0%nat -> txs = [].
Proof.
  destruct txs as [|tx txs]; [done|]. unfold enc_all; cbn [map concat]. rewrite length_app.
  destruct (enc_type_id (enc:=enc) tx) as [body ->]. cbn. lia.
Qed.

Lemma length_txs_enc (txs : list Tx) : (length txs <= length (enc_all enc txs))%nat.
Proof.
  induction txs as [|tx txs IH]; [done|]. unfold enc_all in *; cbn [map concat length]. rewrite length_app.
  destruct (enc_type_id (enc:=enc) tx) as [body ->]. cbn [length]. lia.
Qed.

(** Transactions written behind the count of a file of zeros. *)
Lemma written_bytes (h : list Z) txs total : length h = 4%nat -> (length (enc_all enc txs) <= total)%nat ->
  mm_load (write_all txs (mm_seek (map_file (h ++ replicate total 0) : M) 4)) 0 (4 + total) =
    h ++ enc_all enc txs ++ replicate (total - length (enc_all enc txs)) 0.
Proof.
  intros Hh Hle. set (bs := enc_all enc txs) in *. set (file := h ++ replicate total 0).
  assert (length file = (4 + total)%nat) as Hf by (unfold file; by rewrite length_app, length_replicate, Hh).
  destruct (map_file_law (M:=M) file) as (Hs & Ht & Hl). set (m := map_file file : M) in *.
  destruct (mm_seek_law m 4) as (Hs1 & Ht1 & _); [lia|].
  assert (mm_wrote (mm_seek m 4) bs (write_all txs (mm_seek m 4))) as Hw by (apply (write_all_wrote enc); fold bs; lia).
  rewrite Hf in Hl. replace total with (length bs + (total - length bs))%nat in Hl |- * at 1 by lia.
  rewrite !mm_load_app in Hl |- *. change (0 + Z.of_nat 4) with 4 in *. unfold file in Hl.
  replace (replicate total 0) with (replicate (length bs) 0 ++ replicate (total - length bs) 0) in Hl by (rewrite <- replicate_add; f_equal; lia).
  apply app_inj_1 in Hl as [Hl1 Hl2]; [|by rewrite length_mm_load].
  apply app_inj_1 in Hl2 as [_ Hl2]; [|by rewrite length_mm_load, length_replicate]. f_equal; [|f_equal].
  - rewrite (mm_wrote_load_disj _ _ _ _ _ Hw) by lia. by rewrite mm_seek_load by lia.
  - pose proof (mm_wrote_load _ _ _ Hw) as Hwl. by rewrite Ht1 in Hwl.
  - rewrite (mm_wrote_load_disj _ _ _ _ _ Hw) by lia. by rewrite mm_seek_load by lia.
Qed.

(** The saved file is the count followed by the transactions. *)
Lemma saveMempool_bytes (fe : Frontend) : Z.of_nat (length (enc_all enc (mempool fe))) <= U32_MAX ->
  saveMempool fe = le_encode 4 (u32 (Z.of_nat (length (mempool fe)))) ++ enc_all enc (mempool fe).
Proof.
  intros Hsz. unfold saveMempool. rewrite sizes_enc, Z.add_0_l, u64_small by word. set (bs := enc_all enc (mempool fe)) in *.
  destruct (Z.ltb_spec 0 (Z.of_nat (length bs))) as [Hlt|Hge].
  2:{ destruct bs as [|z bs]; [by rewrite app_nil_r|cbn in Hge; lia]. }
  rewrite Nat2Z.id, written_bytes by (done || apply length_le_encode). fold bs. by rewrite Nat.sub_diag, app_nil_r.
Qed.

Lemma load_loop_enc w reg `{!TransactionCodec enc reg} txs m fe : at_txs enc m txs ->
  exists m', load_loop w reg (length txs) fe m =
    (Ret {| fe_state := foldl (applied w) (fe_state fe) txs; mempool := mempool fe ++ txs |}, m') /\
    mm_advanced m (length (enc_all enc txs)) m'.
Proof.
  revert m fe. induction txs as [|tx txs IH]; intros m fe Hat; cbn [length load_loop].
  - exists m. cbn. rewrite app_nil_r. split; [by destruct fe|apply mm_advanced_refl].
  - destruct (read_enc_cons enc reg tx txs m Hat) as (m1 & Hr1 & Ha1 & Hat1).
    destruct (IH m1 {| fe_state := applied w (fe_state fe) tx; mempool := mempool fe ++ [tx] |} Hat1) as (m2 & Hr2 & Ha2).
    exists m2. rewrite (prog_bind_Ret _ _ _ _ _ Hr1), Hr2. cbn [mempool fe_state foldl]. rewrite <- app_assoc. split; [done|].
    unfold enc_all. cbn [map concat]. rewrite length_app. by eapply mm_advanced_trans.
Qed.

Lemma load_saved w (b : Backend) `{!TransactionCodec enc (txTypes b)} txs fe : Z.of_nat (length (enc_all enc txs)) <= U32_MAX ->
  Z.of_nat (length txs) <= U32_MAX ->
  loadMempool w b (le_encode 4 (u32 (Z.of_nat (length txs))) ++ enc_all enc txs) fe =
    Ret {| fe_state := foldl (applied w) (fe_state fe) txs; mempool := mempool fe ++ txs |}.
Proof.
  intros Hsz Hcnt. unfold loadMempool, getTransactionTypeRegistry. rewrite u32_small by (word_unfold; lia). set (h := le_encode 4 _).
  set (bs := enc_all enc txs) in *. assert (length h = 4%nat) as Hh by apply length_le_encode.
  rewrite length_app, Hh. change (4 + length bs <? 4)%nat with (length bs <? 0)%nat.
  destruct (Nat.ltb_spec (length bs) 0); [lia|]. rewrite take_app_length' by done.
  unfold h at 1 2. rewrite !le_decode_encode by (change (256 ^ Z.of_nat 4) with 4294967296; word_unfold; lia). rewrite Nat2Z.id.
  destruct (Z.eqb_spec (Z.of_nat (length txs)) 0) as [H0|H0].
  { destruct txs as [|tx txs]; [|cbn in H0; lia]. cbn. rewrite app_nil_r. by destruct fe. }
  destruct (Nat.leb_spec (4 + length bs) 4) as [Hle|Hgt].
  { exfalso. assert (txs = []) as -> by (apply enc_all_nil_inv; fold bs; lia). done. }
  destruct (map_file_law (M:=M) (h ++ bs)) as (Hs & Ht & Hl). set (m := map_file (h ++ bs) : M) in *.
  rewrite length_app, Hh in Hs, Hl. destruct (mm_seek_law m 4) as (Hs1 & Ht1 & _); [lia|].
  destruct (load_loop_enc w (txTypes b) txs (mm_seek m 4) fe) as (m' & Hr & _).
  - split; [lia|]. fold bs. split; [lia|]. rewrite Ht1, mm_seek_load by lia. rewrite mm_load_app in Hl.
    apply app_inj_1 in Hl as [_ Hl]; [done|by rewrite length_mm_load].
  - by rewrite Hr.
Qed.
End Frontend.
Arguments Frontend : clear implicits.

Section Theorems.
Context {Tx W F Ix M J C T : Type}.
Context `{!MmapHandle M, !FileMapping M, !MmapLaws M, !FileMappingLaws M}.
Context `{!IndexOverrideFamily F W Ix, !BlockchainIndex Ix, !Transaction Tx W (StateOverride F) M}.
Context `{!Journal J M Tx, !JournalLaws J M Tx, !SegmentSink C}.
Context `{!BTree BlockTimestampTracker.block_timestamp_entry_t T, !BTreeLaws BlockTimestampTracker.compare}.

(** C21: no transaction is lost or duplicated between the application and the builder thread:
    under every interleaving of submissions with the thread's sections, rejected blocks
    included, the transactions sent are exactly those in the mempool, those the thread holds
    and those committed. *)
Theorem no_transaction_lost config (c c' : chain (Tx:=Tx) (F:=F) (Ix:=Ix) (M:=M) (J:=J) (C:=C) (T:=T)) :
  accounted c -> rtc (chain_step (W:=W) config) c c' ->
  ch_sent c' ≡ₚ mempool (ch_fe c') ++ in_hand (ch_phase c') ++ ch_committed c'.
Proof. intros Ha Hs. by apply (chain_steps_accounted config c c'). Qed.

(** The mempool survives a restart: the file written at shutdown loads back the same
    transactions in the same order, each applied once, in order, to the speculative state. *)
Theorem mempool_roundtrip (enc : Tx -> list Z) (b : Backend Tx F Ix M J C T) `{!TransactionCodec enc (txTypes b)}
    (w : W) (fe : Frontend Tx F) s :
  Z.of_nat (length (enc_all enc (mempool fe))) <= U32_MAX -> newStateOverride b = Ret s ->
  openFrontend w b (Some (saveMempool fe)) = Ret {| fe_state := foldl (applied w) s (mempool fe); mempool := mempool fe |}.
Proof.
  intros Hsz Hs. unfold openFrontend. rewrite Hs. cbn.
  rewrite (saveMempool_bytes enc) by done. rewrite (load_saved enc) by
    (done || (pose proof (length_txs_enc enc (mempool fe)); lia)). done.
Qed.

(** The speculative state is the committed state with the mempool applied in order: sending a
    transaction keeps it so, and after a commit it is rebuilt to be so. *)
Theorem speculative_state (w : W) (b : Backend Tx F Ix M J C T) (fe : Frontend Tx F) tx n toBuild s :
  (fe_state fe = foldl (applied (M:=M) w) s (mempool fe) ->
   fe_state (sendTransaction w tx fe) = foldl (applied (M:=M) w) s (mempool (sendTransaction w tx fe))) /\
  (n <> -1 -> newStateOverride b = Ret s ->
   exists fe', finish_section w n toBuild b fe = Ret fe' /\ mempool fe' = mempool fe /\
     fe_state fe' = foldl (applied (M:=M) w) s (mempool fe')).
Proof.
  split.
  - intros Hs. cbn. by rewrite foldl_snoc, Hs.
  - intros Hn Hs. unfold finish_section. destruct (Z.eqb_spec n (-1)); [done|].
    unfold rebuildSpeculativeState. rewrite Hs. eexists. done.
Qed.

(** After a rejected block the speculative state is still the replay of the mempool as it was
    before the block was picked, while the mempool itself now has the picked transactions at
    its end: the two orders differ. *)
Theorem rejection_reorders fuel now millis (w : W) config (b b' : Backend Tx F Ix M J C T) (fe fe1 fe2 : Frontend Tx F) toBuild s :
  (length (mempool fe) < fuel)%nat -> fe_state fe = foldl (applied (M:=M) w) s (mempool fe) ->
  build_section fuel now millis w config b fe = Ret (toBuild, fe1) ->
  finish_section w (-1) toBuild b' fe1 = Ret fe2 ->
  fe_state fe2 = foldl (applied (M:=M) w) s (mempool fe) /\
  mempool fe2 = mempool fe1 ++ toBuild /\ mempool fe1 `sublist_of` mempool fe /\ mempool fe2 ≡ₚ mempool fe.
Proof.
  intros Hf Hs Hb Hfin. destruct (build_section_spec _ _ _ _ _ _ _ _ _ Hf Hb) as (Hp & Hsub & Hst & _).
  cbn in Hfin. injection Hfin as <-. cbn. split; [by rewrite Hst|]. split; [done|]. split; [done|].
  rewrite Hp. apply Permutation_app_comm.
Qed.

(** A block leaves the mempool with at most [targetThroughput mod 2^16] transactions: the
    32-bit setting is passed through a 16-bit parameter. *)
Theorem block_size_truncated fuel now millis (w : W) config (b : Backend Tx F Ix M J C T) (fe fe1 : Frontend Tx F) toBuild :
  (length (mempool fe) < fuel)%nat ->
  build_section (M:=M) fuel now millis w config b fe = Ret (toBuild, fe1) ->
  Z.of_nat (length toBuild) <= targetThroughput config mod 65536.
Proof. intros Hf Hb. by apply build_section_spec in Hb as (_ & _ & _ & ?). Qed.

(** A transaction is found by the id made of its block number and its position: [id] is
    [blockNumber * 2^20 + position]; a position past the end gives null, and a block that
    does not exist throws. *)
Theorem getTransactionById_correct iregs oregs (b : Backend Tx F Ix M J C T) (blocks : list (Z * list Tx)) blockNumber position :
  backend_rep iregs oregs b blocks -> 0 <= blockNumber -> 0 <= position < 1048576 ->
  let id := blockNumber * 1048576 + position in
  match blocks !! Z.to_nat blockNumber with
  | Some blk => Z.of_nat (length blk.2) <= U16_MAX ->
      exists b', getTransactionById id b = (Ret (blk.2 !! Z.to_nat position), b') /\ backend_rep iregs oregs b' blocks
  | None => getTransactionById id b = (Throw (range_error "Block number out of range"), b)
  end.
Proof.
  intros Hr Hn Hp. cbn zeta. unfold getTransactionById.
  rewrite Z.shiftr_div_pow2 by lia. change 1048575 with (Z.ones 20). rewrite Z.land_ones by lia.
  change (2 ^ 20) with 1048576. rewrite Z.div_add_l, Z.div_small, Z.add_0_r by lia.
  rewrite (Z.add_comm _ position), Z.mod_add, Z.mod_small by lia.
  destruct (blocks !! Z.to_nat blockNumber) as [blk|] eqn:Hb.
  - intros Hlen. destruct (getBlock_spec iregs oregs b blocks _ blk Hr Hb) as (b' & Hg & Hr').
    rewrite Z2Nat.id in Hg by done. exists b'. split; [|done]. rewrite (prog_bind_Ret _ _ _ _ _ Hg).
    rewrite u32_small by word. destruct (Z.ltb_spec position (Z.of_nat (length blk.2))); [done|].
    rewrite (lookup_ge_None_2 blk.2) by lia. done.
  - unfold mbind, prog_bind, getBlock. rewrite (br_height _ _ b blocks Hr). apply lookup_ge_None in Hb.
    by destruct (Z.leb_spec (Z.of_nat (length blocks)) blockNumber); [|lia].
Qed.

(** The frontend's window query returns the pending transactions of the window, if the window
    ends after the last block, followed by the committed ones. *)
Theorem frontend_window iregs oregs (b : Backend Tx F Ix M J C T) (blocks : list (Z * list Tx)) (fe : Frontend Tx F) fuel startMillis endMillis :
  backend_rep iregs oregs b blocks -> in_u64 startMillis -> startMillis <= endMillis -> (length blocks < fuel)%nat ->
  exists bns b',
    Frontend.getTransactionsByTimeWindow (M:=M) fuel startMillis endMillis fe b =
      (Ret ((if default 0 (fst <$> last blocks) <? endMillis
             then filter (fun tx => startMillis <= tx_getTimestamp tx /\ tx_getTimestamp tx <= endMillis) (mempool fe) else [])
            ++ txs_of blocks bns), b') /\
    backend_rep iregs oregs b' blocks /\ forall n, n ∈ bns <-> in_window blocks startMillis endMillis n.
Proof.
  intros Hr Hst Hle Hf.
  destruct (window_query iregs oregs b blocks fuel startMillis endMillis Hr Hst Hle Hf) as (bns & b' & Hw & Hr' & _ & _ & Hin).
  exists bns, b'. split; [|done]. unfold Frontend.getTransactionsByTimeWindow.
  rewrite (prog_bind_Ret getS _ _ b b) by done. rewrite (prog_bind_Ret _ _ _ _ _ Hw).
  unfold getLastBlockTimestamp. by rewrite (br_last _ _ b blocks Hr).
Qed.
End Theorems.
