(* ===== verification/TestBackend.v ===== *)
(** * TestBackend

    The test chain design on the whole library: a backend on empty files and a frontend,
    with a catalog that records the segments it is given.  The theorems of BackendCorrect
    and Frontend are applied to it. *)

From S2P Require Import Prelude Excessive Memory Transaction Registry StateOverride ChainDesign TestChainDesign MEVBuilder.
From S2P Require Import EpochFile Journal CatalogFile Backend BackendCorrect Frontend.
From S2P Require BlockTimestampTracker.

#[local] Existing Instance BlockTimestampTracker.tracker_BTree.
#[local] Existing Instance BlockTimestampTracker.tracker_BTreeLaws.
#[local] Instance tb_Journal : Journal (gmap string bytemap) bytemap TestTransaction := EpochFiles_Journal sample_newFile opens_all.
#[local] Instance tb_JournalLaws : JournalLaws (gmap string bytemap) bytemap TestTransaction :=
  EpochFiles_JournalLaws sample_newFile opens_all tt_enc (fun _ => eq_refl).

(** [TestSumIndex] as a [BlockchainIndex]. *)
#[local] Instance tb_Index : BlockchainIndex TestSumIndex := {|
  ix_encodingVersion := TestChainDesign.encodingVersion;
  ix_attach := fun indexId ix => {| attachedCatalog := true; attachedIndexId := indexId |};
|}.

(** A catalog that records, and one whose disk is full. *)
#[local] Instance tb_Sink : SegmentSink (list entry_args) := {| cat_writeSegment := fun a => modifyS (fun l => l ++ [a]) |}.
Definition no_space : exn := runtime_error "Unable to find a catalog file to write a segment too.  Errno: No space left on device".
#[local] Instance tb_full_Sink : SegmentSink unit := {| cat_writeSegment := fun a => throw no_space |}.

#[local] Instance tb_FileMapping : FileMapping bytemap := {| map_file := fun bs => Bytemap (Z.of_nat (length bs)) 0 (bm_put ∅ 0 bs) |}.
#[local] Instance tb_FileMappingLaws : FileMappingLaws bytemap.
Proof.
  split. intros bs. split; [done|]. split; [done|]. unfold mm_load; cbn.
  rewrite (mem_load_ext _ (mem_upd (fun i => default 0 ((∅ : gmap Z Z) !! i)) 0 bs)) by (intros; apply bm_put_upd).
  apply mem_load_upd_same.
Qed.

Definition tb_backend (C : Type) : Type := Backend TestTransaction TestSumOverrideFamily TestSumIndex bytemap (gmap string bytemap) C (list BlockTimestampTracker.block_timestamp_entry_t).

Definition tb_open {C} (c : C) : tb_backend C :=
  openBackend defaultConfig true {| lastBlockTimestamp := 0; currentBlockHeight := 0 |} ∅
    (testDesign 0) c (BlockTimestampTracker.openTracker []).

Definition tb_design_indexes : list (TypeKey * TestSumIndex) := [(indexKey, newTestSumIndex)].
Definition tb_iregs : list (TypeKey * TestSumIndex) := attached_regs tb_design_indexes.
Definition tb_oregs : list (TypeKey * TestSumOverrideFamily) := [(familyKey, newTestSumOverrideFamily)].

Lemma tb_apply_layout {M} `{!MmapHandle M} ks (w : TestWorld) (s : TestState) (tx : TestTransaction) :
  has_layout ks s -> has_layout ks (applied (M:=M) w s tx).
Proof.
  intros Hs. unfold applied; cbn. unfold tt_apply, overrideUpd.
  destruct (family_at s familyKey 0); cbn; try done. by apply family_set_layout.
Qed.

Lemma one_fits {A} (x : TypeKey * A) : ids_fit (fst <$> [x]).
Proof. apply ids_fit_short. cbn. lia. Qed.

Lemma tb_wired {C} (c : C) : wired tb_iregs tb_oregs (tb_open c).
Proof.
  split; [reflexivity|]. split; [reflexivity|]. split; [apply one_fits|]. split; [apply one_fits|]. cbn. lia.
Qed.

Lemma tb_open_rep {C} (c : C) : backend_rep tb_iregs tb_oregs (tb_open c) [].
Proof.
  split; [|done]. split; try done.
  - apply tb_wired.
  - apply empty_journal.
  - cbn. apply _.
  - split; constructor.
Qed.

(** ** The first block: two transactions *)

Definition tb_world : TestWorld := fun _ => (100, 3).
Definition tb_env (millis : Z) : commit_env TestWorld := {| e_millis := millis; e_verify := tb_world; e_apply := tb_world; e_seal := fun _ => tb_world |}.
Definition tb_txs : list TestTransaction := [mkTestTransaction 1 7 1; mkTestTransaction 2 (-2) 2].
Definition tb_fresh : TestState := one_family (fam_attach {| attachedCatalog := true; attachedIndexId := 0 |} newTestSumOverrideFamily).
Definition tb_after (txs : list TestTransaction) : TestState := foldl (applied (M:=bytemap) tb_world) tb_fresh txs.

(** The segment of the sum index: 105 over 5 transactions. *)
Definition tb_segment : entry_args := {| ea_indexId := 0; ea_version := 1; ea_mergeGeneration := 0; ea_startBlock := 0; ea_endBlock := 1;
  ea_content := [105; 0; 0; 0; 5; 0; 0; 0] |}.

Lemma tb_fits {C} (c : C) txs : (length txs = 2 \/ length txs = 1024)%nat -> j_fits (journal (tb_open c)) [] (1700000000000, txs) /\
  j_fits (journal (tb_open c)) [] (0, txs).
Proof.
  intros Hlen. pose proof (length_enc_all_tt txs) as He.
  assert (Z.of_nat (length (enc_all tt_enc txs)) <= 17408 /\ Z.of_nat (length txs) <= 1024) as [H1 H2] by lia.
  split; (split; [by_compute|split; [done|split; [cbn [snd]; unfold U16_MAX; lia|split; [by_compute|]]]]);
    unfold room, block_len, block_bytes; cbn [fst snd]; rewrite length_app, length_block_header;
    match goal with |- ?x + _ <= ?y /\ _ => change x with 266240; change y with 1048576; change (U32_MAX - 4095) with 4294963200 end; lia.
Qed.

Lemma addBlock_commits_witness :
  exists b', addBlock (M:=bytemap) (tb_env 1700000000000) tb_txs (tb_open []) = (Ret 0, b') /\
    backend_rep tb_iregs tb_oregs b' [(1700000000000, tb_txs)] /\ catalog b' = [tb_segment] /\
    getLastBlockTime b' = 1700000000000.
Proof.
  apply (addBlock_commits (M:=bytemap) tb_iregs tb_oregs tb_apply_layout (tb_open []) [] (tb_env 1700000000000) tb_txs
    tb_fresh (tb_after tb_txs) [tb_segment] (tb_open_rep [])).
  - vm_compute. reflexivity.
  - vm_compute. reflexivity.
  - vm_compute. reflexivity.
  - apply tb_fits. by left.
  - by_compute.
  - by_compute.
  - vm_compute. discriminate.
  - vm_compute. reflexivity.
Defined.

Lemma addBlock_catalog_failure_witness :
  exists b', addBlock (M:=bytemap) (tb_env 1700000000000) tb_txs (tb_open tt) = (Throw no_space, b') /\
    backend_rep tb_iregs tb_oregs b' [(1700000000000, tb_txs)].
Proof.
  apply (addBlock_catalog_failure (M:=bytemap) tb_iregs tb_oregs tb_apply_layout (tb_open tt) [] (tb_env 1700000000000) tb_txs
    tb_fresh (tb_after tb_txs) no_space tt (tb_open_rep tt)).
  - vm_compute. reflexivity.
  - vm_compute. reflexivity.
  - vm_compute. reflexivity.
  - apply tb_fits. by left.
  - by_compute.
  - by_compute.
  - vm_compute. reflexivity.
Defined.

Definition tb_full : list TestTransaction := replicate 1024 (mkTestTransaction 1 1 0).
Definition tb_full_segment : entry_args := {| ea_indexId := 0; ea_version := 1; ea_mergeGeneration := 0; ea_startBlock := 0; ea_endBlock := 1;
  ea_content := [100; 4; 0; 0; 3; 4; 0; 0] |}.

(** On a new chain, whose clock also reads 0. *)
Lemma addBlock_full_block_crash_witness :
  exists b', addBlock (M:=bytemap) (tb_env 0) tb_full (tb_open []) = (Undef DivByZero, b') /\
    backend_rep tb_iregs tb_oregs b' [(0, tb_full)].
Proof.
  apply (addBlock_full_block_crash (M:=bytemap) tb_iregs tb_oregs tb_apply_layout (tb_open []) [] (tb_env 0) tb_full
    tb_fresh (tb_after tb_full) [tb_full_segment] (tb_open_rep [])).
  - reflexivity.
  - reflexivity.
  - vm_compute. reflexivity.
  - vm_compute. reflexivity.
  - apply tb_fits. right. reflexivity.
  - by_compute.
  - by_compute.
  - vm_compute. reflexivity.
Defined.

(** ** The chain of that block *)

Definition tb1 : tb_backend (list entry_args) := snd (addBlock (M:=bytemap) (tb_env 1700000000000) tb_txs (tb_open [])).
Definition tb_blocks : list (Z * list TestTransaction) := [(1700000000000, tb_txs)].

Lemma tb1_rep : backend_rep tb_iregs tb_oregs tb1 tb_blocks.
Proof.
  destruct (addBlock_run (M:=bytemap) tb_iregs tb_oregs tb_apply_layout (tb_open []) [] [] (tb_env 1700000000000) tb_txs
    tb_fresh (tb_after tb_txs) (Ret tt) [tb_segment] (br_chain _ _ _ _ (tb_open_rep []))) as (b' & Hr & Hts & _ & Hrun).
  - vm_compute. reflexivity.
  - vm_compute. reflexivity.
  - vm_compute. reflexivity.
  - apply tb_fits. by left.
  - by_compute.
  - by_compute.
  - vm_compute. reflexivity.
  - unfold tb1. rewrite Hrun. split; [destruct Hr; by split|done].
Qed.

Lemma getBlock_correct_witness :
  (exists b', getBlock 0 tb1 = (Ret tb_txs, b') /\ backend_rep tb_iregs tb_oregs b' tb_blocks) /\
  getBlock 1 tb1 = (Throw (range_error "Block number out of range"), tb1).
Proof.
  split.
  - exact (getBlock_correct tb_iregs tb_oregs tb1 tb_blocks 0 tb1_rep ltac:(lia)).
  - exact (getBlock_correct tb_iregs tb_oregs tb1 tb_blocks 1 tb1_rep ltac:(lia)).
Defined.

Lemma getTransactionsByTimeWindow_correct_witness :
  exists bns b', Backend.getTransactionsByTimeWindow 9 1600000000000 1800000000000 tb1 = (Ret (txs_of tb_blocks bns), b') /\
     backend_rep tb_iregs tb_oregs b' tb_blocks /\ NoDup bns /\ StronglySorted (earlier tb_blocks) bns /\
     forall n, n ∈ bns <-> in_window tb_blocks 1600000000000 1800000000000 n.
Proof.
  apply (getTransactionsByTimeWindow_correct tb_iregs tb_oregs tb1 tb_blocks 9 1600000000000 1800000000000 tb1_rep).
  - by_compute.
  - cbn. lia.
  - lia.
Defined.

Lemma addBlock_refused_witness :
  addBlock (M:=bytemap) (tb_env 1700000000050) tb_txs tb1 = (Ret (-1), tb1) /\
  addBlock (M:=bytemap) (Tx:=TestTransaction) (tb_env 1700000000050) [] tb1 = (Undef DivByZero, tb1).
Proof.
  split.
  - apply (addBlock_refused (M:=bytemap) tb1 (tb_env 1700000000050) tb_txs tb_fresh). vm_compute. reflexivity.
  - apply (addBlock_refused (M:=bytemap) tb1 (tb_env 1700000000050) [] tb_fresh). reflexivity.
Defined.

Lemma cadence_witness : tooEarly defaultConfig 180 59999 = Ret true <->
  (59999 < 100 \/ (59999 < 600000 /\ 59999 < 60000 * 180 / 180)) \/ (3600000 < 59999 /\ 90 < 180) \/ 1024 < 180.
Proof. apply (cadence defaultConfig 180 59999); by_compute. Defined.

(** With the default settings, 91 transactions are refused on a new chain at every time. *)
Definition tb_91 : list TestTransaction := replicate 91 (mkTestTransaction 1 1 0).

Lemma addBlock_stuck_witness :
  foldl (fun st env => let '(rs, b1) := st in let '(r, b2) := addBlock (M:=bytemap) env tb_91 b1 in (rs ++ [r], b2))
    ([], tb_open []) [tb_env 1700000000000; tb_env 1700000600000; tb_env 1800000000000] =
    ([Ret (-1); Ret (-1); Ret (-1)], tb_open []).
Proof.
  apply (addBlock_stuck (M:=bytemap) (tb_open []) tb_91 [tb_env 1700000000000; tb_env 1700000600000; tb_env 1800000000000]).
  - unfold tb_91. rewrite length_replicate. lia.
  - unfold tb_91. rewrite length_replicate. unfold MAX_TX_PER_BLOCK. lia.
  - by_compute.
Defined.

Lemma tb_design_fits : design_fits tb_design_indexes tb_oregs.
Proof. split; [apply one_fits|apply one_fits|cbn; lia]. Qed.

Lemma openBackend_wired_witness :
  wired tb_iregs tb_oregs (tb_open tt) /\
  exists s, newStateOverride (W:=TestWorld) (tb_open tt) = Ret s /\ has_layout (fst <$> tb_oregs) s /\
    forall n k f, tb_oregs !! n = Some (k, f) ->
      familyAt s (Z.of_nat n) = Ret match tb_design_indexes !! n with
        | Some (_, ix) => attach (W:=TestWorld) (ix_attach (Z.of_nat n) ix) f | None => f end.
Proof.
  exact (openBackend_wired defaultConfig true {| lastBlockTimestamp := 0; currentBlockHeight := 0 |} (∅ : gmap string bytemap) (testDesign 0) tt
    (BlockTimestampTracker.openTracker ([] : list BlockTimestampTracker.block_timestamp_entry_t)) tb_design_indexes tb_oregs _ (testDesign_registers 0) tb_design_fits).
Defined.

Lemma openBackend_typed_witness :
  index (tb_open tt) indexKey 0 = Some {| attachedCatalog := true; attachedIndexId := 0 |} /\
  index (tb_open tt) indexKey 1 = None /\ getFactory (getTransactionTypeRegistry (tb_open tt)) 1 = Some (createFromMmap 0) /\
  getFactory (getTransactionTypeRegistry (tb_open tt)) 2 = None.
Proof.
  destruct (openBackend_typed defaultConfig true {| lastBlockTimestamp := 0; currentBlockHeight := 0 |}
    (∅ : gmap string bytemap) (testDesign 0) tt
    (BlockTimestampTracker.openTracker ([] : list BlockTimestampTracker.block_timestamp_entry_t)) tb_design_indexes tb_oregs _
    (testDesign_registers 0) tb_design_fits) as (H1 & _ & H3).
  split; [exact (H1 indexKey 0 ltac:(by_compute))|]. split; [exact (H1 indexKey 1 ltac:(by_compute))|]. split; [exact (H3 1)|exact (H3 2)].
Defined.

(** ** The frontend on it *)

Definition tb_pool : list TestTransaction := [mkTestTransaction 5 1 1; mkTestTransaction 6 1 2; mkTestTransaction 7 (-9) 0].
Definition tb_fe : Frontend TestTransaction TestSumOverrideFamily := {| fe_state := tb_after tb_pool; mempool := tb_pool |}.

Lemma mempool_roundtrip_witness :
  openFrontend tb_world tb1 (Some (saveMempool (M:=bytemap) tb_fe)) = Ret {| fe_state := tb_after tb_pool; mempool := tb_pool |}.
Proof.
  apply (mempool_roundtrip tt_enc tb1 tb_world tb_fe tb_fresh); [by_compute|vm_compute; reflexivity].
Defined.

Definition tb_config : BlockchainConfig := {| targetBlockTimeMs := 60000; targetThroughput := 65538; maxSegmentsPerIndex := 64; maxMergeableSegmentBytes := 0 |}.

(** What the builder thread takes: two transactions, the third one being worth less than 0. *)
Definition tb_built : list TestTransaction := [mkTestTransaction 6 1 2; mkTestTransaction 5 1 1].
Definition tb_fe1 : Frontend TestTransaction TestSumOverrideFamily := {| fe_state := tb_after tb_pool; mempool := [mkTestTransaction 7 (-9) 0] |}.
Definition tb_fe2 : Frontend TestTransaction TestSumOverrideFamily := {| fe_state := tb_after tb_pool; mempool := mkTestTransaction 7 (-9) 0 :: tb_built |}.

Lemma tb_build : build_section (M:=bytemap) 9 (fun _ => 0) 1700000000000 tb_world tb_config tb1 tb_fe = Ret (tb_built, tb_fe1).
Proof. vm_compute. reflexivity. Qed.

Lemma rejection_reorders_witness :
  fe_state tb_fe2 = tb_after tb_pool /\ mempool tb_fe2 = mempool tb_fe1 ++ tb_built /\
  mempool tb_fe1 `sublist_of` tb_pool /\ mempool tb_fe2 ≡ₚ tb_pool.
Proof.
  apply (rejection_reorders (M:=bytemap) 9 (fun _ => 0) 1700000000000 tb_world tb_config tb1 tb1 tb_fe tb_fe1 tb_fe2 tb_built tb_fresh).
  - cbn. lia.
  - reflexivity.
  - exact tb_build.
  - reflexivity.
Defined.

Lemma block_size_truncated_witness : Z.of_nat (length tb_built) <= 65538 mod 65536.
Proof.
  apply (block_size_truncated (M:=bytemap) 9 (fun _ => 0) 1700000000000 tb_world tb_config tb1 tb_fe tb_fe1 tb_built); [cbn; lia|exact tb_build].
Defined.

Lemma speculative_state_witness :
  fe_state (sendTransaction (M:=bytemap) tb_world sample_tx tb_fe) = tb_after (tb_pool ++ [sample_tx]) /\
  exists fe', finish_section (M:=bytemap) tb_world 1 tb_built tb1 tb_fe1 = Ret fe' /\ mempool fe' = mempool tb_fe1 /\
    fe_state fe' = tb_after (mempool fe').
Proof.
  split.
  - exact (proj1 (speculative_state tb_world tb1 tb_fe sample_tx 1 tb_built tb_fresh) eq_refl).
  - apply (proj2 (speculative_state tb_world tb1 tb_fe1 sample_tx 1 tb_built tb_fresh)); [lia|vm_compute; reflexivity].
Defined.

Definition tb_chain (fe : Frontend TestTransaction TestSumOverrideFamily) (ph : phase) (sent : list TestTransaction) :=
  {| ch_fe := fe; ch_backend := tb1; ch_phase := ph; ch_sent := sent; ch_committed := [] |}.

Lemma no_transaction_lost_witness : tb_pool ++ [sample_tx] ≡ₚ [mkTestTransaction 7 (-9) 0; sample_tx] ++ tb_built ++ [].
Proof.
  apply (no_transaction_lost (M:=bytemap) tb_config (tb_chain tb_fe Idle tb_pool)
    (tb_chain (sendTransaction (M:=bytemap) tb_world sample_tx tb_fe1) (Building tb_built) (tb_pool ++ [sample_tx]))).
  - unfold accounted; cbn. done.
  - eapply rtc_l; [|apply rtc_once].
    + apply (step_build tb_config 9 (fun _ => 0) 1700000000000 tb_world tb_fe tb_fe1 tb_built); [cbn; lia|exact tb_build].
    + apply (step_send tb_config tb_world sample_tx tb_fe1).
Defined.

Lemma getTransactionById_correct_witness :
  (exists b', getTransactionById 1 tb1 = (Ret (Some (mkTestTransaction 2 (-2) 2)), b') /\ backend_rep tb_iregs tb_oregs b' tb_blocks) /\
  getTransactionById (Tx:=TestTransaction) 1048576 tb1 = (Throw (range_error "Block number out of range"), tb1).
Proof.
  split.
  - refine (getTransactionById_correct tb_iregs tb_oregs tb1 tb_blocks 0 1 tb1_rep _ _ _); by_compute.
  - refine (getTransactionById_correct tb_iregs tb_oregs tb1 tb_blocks 1 0 tb1_rep _ _); by_compute.
Defined.

Lemma frontend_window_witness :
  exists bns b',
    Frontend.getTransactionsByTimeWindow (M:=bytemap) 9 5 1800000000000 tb_fe tb1 = (Ret (tb_pool ++ txs_of tb_blocks bns), b') /\
    backend_rep tb_iregs tb_oregs b' tb_blocks /\ forall n, n ∈ bns <-> in_window tb_blocks 5 1800000000000 n.
Proof.
  refine (frontend_window (M:=bytemap) tb_iregs tb_oregs tb1 tb_blocks tb_fe 9 5 1800000000000 tb1_rep _ _ _); [by_compute|lia|cbn; lia].
Defined.
