(* ===== verification/Progress.v ===== *)
(** * Progress

    One pass of the block-builder thread (src/src/blockchain/BlockchainFrontend.cpp,
    [blockBuilderLoop]), from the mempool to the rebuilt speculative state. *)

From Stdlib Require Import SpecFloat.
From S2P Require Import Prelude Excessive Memory Transaction Registry StateOverride TestChainDesign MEVBuilder.
From S2P Require Import EpochFile Journal CatalogFile Backend BackendCorrect Frontend TestBackend.
From S2P Require BlockTimestampTracker.

(** Between ten minutes and an hour after the last block no block is held back. *)
Lemma not_tooEarly cfg n d : 0 < n <= MAX_TX_PER_BLOCK -> in_u32 (targetBlockTimeMs cfg) -> in_u32 (targetThroughput cfg) ->
  600000 <= d <= 3600000 -> tooEarly cfg n d = Ret false.
Proof.
  unfold MAX_TX_PER_BLOCK. intros Hn H1 H2 Hd. destruct (decide (n = MAX_TX_PER_BLOCK)) as [->|Hne]; [done|].
  assert (tooEarly cfg n d <> Ret true) as Hf.
  { intros H. apply cadence in H; [|lia|done|done|done]. lia. }
  unfold tooEarly in *. destruct (Z.eqb_spec n MAX_TX_PER_BLOCK); [done|]. cbn [negb] in *.
  destruct (Z.eqb_spec (u32 n) 0) as [H0|H0]; [rewrite u32_small in H0 by word; lia|].
  by destruct (_ || _).
Qed.

Section Pass.
Context {Tx W F Ix M J C T : Type}.
Context `{!MmapHandle M, !FileMapping M}.
Context `{!IndexOverrideFamily F W Ix, !BlockchainIndex Ix, !Transaction Tx W (StateOverride F) M}.
Context `{!Journal J M Tx, !SegmentSink C, !BTree BlockTimestampTracker.block_timestamp_entry_t T}.

(** The body of the loop, when nothing comes in between: [now] and [millis] are the clock
    readings of the first section, [env] what [addBlock] meets, [w] what is read from disk. *)
Definition builder_pass (fuel : nat) (now : nat -> Z) (millis : Z) (w : W) (env : commit_env W) (config : BlockchainConfig)
    (fe : Frontend Tx F) (b : Backend Tx F Ix M J C T) : outcome (Frontend Tx F) * Backend Tx F Ix M J C T :=
  match build_section (M:=M) fuel now millis w config b fe with
  | Ret ([], fe) => (Ret fe, b)
  | Ret (toBuild, fe) =>
      let '(blockNumber, b) := addBlock env toBuild b in
      (n ← blockNumber; finish_section w n toBuild b fe, b)
  | Throw e => (Throw e, b)
  | Undef u => (Undef u, b)
  | NoFuel => (NoFuel, b)
  end.

(** A pass that ends is a run of the step relation. *)
Lemma builder_pass_steps fuel now millis w env config fe (b : Backend Tx F Ix M J C T) fe' b' snt com :
  (length (mempool fe) < fuel)%nat -> builder_pass fuel now millis w env config fe b = (Ret fe', b') ->
  exists com', rtc (chain_step (W:=W) config)
    {| ch_fe := fe; ch_backend := b; ch_phase := Idle; ch_sent := snt; ch_committed := com |}
    {| ch_fe := fe'; ch_backend := b'; ch_phase := Idle; ch_sent := snt; ch_committed := com' |}.
Proof.
  intros Hf. unfold builder_pass. destruct (build_section fuel now millis w config b fe) as [[sel fe1]| | |] eqn:Hb; try done.
  pose proof (step_build config fuel now millis w fe fe1 sel b snt com Hf Hb) as H1. destruct sel as [|tx sel].
  - intros [= <- <-]. exists com. by apply rtc_once.
  - destruct (addBlock env (tx :: sel) b) as [r b1] eqn:Ha. destruct r as [n| | |]; try done. cbn. intros [= Hfin <-].
    eexists. eapply rtc_l; [exact H1|]. eapply rtc_l; [exact (step_addBlock config env fe1 (tx :: sel) b b1 n snt com Ha)|].
    apply rtc_once. exact (step_finish config w fe1 fe' (tx :: sel) b1 n snt _ Hfin).
Qed.
End Pass.

Section Progress.
Context {Tx W F Ix M J C T : Type}.
Context `{!MmapHandle M, !FileMapping M}.
Context `{!IndexOverrideFamily F W Ix, !BlockchainIndex Ix, !Transaction Tx W (StateOverride F) M}.
Context `{!Journal J M Tx, !JournalLaws J M Tx, !SegmentSink C}.
Context `{!BTree BlockTimestampTracker.block_timestamp_entry_t T, !BTreeLaws BlockTimestampTracker.compare}.
Context (iregs : list (TypeKey * Ix)) (oregs : list (TypeKey * F)).
Context (apply_layout : forall ks (w : W) s tx, has_layout ks s -> has_layout ks (applied (M:=M) w s tx)).
(** The catalog takes what it is given. *)
Context (accepts : forall a (c : C), exists c', cat_writeSegment a c = (Ret tt, c')).
Implicit Types (b : Backend Tx F Ix M J C T) (blocks : list (Z * list Tx)) (txs : list Tx).

Lemma submit_all_accepted l (c : C) : exists c', submit_all l c = (Ret tt, c').
Proof.
  revert c. induction l as [|a l IH]; intros c; [by exists c|]. destruct (accepts a c) as [c1 H1]. destruct (IH c1) as [c2 H2].
  exists c2. cbn. by rewrite (prog_bind_Ret _ _ _ _ _ H1).
Qed.

(** One pass with something worth committing. *)
Lemma builder_pass_commits config b blocks (fe : Frontend Tx F) tx s fuel (now : nat -> Z) millis (w : W) (env : commit_env W) :
  backend_rep iregs oregs b blocks -> newStateOverride b = Ret s ->
  tx ∈ mempool fe -> SFleb (S754_zero false) (value (M:=M) w s tx) = true -> (length (mempool fe) < fuel)%nat ->
  0 < u16 (targetThroughput config) <= MAX_TX_PER_BLOCK ->
  in_u32 (targetBlockTimeMs (Backend.config b)) -> in_u32 (targetThroughput (Backend.config b)) ->
  600000 <= duration_of env b <= 3600000 -> in_u64 (e_millis env) -> Z.of_nat (length blocks) < U64_MAX ->
  (forall txs, txs <> [] -> txs ⊆+ mempool fe -> j_fits (journal b) blocks (e_millis env, txs) /\ exists v, verify_loop (M:=M) (e_verify env) s txs = Ret v) ->
  exists toBuild fe' b' s', builder_pass fuel now millis w env config fe b = (Ret fe', b') /\
    toBuild <> [] /\ mempool fe ≡ₚ toBuild ++ mempool fe' /\
    backend_rep iregs oregs b' (blocks ++ [(e_millis env, toBuild)]) /\
    addBlock env toBuild b = (Ret (Z.of_nat (length blocks)), b') /\
    newStateOverride b' = Ret s' /\ fe_state fe' = foldl (applied (M:=M) w) s' (mempool fe').
Proof.
  intros Hr Hs Htx Hv Hfuel Hcap Hc1 Hc2 Hd Hms Hlen Hok.
  destruct (buildBlock_spec (M:=M) fuel now w s (mempool fe) (u16 (targetThroughput config)) (u64 (millis + 10)))
    as (sel & idxs & Hb & _ & Hsel & _); [lia|done|]. set (fe1 := {| fe_state := fe_state fe; mempool := keep idxs (mempool fe) |}).
  assert (sel <> []) as Hne by exact (buildBlock_nonempty (M:=M) _ _ _ _ _ _ _ tx sel _ (proj1 Hcap) Hfuel Htx Hv Hb).
  assert (build_section (M:=M) fuel now millis w config b fe = Ret (sel, fe1)) as Hbs.
  { unfold build_section. destruct (Nat.ltb_spec 0 (length (mempool fe))) as [_|H0]; [by rewrite Hs; cbn; rewrite Hb|].
    destruct (mempool fe); [by apply not_elem_of_nil in Htx|cbn in H0; lia]. }
  pose proof (build_section_spec (M:=M) _ _ _ _ _ _ _ _ _ Hfuel Hbs) as (Hp & _).
  assert (0 < Z.of_nat (length sel)) as Hpos by (destruct sel; [done|cbn; lia]).
  destruct (Hok sel Hne) as [Hfits [v Hver]]; [rewrite Hp; by apply submseteq_inserts_r|].
  destruct (submit_all_accepted (commit_calls (M:=M) iregs oregs env s sel (Z.of_nat (length blocks))) (catalog b)) as [c' Hsub].
  destruct (addBlock_run iregs oregs apply_layout b blocks [] env sel s v (Ret tt) c' (br_chain _ _ _ _ Hr)) as (b1 & Hr1 & Hts & _ & Hrun); [|done..|].
  { apply not_tooEarly; [lia|done..]. }
  destruct (Z.eqb_spec (duration_of env b) 0) as [|_]; [lia|]. set (b' := set_lastBlockTime b1 (duration_of env b)) in *.
  assert (backend_rep iregs oregs b' (blocks ++ [(e_millis env, sel)])) as Hr' by (apply backend_rep_snoc; [|done]; destruct Hr1; by split).
  destruct (newStateOverride_wired (W:=W) iregs oregs b') as (s' & Hs' & _); [apply (cr_wired _ _ _ _ _ (br_chain _ _ _ _ Hr'))|].
  exists sel, {| fe_state := foldl (applied (M:=M) w) s' (mempool fe1); mempool := mempool fe1 |}, b', s'.
  split; [|by split; [|split; [|split; [|split]]]]. unfold builder_pass. rewrite Hbs. destruct sel as [|tx0 sel]; [done|]. rewrite Hrun. cbn.
  unfold finish_section. destruct (Z.eqb_spec (Z.of_nat (length blocks)) (-1)); [lia|]. unfold rebuildSpeculativeState. by rewrite Hs'.
Qed.

(** The builder thread makes progress.  When the mempool holds a transaction worth including
    and the last block is between ten minutes and an hour old, one pass of the loop commits a
    block: a non-empty one, taken from the mempool, and when the pass ends the thread is idle
    again and the speculative state is that of the new chain with the rest of the mempool. *)
Theorem builder_progress config b blocks (fe : Frontend Tx F) tx s fuel (now : nat -> Z) millis (w : W) (env : commit_env W) :
  backend_rep iregs oregs b blocks -> newStateOverride b = Ret s ->
  tx ∈ mempool fe -> SFleb (S754_zero false) (value (M:=M) w s tx) = true -> (length (mempool fe) < fuel)%nat ->
  0 < u16 (targetThroughput config) <= MAX_TX_PER_BLOCK ->
  in_u32 (targetBlockTimeMs (Backend.config b)) -> in_u32 (targetThroughput (Backend.config b)) ->
  600000 <= duration_of env b <= 3600000 -> in_u64 (e_millis env) -> Z.of_nat (length blocks) < U64_MAX ->
  (forall txs, txs <> [] -> txs ⊆+ mempool fe -> j_fits (journal b) blocks (e_millis env, txs) /\ exists v, verify_loop (M:=M) (e_verify env) s txs = Ret v) ->
  exists toBuild fe' b' s', builder_pass fuel now millis w env config fe b = (Ret fe', b') /\
    toBuild <> [] /\ mempool fe ≡ₚ toBuild ++ mempool fe' /\
    backend_rep iregs oregs b' (blocks ++ [(e_millis env, toBuild)]) /\
    newStateOverride b' = Ret s' /\ fe_state fe' = foldl (applied (M:=M) w) s' (mempool fe').
Proof.
  intros Hr Hs Htx Hv Hfuel Hcap Hc1 Hc2 Hd Hms Hlen Hok.
  destruct (builder_pass_commits config b blocks fe tx s fuel now millis w env) as (toBuild & fe' & b' & s' & H1 & H2 & H3 & H4 & _ & H5); try done.
  by exists toBuild, fe', b', s'.
Qed.
End Progress.

(** ** A pass on the test design, ten minutes after the block of tb1 *)

#[local] Existing Instance BlockTimestampTracker.tracker_BTree.
#[local] Existing Instance BlockTimestampTracker.tracker_BTreeLaws.
#[local] Existing Instance tb_Journal.
#[local] Existing Instance tb_JournalLaws.
#[local] Existing Instance tb_Index.
#[local] Existing Instance tb_Sink.
#[local] Existing Instance tb_FileMapping.

Definition pg_env : commit_env TestWorld := tb_env 1700000600000.

Lemma tb_verifies (w : TestWorld) (s : TestState) (txs : list TestTransaction) : exists v, verify_loop (M:=bytemap) w s txs = Ret v.
Proof. revert s. induction txs as [|tx txs IH]; intros s; [by exists s|]. apply IH. Qed.

Lemma tb_accepts (a : entry_args) (c : list entry_args) : exists c', cat_writeSegment a c = (Ret tt, c').
Proof. by exists (c ++ [a]). Qed.

(** There is room for a few transactions in the file of tb1. *)
Lemma tb1_fits (txs : list TestTransaction) : (length txs <= 3)%nat -> j_fits (journal tb1) tb_blocks (1700000600000, txs).
Proof.
  intros Hlen. pose proof (length_enc_all_tt txs) as He.
  split; [by_compute|]. split; [done|]. split; [cbn [snd]; unfold U16_MAX; lia|]. split; [by_compute|].
  unfold room, block_len, block_bytes. cbn [fst snd]. rewrite length_app, length_block_header.
  match goal with |- ?x + _ <= ?y /\ _ => replace x with 270336 by (vm_compute; reflexivity); replace y with 1048576 by (vm_compute; reflexivity) end.
  unfold U32_MAX. lia.
Qed.

Lemma builder_progress_witness : exists toBuild fe' b' s',
  builder_pass (M:=bytemap) 9 (fun _ => 0) 1700000600000 tb_world pg_env tb_config tb_fe tb1 = (Ret fe', b') /\
  toBuild <> [] /\ mempool tb_fe ≡ₚ toBuild ++ mempool fe' /\
  backend_rep tb_iregs tb_oregs b' (tb_blocks ++ [(1700000600000, toBuild)]) /\
  newStateOverride b' = Ret s' /\ fe_state fe' = foldl (applied (M:=bytemap) tb_world) s' (mempool fe').
Proof.
  apply (builder_progress (M:=bytemap) tb_iregs tb_oregs tb_apply_layout tb_accepts tb_config tb1 tb_blocks tb_fe
    (mkTestTransaction 5 1 1) tb_fresh 9 (fun _ => 0) 1700000600000 tb_world pg_env tb1_rep).
  - vm_compute. reflexivity.
  - left.
  - vm_compute. reflexivity.
  - cbn. lia.
  - by_compute.
  - by_compute.
  - by_compute.
  - by_compute.
  - by_compute.
  - by_compute.
  - intros txs _ Htxs. split; [|apply tb_verifies]. apply tb1_fits. apply (submseteq_length _ _ Htxs).
Defined.
