(* ===== verification/TornMempool.v ===== *)
(** * TornMempool

    A process that dies while it writes mempool.bin (src/src/blockchain/BlockchainFrontend.cpp,
    [saveMempool]), and what [loadMempool] makes of the file it leaves. *)

From S2P Require Import Prelude Excessive Memory Transaction Registry StateOverride TestChainDesign MEVBuilder.
From S2P Require Import EpochFile Journal CatalogFile Backend BackendCorrect Frontend TestBackend.
From S2P Require BlockTimestampTracker.

Section TornMempool.
Context {Tx W F Ix M J C T : Type}.
Context `{!MmapHandle M, !FileMapping M}.
Context `{!IndexOverrideFamily F W Ix, !BlockchainIndex Ix, !Transaction Tx W (StateOverride F) M}.
Context `{!Journal J M Tx, !SegmentSink C, !BTree BlockTimestampTracker.block_timestamp_entry_t T}.

(** The contents of the file after each of the calls that change it: truncated by [open], the
    count written, extended by [ftruncate], and after each transaction. *)
Definition save_states (fe : Frontend Tx F) : list (list Z) :=
  let count := le_encode 4 (u32 (Z.of_nat (length (mempool fe)))) in
  let totalSize := u64 (foldl (fun n tx => n + tx_size tx) 0 (mempool fe)) in
  [] :: count ::
    if 0 <? totalSize then
      let m : M := mm_seek (map_file (count ++ replicate (Z.to_nat totalSize) 0)) 4 in
      map (fun k => mm_load (write_all (take k (mempool fe)) m) 0 (4 + Z.to_nat totalSize)) (seq 0 (S (length (mempool fe))))
    else [].

Context (enc : Tx -> list Z) `{!MmapLaws M, !FileMappingLaws M}.
Implicit Types (fe : Frontend Tx F) (reg : TransactionTypeRegistry M Tx) (m : M).

Lemma load_loop_app (w : W) reg n k fe m fe1 m1 : load_loop w reg n fe m = (Ret fe1, m1) ->
  load_loop w reg (n + k) fe m = load_loop w reg k fe1 m1.
Proof.
  revert fe m. induction n as [|n IH]; intros fe m; cbn [Nat.add load_loop]; [by intros [= -> ->]|].
  unfold mbind, prog_bind. destruct (read reg m) as [[tx| | |] m']; try done. apply IH.
Qed.

(** Zeros behind the cursor are unknown type ids, one byte each: nothing is loaded from them. *)
Lemma load_zeros (w : W) reg n fe m : getFactory reg 0 = None -> 0 <= mm_tell m -> mm_tell m + Z.of_nat n <= mm_size m ->
  mm_load m (mm_tell m) n = replicate n 0 -> exists m', load_loop w reg n fe m = (Ret fe, m').
Proof.
  intros Hreg. revert m. induction n as [|n IH]; intros m H1 H2 Hz; [by exists m|].
  destruct (mm_read_law m 1) as [Hr (Hs & Ht & Hb)]; [lia..|]. cbn [load_loop]. unfold read, src_read, mbind, prog_bind.
  destruct (mm_read m 1) as [bytes m1] eqn:E. cbn [fst snd] in *. subst bytes.
  change (S n) with (1 + n)%nat in Hz. rewrite mm_load_app, replicate_add in Hz. apply app_inj_1 in Hz as [Hz1 Hz2]; [|by rewrite length_mm_load].
  rewrite Hz1. cbn [replicate]. rewrite Hreg. destruct (IH m1) as [m' Hm']; [lia|lia| |by exists m'].
  rewrite Ht, <- Hz2. apply mem_load_ext. intros i _. apply Hb.
Qed.

Context `{!TransactionEncoding enc}.

(** A file that was cut after [k] transactions loads these. *)
Lemma load_torn (w : W) (b : Backend Tx F Ix M J C T) `{!TransactionCodec enc (txTypes b)} txs k total fe :
  getFactory (txTypes b) 0 = None -> Z.of_nat (length txs) <= U32_MAX -> (k <= length txs)%nat -> total = length (enc_all enc txs) ->
  loadMempool w b (le_encode 4 (u32 (Z.of_nat (length txs))) ++ enc_all enc (take k txs) ++ replicate (total - length (enc_all enc (take k txs))) 0) fe =
    Ret {| fe_state := foldl (applied (M:=M) w) (fe_state fe) (take k txs); mempool := mempool fe ++ take k txs |}.
Proof.
  intros Hreg Hcnt Hk ->. set (zeros := replicate _ 0). unfold loadMempool, getTransactionTypeRegistry.
  rewrite u32_small by (word_unfold; lia). set (h := le_encode 4 _). assert (length h = 4%nat) as Hh by apply length_le_encode.
  pose proof (length_enc_take enc k txs) as Hle. set (bs := enc_all enc (take k txs)) in *.
  assert (length txs - k <= length zeros)%nat as Hz.
  { unfold zeros. rewrite length_replicate. pose proof (length_txs_enc (M:=M) enc (drop k txs)) as Hd. rewrite length_drop in Hd.
    enough (length (enc_all enc txs) = length bs + length (enc_all enc (drop k txs)))%nat by lia.
    unfold bs. rewrite <- (take_drop k txs) at 1. unfold enc_all. by rewrite map_app, concat_app, length_app. }
  rewrite length_app, Hh. change (4 + length (bs ++ zeros) <? 4)%nat with (length (bs ++ zeros) <? 0)%nat.
  destruct (Nat.ltb_spec (length (bs ++ zeros)) 0); [lia|]. rewrite take_app_length' by done.
  unfold h at 1 2. rewrite !le_decode_encode by (change (256 ^ Z.of_nat 4) with 4294967296; word_unfold; lia). rewrite Nat2Z.id.
  destruct (Z.eqb_spec (Z.of_nat (length txs)) 0) as [H0|H0].
  { destruct txs as [|tx txs]; [|cbn in H0; lia]. rewrite take_nil. cbn. rewrite app_nil_r. by destruct fe. }
  assert (0 < length (bs ++ zeros))%nat as Hpos.
  { rewrite length_app. pose proof (length_txs_enc (M:=M) enc (take k txs)) as Hd. rewrite length_take in Hd. fold bs in Hd. lia. }
  destruct (Nat.leb_spec (4 + length (bs ++ zeros)) 4) as [Hle4|_]; [lia|].
  destruct (map_file_law (M:=M) (h ++ bs ++ zeros)) as (Hs & Ht & Hl). set (m := map_file _ : M) in *.
  rewrite !length_app, Hh in Hs, Hl. destruct (mm_seek_law m 4) as (Hs1 & Ht1 & Hb1); [lia|].
  rewrite !mm_load_app in Hl. change (0 + Z.of_nat 4) with 4 in Hl.
  apply app_inj_1 in Hl as [_ Hl]; [|by rewrite length_mm_load]. apply app_inj_1 in Hl as [Hl1 Hl2]; [|by rewrite length_mm_load].
  destruct (load_loop_enc enc w (txTypes b) (take k txs) (mm_seek m 4) fe) as (m1 & Hrun & Hs2 & Ht2 & Hb2).
  { split; [lia|]. fold bs. split; [lia|]. by rewrite Ht1, mm_seek_load by lia. }
  replace (length txs) with (length (take k txs) + (length txs - k))%nat by (rewrite length_take; lia).
  rewrite (load_loop_app _ _ _ _ _ _ _ _ Hrun). fold bs in Ht2.
  destruct (load_zeros w (txTypes b) (length txs - k)
    {| fe_state := foldl (applied w) (fe_state fe) (take k txs); mempool := mempool fe ++ take k txs |} m1) as (m2 & ->); [done|lia|lia| |done].
  replace (length zeros) with (length txs - k + (length zeros - (length txs - k)))%nat in Hl2 by lia. rewrite mm_load_app in Hl2.
  assert (zeros = replicate (length txs - k) 0 ++ replicate (length zeros - (length txs - k)) 0) as Hzz.
  { rewrite <- replicate_add. unfold zeros at 1. f_equal. unfold zeros in *. rewrite length_replicate in *. lia. }
  rewrite Hzz in Hl2 at 2. apply app_inj_1 in Hl2 as [Hl2 _]; [|by rewrite length_mm_load, length_replicate].
  rewrite <- Hl2. transitivity (mm_load m (mm_tell m1) (length txs - k)); [|f_equal; lia].
  apply mem_load_ext. intros i _. by rewrite Hb2, Hb1.
Qed.
End TornMempool.

(** C25: a process that dies while it writes mempool.bin costs transactions but never makes up any:
    in whatever state the file is left between two calls that write it, the next run loads a
    prefix of the mempool, applied in order, when no transaction type has the id 0. *)
Theorem torn_mempool {Tx W F Ix M J C T} `{!MmapHandle M, !FileMapping M, !MmapLaws M, !FileMappingLaws M}
    `{!IndexOverrideFamily F W Ix, !BlockchainIndex Ix, !Transaction Tx W (StateOverride F) M}
    `{!Journal J M Tx, !SegmentSink C, !BTree BlockTimestampTracker.block_timestamp_entry_t T}
    (enc : Tx -> list Z) (b : Backend Tx F Ix M J C T) `{!TransactionCodec enc (txTypes b)} (w : W) (fe : Frontend Tx F) s file :
  Z.of_nat (length (enc_all enc (mempool fe))) <= U32_MAX -> newStateOverride b = Ret s -> getFactory (txTypes b) 0 = None ->
  file ∈ save_states (M:=M) fe ->
  exists k, openFrontend w b (Some file) = Ret {| fe_state := foldl (applied (M:=M) w) s (take k (mempool fe)); mempool := take k (mempool fe) |}.
Proof.
  intros Hsz Hs Hreg Hin. unfold openFrontend. rewrite Hs. cbn [mbind outcome_bind].
  pose proof (length_txs_enc (M:=M) enc (mempool fe)) as Hcnt. unfold save_states in Hin.
  rewrite (sizes_enc enc), Z.add_0_l, u64_small in Hin by word. rewrite Nat2Z.id in Hin. set (h := le_encode 4 _) in Hin.
  assert (length h = 4%nat) as Hh by apply length_le_encode.
  rewrite !elem_of_cons in Hin. destruct Hin as [-> | [-> | Hin]]; [by exists 0%nat| |].
  { exists 0%nat. unfold loadMempool. rewrite Hh. cbn. by destruct (_ =? 0). }
  destruct (0 <? _); [|by apply not_elem_of_nil in Hin]. apply list_elem_of_fmap in Hin as (k & -> & Hk%elem_of_seq).
  exists k. rewrite (written_bytes enc) by (done || apply length_enc_take).
  exact (load_torn enc w b (mempool fe) k _ {| fe_state := s; mempool := [] |} Hreg ltac:(lia) ltac:(lia) eq_refl).
Qed.

(** The third state of the file: the count and zeros; the fifth: one transaction. *)
#[local] Existing Instance BlockTimestampTracker.tracker_BTree.
#[local] Existing Instance tb_Journal.
#[local] Existing Instance tb_Index.
#[local] Existing Instance tb_Sink.
#[local] Existing Instance tb_FileMapping.
#[local] Existing Instance tb_FileMappingLaws.

Definition tm_states : list (list Z) := save_states (M:=bytemap) tb_fe.

Example torn_sizes : map (fun file => length <$> (mempool <$> match openFrontend tb_world tb1 (Some file) with Ret fe => Some fe | _ => None end)) tm_states =
  [Some 0; Some 0; Some 0; Some 1; Some 2; Some 3]%nat.
Proof. vm_compute. reflexivity. Qed.

Lemma torn_mempool_witness : exists k, openFrontend tb_world tb1 (Some (nth 3 tm_states [])) =
  Ret {| fe_state := tb_after (take k tb_pool); mempool := take k tb_pool |}.
Proof.
  apply (torn_mempool tt_enc tb1 tb_world tb_fe tb_fresh).
  - by_compute.
  - vm_compute. reflexivity.
  - reflexivity.
  - apply (list_elem_of_lookup_2 _ 3). vm_compute. reflexivity.
Defined.
