(* ===== verification/Crash.v ===== *)
(** * Crash

    A commit that is cut short (src/src/blockchain/BlockchainBackend.cpp, [addBlock]).  All
    that a data directory holds is mapped files, so what survives the process is every
    store made so far; the thread pool, the overrides and [lastBlockTime] are lost.  The
    stages of [addBlock] are a machine, equal to [addBlock] when it runs to the end; the
    process may die after any of its steps, and a new backend is then opened on what is
    there. *)

From S2P Require Import Prelude Excessive Memory Transaction Registry StateOverride ChainDesign TestChainDesign.
From S2P Require Import EpochFile Journal TornAppend CatalogFile Backend BackendCorrect TestBackend.
From S2P Require BlockTimestampTracker.

(** Where [addBlock] stands: the locals that are still needed, and the result at the end. *)
Inductive stage (F : Type) :=
| Checking
| Numbered (blockNumber : Z)
| Journalled (blockNumber : Z)
| Stamped (blockNumber : Z)
| Indexed (blockNumber : Z)
| Sealing (blockNumber : Z) (blockOverride : StateOverride F) (i : nat)
| Returned (r : outcome Z).
Arguments Checking {F}.
Arguments Numbered {F} _.
Arguments Journalled {F} _.
Arguments Stamped {F} _.
Arguments Indexed {F} _.
Arguments Sealing {F} _ _ _.
Arguments Returned {F} _.

Section Machine.
Context {Tx W F Ix M J C T : Type}.
Context `{!IndexOverrideFamily F W Ix, !BlockchainIndex Ix, !Transaction Tx W (StateOverride F) M}.
Context `{!Journal J M Tx, !SegmentSink C, !BTree BlockTimestampTracker.block_timestamp_entry_t T}.
Abbreviation Backend := (Backend Tx F Ix M J C T).

(** An outcome decides the next stage; a failure ends the commit. *)
Definition next {A} (o : outcome A) (b : Backend) (k : A -> stage F * Backend) : stage F * Backend :=
  match o with
  | Ret a => k a
  | Throw e => (Returned (Throw e), b)
  | Undef u => (Returned (Undef u), b)
  | NoFuel => (Returned NoFuel, b)
  end.

(** The cadence check and the verification, which write nothing; [false] for a block held
    back. *)
Definition commit_checks (env : commit_env W) (transactions : list Tx) (duration : Z) (b : Backend) : outcome bool :=
  early ← tooEarly (config b) (Z.of_nat (length transactions)) duration;
  if early : bool then mret false
  else
    verificationOverride ← newStateOverride b;
    _ ← verify_loop (e_verify env) verificationOverride transactions;
    mret true.

(** The [i]-th family of the sealing loop. *)
Definition seal_one (indexes : BackendRegistry Ix) (w : nat -> W) (state : StateOverride F) (blockNumber : Z) (i : nat) : prog C unit :=
  fam ← liftO (familyAt state (Z.of_nat i));
  let payload := seal (Ix:=Ix) (w i) fam in
  if (length payload =? 0)%nat then mret tt
  else
    match getIndexAt indexes (u16 (Z.of_nat i)) with
    | None => mret tt
    | Some idx =>
        cat_writeSegment {| ea_indexId := u16 (Z.of_nat i); ea_version := ix_encodingVersion idx; ea_mergeGeneration := 0;
          ea_startBlock := blockNumber; ea_endBlock := u64 (blockNumber + 1); ea_content := payload |}
    end.

(** One step; [duration] is the local computed on entry. *)
Definition commit_step (env : commit_env W) (transactions : list Tx) (duration : Z) (x : stage F * Backend) : stage F * Backend :=
  let '(st, b) := x in
  match st with
  | Checking =>
      next (commit_checks env transactions duration b) b (fun ok : bool =>
        if ok then
          let blockNumber := currentBlockHeight (header b) in
          (Numbered blockNumber, set_header b {| lastBlockTimestamp := lastBlockTimestamp (header b); currentBlockHeight := blockNumber + 1 |})
        else (Returned (Ret (-1)), b))
  | Numbered bn =>
      next (j_appendBlock (journal b) bn (e_millis env) transactions) b (fun j => (Journalled bn, set_journal b j))
  | Journalled bn =>
      (Stamped bn, set_header b {| lastBlockTimestamp := e_millis env; currentBlockHeight := currentBlockHeight (header b) |})
  | Stamped bn => (Indexed bn, set_tracker b (BlockTimestampTracker.addBlock (timestampTracker b) (e_millis env) bn))
  | Indexed bn =>
      next (newStateOverride b) b (fun blockOverride => (Sealing bn (foldl (applied (e_apply env)) blockOverride transactions) 0, b))
  | Sealing bn state i =>
      if (i <? Z.to_nat (pairCount b state))%nat then
        let '(r, b) := on_catalog (seal_one (indexes b) (e_seal env) state bn i) b in
        next r b (fun _ => (Sealing bn state (S i), b))
      else
        next (logThroughput (Z.of_nat (length transactions)) duration) b (fun _ => (Returned (Ret bn), set_lastBlockTime b duration))
  | Returned r => (Returned r, b)
  end.

(** [n] steps of the commit of [transactions]. *)
Definition commit_steps (env : commit_env W) (transactions : list Tx) (duration : Z) (n : nat) (x : stage F * Backend) : stage F * Backend :=
  Nat.iter n (commit_step env transactions duration) x.

(** ** The machine is [addBlock] *)

Implicit Types (env : commit_env W) (txs : list Tx) (b : Backend) (x : stage F * Backend).

Lemma commit_steps_S env txs d n x : commit_steps env txs d (S n) x = commit_steps env txs d n (commit_step env txs d x).
Proof. unfold commit_steps. by rewrite Nat.iter_succ_r. Qed.

Lemma commit_steps_add env txs d n m x :
  commit_steps env txs d (n + m) x = commit_steps env txs d m (commit_steps env txs d n x).
Proof. revert x. induction n as [|n IH]; intros x; [done|]. cbn [Nat.add]. by rewrite !commit_steps_S. Qed.

Lemma commit_steps_returned env txs d n r b : commit_steps env txs d n (Returned r, b) = (Returned r, b).
Proof. induction n as [|n IH]; [done|]. by rewrite commit_steps_S. Qed.

(** Two runs of the machine agree once both have returned. *)
Lemma commit_steps_det env txs d n m x r1 b1 r2 b2 :
  commit_steps env txs d n x = (Returned r1, b1) -> commit_steps env txs d m x = (Returned r2, b2) -> r1 = r2 /\ b1 = b2.
Proof.
  intros H1 H2. pose proof (commit_steps_add env txs d n m x) as Ha. rewrite Nat.add_comm, commit_steps_add, H1, H2, !commit_steps_returned in Ha.
  by injection Ha.
Qed.

Lemma seal_loop_one (ix : BackendRegistry Ix) w st bn i n (c : C) :
  seal_loop ix w st bn i (S n) c = (seal_one ix w st bn i ≫= fun _ => seal_loop ix w st bn (S i) n) c.
Proof.
  cbn [seal_loop]. unfold seal_one, mbind, prog_bind, liftO, mret, prog_ret.
  destruct (familyAt st (Z.of_nat i)) as [fam| | |]; try done.
  destruct (length (seal (w i) fam) =? 0)%nat; [done|]. by destruct (getIndexAt ix (u16 (Z.of_nat i))).
Qed.

Lemma set_catalog_id b : set_catalog b (catalog b) = b.
Proof. by destruct b. Qed.

(** The end of a commit, after the last family. *)
Definition commit_end (txs : list Tx) (duration bn : Z) (b : Backend) : stage F * Backend :=
  next (logThroughput (Z.of_nat (length txs)) duration) b (fun _ => (Returned (Ret bn), set_lastBlockTime b duration)).

Lemma seal_steps env txs d bn st k : forall i b, (i + k = Z.to_nat (pairCount b st))%nat ->
  exists n, commit_steps env txs d n (Sealing bn st i, b) =
    let '(r, c) := seal_loop (indexes b) (e_seal env) st bn i k (catalog b) in
    next r (set_catalog b c) (fun _ => commit_end txs d bn (set_catalog b c)).
Proof.
  induction k as [|k IH]; intros i b Hk.
  - exists 1%nat. rewrite commit_steps_S. cbn [commit_step seal_loop]. destruct (Nat.ltb_spec i (Z.to_nat (pairCount b st))); [lia|].
    cbn [next mret prog_ret]. by rewrite set_catalog_id.
  - destruct (seal_one (indexes b) (e_seal env) st bn i (catalog b)) as [r c] eqn:Hone.
    assert (commit_step env txs d (Sealing bn st i, b) = next r (set_catalog b c) (fun _ => (Sealing bn st (S i), set_catalog b c))) as Hstep.
    { cbn [commit_step]. destruct (Nat.ltb_spec i (Z.to_nat (pairCount b st))); [|lia]. unfold on_catalog. by rewrite Hone. }
    rewrite seal_loop_one. unfold mbind, prog_bind. rewrite Hone. destruct r as [[]|e|u|]; cbn [next] in Hstep |- *.
    + destruct (IH (S i) (set_catalog b c)) as [n Hn]; [cbn; unfold pairCount in *; cbn in *; lia|].
      exists (S n). rewrite commit_steps_S, Hstep. exact Hn.
    + exists 1%nat. by rewrite commit_steps_S, Hstep.
    + exists 1%nat. by rewrite commit_steps_S, Hstep.
    + exists 1%nat. by rewrite commit_steps_S, Hstep.
Qed.

(** The backend with its height advanced, and with the block journalled, stamped and indexed. *)
Definition numbered (b : Backend) : Backend :=
  set_header b {| lastBlockTimestamp := lastBlockTimestamp (header b); currentBlockHeight := currentBlockHeight (header b) + 1 |}.
Definition indexed (ms bn : Z) (b : Backend) (j : J) : Backend :=
  set_tracker (set_header (set_journal b j) {| lastBlockTimestamp := ms; currentBlockHeight := currentBlockHeight (header b) |})
    (BlockTimestampTracker.addBlock (timestampTracker b) ms bn).

Lemma writeBlock_run ms txs b : let bn := currentBlockHeight (header b) in
  writeBlock ms txs b =
    match j_appendBlock (journal b) bn ms txs with
    | Ret j => (Ret bn, indexed ms bn (numbered b) j)
    | Throw e => (Throw e, numbered b)
    | Undef u => (Undef u, numbered b)
    | NoFuel => (NoFuel, numbered b)
    end.
Proof. cbn. unfold writeBlock, mbind, prog_bind, getS, putS, liftO. cbn. by destruct (j_appendBlock _ _ _ _). Qed.

(** The part of the commit after the append. *)
Lemma journalled_steps env txs d bn b (j : J) :
  let b1 := indexed (e_millis env) bn b j in
  exists n, commit_steps env txs d n (Journalled bn, set_journal b j) =
    next (newStateOverride b1) b1 (fun s =>
      let st := foldl (applied (e_apply env)) s txs in
      let '(r, c) := sealOverrideToSegments b1 (e_seal env) st bn (catalog b1) in
      next r (set_catalog b1 c) (fun _ => commit_end txs d bn (set_catalog b1 c))).
Proof.
  intros b1. assert (commit_step env txs d (commit_step env txs d (Journalled bn, set_journal b j)) = (Indexed bn, b1)) as H2 by done.
  destruct (newStateOverride b1) as [s|e|u|] eqn:Hs; cbn [next];
    [|by exists 3%nat; rewrite !commit_steps_S, H2; cbn [commit_step]; rewrite Hs..].
  destruct (seal_steps env txs d bn (foldl (applied (e_apply env)) s txs) (Z.to_nat (pairCount b1 (foldl (applied (e_apply env)) s txs))) 0 b1) as [n Hn]; [done|].
  exists (S (S (S n))). rewrite !commit_steps_S, H2. cbn [commit_step]. rewrite Hs. exact Hn.
Qed.

(** The checks, and the step they decide. *)
Lemma checks_step env txs d b ok : commit_checks env txs d b = Ret ok ->
  commit_step env txs d (Checking, b) = if ok then (Numbered (currentBlockHeight (header b)), numbered b) else (Returned (Ret (-1)), b).
Proof. intros H. cbn [commit_step]. rewrite H. by destruct ok. Qed.

Lemma addBlock_steps env txs b :
  exists n, commit_steps env txs (duration_of env b) n (Checking, b) = (Returned (addBlock env txs b).1, (addBlock env txs b).2).
Proof.
  unfold addBlock. rewrite (prog_bind_Ret getS _ _ b b) by done. cbn beta zeta. fold (duration_of env b).
  set (d := duration_of env b). unfold liftO, mbind, prog_bind.
  destruct (tooEarly (config b) (Z.of_nat (length txs)) d) as [early|e|u|] eqn:He;
    [|by exists 1%nat; rewrite commit_steps_S; cbn [commit_step]; unfold commit_checks; rewrite He..].
  destruct early; [by exists 1%nat; rewrite commit_steps_S; cbn [commit_step]; unfold commit_checks; rewrite He|].
  destruct (newStateOverride b) as [s|e|u|] eqn:Hs;
    [|by exists 1%nat; rewrite commit_steps_S; cbn [commit_step]; unfold commit_checks; rewrite He; cbn; rewrite Hs..].
  destruct (verify_loop (e_verify env) s txs) as [v|e|u|] eqn:Hv;
    [|by exists 1%nat; rewrite commit_steps_S; cbn [commit_step]; unfold commit_checks; rewrite He; cbn; rewrite Hs; cbn; rewrite Hv..].
  assert (commit_checks env txs d b = Ret true) as Hc by (unfold commit_checks; rewrite He; cbn; rewrite Hs; cbn; by rewrite Hv).
  apply checks_step in Hc. set (bn := currentBlockHeight (header b)) in *. rewrite writeBlock_run. fold bn.
  destruct (j_appendBlock (journal b) bn (e_millis env) txs) as [j|e|u|] eqn:Hj;
    [|by exists 2%nat; rewrite !commit_steps_S, Hc; cbn [commit_step]; change (journal (numbered b)) with (journal b); rewrite Hj..].
  destruct (journalled_steps env txs d bn (numbered b) j) as [n Hn]. exists (S (S n)). rewrite !commit_steps_S, Hc.
  cbn [commit_step]. change (journal (numbered b)) with (journal b). rewrite Hj. cbn [next]. rewrite Hn. unfold getS. cbn zeta beta iota.
  set (b1 := indexed _ _ _ _). destruct (newStateOverride b1) as [s1|e|u|]; cbn [next]; try done. unfold on_catalog.
  destruct (sealOverrideToSegments b1 _ _ _ _) as [r c]. destruct r as [[]|e|u|]; cbn [next fst snd]; try done.
  unfold commit_end. by destruct (logThroughput _ d).
Qed.
End Machine.

(** ** What a crash leaves *)

Section Recovery.
Context {Tx W F Ix M J C T : Type}.
Context `{!IndexOverrideFamily F W Ix, !BlockchainIndex Ix, !Transaction Tx W (StateOverride F) M}.
Context `{!Journal J M Tx, !JournalLaws J M Tx, !SegmentSink C}.
Context `{!BTree BlockTimestampTracker.block_timestamp_entry_t T, !BTreeLaws BlockTimestampTracker.compare}.
Context (iregs : list (TypeKey * Ix)) (oregs : list (TypeKey * F)).
Context (apply_layout : forall ks (w : W) s tx, has_layout ks s -> has_layout ks (applied (M:=M) w s tx)).
Implicit Types (b : Backend Tx F Ix M J C T) (blocks : list (Z * list Tx)) (env : commit_env W) (txs : list Tx).

(** A backend opened on the files of [b]; its catalog is what the pool left on disk. *)
Definition reopen (design : ChainDesign Tx F Ix M) (b : Backend Tx F Ix M J C T) (c : C) : Backend Tx F Ix M J C T :=
  openBackend (config b) false (header b) (journal b) design c
    (BlockTimestampTracker.openTracker (BlockTimestampTracker.index (timestampTracker b))).

(** The height counts one block more than the journal holds. *)
Definition hole_rep b blocks hidden : Prop := exists b0, b = numbered b0 /\ chain_rep iregs oregs b0 blocks hidden.

(** The calls for the families before [i]. *)
Definition calls_before (env : commit_env W) (s : StateOverride F) (txs : list Tx) (bn : Z) (i : nat) : list entry_args :=
  omap (seal_call iregs (e_seal env) (foldl (applied (M:=M) (e_apply env)) s txs) bn) (seq 0 i).

(** What the disk holds at each stage of the commit of [txs] on [b]. *)
Definition stage_rep env txs b blocks hidden (x : stage F * Backend Tx F Ix M J C T) : Prop :=
  let n := length blocks in
  let blocks' := blocks ++ [(e_millis env, txs)] in
  match x.1 with
  | Checking => x.2 = b
  | Numbered bn => bn = Z.of_nat n /\ x.2 = numbered b
  | Journalled bn | Stamped bn => bn = Z.of_nat n /\ chain_rep iregs oregs x.2 blocks' (n :: hidden) /\ catalog x.2 = catalog b
  | Indexed bn => bn = Z.of_nat n /\ chain_rep iregs oregs x.2 blocks' hidden /\ catalog x.2 = catalog b
  | Sealing bn s i => bn = Z.of_nat n /\ chain_rep iregs oregs x.2 blocks' hidden /\ (i <= length oregs `min` length iregs)%nat /\
      exists s0, newStateOverride b = Ret s0 /\ s = foldl (applied (M:=M) (e_apply env)) s0 txs /\
        submit_all (calls_before env s0 txs bn i) (catalog b) = (Ret tt, catalog x.2)
  | Returned r => (x.2 = b /\ forall v, r = Ret v -> v = -1) \/ chain_rep iregs oregs x.2 blocks' hidden
  end.

Lemma submit_all_app (l1 l2 : list entry_args) (c : C) :
  submit_all (l1 ++ l2) c = (submit_all l1 ≫= fun _ => submit_all l2) c.
Proof.
  revert c. induction l1 as [|a l1 IH]; intros c; [done|]. cbn [app submit_all foldr].
  unfold mbind, prog_bind. destruct (cat_writeSegment a c) as [[?|?|?|] c1]; try done.
  change (foldr _ (mret tt) (l1 ++ l2)) with (submit_all (C:=C) (l1 ++ l2)). by rewrite IH.
Qed.

Lemma seal_one_submit w s bn i (c : C) : ids_fit (fst <$> iregs) -> Z.of_nat (length iregs) <= 65536 ->
  has_layout (fst <$> oregs) s -> ids_fit (fst <$> oregs) -> (i < length oregs `min` length iregs)%nat ->
  seal_one (registerIndexes iregs) w s bn i c = submit_all (omap (seal_call iregs w s bn) [i]) c.
Proof.
  intros Hfi Hlen Hl Hfo Hi. change [i] with (seq i 1). rewrite <- (seal_loop_spec iregs (fst <$> oregs)) by (done || rewrite ?length_fmap; lia).
  rewrite seal_loop_one. cbn [seal_loop]. unfold mbind, prog_bind.
  by destruct (seal_one _ _ _ _ _ _) as [[[]|?|?|] ?].
Qed.

Lemma calls_before_S env s txs bn i :
  calls_before env s txs bn (S i) = calls_before env s txs bn i ++ omap (seal_call iregs (e_seal env) (foldl (applied (M:=M) (e_apply env)) s txs) bn) [i].
Proof. unfold calls_before. rewrite seq_S, omap_app. done. Qed.

Lemma set_catalog_chain b blocks hidden c : chain_rep iregs oregs b blocks hidden -> chain_rep iregs oregs (set_catalog b c) blocks hidden.
Proof. intros []. by split. Qed.

Lemma newStateOverride_same b b2 : indexes b2 = indexes b -> overrideReg b2 = overrideReg b -> newStateOverride b2 = newStateOverride (W:=W) b.
Proof. intros Hi Ho. unfold newStateOverride, attachOverrideFamilies, pairCount. by rewrite Hi, Ho. Qed.
Lemma wired_override b b2 : wired iregs oregs b -> wired iregs oregs b2 -> newStateOverride b2 = newStateOverride (W:=W) b.
Proof. intros (Hi & Ho & _) (Hi2 & Ho2 & _). apply newStateOverride_same; congruence. Qed.

(** A block that is in the journal and not in the timestamp index, and one that is in both. *)
Lemma hide_last hidden blocks (blk : Z * list Tx) :
  visible_entries (length blocks :: hidden) (blocks ++ [blk]) = visible_entries hidden blocks.
Proof.
  unfold visible_entries. rewrite chain_entries_snoc, filter_app, (filter_cons_False _ (BlockTimestampTracker.Entry _ _)).
  2:{ cbn. rewrite Nat2Z.id. intros Hn. apply Hn. left. }
  rewrite filter_nil, app_nil_r. apply filter_ext_in. intros e He.
  assert (Z.to_nat (BlockTimestampTracker.blockNumber e) <> length blocks).
  { apply list_elem_of_lookup in He as [n Hn]. unfold chain_entries in Hn. rewrite list_lookup_imap in Hn.
    destruct (blocks !! n) as [x|] eqn:E; [|done]. cbn in Hn. injection Hn as <-. cbn. rewrite Nat2Z.id.
    apply lookup_lt_Some in E. lia. }
  rewrite not_elem_of_cons. tauto.
Qed.

Lemma journalled_rep b blocks hidden blk j : chain_rep iregs oregs b blocks hidden -> j_rep j (blocks ++ [blk]) ->
  chain_rep iregs oregs (set_journal (numbered b) j) (blocks ++ [blk]) (length blocks :: hidden).
Proof.
  intros Hr Hj. destruct Hr as [Hw Hh _ Hty Hhid Htok Htr].
  split; cbn; try done.
  - rewrite length_app, Hh. cbn. lia.
  - constructor; [rewrite length_app; cbn; lia|by apply hidden_snoc].
  - by rewrite hide_last.
Qed.

Lemma indexed_rep b ms blocks hidden txs : chain_rep iregs oregs b (blocks ++ [(ms, txs)]) (length blocks :: hidden) ->
  Forall (fun n => (n < length blocks)%nat) hidden -> in_u64 ms -> Z.of_nat (length blocks) < U64_MAX ->
  chain_rep iregs oregs (set_tracker b (BlockTimestampTracker.addBlock (timestampTracker b) ms (Z.of_nat (length blocks))))
    (blocks ++ [(ms, txs)]) hidden.
Proof.
  intros [Hw Hh Hj Hty Hhid Htok Htr] Hhid2 Hms Hlen.
  destruct (BlockTimestampTracker.addBlock_elems (timestampTracker b) ms (Z.of_nat (length blocks)) Htok) as [Htok' Htr'].
  - split; [done|]. cbn. lia.
  - rewrite Htr. unfold visible_entries. intros [Hn _]%list_elem_of_filter. cbn in Hn. rewrite Nat2Z.id in Hn. apply Hn. left.
  - apply Forall_cons in Hhid as [_ Hhid]. split; cbn; try done.
    rewrite Htr', Htr, hide_last, (visible_entries_snoc hidden blocks) by done. by rewrite Permutation_app_comm.
Qed.
(** The sealing step. *)
Lemma sealing_step env txs d b blocks hidden bn st i b1 :
  wired iregs oregs b -> stage_rep env txs b blocks hidden (Sealing bn st i, b1) ->
  stage_rep env txs b blocks hidden (commit_step env txs d (Sealing bn st i, b1)).
Proof.
  intros Hwb (Hbn & Hr & Hi & s0 & Hs0 & Hst & Hcat). cbn [fst snd] in *. cbn [commit_step].
  destruct (newStateOverride_wired iregs oregs b Hwb) as (s0' & Hs0' & Hlay & _). rewrite Hs0 in Hs0'. injection Hs0' as <-.
  assert (has_layout (fst <$> oregs) st) as Hl by (subst st; by apply applied_layout).
  pose proof (cr_wired _ _ _ _ _ Hr) as (Ei & Eo & Hfi & Hfo & Hli).
  assert (Z.to_nat (pairCount b1 st) = length oregs `min` length iregs)%nat as Hpc.
  { unfold pairCount. rewrite (layout_size _ _ Hl), Ei, length_entries, length_fmap. lia. }
  rewrite Hpc. destruct (Nat.ltb_spec i (length oregs `min` length iregs)) as [Hlt|Hge].
  - unfold on_catalog. rewrite Ei, seal_one_submit by done. destruct (submit_all _ (catalog b1)) as [r c] eqn:Hsub.
    destruct r as [[]|e|u|]; cbn [next]; [|right; by apply set_catalog_chain..].
    split; [done|]. split; [by apply set_catalog_chain|]. split; [cbn; lia|]. exists s0. split; [done|]. split; [done|].
    cbn [snd catalog set_catalog]. rewrite calls_before_S, submit_all_app. unfold mbind, prog_bind. rewrite Hcat. by rewrite <- Hst.
  - destruct (logThroughput _ d); cbn [next]; right; try done. cbn. destruct Hr. by split.
Qed.

Lemma stage_step env txs d b blocks hidden x :
  chain_rep iregs oregs b blocks hidden -> j_fits (journal b) blocks (e_millis env, txs) -> in_u64 (e_millis env) ->
  Z.of_nat (length blocks) < U64_MAX ->
  stage_rep env txs b blocks hidden x -> stage_rep env txs b blocks hidden (commit_step env txs d x).
Proof.
  intros Hb Hfits Hms Hlen. destruct x as [[| bn | bn | bn | bn | bn st i | r] b1]; intros H.
  - cbn in H. subst b1. destruct (commit_checks env txs d b) as [ok|e|u|] eqn:Hc;
      [|cbn [commit_step]; rewrite Hc; left; (split; [done|intros v Hv; discriminate])..].
    rewrite (checks_step _ _ _ _ _ Hc). destruct ok; [|left; split; [done|by intros v [= <-]]]. split; [apply Hb|done].
  - destruct H as [-> H]. cbn in H. subst b1. cbn [commit_step]. change (journal (numbered b)) with (journal b).
    destruct (j_append_law (journal b) blocks (e_millis env, txs) (cr_journal _ _ _ _ _ Hb) Hfits) as (j & Ha & Hj). cbn [fst snd] in Ha.
    rewrite Ha. cbn [next]. split; [done|]. split; [|done]. by apply journalled_rep.
  - destruct H as (-> & Hr & Hc). split; [done|]. split; [|done]. destruct Hr. by split.
  - destruct H as (-> & Hr & Hc). split; [done|]. split; [|done]. apply indexed_rep; try done. apply Hb.
  - destruct H as (-> & Hr & Hc). cbn [fst snd] in *. cbn [commit_step].
    rewrite (wired_override b b1) by (apply Hb || apply Hr).
    destruct (newStateOverride b) as [s0|e|u|] eqn:Hs; cbn [next]; [|by right..].
    split; [done|]. split; [done|]. split; [lia|]. exists s0. split; [done|]. split; [done|]. cbn [snd]. by rewrite Hc.
  - by apply sealing_step; [apply Hb|].
  - exact H.
Qed.

Lemma stages_rep env txs d b blocks hidden n :
  chain_rep iregs oregs b blocks hidden -> j_fits (journal b) blocks (e_millis env, txs) -> in_u64 (e_millis env) ->
  Z.of_nat (length blocks) < U64_MAX -> stage_rep env txs b blocks hidden (commit_steps env txs d n (Checking, b)).
Proof.
  intros Hb Hfits Hms Hlen. unfold commit_steps. induction n as [|n IH]; [done|]. cbn [Nat.iter nat_rect]. by apply stage_step.
Qed.

(** Between the height and the append, queries for the blocks that are there do what they did. *)
Lemma getBlock_numbered b n : n < currentBlockHeight (header b) -> getBlock n (numbered b) = let '(r, b') := getBlock n b in (r, numbered b').
Proof.
  intros Hn. unfold getBlock. cbn [numbered set_header header currentBlockHeight journal txTypes].
  destruct (Z.leb_spec (currentBlockHeight (header b) + 1) n); [lia|]. destruct (Z.leb_spec (currentBlockHeight (header b)) n); [lia|].
  by destruct (j_readBlock _ _ _).
Qed.

Lemma getBlock_header n b : header (getBlock n b).2 = header b.
Proof. unfold getBlock. destruct (_ <=? _); [done|]. by destruct (j_readBlock _ _ _). Qed.

Lemma collect_numbered bns acc b : Forall (fun n => n < currentBlockHeight (header b)) bns ->
  collect_loop bns acc (numbered b) = let '(r, b') := collect_loop bns acc b in (r, numbered b').
Proof.
  revert acc b. induction bns as [|n bns IH]; intros acc b Hb; [done|]. apply Forall_cons in Hb as [Hn Hb]. cbn [collect_loop].
  unfold mbind, prog_bind. rewrite getBlock_numbered by done. pose proof (getBlock_header n b) as Hh.
  destruct (getBlock n b) as [[txs| | |] b1]; cbn in Hh |- *; [|done..].
  apply IH. by rewrite Hh.
Qed.

Lemma window_numbered fuel st en b blocks hidden : chain_rep iregs oregs b blocks hidden -> in_u64 st -> (length blocks < fuel)%nat ->
  getTransactionsByTimeWindow fuel st en (numbered b) = let '(r, b') := getTransactionsByTimeWindow fuel st en b in (r, numbered b').
Proof.
  intros Hr Hst Hf. unfold getTransactionsByTimeWindow. destruct (en <? st); [done|].
  unfold mbind, prog_bind, getS, liftO. change (timestampTracker (numbered b)) with (timestampTracker b).
  destruct (window_numbers iregs oregs b blocks hidden fuel st en Hr Hst Hf) as (bns & -> & _ & Hin & _).
  apply collect_numbered. rewrite (cr_height _ _ _ _ _ Hr). apply Forall_forall. intros z (n & -> & Hn)%list_elem_of_fmap.
  apply Hin in Hn as [(blk & Hb & _) _]. apply lookup_lt_Some in Hb. lia.
Qed.

(** Reopening keeps the chain. *)
Lemma reopen_chain (design : ChainDesign Tx F Ix M) b c blocks hidden : chain_rep iregs oregs b blocks hidden ->
  wired iregs oregs (reopen design b c) -> j_decodes (txTypes (reopen design b c)) ->
  chain_rep iregs oregs (reopen design b c) blocks hidden.
Proof.
  intros Hr Hw Ht. apply (chain_rep_same _ _ b); [done|done|done|done|done|]. cbn. by destruct (timestampTracker b).
Qed.
End Recovery.

Section Promises.
Context {Tx W F Ix M J C T : Type}.
Context `{!IndexOverrideFamily F W Ix, !BlockchainIndex Ix, !Transaction Tx W (StateOverride F) M}.
Context `{!Journal J M Tx, !SegmentSink C, !BTree BlockTimestampTracker.block_timestamp_entry_t T}.
Implicit Types (b : Backend Tx F Ix M J C T) (blocks : list (Z * list Tx)) (env : commit_env W) (txs : list Tx).

(** The stages are [addBlock]: it ends with a result and a backend exactly when the machine
    returns them, and the machine always returns. *)
Theorem addBlock_stages env txs b r b' :
  addBlock env txs b = (r, b') <->
  exists n, commit_steps env txs (duration_of env b) n (Checking, b) = (Returned r, b').
Proof.
  destruct (addBlock_steps env txs b) as [n Hn]. split.
  - intros H. exists n. by rewrite Hn, H.
  - intros [m Hm]. destruct (commit_steps_det _ _ _ _ _ _ _ _ _ _ Hn Hm) as [<- <-]. by destruct (addBlock env txs b).
Qed.

Context `{!JournalLaws J M Tx, !BTreeLaws BlockTimestampTracker.compare}.
Context (iregs : list (TypeKey * Ix)) (oregs : list (TypeKey * F)) (tregs : list (Z * FactoryFunc M Tx)).
Context (apply_layout : forall ks (w : W) s tx, has_layout ks s -> has_layout ks (applied (M:=M) w s tx)).

(** C7: killed at any point of a commit and opened again on the same files, the backend has every
    block of the chain before it.  Before the height is advanced, nothing has happened; between
    the height and the append, the height is one ahead of the journal; then the block is in the
    chain but the timestamp index does not know it, and from the timestamp index on it is a
    block like any other, whose segments have been submitted for the families before [i] only. *)
Theorem crash_recovery (design : ChainDesign Tx F Ix M) env txs b blocks hidden n st b1 c :
  registers design iregs oregs tregs -> design_fits iregs oregs -> j_decodes (registerTypes emptyTypeRegistry tregs) ->
  chain_rep (attached_regs iregs) oregs b blocks hidden -> j_fits (journal b) blocks (e_millis env, txs) ->
  in_u64 (e_millis env) -> Z.of_nat (length blocks) < U64_MAX ->
  commit_steps env txs (duration_of env b) n (Checking, b) = (st, b1) ->
  let b2 := reopen design b1 c in
  let blocks' := blocks ++ [(e_millis env, txs)] in
  match st with
  | Checking => chain_rep (attached_regs iregs) oregs b2 blocks hidden
  | Numbered _ => hole_rep (attached_regs iregs) oregs b2 blocks hidden
  | Journalled _ | Stamped _ => chain_rep (attached_regs iregs) oregs b2 blocks' (length blocks :: hidden)
  | Indexed _ => chain_rep (attached_regs iregs) oregs b2 blocks' hidden
  | Sealing bn s i => chain_rep (attached_regs iregs) oregs b2 blocks' hidden /\
      exists s0, newStateOverride b = Ret s0 /\
        submit_all (calls_before (attached_regs iregs) env s0 txs bn i) (catalog b) = (Ret tt, catalog b1)
  | Returned _ => chain_rep (attached_regs iregs) oregs b2 blocks hidden \/ chain_rep (attached_regs iregs) oregs b2 blocks' hidden
  end.
Proof.
  intros Hd Hfit Hdec Hr Hfits Hms Hlen Hrun b2 blocks'.
  assert (forall b3 bs h, chain_rep (attached_regs iregs) oregs b3 bs h -> chain_rep (attached_regs iregs) oregs (reopen design b3 c) bs h) as Hre.
  { intros b3 bs h H. apply reopen_chain; [done|by eapply openBackend_wiring|]. cbn. by rewrite (reg_types _ _ _ _ Hd). }
  pose proof (stages_rep (attached_regs iregs) oregs apply_layout env txs (duration_of env b) b blocks hidden n Hr Hfits Hms Hlen) as H.
  rewrite Hrun in H. unfold b2, blocks'. destruct st as [| bn | bn | bn | bn | bn s i | r].
  - cbn in H. subst b1. by apply Hre.
  - destruct H as [-> H]. cbn in H. subst b1. exists (reopen design b c). split; [done|]. by apply Hre.
  - apply Hre, H.
  - apply Hre, H.
  - apply Hre, H.
  - destruct H as (_ & Hc & _ & s0 & Hs0 & _ & Hsub). split; [by apply Hre|]. by exists s0.
  - destruct H as [[H _]|H]; [left|right]; apply Hre; [|done]. cbn in H. by subst b1.
Qed.

(** C35: what a recovered chain answers: every block reads back by number; a time window gives the
    blocks of the window without the hidden ones; and a block once hidden stays so, whatever
    is committed later. *)
Theorem recovered_chain b blocks hidden :
  chain_rep iregs oregs b blocks hidden ->
  (forall i blk, blocks !! i = Some blk -> exists b', getBlock (Z.of_nat i) b = (Ret blk.2, b')) /\
  (forall fuel startMillis endMillis, in_u64 startMillis -> startMillis <= endMillis -> (length blocks < fuel)%nat ->
     exists bns b', getTransactionsByTimeWindow fuel startMillis endMillis b = (Ret (txs_of blocks bns), b') /\
       NoDup bns /\ forall n, n ∈ bns <-> in_window blocks startMillis endMillis n /\ n ∉ hidden) /\
  (forall env txs n b', addBlock env txs b = (Ret n, b') -> n <> -1 -> j_fits (journal b) blocks (e_millis env, txs) ->
     in_u64 (e_millis env) -> Z.of_nat (length blocks) < U64_MAX ->
     chain_rep iregs oregs b' (blocks ++ [(e_millis env, txs)]) hidden).
Proof.
  intros Hr. split; [|split].
  - intros i blk Hi. destruct (getBlock_chain iregs oregs b blocks hidden i blk Hr Hi) as (j & Hg & _). by eexists.
  - intros fuel st en Hst Hle Hf.
    destruct (window_query_chain iregs oregs b blocks hidden fuel st en Hr Hst Hle Hf) as (bns & j & Hw & _ & Hnd & _ & Hin).
    by exists bns, (set_journal b j).
  - intros env txs n b' Ha Hn Hfits Hms Hlen. destruct (addBlock_steps env txs b) as [k Hk]. rewrite Ha in Hk.
    pose proof (stages_rep iregs oregs apply_layout env txs (duration_of env b) b blocks hidden k Hr Hfits Hms Hlen) as H.
    rewrite Hk in H. destruct H as [[_ H]|H]; [|done]. exfalso. by apply Hn, H.
Qed.
End Promises.

(** C34: a commit that dies between advancing the height and appending costs the chain a block it
    had committed: reopened, the backend gives the next block the number after the missing
    one, whose offset was never recorded, so it is written at the first block offset of the
    epoch, and the epoch's first block number now reads as the new block. *)
Theorem interrupted_commit_overwrites {Tx W F Ix M C T} `{!MmapHandle M, !MmapLaws M}
    `{!IndexOverrideFamily F W Ix, !BlockchainIndex Ix, !Transaction Tx W (StateOverride F) M}
    `{!SegmentSink C, !BTree BlockTimestampTracker.block_timestamp_entry_t T}
    (newFile : string -> M) canOpen (enc : Tx -> list Z) `{!TransactionEncoding enc}
    (b : Backend Tx F Ix M (gmap string M) C T) `{!TransactionCodec enc (txTypes b)} blocks old blk :
  let n := length blocks in
  let name := epochName (Z.of_nat (S n)) in
  (forall name i, (0 < i)%nat -> Z.of_nat i < BLOCKS_PER_EPOCH -> boff (newFile name) i = 0) ->
  (forall name, canOpen name = true) ->
  files_rep enc (journal b) blocks -> files_unreached (journal b) blocks ->
  currentBlockHeight (header b) = Z.of_nat n ->
  blocks !! (n / bpe * bpe)%nat = Some old ->
  Z.of_nat (S n) < MAX_HEIGHT -> (S n mod bpe <> 0)%nat -> firstBlockOffset <= mm_size (newFile name) ->
  room enc (default (openEpoch true (newFile name)) (journal b !! name)) firstBlockOffset blk ->
  Z.of_nat (length blk.2) <= U16_MAX ->
  exists b1, writeBlock (Journal0:=EpochFiles_Journal newFile canOpen) blk.1 blk.2 (numbered b) = (Ret (Z.of_nat (S n)), b1) /\
    (getBlock (Journal0:=EpochFiles_Journal newFile canOpen) (Z.of_nat (n / bpe * bpe)) b1).1 = Ret blk.2.
Proof.
  intros n name Hz Hopen Hr Hun Hh Hold Hmax Hmod Hsz Hfit Htx.
  destruct (append_past_hole newFile canOpen enc Hz (txTypes b) (journal b) blocks blk) as (fs' & Ha & fs'' & Hrd); try done.
  rewrite writeBlock_run. cbn [numbered set_header header currentBlockHeight journal]. rewrite Hh.
  replace (Z.of_nat n + 1) with (Z.of_nat (S n)) by lia. unfold j_appendBlock, EpochFiles_Journal. fold n in Ha. rewrite Ha.
  eexists. split; [done|]. unfold getBlock. cbn [indexed set_tracker set_header set_journal numbered header journal currentBlockHeight txTypes].
  apply lookup_lt_Some in Hold. rewrite Hh. fold n in Hold |- *.
  destruct (Z.leb_spec (Z.of_nat n + 1 + 1) (Z.of_nat (n / bpe * bpe))); [lia|].
  unfold j_readBlock. fold n in Hrd. by rewrite Hrd.
Qed.

(** ** The second block of the test chain *)

#[local] Existing Instance BlockTimestampTracker.tracker_BTree.
#[local] Existing Instance BlockTimestampTracker.tracker_BTreeLaws.
#[local] Existing Instance tb_Journal.
#[local] Existing Instance tb_JournalLaws.
#[local] Existing Instance tb_Index.
#[local] Existing Instance tb_Sink.

Definition cr_time : Z := 1700000600000.
Definition cr_txs : list TestTransaction := [mkTestTransaction 3 40 1].
Definition cr_at (n : nat) : stage TestSumOverrideFamily * tb_backend (list entry_args) :=
  commit_steps (tb_env cr_time) cr_txs (duration_of (tb_env cr_time) tb1) n (Checking, tb1).
Definition cr_blocks : list (Z * list TestTransaction) := tb_blocks ++ [(cr_time, cr_txs)].

(** Reopened when the block was in the journal but not yet in the timestamp index. *)
Definition cr_hidden : tb_backend (list entry_args) := reopen (testDesign 0) (cr_at 2).2 [].

Lemma cr_fits : j_fits (journal tb1) tb_blocks (cr_time, cr_txs).
Proof. by_compute. Qed.

Lemma cr_at_1 : cr_at 1 = (Numbered 1, (cr_at 1).2).
Proof. apply (pair_fst (cr_at 1) (Numbered 1)). vm_compute. reflexivity. Qed.
Lemma cr_at_2 : cr_at 2 = (Journalled 1, (cr_at 2).2).
Proof. apply (pair_fst (cr_at 2) (Journalled 1)). vm_compute. reflexivity. Qed.

Lemma cr_hidden_rep : chain_rep tb_iregs tb_oregs cr_hidden cr_blocks [1%nat].
Proof.
  assert (stage_rep (M:=bytemap) tb_iregs tb_oregs (tb_env cr_time) cr_txs tb1 tb_blocks [] (cr_at 2)) as H.
  { apply stages_rep; [apply tb_apply_layout|apply tb1_rep|apply cr_fits|by_compute|by_compute]. }
  rewrite cr_at_2 in H. destruct H as (_ & H & _).
  apply (reopen_chain _ _ (testDesign 0) (cr_at 2).2 []); [exact H|exact (openBackend_wiring _ _ _ _ _ _ _ _ _ _ (testDesign_registers 0) tb_design_fits)|exact (tt_codec 0 emptyTypeRegistry)].
Qed.

Lemma tb_decodes : j_decodes (J:=gmap string bytemap) (M:=bytemap) (registerTypes emptyTypeRegistry [(1, createFromMmap 0)]).
Proof. exact (tt_codec 0 emptyTypeRegistry). Qed.

Lemma crash_recovery_witness :
  hole_rep tb_iregs tb_oregs (reopen (testDesign 0) (cr_at 1).2 []) tb_blocks [] /\
  chain_rep tb_iregs tb_oregs cr_hidden cr_blocks [1%nat].
Proof.
  split.
  - apply (crash_recovery tb_design_indexes tb_oregs _ tb_apply_layout (testDesign 0) (tb_env cr_time) cr_txs tb1 tb_blocks [] 1 (Numbered 1) (cr_at 1).2 []
      (testDesign_registers 0) tb_design_fits tb_decodes (br_chain _ _ _ _ tb1_rep) cr_fits); [by_compute|by_compute|exact cr_at_1].
  - apply (crash_recovery tb_design_indexes tb_oregs _ tb_apply_layout (testDesign 0) (tb_env cr_time) cr_txs tb1 tb_blocks [] 2 (Journalled 1) (cr_at 2).2 []
      (testDesign_registers 0) tb_design_fits tb_decodes (br_chain _ _ _ _ tb1_rep) cr_fits); [by_compute|by_compute|exact cr_at_2].
Defined.

(** The hidden block is read by its number; a window over all of time has the first block only. *)
Lemma recovered_chain_witness :
  (exists b', getBlock 1 cr_hidden = (Ret cr_txs, b')) /\
  (exists bns b', getTransactionsByTimeWindow 9 0 1800000000000 cr_hidden = (Ret (txs_of cr_blocks bns), b') /\
    NoDup bns /\ forall n, n ∈ bns <-> in_window cr_blocks 0 1800000000000 n /\ n ∉ [1%nat]).
Proof.
  destruct (recovered_chain tb_iregs tb_oregs tb_apply_layout cr_hidden cr_blocks [1%nat] cr_hidden_rep) as (H1 & H2 & _). split.
  - apply (H1 1%nat (cr_time, cr_txs)). reflexivity.
  - apply H2; [by_compute|lia|cbn; lia].
Defined.

Lemma tb1_files : files_rep tt_enc (journal tb1) tb_blocks.
Proof. exact (cr_journal _ _ _ _ _ (br_chain _ _ _ _ tb1_rep)). Qed.

Lemma sample_zero name i : (0 < i)%nat -> Z.of_nat i < BLOCKS_PER_EPOCH -> boff (sample_newFile name) i = 0.
Proof. reflexivity. Qed.

Lemma tb1_unreached : files_unreached (journal tb1) tb_blocks.
Proof.
  apply (append_keeps_unreached sample_newFile opens_all tt_enc sample_zero ∅ [] (1700000000000, tb_txs) (journal tb1) empty_journal).
  - intros e m He. by rewrite lookup_empty in He.
  - exact (proj1 (tb_fits tt tb_txs (or_introl eq_refl))).
  - vm_compute. reflexivity.
Qed.

(** Block 1 was counted and never written; the next one is committed as block 2, and block 0 is
    gone. *)
Lemma interrupted_commit_overwrites_witness :
  exists b1, writeBlock cr_time cr_txs (numbered tb1) = (Ret 2, b1) /\ (getBlock 0 b1).1 = Ret cr_txs.
Proof.
  apply (interrupted_commit_overwrites sample_newFile opens_all tt_enc tb1 tb_blocks (1700000000000, tb_txs) (cr_time, cr_txs)
    sample_zero (fun _ => eq_refl) tb1_files tb1_unreached); by_compute || (vm_compute; (reflexivity || discriminate)).
Defined.
