(* ===== verification/Lifetime.v ===== *)
(** * Lifetime

    The mempool from one run of the program to the next (src/src/blockchain/BlockchainFrontend.h
    and .cpp: constructor, destructor, [saveMempool]).  A run opens the backend on its files
    and loads mempool.bin; it ends with the destructor, which stops the builder thread at the
    end of its loop and writes mempool.bin, or it is killed. *)

From S2P Require Import Prelude Excessive Memory Transaction Registry StateOverride ChainDesign TestChainDesign MEVBuilder.
From S2P Require Import EpochFile Journal CatalogFile Backend BackendCorrect Frontend TestBackend Crash.
From S2P Require BlockTimestampTracker.

Section Lifetime.
Context {Tx W F Ix M J C T : Type}.
Context `{!MmapHandle M, !FileMapping M}.
Context `{!IndexOverrideFamily F W Ix, !BlockchainIndex Ix, !Transaction Tx W (StateOverride F) M}.
Context `{!Journal J M Tx, !SegmentSink C, !BTree BlockTimestampTracker.block_timestamp_entry_t T}.
Abbreviation Backend := (Backend Tx F Ix M J C T).
Abbreviation chain := (chain (Tx:=Tx) (F:=F) (Ix:=Ix) (M:=M) (J:=J) (C:=C) (T:=T)).

(** What the operating system answers while mempool.bin is written. *)
Record save_env := { sv_open : bool; sv_truncate : bool; sv_map : bool }.

(** mempool.bin after [saveMempool], every early return included; [old] was there before. *)
Definition saveMempoolFile (os : save_env) (old : option (list Z)) (fe : Frontend Tx F) : option (list Z) :=
  if negb (sv_open os) then old
  else
    let count := le_encode 4 (u32 (Z.of_nat (length (mempool fe)))) in
    let totalSize := u64 (foldl (fun n tx => n + tx_size tx) 0 (mempool fe)) in
    Some (if 0 <? totalSize then
      if negb (sv_truncate os) then count
      else if sv_map os then saveMempool (M:=M) fe
      else count ++ replicate (Z.to_nat totalSize) 0
    else count).

(** The program between two runs, and in one. *)
Inductive life :=
| Down (b : Backend) (file : option (list Z)) (snt com : list Tx)
| Up (c : chain) (file : option (list Z)).

Context (design : ChainDesign Tx F Ix M) (config : BlockchainConfig).

(** A run begins with the backend opened on its files and the constructor of the frontend. *)
Definition started (b : Backend) (cat : C) (fe : Frontend Tx F) (snt com : list Tx) : chain :=
  {| ch_fe := fe; ch_backend := reopen design b cat; ch_phase := Idle; ch_sent := snt; ch_committed := com |}.

(** [builderThread.join()] returns when the thread has left its loop, at the test of [running]. *)
Inductive life_step : life -> life -> Prop :=
| life_open w b cat file snt com fe :
    openFrontend w (reopen design b cat) file = Ret fe ->
    life_step (Down b file snt com) (Up (started b cat fe snt com) file)
| life_run c c' file : chain_step (W:=W) config c c' -> life_step (Up c file) (Up c' file)
| life_close os c file : ch_phase c = Idle ->
    life_step (Up c file) (Down (ch_backend c) (saveMempoolFile os file (ch_fe c)) (ch_sent c) (ch_committed c))
| life_kill c file : life_step (Up c file) (Down (ch_backend c) file (ch_sent c) (ch_committed c)).

(** ** Clean runs *)
Context (enc : Tx -> list Z).

(** mempool.bin holds [txs], or does not exist yet. *)
Definition file_holds (file : option (list Z)) (txs : list Tx) : Prop :=
  match file with
  | Some bs => bs = le_encode 4 (u32 (Z.of_nat (length txs))) ++ enc_all enc txs /\ Z.of_nat (length (enc_all enc txs)) <= U32_MAX
  | None => txs = []
  end.

(** Every run is closed, mempool.bin is written, and the mempool is below 4 GiB. *)
Inductive clean_step : life -> life -> Prop :=
| clean_life l l' : life_step l l' -> (forall c file, l = Up c file -> exists c', l' = Up c' file) -> clean_step l l'
| clean_close c file os : ch_phase c = Idle -> sv_open os = true -> sv_truncate os = true -> sv_map os = true ->
    Z.of_nat (length (enc_all enc (mempool (ch_fe c)))) <= U32_MAX ->
    clean_step (Up c file) (Down (ch_backend c) (saveMempoolFile os file (ch_fe c)) (ch_sent c) (ch_committed c)).

(** The transactions that are pending: in the mempool or the builder's hands, or in the file. *)
Definition life_accounted (l : life) : Prop :=
  match l with
  | Down _ file snt com => exists txs, file_holds file txs /\ snt ≡ₚ txs ++ com
  | Up c _ => accounted c
  end.

Context `{!MmapLaws M, !FileMappingLaws M, !TransactionCodec enc (cd_registerTransactionTypes design emptyTypeRegistry)}.

Lemma open_holds (w : W) (b : Backend) cat file txs fe : file_holds file txs -> openFrontend w (reopen design b cat) file = Ret fe -> mempool fe = txs.
Proof.
  unfold openFrontend. intros Hf. destruct (newStateOverride _) as [s| | |]; cbn; try discriminate.
  destruct file as [bs|]; [|intros [= <-]; by rewrite Hf]. destruct Hf as [-> Hsz].
  assert (TransactionCodec enc (txTypes (reopen design b cat))) by done.
  rewrite (load_saved enc) by (done || (pose proof (length_txs_enc enc txs); lia)). by intros [= <-].
Qed.

Lemma saved_holds os file (fe : Frontend Tx F) : sv_open os = true -> sv_truncate os = true -> sv_map os = true ->
  Z.of_nat (length (enc_all enc (mempool fe))) <= U32_MAX -> file_holds (saveMempoolFile os file fe) (mempool fe).
Proof.
  intros Ho Ht Hm Hsz. unfold saveMempoolFile. rewrite Ho, Ht, Hm. cbn [negb file_holds]. split; [|done].
  pose proof (saveMempool_bytes (M:=M) enc fe Hsz) as Hs. rewrite <- Hs. unfold saveMempool. by destruct (0 <? u64 _).
Qed.

Lemma clean_step_accounted l l' : clean_step l l' -> life_accounted l -> life_accounted l'.
Proof.
  destruct 1 as [l l' Hs Hup|c file os Hidle Ho Ht Hm Hsz]; intros Ha.
  - destruct Hs as [w b cat file snt com fe Hopen|c c' file Hc|os c file Hidle|c file].
    + destruct Ha as (txs & Hf & Hp). cbn. unfold accounted. cbn. by rewrite (open_holds _ _ _ _ _ _ Hf Hopen).
    + by eapply chain_step_accounted.
    + destruct (Hup c file eq_refl) as [? [=]].
    + destruct (Hup c file eq_refl) as [? [=]].
  - cbn in Ha |- *. exists (mempool (ch_fe c)). split; [by apply saved_holds|]. unfold accounted in Ha. by rewrite Hidle in Ha.
Qed.
End Lifetime.

Section Theorems.
Context {Tx W F Ix M J C T : Type}.
Context `{!MmapHandle M, !FileMapping M, !MmapLaws M, !FileMappingLaws M}.
Context `{!IndexOverrideFamily F W Ix, !BlockchainIndex Ix, !Transaction Tx W (StateOverride F) M}.
Context `{!Journal J M Tx, !SegmentSink C, !BTree BlockTimestampTracker.block_timestamp_entry_t T}.
Context (design : ChainDesign Tx F Ix M) (config : BlockchainConfig) (enc : Tx -> list Z).
Context `{!TransactionCodec enc (cd_registerTransactionTypes design emptyTypeRegistry)}.

(** C18: no transaction is lost or duplicated over any number of runs of the program that are
    closed: at every moment the transactions ever sent are the pending ones, in memory or in
    mempool.bin, and the committed ones. *)
Theorem clean_lifetimes (l l' : life (Tx:=Tx) (F:=F) (Ix:=Ix) (M:=M) (J:=J) (C:=C) (T:=T)) :
  life_accounted enc l -> rtc (clean_step (W:=W) design config enc) l l' ->
  match l' with
  | Down b file snt com => exists txs, snt ≡ₚ txs ++ com /\
      forall w cat fe, openFrontend w (reopen design b cat) file = Ret fe -> mempool fe = txs
  | Up c _ => ch_sent c ≡ₚ mempool (ch_fe c) ++ in_hand (ch_phase c) ++ ch_committed c
  end.
Proof.
  intros Ha Hs. assert (life_accounted enc l') as Ha' by (induction Hs; eauto using clean_step_accounted).
  destruct l' as [b file snt com|c file]; [|done]. destruct Ha' as (txs & Hf & Hp). exists txs. split; [done|].
  intros w cat fe. by apply (open_holds design enc).
Qed.
End Theorems.

(** ** The test design over two runs *)

#[local] Existing Instance BlockTimestampTracker.tracker_BTree.
#[local] Existing Instance tb_Journal.
#[local] Existing Instance tb_Index.
#[local] Existing Instance tb_Sink.
#[local] Existing Instance tb_FileMapping.
#[local] Existing Instance tb_FileMappingLaws.

Definition lt_file : list Z := saveMempool (M:=bytemap) tb_fe.
Definition lt_backend : tb_backend (list entry_args) := reopen (testDesign 0) tb1 [].
Definition all_well : save_env := {| sv_open := true; sv_truncate := true; sv_map := true |}.
Definition lt_state (fe : Frontend TestTransaction TestSumOverrideFamily) (b : tb_backend (list entry_args)) ph snt com :=
  {| ch_fe := fe; ch_backend := b; ch_phase := ph; ch_sent := snt; ch_committed := com |}.

Lemma lt_holds : file_holds tt_enc (Some lt_file) tb_pool.
Proof. split; [vm_compute; reflexivity|by_compute]. Qed.

Lemma lt_open : openFrontend tb_world lt_backend (Some lt_file) = Ret tb_fe.
Proof. vm_compute. reflexivity. Qed.

Lemma clean_lifetimes_witness : exists txs, tb_pool ++ [sample_tx] ≡ₚ txs ++ [] /\
  forall w cat fe, openFrontend w (reopen (testDesign 0) lt_backend cat)
    (saveMempoolFile (M:=bytemap) all_well (Some lt_file) (sendTransaction (M:=bytemap) tb_world sample_tx tb_fe)) = Ret fe -> mempool fe = txs.
Proof.
  apply (clean_lifetimes (W:=TestWorld) (testDesign 0) tb_config tt_enc (Down tb1 (Some lt_file) tb_pool [])
    (Down lt_backend (saveMempoolFile (M:=bytemap) all_well (Some lt_file) (sendTransaction (M:=bytemap) tb_world sample_tx tb_fe)) (tb_pool ++ [sample_tx]) [])).
  - exists tb_pool. split; [exact lt_holds|]. by rewrite app_nil_r.
  - eapply rtc_l; [|eapply rtc_l; [|apply rtc_once]].
    + apply clean_life; [exact (life_open (testDesign 0) tb_config tb_world tb1 [] (Some lt_file) tb_pool [] tb_fe lt_open)|done].
    + apply clean_life; [|intros ? ? [= <- <-]; eexists; done]. apply life_run.
      exact (step_send tb_config tb_world sample_tx tb_fe lt_backend Idle tb_pool []).
    + apply (clean_close (testDesign 0) tb_config tt_enc
        (lt_state (sendTransaction (M:=bytemap) tb_world sample_tx tb_fe) lt_backend Idle (tb_pool ++ [sample_tx]) [])); done.
Defined.
