(* ===== verification/SumChain.v ===== *)
(** * SumChain

    The test design on the whole storage stack: a backend whose segments go to the real
    catalog, the background tasks of its thread pool, and the sum index that reads the
    catalog back.  The state of the application is recovered from disk: as long as each
    block is sealed with the pool idle, the index answers the sum and the count of all
    the transactions ever committed. *)

From S2P Require Import Prelude Excessive Memory Transaction Registry StateOverride TestChainDesign.
From S2P Require Import Journal CatalogFile Catalog CatalogTasks CatalogContents CatalogStats SumIndex Backend BackendCorrect TestBackend.
From S2P Require BlockTimestampTracker.

#[local] Existing Instance tb_Index.

(** What the operating system and the clock answer to a submission. *)
Record os_answers := { os_canOpen : Z -> bool; os_now1 : Z; os_now2 : Z; os_errno : string }.

Section SumChain.
Context {J T TT TS R Fd M : Type}.
Context `{!BTree catalog_contents_entry_t TT, !BTree segment_btree_metadata_t TS, !FreeSpaceFile R, !MmapHandle M, !FdHandle Fd M}.
Context `{!BTreeLaws Catalog.compare, !BTreeLaws CatalogFile.compare, !FreeSpaceLaws R, !FreeSpaceHeader R, !MmapLaws M, !FdLaws Fd M}.
Context `{!BTree BlockTimestampTracker.block_timestamp_entry_t T, !BTreeLaws BlockTimestampTracker.compare}.
Context `{!Journal J M TestTransaction, !JournalLaws J M TestTransaction}.
(** The registry the design fills decodes the journal. *)
Context (journal_decodes : j_decodes (design_registerTransactionTypes 0 emptyTypeRegistry)).
Context (fast_hash : list Z -> Z -> Z) (newFd : Fd) (newRegions : R).
Context (pq_sort : list (Z * Z) -> list Z) (pq_sort_law : forall l, pq_sort l ≡ₚ map fst l).

Abbreviation Cat := (Catalog TT (CatalogFile TS R Fd)).
Abbreviation SumBackend := (Backend TestTransaction TestSumOverrideFamily TestSumIndex M J (Cat * list task) T).

#[local] Instance sc_files : SegmentFile (CatalogFile TS R Fd) := CatalogFile_SegmentFile (M:=M) fast_hash newFd newRegions.
#[local] Instance sc_files_laws : SegmentFileLaws (CatalogFile TS R Fd) := CatalogFile_SegmentFileLaws (M:=M) fast_hash newFd newRegions.

(** The catalog and the pool as the backend's sink. *)
Definition catalog_sink (os : os_answers) : SegmentSink (Cat * list task) := {|
  cat_writeSegment a := fun x =>
    let '(c, ts) := x in
    match writeSegment pq_sort (S (length (bt_elems (tocBTree c)))) (os_canOpen os) (os_now1 os) (os_now2 os) (os_errno os) a c with
    | (Ret t, c) => (Ret tt, (c, ts ++ [t]))
    | (Throw e, c) => (Throw e, (c, ts))
    | (Undef u, c) => (Undef u, (c, ts))
    | (NoFuel, c) => (NoFuel, (c, ts))
    end;
|}.

(** What the sum index reads; every file opens and every mapping succeeds. *)
Definition disk_world (fuel : nat) (now : Z) (c : Cat) : TestWorld :=
  catalogWorld (fun _ => true) (fun _ : M => true) fuel now c.

(** A read with the clock at [now] reaches all of [c]. *)
Definition readable (fuel : nat) (now : Z) (c : Cat) : Prop :=
  enough_fuel fuel c /\ forall fid, is_Some (files c !! fid) -> fid <= now.

(** The backend of the test design on the files of a data directory. *)
Definition open_chain (config : BlockchainConfig) (isNew : bool) (stored : metadata_header) (j : J) (toc : TT)
    (fs : gmap Z (CatalogFile TS R Fd)) (timestamps : T) : SumBackend :=
  openBackend config isNew stored j (testDesign 0) (openCatalog toc fs, [])
    (BlockTimestampTracker.openTracker timestamps).

(** Destruction, which drains the pool, and a new backend on the same files. *)
Definition restart (b : SumBackend) (c : Cat) : SumBackend :=
  open_chain (config b) false (header b) (journal b) (tocBTree c) (files c) (BlockTimestampTracker.index (timestampTracker b)).

(** The chain with the history of its blocks: a call of [addBlock] that returns, with the
    pool idle and a clock that is not behind the files; a section of a task; or a restart. *)
Inductive sum_step : SumBackend * list (Z * list TestTransaction) -> SumBackend * list (Z * list TestTransaction) -> Prop :=
| sum_addBlock os (env : commit_env TestWorld) txs b blocks c fuel now n b' :
    catalog b = (c, []) -> readable fuel now c -> (forall ix, e_seal env 0%nat ix = disk_world fuel now c ix) ->
    1 <= os_now2 os < U64_MAX -> j_fits (journal b) blocks (e_millis env, txs) -> in_u64 (e_millis env) ->
    Z.of_nat (length blocks) < U64_MAX ->
    addBlock (M:=M) (SegmentSink0:=catalog_sink os) env txs b = (Ret n, b') ->
    sum_step (b, blocks) (b', if n =? -1 then blocks else blocks ++ [(e_millis env, txs)])
| sum_task b blocks y : task_step (catalog b) y -> sum_step (b, blocks) (set_catalog b y, blocks)
| sum_restart b blocks c : catalog b = (c, []) -> sum_step (b, blocks) (restart b c, blocks).

(** ** The history of the catalog of a chain *)

Definition committed (blocks : list (Z * list TestTransaction)) : list TestTransaction := concat (map snd blocks).
Definition total (blocks : list (Z * list TestTransaction)) : Z := i32 (sum_values (committed blocks)).
Definition number (blocks : list (Z * list TestTransaction)) : Z := i32 (Z.of_nat (length (committed blocks))).

(** The segment of the last block of [blocks]. *)
Definition sum_call (blocks : list (Z * list TestTransaction)) : entry_args :=
  {| ea_indexId := 0; ea_version := TestChainDesign.encodingVersion newTestSumIndex; ea_mergeGeneration := 0;
     ea_startBlock := Z.of_nat (length blocks) - 1; ea_endBlock := Z.of_nat (length blocks);
     ea_content := int_bytes (total blocks) ++ int_bytes (number blocks) |}.

Definition sum_history (blocks : list (Z * list TestTransaction)) : list entry_args :=
  map (fun n => sum_call (take n blocks)) (rev (seq 1 (length blocks))).

Implicit Types (env : commit_env TestWorld) (b : SumBackend) (blocks : list (Z * list TestTransaction)) (c : Cat).

Lemma sum_history_snoc blocks blk : sum_history (blocks ++ [blk]) = sum_call (blocks ++ [blk]) :: sum_history blocks.
Proof.
  unfold sum_history. rewrite length_app, Nat.add_1_r, seq_S, rev_app_distr. cbn [rev app map Nat.add].
  rewrite take_ge by (rewrite length_app; cbn; lia). f_equal. apply map_ext_in. intros n Hn.
  apply in_rev, in_seq in Hn. by rewrite take_app_le by lia.
Qed.

Lemma sum_history_elem blocks a : a ∈ sum_history blocks <-> exists n, (1 <= n <= length blocks)%nat /\ a = sum_call (take n blocks).
Proof.
  unfold sum_history. rewrite list_elem_of_In, in_map_iff. split.
  - intros (n & <- & Hn). apply in_rev, in_seq in Hn. exists n. split; [lia|done].
  - intros (n & Hn & ->). exists n. split; [done|]. apply in_rev. rewrite rev_involutive. apply in_seq. lia.
Qed.

Lemma sum_values_app l1 l2 : sum_values (l1 ++ l2) = sum_values l1 + sum_values l2.
Proof. unfold sum_values. induction l1 as [|tx l1 IH]; cbn in *; lia. Qed.

Lemma decode_call blocks :
  decode_sum (ea_content (sum_call blocks)) = total blocks /\ decode_count (ea_content (sum_call blocks)) = number blocks.
Proof.
  unfold decode_sum, decode_count; cbn [sum_call ea_content]. pose proof (length_int_bytes (total blocks)) as H1.
  rewrite (take_app_length' _ _ 4), (drop_app_length' _ _ 4), take_ge by (by rewrite ?length_int_bytes).
  unfold total, number. split; apply int_of_bytes_int; word.
Qed.

Lemma length_call blocks : length (ea_content (sum_call blocks)) = 8%nat.
Proof. cbn [sum_call ea_content]. by rewrite length_app, !length_int_bytes. Qed.

(** An idle catalog with the history of [blocks] answers their sum and count. *)
Lemma idle_read blocks c r :
  cat_log c [] (sum_history blocks) -> reads_newest (M:=M) c 0 (TestChainDesign.encodingVersion newTestSumIndex) r ->
  r = match blocks with [] => (false, 0, 0) | _ => (true, total blocks, number blocks) end.
Proof.
  intros [Hrec _ Hseg _ _] Hr. destruct (decide (blocks = [])) as [->|Hne].
  - destruct r as [[[|] sum] count].
    + destruct Hr as (fid & f & s & Hf & (Hs & _) & _). destruct (Hseg fid f s Hf Hs) as (a & Ha & _). by apply not_elem_of_nil in Ha.
    + by destruct Hr as (-> & -> & _).
  - assert (sum_call blocks ∈ sum_history blocks) as Hin.
    { apply sum_history_elem. exists (length blocks). rewrite take_ge by done. split; [|done]. destruct blocks; [done|cbn; lia]. }
    destruct (Hrec _ Hin) as [(t & Ht & _)|(fid & f & s & Hf & Hs & Hd & Hread)]; [by apply not_elem_of_nil in Ht|].
    destruct Hd as (D1 & D2 & D3 & D4 & D5 & D6). cbn in D3, D4.
    assert (s ∈ bt_elems (segmentIndex f) /\ indexId s = 0 /\ wanted (TestChainDesign.encodingVersion newTestSumIndex) s) as Hw.
    { split; [done|]. split; [done|]. split; [done|]. rewrite D6. unfold ea_length. rewrite length_call. split; [by vm_compute|lia]. }
    destruct r as [[[|] sum] count]; [|destruct Hr as (_ & _ & Hr); by destruct (Hr fid f s Hf)].
    destruct Hr as (fid0 & f0 & s0 & Hf0 & (Hs0 & Hix0 & Hw0) & -> & -> & Hmax).
    destruct (Hseg fid0 f0 s0 Hf0 Hs0) as (a0 & Ha0 & _ & (_ & _ & E3 & E4 & _) & Hread0).
    apply sum_history_elem in Ha0 as (n & Hn & ->). cbn in E3, E4. change (sf_read f0 s0) with (read_segment (M:=M) f0 s0) in Hread0.
    assert (n = length blocks) as ->.
    { specialize (Hmax fid f s Hf Hw). unfold not_newer in Hmax. rewrite D3, E3, length_take in Hmax. lia. }
    rewrite Hread0, take_ge by done. destruct (decode_call blocks) as [-> ->]. by destruct blocks.
Qed.

Lemma disk_world_total blocks c fuel now :
  cat_inv c [] -> cat_log c [] (sum_history blocks) -> readable fuel now c ->
  disk_world fuel now c 0 = (total blocks, number blocks).
Proof.
  intros Hi Hl [Hf Hn]. unfold disk_world, catalogWorld.
  destruct (readLatest_spec fast_hash newFd newRegions (fun _ => true) (fun _ : M => true) (fun _ => eq_refl) (fun _ => eq_refl)
    fuel now c [] 0 (TestChainDesign.encodingVersion newTestSumIndex)) as (r & -> & Hr); [done|by constructor|done|done|].
  rewrite (idle_read blocks c r Hl Hr). by destruct blocks.
Qed.
(** ** One commit *)

Definition sum_index : TestSumIndex := {| attachedCatalog := true; attachedIndexId := 0 |}.

Lemma fresh_override b : wired tb_iregs tb_oregs b -> Backend.newStateOverride (W:=TestWorld) b = Ret tb_fresh.
Proof.
  intros (Hix & Hov & _). unfold Backend.newStateOverride, attachOverrideFamilies, pairCount. rewrite Hix, Hov. reflexivity.
Qed.

Lemma verify_all w s txs : exists v, verify_loop (M:=M) w s txs = Ret v.
Proof. revert s. induction txs as [|tx txs IH]; intros s; [by exists s|]. cbn [verify_loop]. apply IH. Qed.

Lemma sum_commit_calls env txs bn : txs <> [] -> 
  commit_calls (M:=M) tb_iregs tb_oregs env tb_fresh txs bn =
    [{| ea_indexId := 0; ea_version := TestChainDesign.encodingVersion newTestSumIndex; ea_mergeGeneration := 0;
        ea_startBlock := bn; ea_endBlock := u64 (bn + 1);
        ea_content := int_bytes (i32 (fst (e_seal env 0%nat 0) + sum_values txs)) ++
          int_bytes (i32 (snd (e_seal env 0%nat 0) + Z.of_nat (length txs))) |}].
Proof.
  intros Hne. unfold commit_calls, tb_fresh. rewrite apply_all_one.
  change (seq 0 (length tb_oregs `min` length tb_iregs)) with [0%nat]. cbn [omap list_omap]. unfold seal_call.
  assert (forall fam, familyAt (one_family fam) (Z.of_nat 0) = Ret fam) as Hat.
  { reflexivity. }
  rewrite Hat. change (tb_iregs !! 0%nat) with (Some (indexKey, sum_index)). cbn beta iota.
  change (seal (Ix:=TestSumIndex) (e_seal env 0%nat)) with (fam_seal (e_seal env 0%nat)). fold sum_index.
  rewrite (seal_all _ sum_index txs Hne). cbn [latestSum latestCount sum_index attachedCatalog attachedIndexId].
  destruct (int_bytes (i32 (fst (e_seal env 0%nat 0) + sum_values txs)) ++ _) as [|z p] eqn:E; [|done].
  apply (f_equal length) in E. by rewrite length_app, !length_int_bytes in E.
Qed.

Lemma next_call blocks blk :
  Z.of_nat (length blocks) < U64_MAX ->
  sum_call (blocks ++ [blk]) =
    {| ea_indexId := 0; ea_version := TestChainDesign.encodingVersion newTestSumIndex; ea_mergeGeneration := 0;
       ea_startBlock := Z.of_nat (length blocks); ea_endBlock := u64 (Z.of_nat (length blocks) + 1);
       ea_content := int_bytes (i32 (total blocks + sum_values blk.2)) ++ int_bytes (i32 (number blocks + Z.of_nat (length blk.2))) |}.
Proof.
  intros Hlen. unfold sum_call, total, number, committed. rewrite map_app, concat_app, sum_values_app, length_app. cbn [map concat].
  rewrite app_nil_r, !i32_add_l, length_app, u64_small by (cbn; word). cbn [length]. f_equal; try lia. by rewrite Nat2Z.inj_add.
Qed.

(** What holds between the steps of the chain. *)
Definition sum_inv (b : SumBackend) (blocks : list (Z * list TestTransaction)) : Prop :=
  backend_rep tb_iregs tb_oregs b blocks /\ cat_inv (catalog b).1 (catalog b).2 /\ cat_log (catalog b).1 (catalog b).2 (sum_history blocks).

Lemma sum_call_ok blocks : Z.of_nat (length blocks) <= U64_MAX -> blocks <> [] -> args_ok (sum_call blocks).
Proof.
  intros Hlen Hne. assert (0 < length blocks)%nat by (destruct blocks; [done|cbn; lia]).
  unfold args_ok. rewrite length_call. cbn [sum_call ea_indexId ea_startBlock ea_mergeGeneration]. word_unfold. lia.
Qed.

Lemma sum_call_fresh blocks blk c : cat_log c [] (sum_history blocks) -> fresh_call (sum_call (blocks ++ [blk])) c [].
Proof.
  intros [_ _ Hseg _ _]. split; [|apply not_elem_of_nil]. intros fid f Hf Hin.
  apply list_elem_of_fmap in Hin as (s & Hk & Hs). destruct (Hseg fid f s Hf Hs) as (a & Ha & _ & Hd & _).
  apply sum_history_elem in Ha as (n & Hn & ->). rewrite (describes_key _ _ Hd) in Hk. unfold ea_key in Hk. cbn in Hk.
  injection Hk as Hk. rewrite length_app, length_take in Hk. cbn in Hk. lia.
Qed.

Lemma submit_one os (a : entry_args) c : cat_inv c [] -> 1 <= os_now2 os < U64_MAX ->
  exists r x, submit_all (SegmentSink0:=catalog_sink os) [a] (c, []) = (r, x) /\
    forall u l, r = Ret u -> args_ok a -> fresh_call a c [] -> cat_log c [] l -> cat_inv x.1 x.2 /\ cat_log x.1 x.2 (a :: l).
Proof.
  intros Hi Hnow. unfold submit_all, catalog_sink; cbn [foldr cat_writeSegment]. unfold mbind, prog_bind.
  destruct (writeSegment pq_sort _ (os_canOpen os) (os_now1 os) (os_now2 os) (os_errno os) a c) as [r c'] eqn:Hw.
  pose proof (submit_inv pq_sort pq_sort_law _ _ _ _ _ _ _ [] _ _ (Nat.lt_succ_diag_r _) Hnow Hi Hw) as H1.
  pose proof (fun l Hl => submit_log pq_sort pq_sort_law _ _ _ _ _ _ _ [] l _ _ (Nat.lt_succ_diag_r _) Hnow Hi Hl Hw) as H2.
  destruct r as [t|e|u|]; cbn; eexists _, _; (split; [done|]); try done. intros u l _ Ha Hf Hl. cbn [fst snd app].
  split; [by apply H1|by apply H2].
Qed.

Lemma addBlock_inv os env txs b blocks c fuel now n b' :
  sum_inv b blocks -> catalog b = (c, []) -> readable fuel now c -> (forall ix, e_seal env 0%nat ix = disk_world fuel now c ix) ->
  1 <= os_now2 os < U64_MAX -> j_fits (journal b) blocks (e_millis env, txs) -> in_u64 (e_millis env) ->
  Z.of_nat (length blocks) < U64_MAX -> addBlock (M:=M) (SegmentSink0:=catalog_sink os) env txs b = (Ret n, b') ->
  sum_inv b' (if n =? -1 then blocks else blocks ++ [(e_millis env, txs)]).
Proof.
  intros (Hr & Hi & Hl) Hc Hread Hseal Hnow Hfits Hms Hlen Hadd. rewrite Hc in Hi, Hl. cbn [fst snd] in Hi, Hl.
  destruct (tooEarly (config b) (Z.of_nat (length txs)) (duration_of env b)) as [early| | |] eqn:He.
  2-4: by unfold addBlock in Hadd; rewrite (prog_bind_Ret getS _ _ b b) in Hadd by done; cbn beta zeta in Hadd; fold (duration_of env b) in Hadd;
    rewrite He in Hadd.
  destruct early.
  { unfold addBlock in Hadd. rewrite (prog_bind_Ret getS _ _ b b) in Hadd by done. cbn beta zeta in Hadd. fold (duration_of env b) in Hadd.
    rewrite He in Hadd. cbn in Hadd. injection Hadd as <- <-. cbn. split; [done|]. by rewrite Hc. }
  assert (txs <> []) as Hne by (intros ->; discriminate He).
  destruct (submit_one os (sum_call (blocks ++ [(e_millis env, txs)])) c Hi Hnow) as (r & x & Hsub & Hx).
  destruct (verify_all (e_verify env) tb_fresh txs) as [v Hv].
  assert (commit_calls (M:=M) tb_iregs tb_oregs env tb_fresh txs (Z.of_nat (length blocks)) = [sum_call (blocks ++ [(e_millis env, txs)])]) as Hcalls.
  { rewrite sum_commit_calls by done. rewrite next_call by done. rewrite !Hseal. rewrite (disk_world_total blocks) by done. done. }
  destruct (addBlock_run (M:=M) (SegmentSink0:=catalog_sink os) tb_iregs tb_oregs tb_apply_layout b blocks [] env txs tb_fresh v r x) as (b1 & Hr1 & Hts & Hcat & Hrun); try done.
  { apply Hr. }
  { apply fresh_override, (cr_wired _ _ _ _ _ (br_chain _ _ _ _ Hr)). }
  { by rewrite Hcalls, Hc. }
  rewrite Hrun in Hadd. destruct r as [u|e|u|]; try done. destruct (duration_of env b =? 0); [done|]. injection Hadd as <- <-.
  destruct (Z.eqb_spec (Z.of_nat (length blocks)) (-1)); [lia|].
  destruct (Hx u (sum_history blocks) eq_refl) as [Hi' Hl']; [|by apply sum_call_fresh|done|].
  { apply sum_call_ok; [rewrite length_app; cbn; lia|by destruct blocks]. }
  split; [apply backend_rep_snoc; [by destruct Hr1|done]|]. cbn [catalog set_lastBlockTime]. rewrite Hcat, sum_history_snoc. done.
Qed.

Lemma open_wired cfg isNew stored j toc fs t : wired tb_iregs tb_oregs (open_chain cfg isNew stored j toc fs t).
Proof.
  split; [reflexivity|]. split; [reflexivity|]. split; [apply one_fits|]. split; [apply one_fits|]. cbn. lia.
Qed.

Lemma restart_inv b blocks c : catalog b = (c, []) -> sum_inv b blocks -> sum_inv (restart b c) blocks.
Proof.
  intros Hc (Hr & Hi & Hl). rewrite Hc in Hi, Hl. cbn [fst snd] in Hi, Hl.
  split; [apply (backend_rep_same _ _ b); [done|apply open_wired|done..|by destruct b as [? ? ? ? ? ? ? []]]|]. cbn. destruct Hi, Hl. split; by split.
Qed.

Lemma sum_step_inv x y : sum_step x y -> sum_inv x.1 x.2 -> sum_inv y.1 y.2.
Proof.
  intros Hs Hi. destruct Hs as [os env txs b blocks c fuel now n b' Hc Hrd Hsl Hn Hf Hms Hlen Ha|b blocks y Ht|b blocks c Hc]; cbn [fst snd] in *.
  - by eapply addBlock_inv.
  - destruct Hi as (Hr & Hi & Hl). split; [by apply (backend_rep_same _ _ b); [..|apply Hr|apply Hr| | |]|]. cbn [set_catalog catalog].
    split; [by eapply task_step_inv|by eapply task_step_log].
  - by apply restart_inv.
Qed.

Lemma sum_steps_inv x y : rtc sum_step x y -> sum_inv x.1 x.2 -> sum_inv y.1 y.2.
Proof. induction 1; [done|]. intros Hi. apply IHrtc. by eapply sum_step_inv. Qed.

Lemma new_chain_inv cfg j : j_rep j [] ->
  sum_inv (open_chain cfg true {| lastBlockTimestamp := 0; currentBlockHeight := 0 |} j bt_empty ∅ bt_empty) [].
Proof.
  intros Hj. pose proof (bt_empty_elems (cmp:=BlockTimestampTracker.compare) (T:=T)) as Ht.
  pose proof (bt_empty_elems (cmp:=Catalog.compare) (T:=TT)) as Htoc.
  split; [|split; [|apply empty_log]].
  - split; [|done]. split; [apply open_wired|done|done|done|constructor| |].
    + split; unfold bt_wf; cbn; rewrite Ht; constructor.
    + unfold BlockTimestampTracker.entries; cbn. by rewrite Ht.
  - apply open_inv; [split; unfold bt_wf; rewrite Htoc; constructor| |]; intros *; by rewrite lookup_empty.
Qed.

(** C1: the state of the application is on disk.  From a new data directory, after any run of
    commits, background tasks and restarts in which each block is sealed with the pool
    idle, and whenever the pool is idle again: reading the catalog gives exactly the sum of
    the values and the number of the transactions of all committed blocks, in 32-bit two's
    complement, and the backend represents those blocks. *)
Theorem sum_recovered cfg j b blocks c fuel now :
  j_rep j [] ->
  rtc sum_step (open_chain cfg true {| lastBlockTimestamp := 0; currentBlockHeight := 0 |} j bt_empty ∅ bt_empty, []) (b, blocks) ->
  catalog b = (c, []) -> readable fuel now c ->
  readLatestSegment (fun _ => true) (fun _ : M => true) fuel now (Some c) 0 (TestChainDesign.encodingVersion newTestSumIndex) =
    Ret (match blocks with [] => (false, 0, 0) | _ => (true, total blocks, number blocks) end) /\
  backend_rep tb_iregs tb_oregs b blocks.
Proof.
  intros Hj Hs Hc [Hf Hn]. pose proof (sum_steps_inv _ _ Hs (new_chain_inv cfg j Hj)) as (Hr & Hi & Hl); cbn [fst snd] in *.
  rewrite Hc in Hi, Hl. split; [|done].
  destruct (readLatest_spec fast_hash newFd newRegions (fun _ => true) (fun _ : M => true) (fun _ => eq_refl) (fun _ => eq_refl)
    fuel now c [] 0 (TestChainDesign.encodingVersion newTestSumIndex)) as (r & -> & Hrd); [done|by constructor|done|done|].
  by rewrite (idle_read blocks c r Hl Hrd).
Qed.
(** The history without the last block. *)
Lemma survivors_last c t blocks blk : cat_log c [t] (sum_history (blocks ++ [blk])) -> tk_args t = sum_call (blocks ++ [blk]) ->
  survivors [t] (sum_history (blocks ++ [blk])) = sum_history blocks.
Proof.
  intros [_ _ _ Hk _] Ht. unfold survivors, task_keys. cbn [map]. rewrite Ht. rewrite sum_history_snoc in *. cbn [map] in Hk.
  apply NoDup_cons in Hk as [Hk _]. rewrite filter_cons_False by (intros Hn; apply Hn; left).
  transitivity (filter (fun _ : entry_args => True) (sum_history blocks)).
  - apply filter_ext_in. intros a Ha. rewrite list_elem_of_singleton. split; [done|]. intros _ He. apply Hk. rewrite <- He.
    by apply (list_elem_of_fmap_2 ea_key).
  - clear. induction (sum_history blocks) as [|a l IH]; [done|]. rewrite filter_cons_True, IH by done. done.
Qed.

(** C30: nothing is replayed.  If the process dies after a commit, before the pool has written its
    segment, the chain that is opened again has the block, in its journal, its height and its
    timestamp index, while the application's index answers the state before it. *)
Theorem crash_forgets_block cfg j b blocks blk c t fuel now :
  j_rep j [] ->
  rtc sum_step (open_chain cfg true {| lastBlockTimestamp := 0; currentBlockHeight := 0 |} j bt_empty ∅ bt_empty, []) (b, blocks ++ [blk]) ->
  catalog b = (c, [t]) -> tk_stored t = false -> tk_args t = sum_call (blocks ++ [blk]) -> readable fuel now c ->
  let b2 := restart b c in
  backend_rep tb_iregs tb_oregs b2 (blocks ++ [blk]) /\
  readLatestSegment (fun _ => true) (fun _ : M => true) fuel now (Some (catalog b2).1) 0 (TestChainDesign.encodingVersion newTestSumIndex) =
    Ret (match blocks with [] => (false, 0, 0) | _ => (true, total blocks, number blocks) end).
Proof.
  intros Hj Hs Hc Ht Hargs [Hf Hn] b2. pose proof (sum_steps_inv _ _ Hs (new_chain_inv cfg j Hj)) as (Hr & Hi & Hl); cbn [fst snd] in *.
  rewrite Hc in Hi, Hl. cbn [fst snd] in Hi, Hl.
  assert (Forall (fun t => tk_stored t = false) [t]) as Hq by (by constructor).
  pose proof (crashed_inv c [t] Hi Hq) as Hi2. pose proof (crashed_log c [t] _ Hi Hl Hq) as Hl2. rewrite (survivors_last c) in Hl2 by done.
  unfold b2. split; [apply (backend_rep_same _ _ b); [done|apply open_wired|done..|by destruct b as [? ? ? ? ? ? ? []]]|].
  change (catalog (restart b c)).1 with (crashed c).
  destruct (readLatest_spec fast_hash newFd newRegions (fun _ => true) (fun _ : M => true) (fun _ => eq_refl) (fun _ => eq_refl)
    fuel now (crashed c) [] 0 (TestChainDesign.encodingVersion newTestSumIndex)) as (r & -> & Hrd); [done|by constructor|done|done|].
  by rewrite (idle_read blocks (crashed c) r Hl2 Hrd).
Qed.
End SumChain.

(** C31: a block sealed before the segment of its predecessors is readable loses them: the
    segment a commit submits as the newest one of the index holds the sum that the index
    read when the block was sealed plus the block's own.  If that read saw only the blocks
    [seen], the sum on disk is right exactly when the blocks it missed add up to nothing. *)
Theorem seal_reads_committed {M} `{!MmapHandle M} (env : commit_env TestWorld) txs blocks seen :
  txs <> [] -> e_seal env 0%nat 0 = (total seen, number seen) -> Z.of_nat (length blocks) < U64_MAX ->
  let after := blocks ++ [(e_millis env, txs)] in
  exists a, commit_calls (M:=M) tb_iregs tb_oregs env tb_fresh txs (Z.of_nat (length blocks)) = [a] /\
    ea_key a = ea_key (sum_call after) /\ decode_sum (ea_content a) = i32 (total seen + sum_values txs) /\
    (decode_sum (ea_content a) = total after <-> u32 (sum_values (committed seen)) = u32 (sum_values (committed blocks))).
Proof.
  intros Hne Hs Hlen after. eexists. split; [by apply sum_commit_calls|]. cbn [ea_content].
  split; [unfold after; by rewrite next_call|].
  rewrite Hs; cbn [fst snd]. unfold decode_sum. rewrite (take_app_length' _ _ 4) by (by rewrite length_int_bytes).
  rewrite int_of_bytes_int by word. split; [done|].
  unfold after, total, committed. rewrite map_app, concat_app, sum_values_app. cbn [map concat snd]. rewrite app_nil_r, i32_add_l.
  word_unfold. split; intros H; Z.div_mod_to_equations; lia.
Qed.
(** ** Concrete chains *)

#[local] Existing Instance BlockTimestampTracker.tracker_BTree.
#[local] Existing Instance BlockTimestampTracker.tracker_BTreeLaws.
#[local] Existing Instance tb_Journal.
#[local] Existing Instance tb_JournalLaws.
#[local] Existing Instance seg_BTree.
#[local] Existing Instance seg_BTreeLaws.
#[local] Existing Instance toc_BTree.
#[local] Existing Instance toc_BTreeLaws.

Definition sc_os (now : Z) : os_answers := {| os_canOpen := fun _ => true; os_now1 := now; os_now2 := now; os_errno := "" |}.
Definition sc_chain : Type :=
  Backend TestTransaction TestSumOverrideFamily TestSumIndex bytemap (gmap string bytemap) (sample_catalog_t * list task) (list BlockTimestampTracker.block_timestamp_entry_t).
Definition sc_world (now : Z) (b : sc_chain) : TestWorld := disk_world (M:=bytemap) 9 now (catalog b).1.
Definition sc_env (millis : Z) (b : sc_chain) : commit_env TestWorld :=
  {| e_millis := millis; e_verify := sc_world millis b; e_apply := sc_world millis b; e_seal := fun _ => sc_world millis b |}.

Definition sc_commit (millis : Z) (txs : list TestTransaction) (b : sc_chain) : outcome Z * sc_chain :=
  addBlock (M:=bytemap) (SegmentSink0:=catalog_sink no_hash (Bytemap 4096 0 ∅) [] in_order (sc_os millis)) (sc_env millis b) txs b.

(** The two sections of the oldest task of the pool. *)
#[local] Instance sc_file_impl : SegmentFile sample_file_t := CatalogFile_SegmentFile (M:=bytemap) no_hash (Bytemap 4096 0 ∅) [].

Definition sc_store (b : sc_chain) : sc_chain :=
  match catalog b with
  | (c, t :: ts) => match task_store t c with (Ret t, c) => set_catalog b (c, t :: ts) | _ => b end
  | _ => b
  end.
Definition sc_index (b : sc_chain) : sc_chain :=
  match catalog b with (c, t :: ts) => set_catalog b ((task_index t c).2, ts) | _ => b end.

Definition sc_read (now : Z) (b : sc_chain) : outcome (bool * Z * Z) :=
  readLatestSegment (fun _ => true) (fun _ : bytemap => true) 9 now (Some (catalog b).1) 0 1.

Definition sc0 : sc_chain :=
  open_chain defaultConfig true {| lastBlockTimestamp := 0; currentBlockHeight := 0 |} (∅ : gmap string bytemap)
    ([] : list catalog_contents_entry_t) ∅ ([] : list BlockTimestampTracker.block_timestamp_entry_t).
Definition sc_txs1 : list TestTransaction := [mkTestTransaction 1 7 1; mkTestTransaction 2 (-2) 2].
Definition sc_txs2 : list TestTransaction := [mkTestTransaction 3 40 1].
Definition T1 : Z := 1700000000000.
Definition T2 : Z := 1700000600000.
Definition sc1 : sc_chain := (sc_commit T1 sc_txs1 sc0).2.
Definition sc2 : sc_chain := sc_store sc1.
Definition sc3 : sc_chain := sc_index sc2.
Definition sc4 : sc_chain := restart sc3 (catalog sc3).1.
Definition sc_blocks : list (Z * list TestTransaction) := [(T1, sc_txs1)].


Lemma sc_fits : j_fits (journal sc0) [] (T1, sc_txs1).
Proof. exact (proj1 (tb_fits tt sc_txs1 (or_introl eq_refl))). Qed.

Lemma one_store {TT CF} `{!BTree catalog_contents_entry_t TT, !SegmentFile CF} (x y : Catalog TT CF * list task) :
  (exists c t t' c', x = (c, [t]) /\ tk_stored t = false /\ task_store t c = (Ret t', c') /\ y = (c', [t'])) -> task_step x y.
Proof. intros (c & t & t' & c' & -> & H1 & H2 & ->). by apply (step_store c [t] 0 t t' c'). Qed.

Lemma one_index {TT CF} `{!BTree catalog_contents_entry_t TT, !SegmentFile CF} (x y : Catalog TT CF * list task) :
  (exists c t c', x = (c, [t]) /\ tk_stored t = true /\ task_index t c = (Ret tt, c') /\ y = (c', [])) -> task_step x y.
Proof. intros (c & t & c' & -> & H1 & H2 & ->). by apply (step_index c [t] 0 t c'). Qed.

Lemma sc_decodes : j_decodes (J:=gmap string bytemap) (M:=bytemap) (design_registerTransactionTypes 0 emptyTypeRegistry).
Proof. exact (tt_codec 0 emptyTypeRegistry). Qed.

Lemma sc_readable0 : readable 9 T1 (catalog sc0).1.
Proof.
  split; [split; [cbn; lia|intros fid f Hf; change (files (catalog sc0).1) with (∅ : gmap Z sample_file_t) in Hf; by rewrite lookup_empty in Hf]|].
  intros fid [f Hf]. change (files (catalog sc0).1) with (∅ : gmap Z sample_file_t) in Hf. by rewrite lookup_empty in Hf.
Qed.

Lemma sc_first : sum_step no_hash (Bytemap 4096 0 ∅) [] in_order (sc0, []) (sc1, sc_blocks).
Proof.
  apply (sum_addBlock no_hash (Bytemap 4096 0 ∅) [] in_order (sc_os T1) (sc_env T1 sc0) sc_txs1 sc0 [] (catalog sc0).1 9 T1 0 sc1).
  - reflexivity.
  - apply sc_readable0.
  - reflexivity.
  - cbn. unfold T1. word.
  - apply sc_fits.
  - unfold T1. cbn. word.
  - cbn. word.
  - apply pair_fst. vm_compute. reflexivity.
Qed.

Lemma sc_run : rtc (sum_step no_hash (Bytemap 4096 0 ∅) [] in_order) (sc0, []) (sc4, sc_blocks).
Proof.
  eapply rtc_l; [exact sc_first|].
  eapply rtc_l; [apply (sum_task no_hash (Bytemap 4096 0 ∅) [] in_order sc1 sc_blocks (catalog sc2))|].
  - apply one_store. do 4 eexists. split; [vm_compute; reflexivity|]. split; [reflexivity|]. split; vm_compute; reflexivity.
  - eapply rtc_l; [apply (sum_task no_hash (Bytemap 4096 0 ∅) [] in_order _ sc_blocks (catalog sc3))|].
    + apply one_index. do 3 eexists. split; [vm_compute; reflexivity|]. split; [reflexivity|]. split; vm_compute; reflexivity.
    + apply rtc_once. exact (sum_restart no_hash (Bytemap 4096 0 ∅) [] in_order sc3 sc_blocks (catalog sc3).1 ltac:(vm_compute; reflexivity)).
Qed.

(** Files of the sample chains open under ids up to the clock. *)
Lemma sc_readable (c : sample_catalog_t) : (length (bt_elems (tocBTree c)) < 9)%nat ->
  map_Forall (fun fid f => (length (bt_elems (segmentIndex f)) < 9)%nat /\ fid <= T2) (files c) -> readable 9 T2 c.
Proof.
  intros Ht Hf. split; [split; [done|intros fid f H; apply (Hf fid f H)]|]. intros fid [f H]. apply (Hf fid f H).
Qed.

(** One block, indexed, and a restart: the sum is 5 over 2 transactions. *)
Lemma sum_recovered_witness : sc_read T2 sc4 = Ret (true, 5, 2).
Proof.
  assert (readable 9 T2 (catalog sc4).1) as Hr by (apply sc_readable; by_compute).
  exact (proj1 (sum_recovered sc_decodes no_hash (Bytemap 4096 0 ∅) [] in_order (fun _ => reflexivity _) defaultConfig ∅ sc4 sc_blocks (catalog sc4).1 9 T2
    empty_journal sc_run eq_refl Hr)).
Defined.

(** The process dies with the task of the block in the pool. *)
Lemma crash_forgets_block_witness :
  backend_rep tb_iregs tb_oregs (restart sc1 (catalog sc1).1) sc_blocks /\ sc_read T2 (restart sc1 (catalog sc1).1) = Ret (false, 0, 0).
Proof.
  assert (exists t, (catalog sc1).2 = [t] /\ tk_stored t = false /\ tk_args t = sum_call sc_blocks) as (t & Hc & Hst & Ha).
  { eexists. split; [vm_compute; reflexivity|]. split; vm_compute; reflexivity. }
  apply (crash_forgets_block sc_decodes no_hash (Bytemap 4096 0 ∅) [] in_order (fun _ => reflexivity _) defaultConfig ∅
    sc1 [] (T1, sc_txs1) (catalog sc1).1 t 9 T2 empty_journal (rtc_once _ _ sc_first)); [|done|done|apply sc_readable; by_compute].
  rewrite <- Hc. apply surjective_pairing.
Defined.

(** The second block sealed while the task of the first one still waits: when both are on
    disk, the first block is missing from the sum. *)
Definition sc_late : sc_chain := (sc_commit T2 sc_txs2 sc1).2.

Lemma seal_reads_committed_witness :
  (exists a, commit_calls (M:=bytemap) tb_iregs tb_oregs (sc_env T2 sc1) tb_fresh sc_txs2 1 = [a] /\ decode_sum (ea_content a) = 40) /\
  getBlockHeight sc_late = 2 /\ sc_read T2 (sc_index (sc_store (sc_index (sc_store sc_late)))) = Ret (true, 40, 1).
Proof.
  split; [|vm_compute; done].
  destruct (seal_reads_committed (M:=bytemap) (sc_env T2 sc1) sc_txs2 sc_blocks []) as (a & Hc & _ & Hd & _).
  - discriminate.
  - vm_compute. reflexivity.
  - cbn. word.
  - exists a. split; [exact Hc|]. rewrite Hd. reflexivity.
Defined.
