(* ===== verification/SumFrontend.v ===== *)
(** * SumFrontend

    The whole program on the test design: an application that submits transactions to a
    [BlockchainFrontend], its builder thread, the backend, and the catalog with the tasks of
    its pool.  What an application reads through [getState] is the sum of everything it has
    ever submitted, in every phase of the builder thread but one. *)

From S2P Require Import Prelude Excessive Memory Transaction Registry StateOverride TestChainDesign MEVBuilder.
From S2P Require Import Journal CatalogFile Catalog CatalogTasks CatalogContents SumIndex Backend BackendCorrect Frontend TestBackend SumChain.
From S2P Require BlockTimestampTracker.

#[local] Existing Instance tb_Index.

Section SumFrontend.
Context {J T TT TS R Fd M : Type}.
Context `{!BTree catalog_contents_entry_t TT, !BTree segment_btree_metadata_t TS, !FreeSpaceFile R, !MmapHandle M, !FdHandle Fd M}.
Context `{!BTreeLaws Catalog.compare, !BTreeLaws CatalogFile.compare, !FreeSpaceLaws R, !FreeSpaceHeader R, !MmapLaws M, !FdLaws Fd M}.
Context `{!BTree BlockTimestampTracker.block_timestamp_entry_t T, !BTreeLaws BlockTimestampTracker.compare}.
Context `{!FileMapping M, !Journal J M TestTransaction, !JournalLaws J M TestTransaction}.
Context (journal_decodes : j_decodes (design_registerTransactionTypes 0 emptyTypeRegistry)).
Context (fast_hash : list Z -> Z -> Z) (newFd : Fd) (newRegions : R).
Context (pq_sort : list (Z * Z) -> list Z) (pq_sort_law : forall l, pq_sort l ≡ₚ map fst l).

Abbreviation Cat := (Catalog TT (CatalogFile TS R Fd)).
Abbreviation SumBackend := (Backend TestTransaction TestSumOverrideFamily TestSumIndex M J (Cat * list task) T).
Abbreviation SumFrontend := (Frontend TestTransaction TestSumOverrideFamily).
Abbreviation SumApp := (chain (Tx:=TestTransaction) (F:=TestSumOverrideFamily) (Ix:=TestSumIndex) (M:=M) (J:=J) (C:=Cat * list task) (T:=T)).
Abbreviation Blocks := (list (Z * list TestTransaction)).

#[local] Instance sf_files : SegmentFile (CatalogFile TS R Fd) := CatalogFile_SegmentFile (M:=M) fast_hash newFd newRegions.
#[local] Instance sf_files_laws : SegmentFileLaws (CatalogFile TS R Fd) := CatalogFile_SegmentFileLaws (M:=M) fast_hash newFd newRegions.

Definition sink (os : os_answers) : SegmentSink (Cat * list task) := catalog_sink fast_hash newFd newRegions pq_sort os.

Definition set_backend (a : SumApp) (b : SumBackend) : SumApp :=
  {| ch_fe := ch_fe a; ch_backend := b; ch_phase := ch_phase a; ch_sent := ch_sent a; ch_committed := ch_committed a |}.

(** A submission, a section of the builder thread, its call of [addBlock] as in SumChain, or a
    section of a task of the pool. *)
Inductive app_step (config : BlockchainConfig) : SumApp * Blocks -> SumApp * Blocks -> Prop :=
| app_section os a a' blocks :
    chain_step (W:=TestWorld) (SegmentSink0:=sink os) config a a' -> ch_backend a' = ch_backend a ->
    (forall txs n, ch_phase a' = Finishing txs n -> ch_phase a = ch_phase a') -> app_step config (a, blocks) (a', blocks)
| app_addBlock os (env : commit_env TestWorld) fe b b' txs n snt com blocks c fuel now :
    catalog b = (c, []) -> readable fuel now c -> (forall ix, e_seal env 0%nat ix = disk_world (M:=M) fuel now c ix) ->
    1 <= os_now2 os < U64_MAX -> j_fits (journal b) blocks (e_millis env, txs) -> in_u64 (e_millis env) ->
    Z.of_nat (length blocks) < U64_MAX ->
    addBlock (M:=M) (SegmentSink0:=sink os) env txs b = (Ret n, b') ->
    app_step config
      ({| ch_fe := fe; ch_backend := b; ch_phase := Building txs; ch_sent := snt; ch_committed := com |}, blocks)
      ({| ch_fe := fe; ch_backend := b'; ch_phase := Finishing txs n; ch_sent := snt; ch_committed := if n =? -1 then com else com ++ txs |},
       if n =? -1 then blocks else blocks ++ [(e_millis env, txs)])
| app_task a blocks y : task_step (catalog (ch_backend a)) y -> app_step config (a, blocks) (set_backend a (set_catalog (ch_backend a) y), blocks).

(** *** Submissions and blocks *)

Lemma app_step_accounted config x y : app_step config x y -> accounted x.1 -> accounted y.1.
Proof.
  intros Hs Ha. destruct Hs as [os a a' blocks Hs Hb Hph|os env fe b b' txs n snt com blocks c fuel now Hc Hrd Hsl Hn Hf Hms Hlen Hadd|a blocks y Ht].
  - by eapply chain_step_accounted.
  - eapply chain_step_accounted; [|exact Ha]. cbn. by apply (step_addBlock (SegmentSink0:=sink os) config env).
  - done.
Qed.

Lemma committed_snoc (blocks : Blocks) ms txs : committed (blocks ++ [(ms, txs)]) = committed blocks ++ txs.
Proof. unfold committed. by rewrite map_app, concat_app; cbn; rewrite app_nil_r. Qed.

(** *** The speculative state *)

(** What the phase adds to the transactions in the mempool: those picked for the block, until
    the state is rebuilt. *)
Definition picked (ph : phase (Tx:=TestTransaction)) : list TestTransaction :=
  match ph with Idle => [] | Building txs => txs | Finishing txs _ => txs end.

Record app_inv (a : SumApp) (blocks : Blocks) : Prop := {
  ai_chain : sum_inv fast_hash newFd newRegions (ch_backend a) blocks;
  ai_committed : ch_committed a = committed blocks;
  ai_state : exists applied_txs, applied_txs ≡ₚ mempool (ch_fe a) ++ picked (ch_phase a) /\
    fe_state (ch_fe a) = tb_after applied_txs;
}.

Lemma after_snoc txs tx (w : TestWorld) : applied (M:=M) w (tb_after txs) tx = tb_after (txs ++ [tx]).
Proof.
  unfold tb_after, tb_fresh. rewrite !apply_all_one. rewrite (foldl_app _ txs). cbn [foldl].
  unfold applied. cbn [tx_apply TestTransaction_impl]. by rewrite tt_apply_one.
Qed.

Lemma after_all txs (w : TestWorld) : foldl (applied (M:=M) w) tb_fresh txs = tb_after txs.
Proof. unfold tb_after, tb_fresh. by rewrite !apply_all_one. Qed.

Lemma section_inv os config a a' blocks : chain_step (W:=TestWorld) (SegmentSink0:=sink os) config a a' -> ch_backend a' = ch_backend a ->
  (forall txs n, ch_phase a' = Finishing txs n -> ch_phase a = ch_phase a') -> app_inv a blocks -> app_inv a' blocks.
Proof.
  intros Hs Hb Hph [Hch Hcom (L & HL & Hst)].
  destruct Hs as [w tx fe b ph snt com|k clock millis w fe fe' toBuild b snt com Hf Hbs|env fe toBuild b b' n snt com Ha|w fe fe' toBuild b n snt com Hfin];
    cbn [ch_fe ch_backend ch_phase ch_committed] in *.
  - split; [done|done|]. exists (L ++ [tx]). cbn. rewrite Hst, after_snoc. split; [|done].
    rewrite HL, <- !app_assoc. apply Permutation_app_head, Permutation_app_comm.
  - apply build_section_spec in Hbs as (Hp & _ & Hsame & _); [|done]. split; [done|done|]. exists L. cbn. split; [|by rewrite Hsame].
    rewrite HL. cbn. rewrite app_nil_r, Hp. rewrite Permutation_app_comm. by destruct toBuild.
  - specialize (Hph toBuild n eq_refl). discriminate Hph.
  - split; [done|done|]. pose proof Hfin as Hm. apply finish_section_mempool in Hm. unfold finish_section in Hfin.
    destruct (n =? -1) eqn:Hn.
    + injection Hfin as <-. cbn in *. exists L. by rewrite app_nil_r.
    + destruct Hch as (Hr & _). unfold rebuildSpeculativeState in Hfin.
      rewrite (fresh_override b (cr_wired _ _ _ _ _ (br_chain _ _ _ _ Hr))) in Hfin. cbn in Hfin. injection Hfin as <-.
      exists (mempool fe). cbn. rewrite app_nil_r. split; [done|]. by rewrite after_all.
Qed.

Lemma app_step_inv config x y : app_step config x y -> app_inv x.1 x.2 -> app_inv y.1 y.2.
Proof.
  intros Hs Hi. destruct Hs as [os a a' blocks Hs Hb Hph|os env fe b b' txs n snt com blocks c fuel now Hc Hrd Hsl Hn Hf Hms Hlen Hadd|a blocks y Ht];
    cbn [fst snd] in *.
  - by eapply section_inv.
  - destruct Hi as [Hch Hcom (L & HL & Hst)]. cbn [ch_fe ch_backend ch_phase ch_committed] in *. split; cbn [ch_fe ch_backend ch_phase ch_committed].
    + by eapply addBlock_inv.
    + destruct (n =? -1); [done|]. by rewrite committed_snoc, Hcom.
    + by exists L.
  - destruct Hi as [Hch Hcom Hst]. split; [|done|done]. cbn.
    exact (sum_step_inv journal_decodes fast_hash newFd newRegions pq_sort pq_sort_law _ _ (sum_task fast_hash newFd newRegions pq_sort (ch_backend a) blocks y Ht) Hch).
Qed.
Lemma sum_values_perm l1 l2 : l1 ≡ₚ l2 -> sum_values l1 = sum_values l2.
Proof. unfold sum_values. induction 1; cbn in *; lia. Qed.

(** The transactions that the state shows twice: those of a block that is committed, between
    the return of [addBlock] and the rebuild. *)
Definition shown_twice (ph : phase (Tx:=TestTransaction)) : list TestTransaction :=
  match ph with Finishing txs n => if n =? -1 then [] else txs | _ => [] end.

Lemma picked_split ph : picked ph = in_hand ph ++ shown_twice ph.
Proof. destruct ph as [|txs|txs n]; cbn; rewrite ?app_nil_r; [done..|]. destruct (n =? -1); by rewrite ?app_nil_r. Qed.

(** C19: the application reads everything it has submitted: from a new data directory, under any
    interleaving of submissions, the builder thread, commits and background tasks, whenever
    the pool is idle the speculative sum and count are those of all transactions ever sent,
    in 32-bit two's complement; between the commit of a block and the rebuild of the state,
    and only there, the transactions of that block count twice. *)
Theorem speculative_sum cfg config j (w : TestWorld) fe0 a blocks c fuel now :
  j_rep j [] ->
  let b0 := open_chain cfg true {| lastBlockTimestamp := 0; currentBlockHeight := 0 |} j bt_empty ∅ bt_empty in
  openFrontend w b0 None = Ret fe0 ->
  rtc (app_step config) ({| ch_fe := fe0; ch_backend := b0; ch_phase := Idle; ch_sent := []; ch_committed := [] |}, []) (a, blocks) ->
  catalog (ch_backend a) = (c, []) -> readable fuel now c ->
  exists fam, override (fe_state (ch_fe a)) familyKey 0 = Ret fam /\
    fam_sum (disk_world (M:=M) fuel now c) fam = i32 (sum_values (ch_sent a) + sum_values (shown_twice (ch_phase a))) /\
    fam_count (disk_world (M:=M) fuel now c) fam = i32 (Z.of_nat (length (ch_sent a) + length (shown_twice (ch_phase a)))).
Proof.
  intros Hj b0 Hfe Hs Hc Hread.
  assert (app_inv a blocks /\ accounted a) as [[(Hr & Hi & Hl) Hcom (L & HL & Hst)] Hacc].
  { assert (fe0 = {| fe_state := tb_fresh; mempool := [] |}) as ->.
    { unfold openFrontend in Hfe. rewrite fresh_override in Hfe by apply open_wired. by injection Hfe. }
    assert (forall x y, rtc (app_step config) x y -> app_inv x.1 x.2 /\ accounted x.1 -> app_inv y.1 y.2 /\ accounted y.1) as Hall.
    { induction 1 as [|x y z Hxy _ IH]; [done|]. intros [H1 H2]. apply IH. split; [by eapply app_step_inv|by eapply app_step_accounted]. }
    apply (Hall _ _ Hs). split; [|by unfold accounted]. split; [by apply new_chain_inv|done|]. by exists []. }
  rewrite Hc in Hi, Hl. cbn [fst snd] in Hi, Hl.
  pose proof (disk_world_total fast_hash newFd newRegions blocks c fuel now Hi Hl Hread) as Hdisk.
  rewrite Hst. unfold tb_after, tb_fresh. rewrite apply_all_one. eexists. split; [apply override_one|].
  unfold fam_sum, fam_count. rewrite bump_all_ix. cbn [fam_attach fam_index latestSum latestCount attachedCatalog attachedIndexId]. rewrite Hdisk.
  cbn [fst snd]. rewrite (proj1 (bump_all_sums _ _ _)), (proj2 (bump_all_sums _ _ _)).
  cbn [fam_attach newTestSumOverrideFamily sumDelta countDelta]. rewrite !Z.add_0_r. unfold total, number.
  rewrite !i32_add_l. unfold accounted in Hacc. rewrite picked_split in HL. rewrite <- Hcom.
  rewrite (sum_values_perm _ _ HL), (sum_values_perm _ _ Hacc), !sum_values_app. apply Permutation_length in HL, Hacc.
  rewrite !length_app in HL, Hacc. split; f_equal; lia.
Qed.
End SumFrontend.

(** ** A concrete run: two transactions sent, one block *)

#[local] Existing Instance BlockTimestampTracker.tracker_BTree.
#[local] Existing Instance BlockTimestampTracker.tracker_BTreeLaws.
#[local] Existing Instance tb_Journal.
#[local] Existing Instance tb_JournalLaws.
#[local] Existing Instance tb_FileMapping.
#[local] Existing Instance seg_BTree.
#[local] Existing Instance seg_BTreeLaws.
#[local] Existing Instance toc_BTree.
#[local] Existing Instance toc_BTreeLaws.
#[local] Existing Instance sc_file_impl.

Definition ap_app (fe : Frontend TestTransaction TestSumOverrideFamily) (b : sc_chain) (ph : phase) (snt com : list TestTransaction) :=
  {| ch_fe := fe; ch_backend := b; ch_phase := ph; ch_sent := snt; ch_committed := com |}.
Definition ap_fe (txs pool : list TestTransaction) : Frontend TestTransaction TestSumOverrideFamily :=
  {| fe_state := tb_after txs; mempool := pool |}.
Definition ap_step := app_step (M:=bytemap) (J:=gmap string bytemap) no_hash (Bytemap 4096 0 ∅) [] in_order defaultConfig.

(** The block is committed and indexed, the state not yet rebuilt; and rebuilt. *)
Definition ap_backend : sc_chain := set_catalog sc1 (catalog sc3).
Definition ap_committed := ap_app (ap_fe sc_txs1 []) ap_backend (Finishing sc_txs1 0) sc_txs1 sc_txs1.
Definition ap_rebuilt := ap_app (ap_fe [] []) ap_backend Idle sc_txs1 sc_txs1.

Lemma ap_send tx txs pool snt :
  chain_step (M:=bytemap) (W:=TestWorld) (SegmentSink0:=sink no_hash (Bytemap 4096 0 ∅) [] in_order (sc_os T1)) defaultConfig
    (ap_app (ap_fe txs pool) sc0 Idle snt []) (ap_app (ap_fe (txs ++ [tx]) (pool ++ [tx])) sc0 Idle (snt ++ [tx]) []).
Proof.
  unfold ap_fe at 2. rewrite <- (after_snoc (M:=bytemap) txs tx (sc_world T1 sc0)).
  exact (step_send (SegmentSink0:=sink no_hash (Bytemap 4096 0 ∅) [] in_order (sc_os T1)) defaultConfig (sc_world T1 sc0) tx (ap_fe txs pool) sc0 Idle snt []).
Qed.

Lemma ap_run : rtc ap_step (ap_app (ap_fe [] []) sc0 Idle [] [], []) (ap_committed, sc_blocks).
Proof.
  eapply rtc_l; [apply (app_section no_hash (Bytemap 4096 0 ∅) [] in_order defaultConfig (sc_os T1)
    _ (ap_app (ap_fe [mkTestTransaction 1 7 1] [mkTestTransaction 1 7 1]) sc0 Idle [mkTestTransaction 1 7 1] []))|].
  { exact (ap_send (mkTestTransaction 1 7 1) [] [] []). }
  { reflexivity. } { discriminate. }
  eapply rtc_l; [apply (app_section no_hash (Bytemap 4096 0 ∅) [] in_order defaultConfig (sc_os T1) _ (ap_app (ap_fe sc_txs1 sc_txs1) sc0 Idle sc_txs1 []))|].
  { exact (ap_send (mkTestTransaction 2 (-2) 2) [mkTestTransaction 1 7 1] [mkTestTransaction 1 7 1] [mkTestTransaction 1 7 1]). }
  { reflexivity. } { discriminate. }
  eapply rtc_l; [apply (app_section no_hash (Bytemap 4096 0 ∅) [] in_order defaultConfig (sc_os T1) _ (ap_app (ap_fe sc_txs1 []) sc0 (Building sc_txs1) sc_txs1 []))|].
  { refine (step_build (SegmentSink0:=sink no_hash (Bytemap 4096 0 ∅) [] in_order (sc_os T1)) defaultConfig 9 (fun _ => 0) T1 (sc_world T1 sc0)
      (ap_fe sc_txs1 sc_txs1) (ap_fe sc_txs1 []) sc_txs1 sc0 sc_txs1 [] _ _); [cbn; lia|vm_compute; reflexivity]. }
  { reflexivity. } { discriminate. }
  eapply rtc_l; [apply (app_addBlock no_hash (Bytemap 4096 0 ∅) [] in_order defaultConfig (sc_os T1) (sc_env T1 sc0) (ap_fe sc_txs1 []) sc0 sc1 sc_txs1 0 sc_txs1 []
    [] (catalog sc0).1 9 T1)|].
  { reflexivity. } { apply sc_readable0. } { reflexivity. } { cbn. unfold T1. word. } { apply sc_fits. } { unfold T1. cbn. word. } { cbn. word. }
  { apply pair_fst. vm_compute. reflexivity. }
  eapply rtc_l; [apply (app_task no_hash (Bytemap 4096 0 ∅) [] in_order defaultConfig _ _ (catalog sc2))|].
  { apply one_store. do 4 eexists. split; [vm_compute; reflexivity|]. split; [reflexivity|]. split; vm_compute; reflexivity. }
  apply rtc_once. refine (app_task no_hash (Bytemap 4096 0 ∅) [] in_order defaultConfig
    (ap_app (ap_fe sc_txs1 []) (set_catalog sc1 (catalog sc2)) (Finishing sc_txs1 0) sc_txs1 sc_txs1) sc_blocks (catalog sc3) _).
  apply one_index. do 3 eexists. split; [vm_compute; reflexivity|]. split; [reflexivity|]. split; vm_compute; reflexivity.
Qed.

Lemma ap_rebuild : ap_step (ap_committed, sc_blocks) (ap_rebuilt, sc_blocks).
Proof.
  apply (app_section no_hash (Bytemap 4096 0 ∅) [] in_order defaultConfig (sc_os T1)); [|reflexivity|discriminate].
  refine (step_finish (SegmentSink0:=sink no_hash (Bytemap 4096 0 ∅) [] in_order (sc_os T1)) defaultConfig (sc_world T1 ap_backend)
    (ap_fe sc_txs1 []) (ap_fe [] []) sc_txs1 ap_backend 0 sc_txs1 sc_txs1 _). vm_compute. reflexivity.
Qed.

(** The sum of the two transactions is 5: read twice before the rebuild, once after it. *)
Lemma speculative_sum_witness :
  (exists fam, override (fe_state (ap_fe sc_txs1 [])) familyKey 0 = Ret fam /\ fam_sum (sc_world T2 ap_backend) fam = 10) /\
  (exists fam, override (fe_state (ap_fe [] [])) familyKey 0 = Ret fam /\ fam_sum (sc_world T2 ap_backend) fam = 5 /\ fam_count (sc_world T2 ap_backend) fam = 2).
Proof.
  assert (readable 9 T2 (catalog ap_backend).1) as Hr by (apply sc_readable; by_compute).
  assert (catalog ap_backend = ((catalog ap_backend).1, [])) as Hc by (vm_compute; reflexivity).
  split.
  - destruct (speculative_sum sc_decodes no_hash (Bytemap 4096 0 ∅) [] in_order (fun _ => reflexivity _) defaultConfig defaultConfig ∅ (sc_world T1 sc0)
      (ap_fe [] []) ap_committed sc_blocks (catalog ap_backend).1 9 T2 empty_journal eq_refl ap_run Hc Hr) as (fam & Hf & Hs & _). by exists fam.
  - destruct (speculative_sum sc_decodes no_hash (Bytemap 4096 0 ∅) [] in_order (fun _ => reflexivity _) defaultConfig defaultConfig ∅ (sc_world T1 sc0)
      (ap_fe [] []) ap_rebuilt sc_blocks (catalog ap_backend).1 9 T2 empty_journal eq_refl (rtc_r _ _ _ ap_run ap_rebuild) Hc Hr) as (fam & Hf & Hs & Hn). by exists fam.
Defined.
