(* ===== verification/Ledger.v ===== *)
(** * Ledger

    The contract of the library as a whole: an abstract ledger, which is a list of blocks and
    a queue of pending transactions, with the events an application sees and what each of
    them answers.  LedgerRefinement.v shows that the library implements it. *)

From S2P Require Import Prelude Backend BackendCorrect.

(** ** Labelled runs *)

Inductive run {S E : Type} (step : S -> E -> S -> Prop) : S -> list E -> S -> Prop :=
| run_nil s : run step s [] s
| run_cons s1 e s2 es s3 : step s1 e s2 -> run step s2 es s3 -> run step s1 (e :: es) s3.

Lemma run_app {S E} (step : S -> E -> S -> Prop) s1 es1 es2 s3 :
  run step s1 (es1 ++ es2) s3 <-> exists s2, run step s1 es1 s2 /\ run step s2 es2 s3.
Proof.
  split.
  - revert s1. induction es1 as [|e es1 IH]; intros s1 H; [exists s1; split; [constructor|done]|].
    inversion H as [|? ? s2 ? ? Hs Hr]; subst. destruct (IH _ Hr) as (s' & H1 & H2). exists s'. split; [by econstructor|done].
  - intros (s2 & H1 & H2). induction H1; [done|]. econstructor; eauto.
Qed.

(** A forward simulation carries runs. *)
Lemma run_simulation {S1 S2 E} (step1 : S1 -> E -> S1 -> Prop) (step2 : S2 -> E -> S2 -> Prop) (R : S1 -> S2 -> Prop) :
  (forall s1 e s1' s2, R s1 s2 -> step1 s1 e s1' -> exists s2', step2 s2 e s2' /\ R s1' s2') ->
  forall s1 es s1' s2, R s1 s2 -> run step1 s1 es s1' -> exists s2', run step2 s2 es s2' /\ R s1' s2'.
Proof.
  intros Hsim s1 es s1' s2 HR Hrun. revert s2 HR. induction Hrun as [s1|s1 e s1m es s1' Hs _ IH]; intros s2 HR.
  - exists s2. split; [constructor|done].
  - destruct (Hsim _ _ _ _ HR Hs) as (s2m & H1 & HR1). destruct (IH _ HR1) as (s2' & H2 & HR2).
    exists s2'. split; [by econstructor|done].
Qed.

(** ** The abstract ledger *)

Section Ledger.
Context {Tx : Type} (timestamp_of : Tx -> Z).

(** The blocks; those that time windows do not show, since a run ended before they had been
    entered in the index; and the time of the chain. *)
Record lchain := LChain { lc_blocks : list (Z * list Tx); lc_hidden : list nat; lc_last : Z }.

(** How far the commit of a block is: not begun or refused, its number counted, the block in the
    chain, the time of the chain moved on, the block in the time index. *)
Inductive doing := Resting | Counted | Appending (millis : Z) | Timing (millis : Z) | Indexing (millis : Z).

(** [lg_held]: taken for a block that is not decided yet; [lg_saved]: the pool at the last clean
    end of a run. *)
Record ledger := Ledger { lg_chain : lchain; lg_doing : doing; lg_pool : list Tx; lg_held : list Tx; lg_saved : list Tx; lg_up : bool }.
Definition lg_blocks (l : ledger) : list (Z * list Tx) := lc_blocks (lg_chain l).

Definition lc_snoc (ch : lchain) (millis : Z) (txs : list Tx) : lchain := LChain (lc_blocks ch ++ [(millis, txs)]) (lc_hidden ch) millis.
Definition lc_append (ch : lchain) (millis : Z) (txs : list Tx) : lchain :=
  LChain (lc_blocks ch ++ [(millis, txs)]) (length (lc_blocks ch) :: lc_hidden ch) (lc_last ch).

(** What happens, with what is answered. *)
Inductive event :=
| Sent (tx : Tx)
| Built (toBuild : list Tx)
| Committed (millis : Z) (blockNumber : Z)
| Finished
| GotBlock (n : Z) (r : outcome (list Tx))
| GotTransaction (id : Z) (r : outcome (option Tx))
| GotWindow (startMillis endMillis : Z) (r : outcome (list Tx))
| WindowBegan (endMillis : Z) (later : bool)
| WindowPending (startMillis endMillis : Z) (txs : list Tx)
| WindowBlocks (startMillis endMillis : Z) (r : outcome (list Tx))
| GotHeight (h : Z)
| GotMempoolSize (n : Z)
| Closed
| Killed
| Opened
| BlockCounted
| BlockAppended (millis : Z)
| TimeMoved
| BlockIndexed
| Silent.

Definition out_of_chain : exn := range_error "Block number out of range".

Definition block_at (blocks : list (Z * list Tx)) (n : Z) : outcome (list Tx) :=
  match blocks !! Z.to_nat n with Some blk => Ret blk.2 | None => Throw out_of_chain end.

(** A transaction is identified by its block's number and its position, 20 bits. *)
Definition transaction_at (blocks : list (Z * list Tx)) (id : Z) : outcome (option Tx) :=
  txs ← block_at blocks (id / 1048576); mret (txs !! Z.to_nat (id mod 1048576)).

(** The numbers of the blocks of a window, by (timestamp, number). *)
Definition block_time (blocks : list (Z * list Tx)) (n : nat) : Z := default 0 (fst <$> blocks !! n).
Definition not_later (blocks : list (Z * list Tx)) (m n : nat) : Prop :=
  block_time blocks m < block_time blocks n \/ (block_time blocks m = block_time blocks n /\ (m <= n)%nat).
#[global] Instance not_later_dec blocks m n : Decision (not_later blocks m n).
Proof. unfold not_later. apply _. Defined.

Definition numbers_between (blocks : list (Z * list Tx)) (hidden : list nat) (startMillis endMillis : Z) : list nat :=
  merge_sort (not_later blocks) (filter (fun n => startMillis <= block_time blocks n <= endMillis /\ n ∉ hidden) (seq 0 (length blocks))).

(** A window query looks at the time of the chain, then at the pool, then at the blocks. *)
Definition window_pending (pool : list Tx) (startMillis endMillis : Z) : list Tx :=
  filter (fun tx => startMillis <= timestamp_of tx <= endMillis) pool.
Definition window_blocks (ch : lchain) (startMillis endMillis : Z) : outcome (list Tx) :=
  if endMillis <? startMillis then Throw (invalid_argument "Start time must be before end time")
  else Ret (concat (map (fun n => default [] (snd <$> lc_blocks ch !! n)) (numbers_between (lc_blocks ch) (lc_hidden ch) startMillis endMillis))).
Definition window_at (ch : lchain) (pool : list Tx) (startMillis endMillis : Z) : outcome (list Tx) :=
  more ← window_blocks ch startMillis endMillis;
  mret ((if lc_last ch <? endMillis then window_pending pool startMillis endMillis else []) ++ more).

(** The block that is being committed has a number before it is there; queries for that number
    have no answer here until it is. *)
Definition lc_height (ch : lchain) (d : doing) : Z := Z.of_nat (length (lc_blocks ch)) + match d with Counted => 1 | _ => 0 end.
Definition settled (ch : lchain) (d : doing) (n : Z) : Prop := d = Counted -> n <> Z.of_nat (length (lc_blocks ch)).

(** The ledger: a block is taken from the pool, in an order of the builder's, and is then
    either appended under the next number, at once or in its stages, or returned to the end of
    the pool.  Everything but the next block and the end of the run may happen between the
    stages.  A run that is killed, between two calls or inside a commit, other than when the
    number is counted and the block is not there, keeps its blocks and goes back to the pool
    the last clean run had saved.  An id whose block is not there is answered with the exception
    of [block_at], and one behind the end of its block with no transaction. *)
Inductive ledger_step : ledger -> event -> ledger -> Prop :=
| lg_send saved ch d pool held tx : ledger_step (Ledger ch d pool held saved true) (Sent tx) (Ledger ch d (pool ++ [tx]) held saved true)
| lg_build saved ch pool pool' toBuild : pool ≡ₚ toBuild ++ pool' -> pool' `sublist_of` pool ->
    ledger_step (Ledger ch Resting pool [] saved true) (Built toBuild) (Ledger ch Resting pool' toBuild saved true)
| lg_reject saved ch pool held millis :
    ledger_step (Ledger ch Resting pool held saved true) (Committed millis (-1)) (Ledger ch Resting pool held saved true)
| lg_commit saved ch pool held millis : 0 < Z.of_nat (length held) <= MAX_TX_PER_BLOCK ->
    ledger_step (Ledger ch Resting pool held saved true) (Committed millis (Z.of_nat (length (lc_blocks ch))))
      (Ledger (lc_snoc ch millis held) Resting pool [] saved true)
| lg_count saved ch pool held : 0 < Z.of_nat (length held) <= MAX_TX_PER_BLOCK ->
    ledger_step (Ledger ch Resting pool held saved true) BlockCounted (Ledger ch Counted pool held saved true)
| lg_append saved ch pool held millis :
    ledger_step (Ledger ch Counted pool held saved true) (BlockAppended millis) (Ledger (lc_append ch millis held) (Appending millis) pool [] saved true)
| lg_move saved bs hidden last pool millis :
    ledger_step (Ledger (LChain bs hidden last) (Appending millis) pool [] saved true) TimeMoved
      (Ledger (LChain bs hidden millis) (Timing millis) pool [] saved true)
| lg_index saved bs n hidden last pool millis :
    ledger_step (Ledger (LChain bs (n :: hidden) last) (Timing millis) pool [] saved true) BlockIndexed
      (Ledger (LChain bs hidden last) (Indexing millis) pool [] saved true)
| lg_done saved ch pool millis :
    ledger_step (Ledger ch (Indexing millis) pool [] saved true) (Committed millis (Z.of_nat (length (lc_blocks ch)) - 1))
      (Ledger ch Resting pool [] saved true)
| lg_silent l : ledger_step l Silent l
| lg_finish saved ch pool held :
    ledger_step (Ledger ch Resting pool held saved true) Finished (Ledger ch Resting (pool ++ held) [] saved true)
| lg_getBlock saved ch d pool held n : settled ch d n ->
    ledger_step (Ledger ch d pool held saved true) (GotBlock n (block_at (lc_blocks ch) n)) (Ledger ch d pool held saved true)
| lg_getTransaction saved ch d pool held id : settled ch d (id / 1048576) ->
    ledger_step (Ledger ch d pool held saved true) (GotTransaction id (transaction_at (lc_blocks ch) id)) (Ledger ch d pool held saved true)
| lg_window saved ch d pool held st en :
    ledger_step (Ledger ch d pool held saved true) (GotWindow st en (window_at ch pool st en)) (Ledger ch d pool held saved true)
| lg_window_began saved ch d pool held en :
    ledger_step (Ledger ch d pool held saved true) (WindowBegan en (lc_last ch <? en)) (Ledger ch d pool held saved true)
| lg_window_pending saved ch d pool held st en :
    ledger_step (Ledger ch d pool held saved true) (WindowPending st en (window_pending pool st en)) (Ledger ch d pool held saved true)
| lg_window_blocks saved ch d pool held st en :
    ledger_step (Ledger ch d pool held saved true) (WindowBlocks st en (window_blocks ch st en)) (Ledger ch d pool held saved true)
| lg_height saved ch d pool held : ledger_step (Ledger ch d pool held saved true) (GotHeight (lc_height ch d)) (Ledger ch d pool held saved true)
| lg_size saved ch d pool held :
    ledger_step (Ledger ch d pool held saved true) (GotMempoolSize (Z.of_nat (length pool))) (Ledger ch d pool held saved true)
| lg_close saved ch pool : ledger_step (Ledger ch Resting pool [] saved true) Closed (Ledger ch Resting pool [] pool false)
| lg_kill saved ch d pool held : d <> Counted -> ledger_step (Ledger ch d pool held saved true) Killed (Ledger ch Resting saved [] saved false)
| lg_open saved ch pool : ledger_step (Ledger ch Resting pool [] saved false) Opened (Ledger ch Resting pool [] saved true).

(** ** Facts about the ledger *)

Definition all_txs (bs : list (Z * list Tx)) : list Tx := concat (map snd bs).
Definition sent_in (es : list event) : list Tx := omap (fun e => match e with Sent tx => Some tx | _ => None end) es.
Definition ledger_txs (l : ledger) : list Tx := lg_pool l ++ lg_held l ++ all_txs (lg_blocks l).

Lemma all_txs_snoc bs blk : all_txs (bs ++ [blk]) = all_txs bs ++ blk.2.
Proof. unfold all_txs. rewrite map_app, concat_app. cbn. by rewrite app_nil_r. Qed.

Lemma ledger_step_facts l e l' : ledger_step l e l' ->
  lg_blocks l `prefix_of` lg_blocks l' /\ (e <> Killed -> ledger_txs l ++ sent_in [e] ≡ₚ ledger_txs l').
Proof.
  assert (forall (bs : list (Z * list Tx)) blk, bs `prefix_of` bs ++ [blk]) as Hsnoc by (intros; by apply prefix_app_r).
  intros Hs. split; [destruct Hs; try done; apply Hsnoc|]. intros Hk.
  destruct Hs as [| ? ? ? ? ? Hp | | | | | | | | | | | | | | | | | | | |]; unfold ledger_txs, lg_blocks; cbn -[all_txs]; rewrite ?app_nil_r; try done.
  - rewrite <- !app_assoc. apply Permutation_app_head. rewrite (app_assoc held). apply Permutation_app_comm.
  - rewrite Hp, <- app_assoc, !(app_assoc _ _ (all_txs (lc_blocks ch))). apply Permutation_app_tail, Permutation_app_comm.
  - rewrite all_txs_snoc. cbn. apply Permutation_app_head, Permutation_app_comm.
  - rewrite all_txs_snoc. cbn. apply Permutation_app_head, Permutation_app_comm.
  - by rewrite <- app_assoc.
Qed.

(** Blocks are never changed, and as long as no run is killed every transaction is accounted for. *)
Lemma ledger_run_facts l es l' : run ledger_step l es l' ->
  lg_blocks l `prefix_of` lg_blocks l' /\ (Killed ∉ es -> ledger_txs l ++ sent_in es ≡ₚ ledger_txs l').
Proof.
  induction 1 as [l|l1 e l2 es l3 Hs _ [IH1 IH2]]; [by rewrite app_nil_r|].
  destruct (ledger_step_facts _ _ _ Hs) as [H1 H2]. split; [by etrans|]. intros [Hne Hk]%not_elem_of_cons.
  change (e :: es) with ([e] ++ es). unfold sent_in in *. rewrite omap_app, app_assoc, H2 by done. by apply IH2.
Qed.

(** A run that is not closed keeps the pool that was saved, and the next one starts with it. *)
Lemma ledger_run_saved l es l' : run ledger_step l es l' -> Closed ∉ es -> Killed ∉ es -> lg_up l = true ->
  lg_saved l' = lg_saved l /\ lg_up l' = true.
Proof.
  induction 1 as [l|l1 e l2 es l3 Hs _ IH]; [done|]. intros [Hc Hq1]%not_elem_of_cons [Hk Hq2]%not_elem_of_cons Hup.
  assert (lg_saved l2 = lg_saved l1 /\ lg_up l2 = true) as [<- Hup2]; [|by apply IH]. by destruct Hs.
Qed.

Lemma killed_ledger ch txs es l' : Closed ∉ es -> Killed ∉ es ->
  run ledger_step (Ledger ch Resting txs [] txs false) (Opened :: es ++ [Killed; Opened]) l' ->
  lg_pool l' = txs /\ exists tail pending, lg_blocks l' = lc_blocks ch ++ tail /\ txs ++ sent_in es ≡ₚ pending ++ all_txs tail.
Proof.
  intros Hc Hk Hr. inversion Hr as [|? ? l1 ? ? Ho Hr1]; subst. inversion Ho; subst.
  apply run_app in Hr1 as (l2 & Hr1 & Hr2). inversion Hr2 as [|? ? l3 ? ? He Hr3]; subst. inversion Hr3 as [|? ? l4 ? ? Ho2 Hr4]; subst.
  inversion Hr4; subst. inversion He as [| | | | | | | | | | | | | | | | | | | |saved ch2 d pool held _| ]; subst. inversion Ho2; subst.
  destruct (ledger_run_saved _ _ _ Hr1 Hc Hk eq_refl) as [Hs _]. destruct (ledger_run_facts _ _ _ Hr1) as [[tail Hb] Ht]. specialize (Ht Hk).
  unfold ledger_txs, lg_blocks, all_txs in *. cbn in *. split; [done|]. exists tail, (pool ++ held). split; [done|].
  rewrite Hb, map_app, concat_app in Ht. apply (Permutation_app_inv_l (concat (map snd (lc_blocks ch)))). rewrite !app_assoc.
  rewrite (Permutation_app_comm _ txs), Ht. solve_Permutation.
Qed.

(** More blocks do not change what was answered about those there are. *)
Lemma block_at_prefix bs bs' n txs : bs `prefix_of` bs' -> block_at bs n = Ret txs -> block_at bs' n = Ret txs.
Proof.
  unfold block_at. intros Hp. destruct (bs !! Z.to_nat n) as [blk|] eqn:E; [|done]. by rewrite (prefix_lookup_Some _ _ _ _ E Hp).
Qed.

Lemma transaction_at_prefix bs bs' id tx : bs `prefix_of` bs' -> transaction_at bs id = Ret (Some tx) -> transaction_at bs' id = Ret (Some tx).
Proof.
  unfold transaction_at. intros Hp [txs [H1 H2]]%outcome_bind_Ret_inv. by rewrite (block_at_prefix _ _ _ _ Hp H1).
Qed.

Lemma got_block_inv l n r l' : ledger_step l (GotBlock n r) l' -> r = block_at (lg_blocks l) n /\ l' = l.
Proof. intros H. by inversion H. Qed.
Lemma got_transaction_inv l id r l' : ledger_step l (GotTransaction id r) l' -> r = transaction_at (lg_blocks l) id /\ l' = l.
Proof. intros H. by inversion H. Qed.

(** Between two events of a run the blocks only grow. *)
Lemma run_between l l' es1 e1 es2 e2 es3 : run ledger_step l (es1 ++ e1 :: es2 ++ e2 :: es3) l' ->
  exists l1 l2 l3 l4, ledger_step l1 e1 l2 /\ lg_blocks l2 `prefix_of` lg_blocks l3 /\ ledger_step l3 e2 l4.
Proof.
  intros (l1 & _ & H)%run_app. inversion H as [|? ? l2 ? ? Hs Hr]; subst.
  apply run_app in Hr as (l3 & [Hp _]%ledger_run_facts & Hr). inversion Hr as [|? ? l4 ? ? Hs2 _]; subst. by exists l1, l2, l3, l4.
Qed.

Lemma stable_block l l' es1 es2 es3 n txs r :
  run ledger_step l (es1 ++ GotBlock n (Ret txs) :: es2 ++ GotBlock n r :: es3) l' -> r = Ret txs.
Proof.
  intros (l1 & l2 & l3 & l4 & [H1 ->]%got_block_inv & Hp & [-> _]%got_block_inv)%run_between. by eapply block_at_prefix.
Qed.

Lemma stable_transaction l l' es1 es2 es3 id tx r :
  run ledger_step l (es1 ++ GotTransaction id (Ret (Some tx)) :: es2 ++ GotTransaction id r :: es3) l' -> r = Ret (Some tx).
Proof.
  intros (l1 & l2 & l3 & l4 & [H1 ->]%got_transaction_inv & Hp & [-> _]%got_transaction_inv)%run_between. by eapply transaction_at_prefix.
Qed.

#[global] Instance not_later_trans blocks : Transitive (not_later blocks).
Proof. unfold not_later. intros x y z. lia. Qed.
#[global] Instance not_later_total blocks : Total (not_later blocks).
Proof. unfold not_later. intros x y. lia. Qed.
#[global] Instance not_later_antisym blocks : AntiSymm eq (not_later blocks).
Proof. unfold not_later. intros x y. lia. Qed.

(** What a window query may answer is determined. *)
Lemma numbers_between_unique blocks hidden st en bns : NoDup bns -> StronglySorted (earlier blocks) bns ->
  (forall n, n ∈ bns <-> in_window blocks st en n /\ n ∉ hidden) -> bns = numbers_between blocks hidden st en.
Proof.
  intros Hnd Hs Hin. unfold numbers_between. apply (StronglySorted_unique (not_later blocks)).
  - assert (Forall (fun n => exists blk, blocks !! n = Some blk) bns) as Hb.
    { apply Forall_forall. intros n Hn. apply Hin in Hn as [(blk & Hb & _) _]. by exists blk. }
    clear Hnd Hin. induction Hs as [|n l Hs IH Hn]; [constructor|]. apply Forall_cons in Hb as [[x Hx] Hl].
    constructor; [by apply IH|]. rewrite Forall_forall in Hn, Hl |- *. intros m Hm. destruct (Hl m Hm) as [y Hy].
    specialize (Hn m Hm x y Hx Hy). unfold not_later, block_time. rewrite Hx, Hy. cbn. lia.
  - apply StronglySorted_merge_sort; apply _.
  - rewrite merge_sort_Permutation. apply NoDup_Permutation; [done|apply NoDup_filter, NoDup_seq|]. intros n.
    rewrite Hin, list_elem_of_filter, elem_of_seq. unfold in_window, block_time. split.
    + intros [(blk & Hb & Hw) Hh]. rewrite Hb. apply lookup_lt_Some in Hb as Hl. cbn. split; [done|lia].
    + intros [[Hw Hh] Hl]. destruct (lookup_lt_is_Some_2 blocks n) as [blk Hb]; [lia|]. split; [|done]. exists blk. by rewrite Hb in Hw.
Qed.
End Ledger.
Arguments ledger : clear implicits.
Arguments event : clear implicits.
Arguments Ledger {Tx} _ _ _ _ _.
Arguments LChain {Tx} _ _ _.
Arguments lchain : clear implicits.
