(* ===== verification/Sharing.v ===== *)
(** * Sharing

    Forks of a pending state with their pointers (src/src/blockchain/StateOverride.h and .cpp,
    StateOverrideRegistry.h).  StateOverride.v treats a family behind its [sp] as a value;
    here the pointers, the objects they share and the moment a shared object is copied are
    explicit, and the value model is shown to be right as long as an override that has been
    written is not forked again. *)

From S2P Require Import Prelude Registry StateOverride Ledger.

(** ** The pointer

    [sp] belongs to libexcessive.  What the repository says of it (the factory of
    StateOverrideRegistry.h, the copy constructor in StateOverride.cpp, the note in
    tests/test_StateOverride.cpp): an object made [UNIQUE] can be copied, and then both
    pointers are copy-on-write; [mut()] on such a pointer makes it the pointer, now [SHARED],
    to a copy of the object; copies of a [SHARED] pointer share its object for good. *)
Inductive sp_type := UNIQUE | COPY_ON_WRITE | SHARED.

#[global] Instance sp_type_eq_dec : EqDecision sp_type.
Proof. solve_decision. Defined.

(** [sp_copy] gives the pointer copied from and the copy; [sp_detach l] points to the fresh object [l]. *)
Class SharedPointer (P : Type) := {
  sp_mode : P -> sp_type;
  sp_object : P -> nat;
  sp_make : nat -> P;
  sp_copy : P -> P * P;
  sp_detach : nat -> P -> P;
}.

Class SharedPointerLaws (P : Type) `{!SharedPointer P} := {
  sp_make_mode l : sp_mode (sp_make l) = UNIQUE;
  sp_make_object l : sp_object (sp_make l) = l;
  sp_copy_source p : sp_object (sp_copy p).1 = sp_object p;
  sp_copy_object p : sp_object (sp_copy p).2 = sp_object p;
  sp_copy_cow p : sp_mode p <> SHARED -> sp_mode (sp_copy p).1 = COPY_ON_WRITE /\ sp_mode (sp_copy p).2 = COPY_ON_WRITE;
  sp_copy_shared p : sp_mode p = SHARED -> sp_mode (sp_copy p).1 = SHARED /\ sp_mode (sp_copy p).2 = SHARED;
  sp_detach_mode l p : sp_mode (sp_detach l p) = SHARED;
  sp_detach_object l p : sp_object (sp_detach l p) = l;
}.

Section Sharing.
Context {F P : Type} `{!SharedPointer P, !SharedPointerLaws P}.

(** ** The memory

    The family objects, the override objects with their pointers to families, and the
    [sp<StateOverride>] the program holds. *)
Record memory := { objects : list F; overrides : list (StateOverride P); handles : list P }.

Definition map_families {A B} (h : A -> B) (s : StateOverride A) : StateOverride B :=
  {| families := (fun family : list A => h <$> family) <$> families s; order := order s |}.

(** [sp<StateOverride>(UNIQUE, registry)]: the factories make their objects in registration order. *)
Definition newShared (regs : list (TypeKey * F)) : memory :=
  {| objects := snd <$> regs;
     overrides := [newStateOverride (registerOverrides (imap (fun n r => (r.1, sp_make n)) regs))];
     handles := [sp_make 0%nat] |}.

(** The copy constructor on pointers: it copies each of them once ([copyOverride]), which also
    changes the ones it copies from. *)
Definition copyPointers (other : StateOverride P) : outcome (StateOverride P * StateOverride P) :=
  s ← copyOverride other;
  mret (map_families (fun p => (sp_copy p).1) other, map_families (fun p => (sp_copy p).2) s).

(** The override object [l] is copied to a new one. *)
Definition split (l : nat) (m : memory) : outcome memory :=
  o ← deref NullDeref (overrides m !! l);
  '(o1, o2) ← copyPointers o;
  mret {| objects := objects m; overrides := <[l := o1]> (overrides m) ++ [o2]; handles := handles m |}.

(** [mut()] of a handle: the override object to write to. *)
Definition mut (i : nat) (m : memory) : outcome (nat * memory) :=
  p ← deref NullDeref (handles m !! i);
  match sp_mode p with
  | COPY_ON_WRITE =>
      m1 ← split (sp_object p) m;
      mret (length (overrides m),
            {| objects := objects m1; overrides := overrides m1; handles := <[i := sp_detach (length (overrides m)) p]> (handles m1) |})
  | _ => mret (sp_object p, m)
  end.

(** [override<T>(id)] on the object [l], written through: [mut()] of the family's pointer. *)
Definition writeFamily (l : nat) (key : TypeKey) (id : Z) (g : F -> F) (m : memory) : outcome memory :=
  o ← deref NullDeref (overrides m !! l);
  p ← family_at o key id;
  f ← deref NullDeref (objects m !! sp_object p);
  mret match sp_mode p with
       | COPY_ON_WRITE =>
           {| objects := objects m ++ [g f];
              overrides := <[l := family_set o key id (sp_detach (length (objects m)) p)]> (overrides m); handles := handles m |}
       | _ => {| objects := <[sp_object p := g f]> (objects m); overrides := overrides m; handles := handles m |}
       end.

(** [h.mut().override<T>(id)], written through. *)
Definition write (i : nat) (key : TypeKey) (id : Z) (g : F -> F) (m : memory) : outcome memory :=
  '(l, m) ← mut i m; writeFamily l key id g m.

(** [h->override<T>(id)], the const accessor. *)
Definition look (i : nat) (key : TypeKey) (id : Z) (m : memory) : outcome F :=
  p ← deref NullDeref (handles m !! i);
  o ← deref NullDeref (overrides m !! sp_object p);
  q ← family_at o key id;
  deref NullDeref (objects m !! sp_object q).

(** [sp<StateOverride> child = parent] and [sp<StateOverride> child(UNIQUE, *parent)]. *)
Definition fork (i : nat) (m : memory) : outcome memory :=
  p ← deref NullDeref (handles m !! i);
  mret {| objects := objects m; overrides := overrides m; handles := <[i := (sp_copy p).1]> (handles m) ++ [(sp_copy p).2] |}.

Definition clone (i : nat) (m : memory) : outcome memory :=
  p ← deref NullDeref (handles m !! i);
  m1 ← split (sp_object p) m;
  mret {| objects := objects m1; overrides := overrides m1; handles := handles m1 ++ [sp_make (length (overrides m))] |}.

(** ** Runs, on pointers and on values *)

Inductive sharing_event :=
| Forked (i : nat)
| Cloned (i : nat)
| Wrote (i : nat) (key : TypeKey) (id : Z) (g : F -> F)
| Read (i : nat) (key : TypeKey) (id : Z) (f : F).

(** The family [(key, id)] of the override object [l] is behind [p]. *)
Definition pointer (m : memory) (l : nat) (key : TypeKey) (id : Z) (p : P) : Prop :=
  exists o, overrides m !! l = Some o /\ 0 <= id /\ family_at o key id = Ret p.

Definition unwritten (m : memory) (l : nat) : Prop := forall key id p, pointer m l key id p -> sp_mode p <> SHARED.

(** Only an override that has not been written since it was forked is forked or cloned. *)
Inductive memory_step : memory -> sharing_event -> memory -> Prop :=
| ms_fork i p m m' : handles m !! i = Some p -> sp_mode p <> SHARED -> unwritten m (sp_object p) ->
    fork i m = Ret m' -> memory_step m (Forked i) m'
| ms_clone i p m m' : handles m !! i = Some p -> unwritten m (sp_object p) ->
    clone i m = Ret m' -> memory_step m (Cloned i) m'
| ms_write i key id g m m' : 0 <= id -> write i key id g m = Ret m' -> memory_step m (Wrote i key id g) m'
| ms_read i key id f m : 0 <= id -> look i key id m = Ret f -> memory_step m (Read i key id f) m.

Inductive value_step : list (StateOverride F) -> sharing_event -> list (StateOverride F) -> Prop :=
| vs_fork i v vs : vs !! i = Some v -> value_step vs (Forked i) (vs ++ [v])
| vs_clone i v vs : vs !! i = Some v -> value_step vs (Cloned i) (vs ++ [v])
| vs_write i key id g v v' vs : vs !! i = Some v -> overrideUpd v key id g = Ret v' -> value_step vs (Wrote i key id g) (<[i := v']> vs)
| vs_read i key id f v vs : vs !! i = Some v -> override v key id = Ret f -> value_step vs (Read i key id f) vs.

(** ** The objects *)
Context (ks : list TypeKey) (Hfit : ids_fit ks).

Definition holds (m : memory) (l : nat) (key : TypeKey) (id : Z) (f : F) : Prop :=
  exists p, pointer m l key id p /\ objects m !! sp_object p = Some f.

(** A family object that two overrides share is copy-on-write for both. *)
Record sane (m : memory) : Prop := {
  sn_layout l o : overrides m !! l = Some o -> has_layout ks o;
  sn_objects l key id p : pointer m l key id p -> (sp_object p < length (objects m))%nat;
  sn_families l1 key1 id1 p1 l2 key2 id2 p2 : pointer m l1 key1 id1 p1 -> pointer m l2 key2 id2 p2 ->
    (l1, key1, id1) <> (l2, key2, id2) -> sp_object p1 = sp_object p2 -> sp_mode p1 = COPY_ON_WRITE /\ sp_mode p2 = COPY_ON_WRITE;
}.

Lemma pointer_unique m l key id p q : pointer m l key id p -> pointer m l key id q -> p = q.
Proof. intros (o & Ho & _ & H1) (o' & Ho' & _ & H2). congruence. Qed.

Lemma map_families_at {A B} (h : A -> B) s key id : family_at (map_families h s) key id = h <$> family_at s key id.
Proof.
  unfold family_at, map_families; cbn. rewrite lookup_fmap. destruct (families s !! key) as [l|]; [|done]. cbn.
  rewrite list_lookup_fmap. by destruct (l !! Z.to_nat id).
Qed.

Lemma map_families_layout {A B} (h : A -> B) s : has_layout ks s -> has_layout ks (map_families h s).
Proof.
  intros [Ho Hf]. split; [done|]. intros k. specialize (Hf k). cbn. rewrite lookup_fmap.
  destruct (families s !! k); cbn; [by rewrite length_fmap|done].
Qed.

Lemma copyPointers_layout o : has_layout ks o ->
  copyPointers o = Ret (map_families (fun p => (sp_copy p).1) o, map_families (fun p => (sp_copy p).2) o).
Proof.
  intros Hl. unfold copyPointers, copyOverride. rewrite (copy_loop_layout ks o Hl Hfit). by destruct o.
Qed.

(** *** Splitting an override object *)
Lemma split_pointers m l : sane m -> (l < length (overrides m))%nat ->
  exists m1, split l m = Ret m1 /\ objects m1 = objects m /\ handles m1 = handles m /\
    length (overrides m1) = S (length (overrides m)) /\ (forall l o, overrides m1 !! l = Some o -> has_layout ks o) /\
    (forall l' key id p, pointer m1 l' key id p <->
       if decide (l' = length (overrides m)) then exists q, pointer m l key id q /\ p = (sp_copy q).2
       else if decide (l' = l) then exists q, pointer m l key id q /\ p = (sp_copy q).1
       else pointer m l' key id p).
Proof.
  intros Hs Hl. destruct (lookup_lt_is_Some_2 _ _ Hl) as [o Ho]. pose proof (sn_layout m Hs l o Ho) as Hlay.
  eexists. split; [|split; [|split; [|split; [|split]]]].
  - unfold split. rewrite Ho. cbn. rewrite (copyPointers_layout o Hlay). cbn. done.
  - done.
  - done.
  - cbn. rewrite length_app, length_insert. cbn. lia.
  - cbn. intros l' o' H'. apply lookup_app_Some in H' as [H'|[_ H']].
    + apply list_lookup_insert_Some in H' as [(-> & <- & _)|[_ H']]; [by apply map_families_layout|by apply (sn_layout m Hs l')].
    + apply list_lookup_singleton_Some in H' as [_ <-]. by apply map_families_layout.
  - intros l' key id p. unfold pointer; cbn [overrides]. case_decide as H1; [|case_decide as H2].
    + subst. rewrite lookup_app_r, length_insert, Nat.sub_diag by (rewrite length_insert; lia). cbn. split.
      * intros (o' & [= <-] & Hid & Hp). rewrite map_families_at in Hp.
        destruct (family_at o key id) as [q| | |] eqn:E; [|done..]. injection Hp as <-. exists q. split; [by exists o|done].
      * intros (q & (o' & Ho' & Hid & Hq) & ->). eexists. split; [done|]. split; [done|]. rewrite map_families_at.
        assert (o' = o) as -> by congruence. by rewrite Hq.
    + subst. rewrite lookup_app_l, list_lookup_insert_eq by (rewrite ?length_insert; lia). split.
      * intros (o' & [= <-] & Hid & Hp). rewrite map_families_at in Hp.
        destruct (family_at o key id) as [q| | |] eqn:E; [|done..]. injection Hp as <-. exists q. split; [by exists o|done].
      * intros (q & (o' & Ho' & Hid & Hq) & ->). eexists. split; [done|]. split; [done|]. rewrite map_families_at.
        assert (o' = o) as -> by congruence. by rewrite Hq.
    + destruct (decide (l' < length (overrides m))%nat).
      * rewrite lookup_app_l, list_lookup_insert_ne by (rewrite ?length_insert; lia). done.
      * rewrite (lookup_ge_None_2 (overrides m) l') by lia.
        rewrite lookup_ge_None_2 by (rewrite length_app, length_insert; cbn; lia). done.
Qed.

(** Where a pointer of the split memory comes from. *)
Definition origin (m : memory) (l l' : nat) : nat := if decide (l' = length (overrides m)) then l else l'.

Lemma split_sane m l : sane m -> (l < length (overrides m))%nat -> unwritten m l ->
  exists m1, split l m = Ret m1 /\ handles m1 = handles m /\ length (overrides m1) = S (length (overrides m)) /\ sane m1 /\
    unwritten m1 l /\ (forall l' key id f, holds m1 l' key id f <-> holds m (origin m l l') key id f) /\
    (forall l', l' <> l -> l' <> length (overrides m) -> unwritten m l' -> unwritten m1 l').
Proof.
  intros Hs Hl Hun. destruct (split_pointers m l Hs Hl) as (m1 & Hm & Hob & Hh & Hlen & Hlay & Hp).
  assert (forall l' key id p, pointer m1 l' key id p -> exists q, pointer m (origin m l l') key id q /\
    sp_object p = sp_object q /\ (p = q \/ sp_mode p = COPY_ON_WRITE /\ (l' = l \/ l' = length (overrides m)))) as Hor.
  { intros l' key id p Hq. apply Hp in Hq. unfold origin. case_decide; [|case_decide].
    - destruct Hq as (q & Hq & ->). exists q. split; [done|]. split; [apply sp_copy_object|].
      right. split; [apply sp_copy_cow; by apply (Hun key id)|by right].
    - destruct Hq as (q & Hq & ->). subst. exists q. split; [done|]. split; [apply sp_copy_source|].
      right. split; [apply sp_copy_cow; by apply (Hun key id)|by left].
    - exists p. by split; [|split; [|left]]. }
  exists m1. split; [done|]. split; [done|]. split; [done|]. split; [split|split; [|split]].
  - done.
  - intros l' key id p Hq. destruct (Hor _ _ _ _ Hq) as (q & Hq' & -> & _). rewrite Hob. by eapply sn_objects.
  - intros l1 key1 id1 p1 l2 key2 id2 p2 H1 H2 Hne He.
    destruct (Hor _ _ _ _ H1) as (q1 & Q1 & E1 & C1). destruct (Hor _ _ _ _ H2) as (q2 & Q2 & E2 & C2). rewrite E1, E2 in He.
    destruct (decide ((origin m l l1, key1, id1) = (origin m l l2, key2, id2))) as [[= Ho -> ->]|Hd].
    + assert (l1 <> l2) as Hll by (intros ->; done). unfold origin in Ho. revert Ho. repeat case_decide; intros Ho; subst; try done.
      * split; [apply Hp in H1; rewrite decide_True in H1 by done; destruct H1 as (q & Hq & ->)|
               apply Hp in H2; rewrite decide_False, decide_True in H2 by done; destruct H2 as (q & Hq & ->)];
        apply sp_copy_cow; by eapply Hun.
      * split; [apply Hp in H1; rewrite decide_False, decide_True in H1 by done; destruct H1 as (q & Hq & ->)|
               apply Hp in H2; rewrite decide_True in H2 by done; destruct H2 as (q & Hq & ->)];
        apply sp_copy_cow; by eapply Hun.
    + destruct (sn_families m Hs _ _ _ _ _ _ _ _ Q1 Q2 Hd He) as [M1 M2].
      split; [by destruct C1 as [->|[-> _]]|by destruct C2 as [->|[-> _]]].
  - intros key id p Hq. apply Hp in Hq. rewrite decide_False, decide_True in Hq by lia. destruct Hq as (q & Hq & ->).
    destruct (sp_copy_cow q) as [-> _]; [by eapply Hun|done].
  - intros l' key id f. unfold holds. rewrite Hob. split.
    + intros (p & Hq & Ho). destruct (Hor _ _ _ _ Hq) as (q & Hq' & E & _). exists q. by rewrite <- E.
    + intros (q & Hq & Ho). unfold origin in Hq. case_decide; [|destruct (decide (l' = l))].
      * exists (sp_copy q).2. rewrite sp_copy_object, Hp, decide_True by done. split; [by exists q|done].
      * subst. exists (sp_copy q).1. rewrite sp_copy_source, Hp, decide_False, decide_True by done. split; [by exists q|done].
      * exists q. rewrite Hp, !decide_False by done. done.
  - intros l' H1 H2 Hw key id p Hq. apply Hp in Hq. rewrite !decide_False in Hq by done. by eapply Hw.
Qed.

(** *** Writing a family *)
Lemma writeFamily_pointers m l key id p f g : sane m -> pointer m l key id p -> objects m !! sp_object p = Some f ->
  exists m' p', writeFamily l key id g m = Ret m' /\ handles m' = handles m /\ length (overrides m') = length (overrides m) /\
    (forall l o, overrides m' !! l = Some o -> has_layout ks o) /\
    (forall l' key' id' q, pointer m' l' key' id' q <-> if decide ((l', key', id') = (l, key, id)) then q = p' else pointer m l' key' id' q) /\
    match sp_mode p with
    | COPY_ON_WRITE => sp_mode p' = SHARED /\ sp_object p' = length (objects m) /\ objects m' = objects m ++ [g f]
    | _ => p' = p /\ objects m' = <[sp_object p := g f]> (objects m)
    end.
Proof.
  intros Hs (o & Ho & Hid & Hp) Hf. unfold writeFamily. rewrite Ho. cbn. rewrite Hp. cbn. rewrite Hf. cbn.
  assert (is_Some (families o !! key ≫= (.!! Z.to_nat id))) as Hsome.
  { unfold family_at in Hp. destruct (families o !! key) as [fam|]; [|done]. cbn in *. by destruct (fam !! Z.to_nat id). }
  assert (sp_mode p = COPY_ON_WRITE \/ sp_mode p <> COPY_ON_WRITE) as [Hm|Hm] by (destruct (sp_mode p); auto).
  - rewrite Hm. eexists _, (sp_detach (length (objects m)) p). split; [done|]. cbn.
    split; [done|]. split; [by rewrite length_insert|]. split; [|split; [|by rewrite sp_detach_mode, sp_detach_object]].
    + intros l' o' [(-> & <- & _)|[_ H']]%list_lookup_insert_Some; [|by apply (sn_layout m Hs l')].
      apply family_set_layout. by apply (sn_layout m Hs l').
    + intros l' key' id' q. unfold pointer; cbn [overrides]. apply lookup_lt_Some in Ho as Hlt. case_decide as Hd.
      * injection Hd as -> -> ->. rewrite list_lookup_insert_eq by done. split.
        -- intros (? & [= <-] & _ & Hq). rewrite family_at_set in Hq by done. congruence.
        -- intros ->. eexists. split; [done|]. split; [done|]. by apply family_at_set.
      * destruct (decide (l' = l)) as [->|]; [|by rewrite list_lookup_insert_ne]. rewrite list_lookup_insert_eq by done. split.
        -- intros (? & [= <-] & Hi & Hq). exists o. rewrite family_at_set_ne in Hq by (done || congruence). done.
        -- intros (o' & Ho' & Hi & Hq). assert (o' = o) as -> by congruence. eexists. split; [done|]. split; [done|].
           rewrite family_at_set_ne by (done || congruence). done.
  - eexists (match sp_mode p with COPY_ON_WRITE => _ | _ => _ end), p. split; [done|].
    destruct (sp_mode p); try done; (split; [done|]; split; [done|]; split; [exact (sn_layout m Hs)|]; split; [|done]);
      intros l' key' id' q; (case_decide as Hd; [injection Hd as -> -> ->|done]); split;
      (intros Hq; exact (pointer_unique m l key id _ _ Hq (ex_intro _ o (conj Ho (conj Hid Hp))))) || (intros ->; by exists o).
Qed.

Lemma writeFamily_sane m l key id p f g : sane m -> pointer m l key id p -> objects m !! sp_object p = Some f ->
  exists m', writeFamily l key id g m = Ret m' /\ handles m' = handles m /\ length (overrides m') = length (overrides m) /\ sane m' /\
    (forall l' key' id' f', holds m' l' key' id' f' <-> if decide ((l', key', id') = (l, key, id)) then f' = g f else holds m l' key' id' f') /\
    (forall l', l' <> l -> unwritten m l' -> unwritten m' l').
Proof.
  intros Hs Hp Hf. destruct (writeFamily_pointers m l key id p f g Hs Hp Hf) as (m' & p' & Hw & Hh & Hlen & Hlay & Hq & Hm).
  pose proof (lookup_lt_Some _ _ _ Hf) as Hlt.
  assert (sp_object p' < length (objects m'))%nat as Hp'.
  { destruct (sp_mode p); [destruct Hm as [-> ->]|destruct Hm as (_ & -> & ->)|destruct Hm as [-> ->]]; rewrite ?length_insert, ?length_app; cbn; lia. }
  assert (objects m' !! sp_object p' = Some (g f)) as Hnew.
  { destruct (sp_mode p); [destruct Hm as [-> ->]|destruct Hm as (_ & -> & ->)|destruct Hm as [-> ->]];
      [by apply list_lookup_insert_eq|by rewrite lookup_app_r, Nat.sub_diag by lia|by apply list_lookup_insert_eq]. }
  (* another family's object is not the one written *)
  assert (forall l' key' id' q, pointer m l' key' id' q -> (l', key', id') <> (l, key, id) ->
    sp_object q <> sp_object p' /\ objects m' !! sp_object q = objects m !! sp_object q) as Hother.
  { intros l' key' id' q Hq' Hd. pose proof (sn_objects m Hs _ _ _ _ Hq') as Hb.
    destruct (decide (sp_object q = sp_object p)) as [E|E].
    - destruct (sn_families m Hs _ _ _ _ _ _ _ _ Hq' Hp Hd E) as [_ M]. rewrite M in Hm. destruct Hm as (_ & -> & ->).
      split; [lia|]. by rewrite lookup_app_l.
    - destruct (sp_mode p); [destruct Hm as [-> ->]|destruct Hm as (_ & -> & ->)|destruct Hm as [-> ->]];
        [by rewrite list_lookup_insert_ne|rewrite lookup_app_l by done; split; [lia|done]|by rewrite list_lookup_insert_ne]. }
  exists m'. split; [done|]. split; [done|]. split; [done|]. split; [split|split].
  - done.
  - intros l' key' id' q Hq'. apply Hq in Hq'. case_decide; [by subst|].
    apply (sn_objects m Hs) in Hq'. destruct (sp_mode p); [destruct Hm as [_ ->]|destruct Hm as (_ & _ & ->)|destruct Hm as [_ ->]];
      rewrite ?length_insert, ?length_app; lia.
  - intros l1 key1 id1 p1 l2 key2 id2 p2 H1 H2 Hne He. apply Hq in H1, H2. repeat case_decide; subst.
    + congruence.
    + destruct (Hother _ _ _ _ H1); [done|]. congruence.
    + destruct (Hother _ _ _ _ H2); [done|]. congruence.
    + exact (sn_families m Hs _ _ _ _ _ _ _ _ H1 H2 Hne He).
  - intros l' key' id' f'. unfold holds. case_decide as Hd.
    + split; [|intros ->; exists p'; split; [apply Hq; by rewrite decide_True|done]].
      intros (q & Hq' & Ho). apply Hq in Hq'. rewrite decide_True in Hq' by done. congruence.
    + split; intros (q & Hq' & Ho); exists q.
      * apply Hq in Hq'. rewrite decide_False in Hq' by done. destruct (Hother _ _ _ _ Hq' Hd) as [_ <-]. done.
      * destruct (Hother _ _ _ _ Hq' Hd) as [_ ->]. split; [|done]. apply Hq. by rewrite decide_False.
  - intros l' Hl Hu key' id' q Hq'. apply Hq in Hq'. rewrite decide_False in Hq' by congruence. by eapply Hu.
Qed.

(** *** What the handles show *)
Record represents (m : memory) (vs : list (StateOverride F)) : Prop := {
  rp_sane : sane m;
  rp_length : length (handles m) = length vs;
  rp_bound i p : handles m !! i = Some p -> (sp_object p < length (overrides m))%nat;
  rp_unique i j p q : handles m !! i = Some p -> handles m !! j = Some q -> i <> j -> sp_object p = sp_object q ->
    sp_mode p = COPY_ON_WRITE /\ sp_mode q = COPY_ON_WRITE;
  rp_cow i p : handles m !! i = Some p -> sp_mode p = COPY_ON_WRITE -> unwritten m (sp_object p);
  rp_holds i p v : handles m !! i = Some p -> vs !! i = Some v ->
    forall key id f, holds m (sp_object p) key id f <-> 0 <= id /\ family_at v key id = Ret f;
}.

Lemma look_holds m i p key id f : handles m !! i = Some p -> 0 <= id -> (look i key id m = Ret f <-> holds m (sp_object p) key id f).
Proof.
  intros Hi Hid. unfold look, holds, pointer. rewrite Hi. cbn. split.
  - destruct (overrides m !! sp_object p) as [o|]; [|done]. cbn. destruct (family_at o key id) as [q| | |] eqn:Hq; [|done..]. cbn.
    destruct (objects m !! sp_object q) as [f'|] eqn:Hf; [|done]. intros [= <-]. exists q. split; [by exists o|done].
  - intros (q & (o & Ho & _ & Hq) & Hf). rewrite Ho. cbn. rewrite Hq. cbn. by rewrite Hf.
Qed.

Lemma look_value m vs i v key id f : represents m vs -> vs !! i = Some v -> 0 <= id ->
  look i key id m = Ret f <-> override v key id = Ret f.
Proof.
  intros Hr Hv Hid. destruct (lookup_lt_is_Some_2 (handles m) i) as [p Hp].
  { rewrite (rp_length m vs Hr). by eapply lookup_lt_Some. }
  rewrite (look_holds m i p) by done. rewrite (rp_holds m vs Hr i p v Hp Hv). unfold override. split; [by intros [_ H]|by split].
Qed.

Lemma lookup_handles (l : list P) i a b j x : (<[i := a]> l ++ [b]) !! j = Some x ->
  (j = i /\ x = a /\ (j < length l)%nat) \/ (j = length l /\ x = b) \/ (j <> i /\ (j < length l)%nat /\ l !! j = Some x).
Proof.
  intros [H|[Hj H]]%lookup_app_Some.
  - apply list_lookup_insert_Some in H as [(-> & <- & Hl)|[Hne H]]; [by left|]. right; right.
    split; [done|]. split; [by eapply lookup_lt_Some|done].
  - rewrite length_insert in *. apply list_lookup_singleton_Some in H as [H <-]. right; left. split; [lia|done].
Qed.

Lemma fork_represents m vs i p v : represents m vs -> handles m !! i = Some p -> vs !! i = Some v ->
  sp_mode p <> SHARED -> unwritten m (sp_object p) ->
  exists m', fork i m = Ret m' /\ represents m' (vs ++ [v]).
Proof.
  intros Hr Hi Hv Hm Hu. unfold fork. rewrite Hi. cbn. eexists. split; [done|]. destruct (sp_copy_cow p Hm) as [M1 M2].
  pose proof (sp_copy_source p) as O1. pose proof (sp_copy_object p) as O2.
  assert (forall j q, (<[i := (sp_copy p).1]> (handles m) ++ [(sp_copy p).2]) !! j = Some q ->
    exists j' q', handles m !! j' = Some q' /\ (vs ++ [v]) !! j = vs !! j' /\ sp_object q = sp_object q' /\
      (j' = i /\ sp_mode q = COPY_ON_WRITE \/ j = j' /\ j' <> i /\ q = q')) as Hor.
  { intros j q H. apply lookup_handles in H as [(-> & -> & Hl)|[[-> ->]|(Hne & Hl & H)]].
    - exists i, p. rewrite lookup_app_l by (rewrite <- (rp_length m vs Hr); lia). split; [done|]. split; [done|]. split; [done|]. by left.
    - exists i, p. rewrite (rp_length m vs Hr), lookup_app_r, Nat.sub_diag by lia. split; [done|]. split; [by rewrite Hv|]. split; [done|]. by left.
    - exists j, q. rewrite lookup_app_l by (rewrite <- (rp_length m vs Hr); lia). split; [done|]. split; [done|]. split; [done|]. by right. }
  split; cbn [handles overrides].
  - destruct (rp_sane m vs Hr). by split.
  - rewrite !length_app, length_insert, (rp_length m vs Hr). done.
  - intros j q (j' & q' & Hj & _ & -> & _)%Hor. by eapply rp_bound.
  - intros j1 j2 q1 q2 (j1' & q1' & H1 & _ & E1 & C1)%Hor (j2' & q2' & H2 & _ & E2 & C2)%Hor Hne He. rewrite E1, E2 in He.
    destruct (decide (j1' = j2')) as [->|Hd].
    + destruct C1 as [[-> ?]|(-> & ? & ->)], C2 as [[? ?]|(? & ? & ->)]; done || congruence.
    + destruct (rp_unique m vs Hr _ _ _ _ H1 H2 Hd He). destruct C1 as [[-> ?]|(-> & ? & ->)], C2 as [[? ?]|(? & ? & ->)]; done.
  - intros j q (j' & q' & Hj & _ & -> & [[-> _]|(_ & _ & ->)])%Hor Hc; [by replace q' with p by congruence|]. by eapply (rp_cow m vs Hr).
  - intros j q v' (j' & q' & Hj & Ev & -> & _)%Hor Hv'. rewrite Ev in Hv'. exact (rp_holds m vs Hr j' q' v' Hj Hv').
Qed.

Lemma clone_represents m vs i p v : represents m vs -> handles m !! i = Some p -> vs !! i = Some v -> unwritten m (sp_object p) ->
  exists m', clone i m = Ret m' /\ represents m' (vs ++ [v]).
Proof.
  intros Hr Hi Hv Hu. pose proof (rp_bound m vs Hr i p Hi) as Hb.
  destruct (split_sane m _ (rp_sane m vs Hr) Hb Hu) as (m1 & Hm & Hh & Hlen & Hs1 & Hu1 & Hho & Hun).
  unfold clone. rewrite Hi. cbn. rewrite Hm. cbn. eexists. split; [done|]. rewrite Hh.
  assert (forall j q, (handles m ++ [sp_make (length (overrides m))]) !! j = Some q ->
    handles m !! j = Some q /\ (vs ++ [v]) !! j = vs !! j \/
    q = sp_make (length (overrides m)) /\ j = length vs /\ (vs ++ [v]) !! j = Some v) as Hor.
  { intros j q [H|[Hj H]]%lookup_app_Some.
    - left. apply lookup_lt_Some in H as Hl. by rewrite lookup_app_l by (rewrite <- (rp_length m vs Hr); lia).
    - right. apply list_lookup_singleton_Some in H as [Hj' <-]. rewrite (rp_length m vs Hr) in *.
      replace j with (length vs) by lia. by rewrite lookup_app_r, Nat.sub_diag. }
  split; cbn [handles overrides].
  - destruct Hs1. by split.
  - rewrite !length_app, (rp_length m vs Hr). done.
  - intros j q [[H _]|(-> & _)]%Hor; [apply (rp_bound m vs Hr) in H|rewrite sp_make_object]; lia.
  - intros j1 j2 q1 q2 H1 H2 Hne He. apply Hor in H1 as [[H1 _]|(-> & -> & _)], H2 as [[H2 _]|(-> & -> & _)].
    + by eapply (rp_unique m vs Hr).
    + rewrite sp_make_object in He. apply (rp_bound m vs Hr) in H1. lia.
    + rewrite sp_make_object in He. apply (rp_bound m vs Hr) in H2. lia.
    + done.
  - intros j q [[H _]|(-> & _)]%Hor Hc; [|by rewrite sp_make_mode in Hc].
    destruct (decide (sp_object q = sp_object p)) as [->|Hd]; [exact Hu1|]. apply (Hun (sp_object q)); [done| |by eapply (rp_cow m vs Hr)].
    apply (rp_bound m vs Hr) in H. lia.
  - intros j q v' H Hv' key id f. transitivity (holds m1 (sp_object q) key id f); [done|]. rewrite Hho. unfold origin.
    apply Hor in H as [[H Ev]|(-> & -> & Ev)]; rewrite Ev in Hv'.
    + rewrite decide_False by (apply (rp_bound m vs Hr) in H; lia). by eapply (rp_holds m vs Hr).
    + rewrite sp_make_object, decide_True by done. injection Hv' as <-. by eapply (rp_holds m vs Hr).
Qed.

(** [mut()] leaves the handle alone on the object it gives. *)
Lemma mut_represents m vs i p : represents m vs -> handles m !! i = Some p ->
  exists l m1 p1, mut i m = Ret (l, m1) /\ represents m1 vs /\ handles m1 !! i = Some p1 /\ sp_object p1 = l /\ sp_mode p1 <> COPY_ON_WRITE.
Proof.
  intros Hr Hi. unfold mut. rewrite Hi. cbn.
  assert (sp_mode p = COPY_ON_WRITE \/ sp_mode p <> COPY_ON_WRITE) as [Hm|Hm] by (destruct (sp_mode p); auto).
  2: { exists (sp_object p), m, p. by destruct (sp_mode p). }
  pose proof (rp_bound m vs Hr i p Hi) as Hb.
  destruct (split_sane m _ (rp_sane m vs Hr) Hb) as (m1 & Hsp & Hh & Hlen & Hs1 & Hu1 & Hho & Hun); [by eapply rp_cow|].
  rewrite Hm, Hsp. cbn. eexists _, _, (sp_detach (length (overrides m)) p). split; [done|]. rewrite Hh. cbn [handles].
  split; [|split; [apply list_lookup_insert_eq; by eapply lookup_lt_Some|by rewrite sp_detach_object, sp_detach_mode]].
  split; cbn [handles overrides].
  - destruct Hs1. by split.
  - rewrite length_insert. apply (rp_length m vs Hr).
  - intros j q [(-> & <- & _)|[_ H]]%list_lookup_insert_Some; [rewrite sp_detach_object|apply (rp_bound m vs Hr) in H]; lia.
  - intros j1 j2 q1 q2 [(-> & <- & _)|[_ H1]]%list_lookup_insert_Some [(-> & <- & _)|[_ H2]]%list_lookup_insert_Some Hne; rewrite ?sp_detach_object.
    + done.
    + intros He. apply (rp_bound m vs Hr) in H2. lia.
    + intros He. apply (rp_bound m vs Hr) in H1. lia.
    + by eapply (rp_unique m vs Hr).
  - intros j q [(-> & <- & _)|[_ H]]%list_lookup_insert_Some Hc; [by rewrite sp_detach_mode in Hc|].
    destruct (decide (sp_object q = sp_object p)) as [->|Hd]; [exact Hu1|]. apply (Hun (sp_object q)); [done| |by eapply (rp_cow m vs Hr)].
    apply (rp_bound m vs Hr) in H. lia.
  - intros j q v [(-> & <- & _)|[_ H]]%list_lookup_insert_Some Hv key id f;
      (transitivity (holds m1 (sp_object q) key id f) || transitivity (holds m1 (sp_object (sp_detach (length (overrides m)) p)) key id f));
      [done| |done|]; rewrite Hho; unfold origin.
    + rewrite sp_detach_object, decide_True by done. by eapply (rp_holds m vs Hr).
    + rewrite decide_False by (apply (rp_bound m vs Hr) in H; lia). by eapply (rp_holds m vs Hr).
Qed.

Lemma write_represents m vs i v key id f g : represents m vs -> vs !! i = Some v -> 0 <= id -> override v key id = Ret f ->
  exists m', write i key id g m = Ret m' /\ represents m' (<[i := family_set v key id (g f)]> vs).
Proof.
  intros Hr Hv Hid Hf. destruct (lookup_lt_is_Some_2 (handles m) i) as [p Hp].
  { rewrite (rp_length m vs Hr). by eapply lookup_lt_Some. }
  destruct (mut_represents m vs i p Hr Hp) as (l & m1 & p1 & Hmut & Hr1 & Hp1 & Hl & Hc). subst l.
  destruct (proj2 (rp_holds m1 vs Hr1 i p1 v Hp1 Hv key id f)) as (q & Hq & Ho); [done|].
  destruct (writeFamily_sane m1 _ key id q f g (rp_sane m1 vs Hr1) Hq Ho) as (m' & Hw & Hh & Hlen & Hs' & Hho & Hun).
  assert (forall j r, handles m1 !! j = Some r -> j <> i -> sp_object r <> sp_object p1) as Hne.
  { intros j r Hj Hji He. by destruct (rp_unique m1 vs Hr1 j i r p1 Hj Hp1 Hji He). }
  exists m'. split; [unfold write; by rewrite Hmut|]. split; rewrite ?Hh, ?Hlen.
  - done.
  - rewrite length_insert. apply (rp_length m1 vs Hr1).
  - apply (rp_bound m1 vs Hr1).
  - apply (rp_unique m1 vs Hr1).
  - intros j r Hj Hcow. apply Hun; [|by eapply (rp_cow m1 vs Hr1)]. apply (Hne j r Hj). intros ->. congruence.
  - assert (is_Some (families v !! key ≫= (.!! Z.to_nat id))) as Hsome.
    { unfold override, family_at in Hf. destruct (families v !! key) as [fam|]; [|done]. cbn in *. by destruct (fam !! Z.to_nat id). }
    intros j r v' Hj [(Hij & <- & _)|[Hji Hv']]%list_lookup_insert_Some key' id' f'; rewrite Hho.
    + assert (r = p1) as -> by congruence. case_decide as Hd.
      * injection Hd as -> ->. rewrite family_at_set by done. split; [by intros ->|by intros [_ [= ->]]].
      * rewrite (rp_holds m1 vs Hr1 i p1 v Hp1 Hv). split; intros [Hid' Hat]; (split; [done|]).
        -- rewrite family_at_set_ne by (done || congruence). done.
        -- rewrite family_at_set_ne in Hat by (done || congruence). done.
    + rewrite decide_False by (intros [= He _ _]; by apply (Hne j r Hj)). by eapply (rp_holds m1 vs Hr1).
Qed.

Lemma memory_step_simulated m1 e m2 vs1 : represents m1 vs1 -> memory_step m1 e m2 ->
  exists vs2, value_step vs1 e vs2 /\ represents m2 vs2.
Proof.
  intros Hr Hs.
  assert (forall i p, handles m1 !! i = Some p -> exists v, vs1 !! i = Some v) as Hval.
  { intros i p Hp. apply lookup_lt_is_Some_2. rewrite <- (rp_length m1 vs1 Hr). by eapply lookup_lt_Some. }
  destruct Hs as [i p m m' Hp Hm Hu Hf|i p m m' Hp Hu Hc|i key id g m m' Hid Hw|i key id f m Hid Hl].
  - destruct (Hval i p Hp) as [v Hv]. destruct (fork_represents m vs1 i p v Hr Hp Hv Hm Hu) as (m'' & Hf' & Hr').
    assert (m'' = m') as -> by congruence. exists (vs1 ++ [v]). split; [by constructor|done].
  - destruct (Hval i p Hp) as [v Hv]. destruct (clone_represents m vs1 i p v Hr Hp Hv Hu) as (m'' & Hc' & Hr').
    assert (m'' = m') as -> by congruence. exists (vs1 ++ [v]). split; [by constructor|done].
  - assert (exists p, handles m !! i = Some p) as [p Hp].
    { unfold write, mut in Hw. destruct (handles m !! i) as [p|]; [by exists p|done]. }
    destruct (Hval i p Hp) as [v Hv]. destruct (mut_represents m vs1 i p Hr Hp) as (l & m1 & p1 & Hmut & Hr1 & Hp1 & <- & _).
    assert (exists f, override v key id = Ret f) as [f Hf].
    { unfold write in Hw. rewrite Hmut in Hw. cbn in Hw. unfold writeFamily in Hw.
      destruct (overrides m1 !! sp_object p1) as [o|] eqn:Ho; [|done]. cbn in Hw.
      destruct (family_at o key id) as [q| | |] eqn:Hq; [|done..]. cbn in Hw.
      destruct (objects m1 !! sp_object q) as [f|] eqn:Hf; [|done]. exists f.
      apply (rp_holds m1 vs1 Hr1 i p1 v Hp1 Hv). exists q. split; [by exists o|done]. }
    destruct (write_represents m vs1 i v key id f g Hr Hv Hid Hf) as (m'' & Hw' & Hr').
    assert (m'' = m') as -> by congruence. eexists. split; [|exact Hr']. apply vs_write with v; [done|].
    unfold overrideUpd. unfold override in Hf. by rewrite Hf.
  - assert (exists p, handles m !! i = Some p) as [p Hp].
    { unfold look in Hl. destruct (handles m !! i) as [p|]; [by exists p|done]. }
    destruct (Hval i p Hp) as [v Hv]. exists vs1. split; [|done]. apply vs_read with v; [done|]. by eapply look_value.
Qed.

(** *** After a write *)

(** Written through a copy-on-write handle, a family is behind a pointer that is [SHARED]. *)
Lemma write_shared m vs i p v key id f g : represents m vs -> handles m !! i = Some p -> sp_mode p = COPY_ON_WRITE ->
  vs !! i = Some v -> 0 <= id -> override v key id = Ret f ->
  exists m' p' q, write i key id g m = Ret m' /\ handles m' !! i = Some p' /\ sp_mode p' = SHARED /\
    pointer m' (sp_object p') key id q /\ sp_mode q = SHARED /\ objects m' !! sp_object q = Some (g f).
Proof.
  intros Hr Hp Hm Hv Hid Hf. pose proof (rp_bound m vs Hr i p Hp) as Hb. pose proof (rp_sane m vs Hr) as Hs.
  destruct (split_sane m _ Hs Hb) as (m1 & Hsp & Hh & Hlen & Hs1 & _); [by eapply rp_cow|].
  destruct (split_pointers m _ Hs Hb) as (m1' & Hsp' & Hob & _ & _ & _ & Hpt). assert (m1' = m1) as -> by congruence.
  destruct (proj2 (rp_holds m vs Hr i p v Hp Hv key id f)) as (q & Hq & Ho); [done|].
  set (l := length (overrides m)) in *. set (m2 := {| objects := objects m1; overrides := overrides m1; handles := <[i := sp_detach l p]> (handles m1) |}).
  assert (sane m2) as Hs2 by (destruct Hs1; by split).
  assert (pointer m2 l key id (sp_copy q).2) as Hq2.
  { apply (Hpt l key id). rewrite decide_True by done. by exists q. }
  assert (sp_mode (sp_copy q).2 = COPY_ON_WRITE) as Hc by (apply sp_copy_cow; by eapply (rp_cow m vs Hr i p)).
  destruct (writeFamily_pointers m2 l key id _ f g Hs2 Hq2) as (m' & q' & Hw & Hh' & _ & _ & Hpt' & Hmode).
  { rewrite sp_copy_object. cbn. by rewrite Hob. }
  rewrite Hc in Hmode. destruct Hmode as (M1 & M2 & M3).
  exists m', (sp_detach l p), q'. split; [unfold write, mut; rewrite Hp; cbn; rewrite Hm, Hsp; exact Hw|].
  rewrite Hh', sp_detach_mode, sp_detach_object. cbn [handles m2]. rewrite Hh.
  split; [apply list_lookup_insert_eq; by eapply lookup_lt_Some|]. split; [done|].
  split; [apply Hpt'; by rewrite decide_True|]. split; [done|]. rewrite M3, M2, lookup_app_r, Nat.sub_diag by lia. done.
Qed.

(** In place, for everything that points to the object. *)
Lemma writeFamily_shared m l key id q f g : pointer m l key id q -> sp_mode q = SHARED -> objects m !! sp_object q = Some f ->
  writeFamily l key id g m = Ret {| objects := <[sp_object q := g f]> (objects m); overrides := overrides m; handles := handles m |}.
Proof. intros (o & Ho & _ & Hq) Hm Hf. unfold writeFamily. rewrite Ho. cbn. rewrite Hq. cbn. rewrite Hf. cbn. by rewrite Hm. Qed.

(** An override with a [SHARED] family shares it with every copy. *)
Lemma clone_shared m vs i p q key id f g : represents m vs -> handles m !! i = Some p ->
  pointer m (sp_object p) key id q -> sp_mode q = SHARED -> objects m !! sp_object q = Some f ->
  exists m1 m2, clone i m = Ret m1 /\ write (length (handles m)) key id g m1 = Ret m2 /\ look i key id m2 = Ret (g f).
Proof.
  intros Hr Hp Hq Hm Hf. pose proof (rp_bound m vs Hr i p Hp) as Hb. pose proof (rp_sane m vs Hr) as Hs.
  destruct (split_pointers m _ Hs Hb) as (m1 & Hsp & Hob & Hh & _ & _ & Hpt). destruct (sp_copy_shared q Hm) as [M1 M2].
  set (l := length (overrides m)) in *. set (m1' := {| objects := objects m1; overrides := overrides m1; handles := handles m1 ++ [sp_make l] |}).
  assert (pointer m1' l key id (sp_copy q).2) as Hq2.
  { apply (Hpt l key id). rewrite decide_True by done. by exists q. }
  assert (pointer m1' (sp_object p) key id (sp_copy q).1) as Hq1.
  { apply (Hpt (sp_object p) key id). rewrite decide_False, decide_True by (done || lia). by exists q. }
  pose proof (writeFamily_shared m1' l key id _ f g Hq2 M2) as Hw. rewrite sp_copy_object in Hw. cbn [objects m1'] in Hw. rewrite Hob in Hw.
  specialize (Hw Hf). exists m1'. eexists. split; [unfold clone; rewrite Hp; cbn; rewrite Hsp; done|]. split.
  - unfold write, mut. cbn [handles m1']. rewrite Hh, lookup_app_r, Nat.sub_diag by lia. cbn.
    rewrite sp_make_mode. cbn. rewrite sp_make_object. exact Hw.
  - destruct Hq as (_ & _ & Hid & _). eapply look_holds; [|done|].
    + cbn [handles m1']. rewrite Hh, lookup_app_l by (by eapply lookup_lt_Some). exact Hp.
    + exists (sp_copy q).1. split; [exact Hq1|]. cbn. rewrite sp_copy_source. apply list_lookup_insert_eq. by eapply lookup_lt_Some.
Qed.

(** And a [SHARED] override is shared as a whole. *)
Lemma fork_shared m i p q key id f g : handles m !! i = Some p -> sp_mode p = SHARED ->
  pointer m (sp_object p) key id q -> sp_mode q = SHARED -> objects m !! sp_object q = Some f ->
  exists m1 m2, fork i m = Ret m1 /\ write (length (handles m)) key id g m1 = Ret m2 /\ look i key id m2 = Ret (g f).
Proof.
  intros Hp Hmp Hq Hm Hf. destruct (sp_copy_shared p Hmp) as [M1 M2]. unfold fork. rewrite Hp. eexists. eexists. split; [done|]. split.
  - unfold write, mut. cbn [handles]. rewrite lookup_app_r, length_insert, Nat.sub_diag by (rewrite length_insert; lia). cbn.
    rewrite M2. cbn. rewrite sp_copy_object. apply (writeFamily_shared _ _ _ _ q f g); done.
  - pose proof (lookup_lt_Some _ _ _ Hp) as Hl. destruct Hq as (o & Ho & Hid & Hq). eapply look_holds; [|done|].
    + cbn [handles]. rewrite lookup_app_l, list_lookup_insert_eq by (rewrite ?length_insert; lia). done.
    + exists q. split; [exists o; by rewrite sp_copy_source|]. apply list_lookup_insert_eq. by eapply lookup_lt_Some.
Qed.
End Sharing.

(** ** The first handle *)

Lemma of_key_inv {A} key (regs : list (TypeKey * A)) j a : of_key key regs !! j = Some a ->
  exists n, regs !! n = Some (key, a) /\ count_key key (take n (fst <$> regs)) = j.
Proof.
  induction regs as [|[key' a'] regs IH] using rev_ind; [done|]. rewrite of_key_snoc. intros [H|[Hj H]]%lookup_app_Some.
  - destruct (IH H) as (n & Hn & Hc). apply lookup_lt_Some in Hn as Hl. exists n. split; [by apply lookup_app_l_Some|].
    rewrite fmap_app, take_app_le by (rewrite length_fmap; lia). done.
  - case_decide as Hk; [|done]. apply list_lookup_singleton_Some in H as [H <-]. rewrite length_of_key in *. subst key'.
    exists (length regs). rewrite lookup_app_r, Nat.sub_diag by lia. split; [done|].
    rewrite fmap_app, take_app_length' by (by rewrite length_fmap). lia.
Qed.

Lemma family_at_new {A} (regs : list (TypeKey * A)) key id a :
  family_at (newStateOverride (registerOverrides regs)) key id = Ret a <-> of_key key regs !! Z.to_nat id = Some a.
Proof.
  destruct (newStateOverride_spec regs) as [_ Hf]. rewrite <- Hf. unfold family_at.
  destruct (families _ !! key) as [fam|]; cbn; [|split; by intros ?]. destruct (fam !! Z.to_nat id); cbn; split; congruence.
Qed.

Lemma newShared_pointer {F P} `{!SharedPointer P} (regs : list (TypeKey * F)) l key id p :
  pointer (newShared regs) l key id p <->
  l = 0%nat /\ 0 <= id /\ exists n f, regs !! n = Some (key, f) /\ count_key key (take n (fst <$> regs)) = Z.to_nat id /\ p = sp_make n.
Proof.
  assert (fst <$> imap (fun n r => (r.1, sp_make (P:=P) n)) regs = fst <$> regs) as Hfst.
  { apply list_eq. intros n. rewrite !list_lookup_fmap, list_lookup_imap. by destruct (regs !! n). }
  split.
  - intros (o & [-> <-]%list_lookup_singleton_Some & Hid & Hp%family_at_new). apply of_key_inv in Hp as (n & Hn & Hc). rewrite Hfst in Hc.
    rewrite list_lookup_imap in Hn. destruct (regs !! n) as [[key' f]|] eqn:E; [|done]. injection Hn as -> <-. split; [done|]. split; [done|]. by exists n, f.
  - intros (-> & Hid & n & f & Hn & Hc & ->). eexists. split; [done|]. split; [done|]. apply family_at_new. rewrite <- Hc, <- Hfst.
    apply of_key_lookup. by rewrite list_lookup_imap, Hn.
Qed.

Lemma newShared_represents {F P} `{!SharedPointer P, !SharedPointerLaws P} (regs : list (TypeKey * F)) :
  represents (fst <$> regs) (newShared (P:=P) regs) [newStateOverride (registerOverrides regs)].
Proof.
  split.
  - split.
    + intros l o [-> <-]%list_lookup_singleton_Some.
      destruct (newStateOverride_spec (imap (fun n r => (r.1, sp_make (P:=P) n)) regs)) as [Hl _]. revert Hl.
      replace (fst <$> imap _ regs) with (fst <$> regs); [done|].
      apply list_eq. intros n. rewrite !list_lookup_fmap, list_lookup_imap. by destruct (regs !! n).
    + intros l key id p (_ & _ & n & f & Hn & _ & ->)%newShared_pointer. rewrite sp_make_object. cbn. rewrite length_fmap. by eapply lookup_lt_Some.
    + intros l1 key1 id1 p1 l2 key2 id2 p2 (-> & Hi1 & n1 & f1 & H1 & C1 & ->)%newShared_pointer (-> & Hi2 & n2 & f2 & H2 & C2 & ->)%newShared_pointer Hne.
      rewrite !sp_make_object. intros ->. assert (key1 = key2) as -> by congruence. exfalso. apply Hne. f_equal. lia.
  - done.
  - intros i p [-> <-]%list_lookup_singleton_Some. rewrite sp_make_object. cbn. lia.
  - intros i j p q [-> _]%list_lookup_singleton_Some [-> _]%list_lookup_singleton_Some. done.
  - intros i p [-> <-]%list_lookup_singleton_Some. by rewrite sp_make_mode.
  - intros i p v [-> <-]%list_lookup_singleton_Some [_ <-]%list_lookup_singleton_Some key id f. rewrite sp_make_object. split.
    + intros (q & (_ & Hid & n & f' & Hn & Hc & ->)%newShared_pointer & Ho). split; [done|]. apply family_at_new. rewrite <- Hc.
      apply of_key_lookup. rewrite sp_make_object in Ho. cbn in Ho. rewrite list_lookup_fmap, Hn in Ho. cbn in Ho. congruence.
    + intros [Hid (n & Hn & Hc)%family_at_new%of_key_inv]. exists (sp_make n). split; [apply newShared_pointer; split; [done|]; split; [done|]; by exists n, f|].
      rewrite sp_make_object. cbn. by rewrite list_lookup_fmap, Hn.
Qed.

(** ** The contract *)
Section Contract.
Context {F P : Type} `{!SharedPointer P, !SharedPointerLaws P}.

(** C11: forks of a pending state do not see each other's writes.  In every run of forks, copies, writes and
    reads in which what is forked or copied has not been written since it was itself forked,
    each override reads as if it held its families by value: what StateOverride.v models;
    and no write that the values allow fails. *)
Theorem forks_isolated (regs : list (TypeKey * F)) es (m : memory (F:=F) (P:=P)) :
  ids_fit (fst <$> regs) -> run memory_step (newShared regs) es m ->
  exists vs, run value_step [newStateOverride (registerOverrides regs)] es vs /\
    forall i v key id, vs !! i = Some v -> 0 <= id ->
      (forall f, look i key id m = Ret f <-> override v key id = Ret f) /\
      (forall f g, override v key id = Ret f -> exists m', write i key id g m = Ret m' /\ look i key id m' = Ret (g f)).
Proof.
  intros Hfit Hrun. destruct (run_simulation memory_step value_step (represents (fst <$> regs))
    (fun m1 e m2 vs1 => memory_step_simulated (fst <$> regs) Hfit m1 e m2 vs1) _ _ _ _ (newShared_represents regs) Hrun) as (vs & Hv & Hr).
  exists vs. split; [done|]. intros i v key id Hi Hid. split.
  - intros f. by apply (look_value (fst <$> regs) m vs i v key id f).
  - intros f g Hf. destruct (write_represents _ Hfit m vs i v key id f g Hr Hi Hid Hf) as (m' & Hw & Hr'). exists m'. split; [done|].
    eapply (look_value _ m' _ i); [exact Hr'|apply list_lookup_insert_eq; by eapply lookup_lt_Some|done|].
    apply family_at_set; [done|]. unfold override, family_at in Hf. destruct (families v !! key) as [fam|]; [|done]. cbn in *. by destruct (fam !! Z.to_nat id).
Qed.

(** C12: a fork that has been written cannot be forked again.  Whether the handle is copied or the
    override is copied into a new unique one, a family written in the fork is then shared
    with its copy: what is written through the copy is read through the fork. *)
Theorem fork_of_fork_leaks (regs : list (TypeKey * F)) key id f (g1 g2 : F -> F) :
  ids_fit (fst <$> regs) -> 0 <= id -> of_key key regs !! Z.to_nat id = Some f ->
  exists m1 m2 : memory (F:=F) (P:=P), fork 0 (newShared regs) = Ret m1 /\ write 1 key id g1 m1 = Ret m2 /\
    look 0 key id m2 = Ret f /\ look 1 key id m2 = Ret (g1 f) /\
    (exists m3 m4, fork 1 m2 = Ret m3 /\ write 2 key id g2 m3 = Ret m4 /\ look 1 key id m4 = Ret (g2 (g1 f))) /\
    (exists m3 m4, clone 1 m2 = Ret m3 /\ write 2 key id g2 m3 = Ret m4 /\ look 1 key id m4 = Ret (g2 (g1 f))).
Proof.
  intros Hfit Hid Hf%family_at_new. pose proof (newShared_represents (P:=P) regs) as H0.
  set (v := newStateOverride (registerOverrides regs)) in *.
  destruct (fork_represents _ _ _ 0 (sp_make 0%nat) v H0) as (m1 & Hm1 & H1); [done|done|by rewrite sp_make_mode| |].
  { intros k i p (_ & _ & n & f' & _ & _ & ->)%newShared_pointer. by rewrite sp_make_mode. }
  assert (handles m1 !! 1%nat = Some (sp_copy (sp_make 0%nat)).2) as Hp1 by (injection Hm1 as <-; done).
  assert (length (handles m1) = 2%nat) as Hlen by (injection Hm1 as <-; done).
  destruct (write_represents _ Hfit m1 _ 1 v key id f g1 H1) as (m2 & Hm2 & H2); [done..|].
  destruct (write_shared _ Hfit m1 _ 1 _ v key id f g1 H1 Hp1) as (m2' & p & q & Hm2' & Hp & Hmp & Hq & Hmq & Ho); [|done..|].
  { apply sp_copy_cow. by rewrite sp_make_mode. }
  assert (m2' = m2) as -> by congruence.
  assert (length (handles m2) = 2%nat) as Hlen2 by (rewrite (rp_length _ _ _ H2), length_insert; done).
  exists m1, m2. split; [done|]. split; [done|].
  split; [apply (look_value _ m2 _ 0 v key id f H2); done|]. split.
  { destruct (Hq) as (_ & _ & _ & _). apply (look_holds m2 1 p key id (g1 f) Hp Hid). by exists q. }
  rewrite <- Hlen2. split.
  - destruct (fork_shared m2 1 p q key id _ g2 Hp Hmp Hq Hmq Ho) as (m3 & m4 & H3 & H4 & H5). by exists m3, m4.
  - destruct (clone_shared _ Hfit m2 _ 1 p q key id _ g2 H2 Hp Hq Hmq Ho) as (m3 & m4 & H3 & H4 & H5). by exists m3, m4.
Qed.
End Contract.

(** ** A pointer with these laws, and a run on it *)
Record plain_pointer := { pp_type : sp_type; pp_object : nat }.

#[global] Instance plain_sp : SharedPointer plain_pointer := {
  sp_mode := pp_type;
  sp_object := pp_object;
  sp_make l := {| pp_type := UNIQUE; pp_object := l |};
  sp_copy p := match pp_type p with
               | SHARED => (p, p)
               | _ => let q := {| pp_type := COPY_ON_WRITE; pp_object := pp_object p |} in (q, q)
               end;
  sp_detach l _ := {| pp_type := SHARED; pp_object := l |};
}.

#[global] Instance plain_sp_laws : SharedPointerLaws plain_pointer.
Proof. split; try done; intros [[] l]; cbn; by intros. Qed.

Lemma unwritten_families {F} (m : memory (F:=F) (P:=plain_pointer)) l o : overrides m !! l = Some o ->
  map_Forall (fun _ family => Forall (fun p => sp_mode p <> SHARED) family) (families o) -> unwritten m l.
Proof.
  intros Ho Hall key id p (o' & Ho' & _ & Hp). assert (o' = o) as -> by congruence. unfold family_at in Hp.
  destruct (families o !! key) as [family|] eqn:Hk; [|done]. cbn in Hp. destruct (family !! Z.to_nat id) as [q|] eqn:Hq; [|done].
  injection Hp as <-. specialize (Hall _ _ Hk). rewrite Forall_lookup in Hall. by eapply Hall.
Qed.

(** Two siblings, as in tests/test_StateOverride.cpp: the parent has 5, the children write 11 and 22. *)
Definition sh_regs : list (TypeKey * Z) := [(1%positive, 0); (2%positive, 0)].
Definition sh_after (es : list (memory (F:=Z) (P:=plain_pointer) -> outcome memory)) : memory :=
  foldl (fun m e => match e m with Ret m' => m' | _ => m end) (newShared sh_regs) es.
Definition sh_set (x : Z) : Z -> Z := fun _ => x.
Definition sh_siblings : memory :=
  sh_after [write 0 1%positive 0 (sh_set 5); fork 0; fork 0; write 1 1%positive 0 (sh_set 11); write 2 1%positive 0 (sh_set 22)].
Definition sh_events : list (sharing_event (F:=Z)) :=
  [Wrote 0 1%positive 0 (sh_set 5); Forked 0; Forked 0; Wrote 1 1%positive 0 (sh_set 11); Wrote 2 1%positive 0 (sh_set 22);
   Read 0 1%positive 0 5; Read 1 1%positive 0 11; Read 2 1%positive 0 22; Read 2 2%positive 0 0].

Lemma sh_fit : ids_fit (fst <$> sh_regs).
Proof. apply ids_fit_short. by apply Nat.leb_le. Qed.

Lemma sh_run : run memory_step (newShared sh_regs) sh_events sh_siblings.
Proof.
  assert (forall i m m' o, handles m !! i = Some {| pp_type := UNIQUE; pp_object := 0%nat |} \/
      handles m !! i = Some {| pp_type := COPY_ON_WRITE; pp_object := 0%nat |} -> overrides m !! 0%nat = Some o ->
    map_Forall (fun _ family => Forall (fun p => sp_mode p <> SHARED) family) (families o) ->
    fork i m = Ret m' -> memory_step (F:=Z) (P:=plain_pointer) m (Forked i) m') as Hfork.
  { intros i m m' o [Hp|Hp] Ho Hall Hf; (eapply ms_fork; [exact Hp|done|by eapply unwritten_families|done]). }
  unfold sh_events. eapply run_cons; [apply ms_write; [lia|vm_compute; reflexivity]|].
  eapply run_cons; [eapply Hfork; [by left|by cbn|by_compute|vm_compute; reflexivity]|].
  eapply run_cons; [eapply Hfork; [by right|by cbn|by_compute|vm_compute; reflexivity]|].
  do 2 (eapply run_cons; [apply ms_write; [lia|vm_compute; reflexivity]|]).
  do 4 (eapply run_cons; [apply ms_read; [lia|vm_compute; reflexivity]|]). vm_compute. constructor.
Qed.

Lemma forks_isolated_witness :
  (exists vs, run value_step [newStateOverride (registerOverrides sh_regs)] sh_events vs) /\
  look 0 1%positive 0 sh_siblings = Ret 5 /\ look 1 1%positive 0 sh_siblings = Ret 11 /\ look 2 1%positive 0 sh_siblings = Ret 22.
Proof.
  destruct (forks_isolated sh_regs sh_events sh_siblings sh_fit sh_run) as (vs & Hv & _).
  split; [by exists vs|]. vm_compute. split; [|split]; reflexivity.
Defined.

Lemma fork_of_fork_leaks_witness : exists m2 m4 : memory (F:=Z) (P:=plain_pointer),
  look 1 1%positive 0 m2 = Ret 2 /\ clone 1 m2 ≫= write 2 1%positive 0 (sh_set 3) = Ret m4 /\ look 1 1%positive 0 m4 = Ret 3.
Proof.
  destruct (fork_of_fork_leaks (P:=plain_pointer) sh_regs 1%positive 0 0 (sh_set 2) (sh_set 3) sh_fit)
    as (m1 & m2 & _ & _ & _ & H2 & _ & m3 & m4 & H3 & H4 & H5); [lia|reflexivity|].
  exists m2, m4. split; [exact H2|]. split; [rewrite H3; exact H4|exact H5].
Defined.
