(* ===== verification/LedgerRefinement.v ===== *)
(** * LedgerRefinement

    The library implements the ledger of Ledger.v: frontend, builder thread, backend, journal
    and mempool.bin together, over any number of runs, closed or killed, also inside a commit
    (src/src/blockchain/BlockchainFrontend.h and .cpp, BlockchainBackend.h and .cpp). *)

From S2P Require Import Prelude Excessive Memory Transaction Registry StateOverride ChainDesign TestChainDesign MEVBuilder.
From S2P Require Import EpochFile Journal CatalogFile Backend BackendCorrect Frontend TestBackend Progress Crash Lifetime Ledger.
From S2P Require BlockTimestampTracker.

Section System.
Context {Tx W F Ix M J C T : Type}.
Context `{!MmapHandle M, !FileMapping M}.
Context `{!IndexOverrideFamily F W Ix, !BlockchainIndex Ix, !Transaction Tx W (StateOverride F) M}.
Context `{!Journal J M Tx, !JournalLaws J M Tx, !SegmentSink C}.
Context `{!BTree BlockTimestampTracker.block_timestamp_entry_t T, !BTreeLaws BlockTimestampTracker.compare}.
Abbreviation Backend := (Backend Tx F Ix M J C T).
Abbreviation Frontend := (Frontend Tx F).

(** Where the builder thread is: between two calls, or inside [addBlock], at a stage of Crash.v,
    with the locals of the call. *)
Inductive builder :=
| Between (ph : phase (Tx:=Tx))
| Inside (env : commit_env W) (duration : Z) (toBuild : list Tx) (st : stage F).

(** The number that is counted, while its block is not in the journal. *)
Definition counting (bd : builder) : option Z := match bd with Inside _ _ _ (Numbered bn) => Some bn | _ => None end.

(** The program: running, or its files between two runs.  [blocks] records what is in the journal. *)
Inductive sys :=
| Running (fe : Frontend) (bd : builder) (b : Backend) (file : option (list Z)) (blocks : list (Z * list Tx))
| Stopped (b : Backend) (file : option (list Z)) (blocks : list (Z * list Tx)).

Context (design : ChainDesign Tx F Ix M) (config : BlockchainConfig) (enc : Tx -> list Z).

(** The program keeps its mempool in memory; mempool.bin is read by the constructor and written by
    the destructor.  What each call does to both. *)
Abbreviation stored := (Frontend * option (list Z))%type.

Definition io_send (w : W) (tx : Tx) (x : stored) : stored := (sendTransaction (M:=M) w tx x.1, x.2).
Definition io_build fuel now millis (w : W) (b : Backend) (x : stored) : outcome (list Tx * stored) :=
  '(toBuild, fe) ← build_section (M:=M) fuel now millis w config b x.1; mret (toBuild, (fe, x.2)).
Definition io_finish (w : W) (blockNumber : Z) (toBuild : list Tx) (b : Backend) (x : stored) : outcome stored :=
  fe ← finish_section (M:=M) w blockNumber toBuild b x.1; mret (fe, x.2).
Definition io_close (os : save_env) (x : stored) : stored := (x.1, saveMempoolFile (M:=M) os x.2 x.1).

(** What a step inside [addBlock] amounts to. *)
Definition stage_event (millis : Z) (st st' : stage F) : event Tx :=
  match st, st' with
  | Checking, Numbered _ => BlockCounted
  | Numbered _, Journalled _ => BlockAppended millis
  | Journalled _, _ => TimeMoved
  | Stamped _, _ => BlockIndexed
  | _, _ => Silent
  end.
Definition stage_blocks (blk : Z * list Tx) (st : stage F) (blocks : list (Z * list Tx)) : list (Z * list Tx) :=
  match st with Numbered _ => blocks ++ [blk] | _ => blocks end.

(** What the application and the builder thread do, with what each call answers.  [addBlock] runs
    as a whole ([sys_addBlock]) or stage by stage ([sys_begin], [sys_stage], [sys_done]), with
    sends and queries between the stages; a time window answers as a whole or in its sections.
    The program may end anywhere, also since [addBlock] threw in its thread, but not between
    the height and the end of the append: Crash.interrupted_commit_overwrites has that stage,
    and CommitReads.v what a query for the number that is being committed answers in it.  A
    block that is appended has room in its epoch file; mempool.bin can be written and stays
    below 4 GiB. *)
Inductive sys_step : sys -> event Tx -> sys -> Prop :=
| sys_send w tx fe bd b file bs fe' file' : io_send w tx (fe, file) = (fe', file') ->
    sys_step (Running fe bd b file bs) (Sent tx) (Running fe' bd b file' bs)
| sys_build fuel now millis w fe fe' toBuild b file file' bs :
    (length (mempool fe) < fuel)%nat -> io_build fuel now millis w b (fe, file) = Ret (toBuild, (fe', file')) ->
    sys_step (Running fe (Between Idle) b file bs) (Built toBuild)
      (Running fe' (Between match toBuild with [] => Idle | _ => Building toBuild end) b file' bs)
| sys_addBlock (env : commit_env W) fe toBuild b b' n file bs :
    j_fits (journal b) bs (e_millis env, toBuild) -> in_u64 (e_millis env) -> Z.of_nat (length bs) < U64_MAX ->
    addBlock env toBuild b = (Ret n, b') ->
    sys_step (Running fe (Between (Building toBuild)) b file bs) (Committed (e_millis env) n)
      (Running fe (Between (Finishing toBuild n)) b' file (if n =? -1 then bs else bs ++ [(e_millis env, toBuild)]))
| sys_begin env fe toBuild b file bs :
    sys_step (Running fe (Between (Building toBuild)) b file bs) Silent (Running fe (Inside env (duration_of env b) toBuild Checking) b file bs)
| sys_stage env d fe toBuild st st' b b' file bs :
    in_u64 (e_millis env) -> Z.of_nat (length bs) < U64_MAX -> (forall bn, st = Numbered bn -> j_fits (journal b) bs (e_millis env, toBuild)) ->
    commit_step env toBuild d (st, b) = (st', b') ->
    sys_step (Running fe (Inside env d toBuild st) b file bs) (stage_event (e_millis env) st st')
      (Running fe (Inside env d toBuild st') b' file (stage_blocks (e_millis env, toBuild) st bs))
| sys_done env d fe toBuild n b file bs :
    sys_step (Running fe (Inside env d toBuild (Returned (Ret n))) b file bs) (Committed (e_millis env) n)
      (Running fe (Between (Finishing toBuild n)) b file bs)
| sys_finish (w : W) fe fe' toBuild b n file file' bs :
    io_finish w n toBuild b (fe, file) = Ret (fe', file') ->
    sys_step (Running fe (Between (Finishing toBuild n)) b file bs) Finished (Running fe' (Between Idle) b file' bs)
| sys_getBlock n r fe bd b b' file bs : 0 <= n -> counting bd <> Some n -> getBlock n b = (r, b') ->
    sys_step (Running fe bd b file bs) (GotBlock n r) (Running fe bd b' file bs)
| sys_getTransactionById id r fe bd b b' file bs : 0 <= id -> counting bd <> Some (Z.shiftr id 20) -> getTransactionById id b = (r, b') ->
    sys_step (Running fe bd b file bs) (GotTransaction id r) (Running fe bd b' file bs)
| sys_window fuel st en r fe bd b b' file bs : in_u64 st -> (length bs < fuel)%nat ->
    Frontend.getTransactionsByTimeWindow fuel st en fe b = (r, b') ->
    sys_step (Running fe bd b file bs) (GotWindow st en r) (Running fe bd b' file bs)
| sys_window_began en fe bd b file bs :
    sys_step (Running fe bd b file bs) (WindowBegan en (getLastBlockTimestamp b <? en)) (Running fe bd b file bs)
| sys_window_pending st en fe bd b file bs :
    sys_step (Running fe bd b file bs) (WindowPending st en (windowPending (M:=M) st en fe)) (Running fe bd b file bs)
| sys_window_blocks fuel st en r fe bd b b' file bs : in_u64 st -> (length bs < fuel)%nat ->
    Backend.getTransactionsByTimeWindow fuel st en b = (r, b') ->
    sys_step (Running fe bd b file bs) (WindowBlocks st en r) (Running fe bd b' file bs)
| sys_height fe bd b file bs : sys_step (Running fe bd b file bs) (GotHeight (getBlockHeight b)) (Running fe bd b file bs)
| sys_size fe bd b file bs : sys_step (Running fe bd b file bs) (GotMempoolSize (getMempoolSize fe)) (Running fe bd b file bs)
| sys_close os fe fe' b file file' bs : sv_open os = true -> sv_truncate os = true -> sv_map os = true ->
    Z.of_nat (length (enc_all enc (mempool fe))) <= U32_MAX -> io_close os (fe, file) = (fe', file') ->
    sys_step (Running fe (Between Idle) b file bs) Closed (Stopped b file' bs)
| sys_kill fe bd b file bs : counting bd = None -> sys_step (Running fe bd b file bs) Killed (Stopped b file bs)
| sys_open w cat fe b file bs : openFrontend w (reopen design b cat) file = Ret fe ->
    sys_step (Stopped b file bs) Opened (Running fe (Between Idle) (reopen design b cat) file bs).

(** ** The ledger of a system *)
Context (iregs : list (TypeKey * Ix)) (oregs : list (TypeKey * F)) (tregs : list (Z * FactoryFunc M Tx)).

Definition block_sizes (bs : list (Z * list Tx)) : Prop := Forall (fun blk => 0 < Z.of_nat (length blk.2) <= MAX_TX_PER_BLOCK) bs.

(** A backend of these blocks, or one whose height counts a block more. *)
Definition backend_at (d : doing) (b : Backend) (bs : list (Z * list Tx)) (hidden : list nat) : Prop :=
  match d with
  | Counted => hole_rep (attached_regs iregs) oregs b bs hidden
  | _ => chain_rep (attached_regs iregs) oregs b bs hidden
  end.

(** The block in the journal that the timestamp index does not have yet. *)
Definition last_hidden (bs : list (Z * list Tx)) (hidden : list nat) (bn : Z) (blk : Z * list Tx) : Prop :=
  exists bs0 hidden0, bs = bs0 ++ [blk] /\ bn = Z.of_nat (length bs0) /\ hidden = length bs0 :: hidden0 /\ Forall (fun n => (n < length bs0)%nat) hidden0.

(** What the builder thread holds, and what it is doing, by where it is. *)
Definition builder_at (bd : builder) (bs : list (Z * list Tx)) (hidden : list nat) (held : list Tx) (d : doing) : Prop :=
  match bd with
  | Between ph => held = in_hand ph /\ d = Resting
  | Inside env _ toBuild st =>
      let refused := held = toBuild /\ d = Resting in
      let indexed bn := held = [] /\ d = Indexing (e_millis env) /\ bn = Z.of_nat (length bs) - 1 /\ (0 < length bs)%nat in
      match st with
      | Checking => refused
      | Numbered bn => held = toBuild /\ d = Counted /\ bn = Z.of_nat (length bs)
      | Journalled bn => held = [] /\ d = Appending (e_millis env) /\ last_hidden bs hidden bn (e_millis env, toBuild)
      | Stamped bn => held = [] /\ d = Timing (e_millis env) /\ last_hidden bs hidden bn (e_millis env, toBuild)
      | Indexed bn | Sealing bn _ _ => indexed bn
      | Returned (Ret n) => n = -1 /\ refused \/ indexed n
      | Returned _ => refused \/ exists bn, indexed bn
      end
  end.

(** What it was given is no more than [buildBlock] selects. *)
Definition given (bd : builder) : list Tx := match bd with Between ph => in_hand ph | Inside _ _ toBuild _ => toBuild end.

Definition sys_rep (s : sys) (l : ledger Tx) : Prop :=
  match s with
  | Running fe bd b file bs => Z.of_nat (length (given bd)) <= U16_MAX /\ block_sizes bs /\
      exists d hidden held saved, backend_at d b bs hidden /\ builder_at bd bs hidden held d /\ (d = Counted -> 0 < Z.of_nat (length held) <= MAX_TX_PER_BLOCK) /\
        file_holds enc file saved /\ l = Ledger (LChain bs hidden (lastBlockTimestamp (header b))) d (mempool fe) held saved true
  | Stopped b file bs => block_sizes bs /\
      exists hidden saved, chain_rep (attached_regs iregs) oregs b bs hidden /\ file_holds enc file saved /\
        l = Ledger (LChain bs hidden (lastBlockTimestamp (header b))) Resting saved [] saved false
  end.

Context (apply_layout : forall ks (w : W) s tx, has_layout ks s -> has_layout ks (applied (M:=M) w s tx)).
Implicit Types (b : Backend) (bs : list (Z * list Tx)).

(** A block that was too long, or empty, was not committed. *)
Lemma tooEarly_size cfg n d : 0 <= n < 4294967296 -> tooEarly cfg n d = Ret false -> 0 < n <= MAX_TX_PER_BLOCK.
Proof.
  intros Hn. unfold tooEarly. destruct (Z.eqb_spec n MAX_TX_PER_BLOCK) as [->|_]; [done|]. cbn [negb].
  rewrite u32_small by word. destruct (Z.eqb_spec n 0); [done|]. intros [= H]. rewrite !orb_false_iff, (Z.ltb_ge _ n) in H. lia.
Qed.

(** What a call of [addBlock] that returns has done. *)
Lemma addBlock_chain (env : commit_env W) ir txs b bs hidden n b' : chain_rep ir oregs b bs hidden ->
  j_fits (journal b) bs (e_millis env, txs) -> in_u64 (e_millis env) -> Z.of_nat (length bs) < U64_MAX ->
  Z.of_nat (length txs) < 4294967296 -> addBlock env txs b = (Ret n, b') ->
  n = -1 /\ b' = b \/
  n = Z.of_nat (length bs) /\ 0 < Z.of_nat (length txs) <= MAX_TX_PER_BLOCK /\
  chain_rep ir oregs b' (bs ++ [(e_millis env, txs)]) hidden /\ lastBlockTimestamp (header b') = e_millis env /\
  exists s, newStateOverride b = Ret s /\
    submit_all (commit_calls (M:=M) ir oregs env s txs (Z.of_nat (length bs))) (catalog b) = (Ret tt, catalog b').
Proof.
  intros Hr Hfits Hms Hlen Htx. destruct (tooEarly (Backend.config b) (Z.of_nat (length txs)) (duration_of env b)) as [early| | |] eqn:He;
    [|unfold addBlock, mbind, prog_bind, getS, liftO; fold (duration_of env b); by rewrite He..].
  destruct early; [unfold addBlock, mbind, prog_bind, getS, liftO; fold (duration_of env b); rewrite He; intros [= <- <-]; by left|].
  destruct (newStateOverride_wired ir oregs b) as (s & Hs & _); [apply (cr_wired _ _ _ _ _ Hr)|].
  destruct (verify_loop (e_verify env) s txs) as [v| | |] eqn:Hv;
    [|unfold addBlock, mbind, prog_bind, getS, liftO; fold (duration_of env b); by rewrite He, Hs, Hv..].
  destruct (submit_all (commit_calls (M:=M) ir oregs env s txs (Z.of_nat (length bs))) (catalog b)) as [r c'] eqn:Hc.
  destruct (addBlock_run ir oregs apply_layout b bs hidden env txs s v r c' Hr He Hs Hv Hfits Hms Hlen Hc)
    as (b1 & Hr1 & Hts & Hcat & ->). destruct r as [[]| | |]; try done. destruct (duration_of env b =? 0); [done|]. intros [= <- <-]. right.
  split; [done|]. split; [by eapply tooEarly_size; [lia|]|]. split; [by destruct Hr1|]. split; [done|].
  exists s. split; [done|]. cbn [catalog set_lastBlockTime]. by rewrite Hcat.
Qed.

Lemma addBlock_Ret (env : commit_env W) ir txs b bs n b' : backend_rep ir oregs b bs ->
  j_fits (journal b) bs (e_millis env, txs) -> in_u64 (e_millis env) -> Z.of_nat (length bs) < U64_MAX ->
  Z.of_nat (length txs) < 4294967296 -> addBlock env txs b = (Ret n, b') ->
  n = -1 /\ b' = b \/
  n = Z.of_nat (length bs) /\ 0 < Z.of_nat (length txs) <= MAX_TX_PER_BLOCK /\ backend_rep ir oregs b' (bs ++ [(e_millis env, txs)]) /\
  exists s, newStateOverride b = Ret s /\
    submit_all (commit_calls (M:=M) ir oregs env s txs (Z.of_nat (length bs))) (catalog b) = (Ret tt, catalog b').
Proof.
  intros [Hr _] Hfits Hms Hlen Htx Ha. destruct (addBlock_chain env ir txs b bs [] n b' Hr Hfits Hms Hlen Htx Ha) as [?|(-> & Hn & Hr' & Hts & Hsub)]; [by left|].
  right. split; [done|]. split; [done|]. split; [by apply backend_rep_snoc|done].
Qed.

(** The queries answer what the ledger answers, and leave a backend of the same blocks. *)
Lemma getBlock_at_chain ir b bs hidden n r b' : chain_rep ir oregs b bs hidden -> 0 <= n -> getBlock n b = (r, b') ->
  r = block_at bs n /\ chain_rep ir oregs b' bs hidden /\ header b' = header b.
Proof.
  intros Hr Hn. unfold block_at. destruct (bs !! Z.to_nat n) as [blk|] eqn:Hb.
  - destruct (getBlock_chain ir oregs b bs hidden _ blk Hr Hb) as (j & Hg & Hr'). rewrite Z2Nat.id in Hg by done.
    rewrite Hg. by intros [= <- <-].
  - unfold getBlock. rewrite (cr_height _ _ _ _ _ Hr). apply lookup_ge_None in Hb.
    destruct (Z.leb_spec (Z.of_nat (length bs)) n); [|lia]. by intros [= <- <-].
Qed.

Lemma getBlock_at ir b bs n r b' : backend_rep ir oregs b bs -> 0 <= n -> getBlock n b = (r, b') ->
  r = block_at bs n /\ backend_rep ir oregs b' bs.
Proof.
  intros [Hr Hl] Hn Hg. destruct (getBlock_at_chain ir b bs [] n r b' Hr Hn Hg) as (-> & Hr' & Hh). split; [done|]. split; [done|by rewrite Hh].
Qed.

(** The same with a block counted that is not there: all but a query for its number. *)
Lemma getBlock_now d b bs hidden n r b' : backend_at d b bs hidden -> 0 <= n -> (d = Counted -> n <> Z.of_nat (length bs)) -> getBlock n b = (r, b') ->
  r = block_at bs n /\ backend_at d b' bs hidden /\ header b' = header b.
Proof.
  intros Hr Hn Hne. destruct d as [| | | |]; [by apply getBlock_at_chain| |by apply getBlock_at_chain..]. destruct Hr as (b0 & -> & Hr).
  pose proof (cr_height _ _ _ _ _ Hr) as Hh. specialize (Hne eq_refl). destruct (Z.lt_ge_cases n (Z.of_nat (length bs))) as [Hlt|Hge].
  - rewrite getBlock_numbered by lia. destruct (getBlock n b0) as [r0 b1] eqn:Hg. intros [= <- <-].
    destruct (getBlock_at_chain _ b0 bs hidden n r0 b1 Hr Hn Hg) as (-> & Hr1 & Hh1). split; [done|]. split; [by exists b1|]. cbn. by rewrite Hh1.
  - unfold getBlock, block_at. rewrite lookup_ge_None_2 by lia. cbn [numbered set_header header currentBlockHeight].
    destruct (Z.leb_spec (currentBlockHeight (header b0) + 1) n); [|lia]. intros [= <- <-]. split; [done|]. split; [by exists b0|done].
Qed.

Lemma getTransactionById_now d b bs hidden id r b' : backend_at d b bs hidden -> block_sizes bs -> 0 <= id ->
  (d = Counted -> id / 1048576 <> Z.of_nat (length bs)) ->
  getTransactionById id b = (r, b') -> r = transaction_at bs id /\ backend_at d b' bs hidden /\ header b' = header b.
Proof.
  intros Hr Hsz Hid Hne. unfold getTransactionById. rewrite Z.shiftr_div_pow2 by lia. change 1048575 with (Z.ones 20).
  rewrite Z.land_ones by lia. change (2 ^ 20) with 1048576. unfold mbind, prog_bind.
  destruct (getBlock (id / 1048576) b) as [r1 b1] eqn:Hg. apply (getBlock_now d b bs hidden) in Hg as (-> & Hr1 & Hh); [|done|by apply Z.div_pos|done].
  unfold transaction_at, block_at. destruct (bs !! Z.to_nat (id / 1048576)) as [blk|] eqn:Hb; cbn; [|by intros [= <- <-]].
  assert (Z.of_nat (length blk.2) <= MAX_TX_PER_BLOCK) as Hlen.
  { apply list_elem_of_lookup_2 in Hb. unfold block_sizes in Hsz. rewrite Forall_forall in Hsz. by apply Hsz in Hb as [_ Hb]. }
  unfold MAX_TX_PER_BLOCK in Hlen. rewrite u32_small by word. destruct (Z.ltb_spec (id mod 1048576) (Z.of_nat (length blk.2))) as [|Hge].
  - by intros [= <- <-].
  - intros [= <- <-]. rewrite (lookup_ge_None_2 blk.2) by lia. done.
Qed.

Lemma window_blocks_chain fuel st en r b b' bs hidden t : chain_rep (attached_regs iregs) oregs b bs hidden -> in_u64 st -> (length bs < fuel)%nat ->
  Backend.getTransactionsByTimeWindow fuel st en b = (r, b') ->
  r = window_blocks (LChain bs hidden t) st en /\ chain_rep (attached_regs iregs) oregs b' bs hidden /\ header b' = header b.
Proof.
  intros Hr Hst Hf. unfold window_blocks. destruct (Z.ltb_spec en st) as [Hlt|Hle].
  - unfold Backend.getTransactionsByTimeWindow. destruct (Z.ltb_spec en st); [|lia]. by intros [= <- <-].
  - destruct (window_query_chain _ oregs b bs hidden fuel st en Hr Hst Hle Hf) as (bns & j & Hw & Hr' & Hnd & Hs & Hin).
    rewrite Hw. intros [= <- <-]. split; [|done]. cbn. by rewrite (numbers_between_unique bs hidden st en bns Hnd Hs Hin).
Qed.

Lemma window_blocks_now d fuel st en r b b' bs hidden t : backend_at d b bs hidden -> in_u64 st -> (length bs < fuel)%nat ->
  Backend.getTransactionsByTimeWindow fuel st en b = (r, b') ->
  r = window_blocks (LChain bs hidden t) st en /\ backend_at d b' bs hidden /\ header b' = header b.
Proof.
  intros Hr Hst Hf. destruct d as [| | | |]; [by apply window_blocks_chain| |by apply window_blocks_chain..]. destruct Hr as (b0 & -> & Hr).
  rewrite (window_numbered _ oregs fuel st en b0 bs hidden Hr Hst Hf). destruct (Backend.getTransactionsByTimeWindow fuel st en b0) as [r0 b1] eqn:Hw.
  intros [= <- <-]. destruct (window_blocks_chain fuel st en r0 b0 b1 bs hidden t Hr Hst Hf Hw) as (-> & Hr1 & Hh1).
  split; [done|]. split; [by exists b1|]. cbn. by rewrite Hh1.
Qed.

Lemma window_now d fuel st en r fe b b' bs hidden : backend_at d b bs hidden -> in_u64 st -> (length bs < fuel)%nat ->
  Frontend.getTransactionsByTimeWindow (M:=M) fuel st en fe b = (r, b') ->
  r = window_at tx_getTimestamp (LChain bs hidden (lastBlockTimestamp (header b))) (mempool fe) st en /\
  backend_at d b' bs hidden /\ header b' = header b.
Proof.
  intros Hr Hst Hf. unfold Frontend.getTransactionsByTimeWindow. rewrite (prog_bind_Ret getS _ _ b b) by done. unfold mbind at 1, prog_bind at 1.
  destruct (Backend.getTransactionsByTimeWindow fuel st en b) as [r1 b1] eqn:Hw.
  destruct (window_blocks_now d fuel st en r1 b b1 bs hidden (lastBlockTimestamp (header b)) Hr Hst Hf Hw) as (-> & Hr' & Hh).
  unfold window_at. destruct (window_blocks _ st en) as [more| | |]; by intros [= <- <-].
Qed.

Lemma height_now d b bs hidden : backend_at d b bs hidden ->
  getBlockHeight b = lc_height (LChain bs hidden (lastBlockTimestamp (header b))) d.
Proof.
  unfold getBlockHeight, lc_height. destruct d; cbn; [|intros (b0 & -> & Hr)|..]; [intros Hr|cbn|intros Hr..]; rewrite (cr_height _ _ _ _ _ Hr); lia.
Qed.

Lemma counting_at bd bs hidden held d n : builder_at bd bs hidden held d -> counting bd <> Some n -> d = Counted -> n <> Z.of_nat (length bs).
Proof.
  unfold builder_at, counting. destruct bd as [ph|env dur tb [| | | | | |[]]]; intros H Hc ->;
    repeat match goal with H : _ \/ _ |- _ => destruct H | H : _ /\ _ |- _ => destruct H | H : exists _, _ |- _ => destruct H end; try done.
  congruence.
Qed.

Lemma not_counting bd bs hidden held d : builder_at bd bs hidden held d -> counting bd = None -> d <> Counted.
Proof.
  intros H Hc ->. pose proof (counting_at bd bs hidden held Counted (Z.of_nat (length bs)) H) as Hn. rewrite Hc in Hn. by destruct Hn.
Qed.

Context `{!MmapLaws M, !FileMappingLaws M, !TransactionCodec enc (cd_registerTransactionTypes design emptyTypeRegistry)}.
Context (Hdesign : registers design iregs oregs tregs) (Hfit : design_fits iregs oregs).
Context (Hdec : j_decodes (registerTypes emptyTypeRegistry tregs)).

Lemma reopen_backend b cat bs : backend_rep (attached_regs iregs) oregs b bs ->
  backend_rep (attached_regs iregs) oregs (reopen design b cat) bs.
Proof.
  intros [Hr Hl]. split; [|done]. apply reopen_chain; [done|by eapply openBackend_wiring|].
  cbn. by rewrite (reg_types _ _ _ _ Hdesign).
Qed.

(** A new data directory is the empty ledger. *)
Lemma first_start stored (j : J) (c : C) (t : T) : j_rep j [] -> BlockTimestampTracker.tracker_ok (BlockTimestampTracker.openTracker t) ->
  BlockTimestampTracker.entries (BlockTimestampTracker.openTracker t) = [] ->
  sys_rep (Stopped (openBackend config true stored j design c (BlockTimestampTracker.openTracker t)) None []) (Ledger (LChain [] [] 0) Resting [] [] [] false).
Proof.
  intros Hj Hok Ht. split; [constructor|]. exists [], []. split; [|done]. split; cbn; try done.
  - by eapply openBackend_wiring.
  - by rewrite (reg_types _ _ _ _ Hdesign).
  - by rewrite Ht.
Qed.

(** [sys_rep] of a running system after a query. *)
Lemma queried fe bd b b' file bs d hidden held saved :
  Z.of_nat (length (given bd)) <= U16_MAX -> block_sizes bs -> builder_at bd bs hidden held d ->
  (d = Counted -> 0 < Z.of_nat (length held) <= MAX_TX_PER_BLOCK) -> file_holds enc file saved ->
  backend_at d b' bs hidden /\ header b' = header b ->
  sys_rep (Running fe bd b' file bs) (Ledger (LChain bs hidden (lastBlockTimestamp (header b))) d (mempool fe) held saved true).
Proof. intros Hh Hsz Hbd Hc Hf [Hr E]. split; [done|]. split; [done|]. exists d, hidden, held, saved. by rewrite E. Qed.

Definition answered (e : event Tx) : Prop :=
  match e with
  | GotBlock _ _ | GotTransaction _ _ | GotWindow _ _ _ | WindowBegan _ _ | WindowPending _ _ _ | WindowBlocks _ _ _ | GotHeight _ | GotMempoolSize _ => True
  | _ => False
  end.

Lemma answer_simulated s e s' l : sys_rep s l -> sys_step s e s' -> answered e -> exists l', ledger_step tx_getTimestamp l e l' /\ sys_rep s' l'.
Proof.
  intros Hl Hs He. destruct Hs as [| | | |? ? ? ? st st' ? ? ? ? ? ? ? Hst| | |n r fe bd b b' file bs Hn Hc Hg|id r fe bd b b' file bs Hid Hc Hg|fuel st en r fe bd b b' file bs Hst Hf Hg
    |en fe bd b file bs|st en fe bd b file bs|fuel st en r fe bd b b' file bs Hst Hf Hg|fe bd b file bs|fe bd b file bs| | | ]; try done;
    [by destruct st, st'|..]; clear He; destruct Hl as (Hh & Hsz & d & hidden & held & saved & Hr & Hbd & Hsm & Hfile & ->).
  - apply (getBlock_now d b bs hidden) in Hg as [-> Hr']; [|done|done|by eapply counting_at].
    eexists. split; [apply lg_getBlock; intros Hd; by eapply counting_at|by apply queried].
  - rewrite Z.shiftr_div_pow2 in Hc by lia. change (2 ^ 20) with 1048576 in Hc.
    apply (getTransactionById_now d b bs hidden) in Hg as [-> Hr']; [|done|done|done|by eapply counting_at].
    eexists. split; [apply lg_getTransaction; intros Hd; by eapply counting_at|by apply queried].
  - apply (window_now d _ _ _ _ _ b _ bs hidden) in Hg as [-> Hr']; [|done..]. eexists. split; [apply lg_window|by apply queried].
  - eexists. split; [apply lg_window_began|by apply queried].
  - eexists. split; [apply lg_window_pending|by apply queried].
  - apply (window_blocks_now d _ _ _ _ b _ bs hidden (lastBlockTimestamp (header b))) in Hg as [-> Hr']; [|done..].
    eexists. split; [apply lg_window_blocks|by apply queried].
  - rewrite (height_now d b bs hidden Hr). eexists. split; [apply lg_height|by apply queried].
  - eexists. split; [apply lg_size|by apply queried].
Qed.

(** ** The stages of a commit *)

(** [sys_rep] inside a commit, from what its stage says. *)
Lemma inside_rep fe env dur toBuild st b file bs d hidden held saved :
  Z.of_nat (length toBuild) <= U16_MAX -> block_sizes bs -> file_holds enc file saved ->
  (d = Counted -> 0 < Z.of_nat (length held) <= MAX_TX_PER_BLOCK) ->
  backend_at d b bs hidden -> builder_at (Inside env dur toBuild st) bs hidden held d ->
  sys_rep (Running fe (Inside env dur toBuild st) b file bs)
    (Ledger (LChain bs hidden (lastBlockTimestamp (header b))) d (mempool fe) held saved true).
Proof. intros Hh Hsz Hf Hc Hr Hbd. split; [done|]. split; [done|]. by exists d, hidden, held, saved. Qed.

Lemma checked_size env toBuild dur b : Z.of_nat (length toBuild) <= U16_MAX -> commit_checks env toBuild dur b = Ret true ->
  0 < Z.of_nat (length toBuild) <= MAX_TX_PER_BLOCK.
Proof.
  intros Hh. unfold commit_checks. destruct (tooEarly _ _ _) as [[]| | |] eqn:He; try done. intros _.
  eapply tooEarly_size; [unfold U16_MAX in Hh; lia|exact He].
Qed.

Lemma checking_simulated env dur fe toBuild st' b b' file bs l : sys_rep (Running fe (Inside env dur toBuild Checking) b file bs) l ->
  commit_step env toBuild dur (Checking, b) = (st', b') ->
  exists l', ledger_step tx_getTimestamp l (stage_event (e_millis env) Checking st') l' /\ sys_rep (Running fe (Inside env dur toBuild st') b' file bs) l'.
Proof.
  intros (Hh & Hsz & d & hidden & held & saved & Hr & [-> ->] & Hsm & Hfile & ->). cbn [given] in Hh. cbn [commit_step].
  destruct (commit_checks env toBuild dur b) as [ok|e|u|] eqn:Hc; cbn [next].
  2-4: intros [= <- <-]; eexists; (split; [apply lg_silent|]); apply inside_rep; try done; by left.
  destruct ok; intros [= <- <-].
  - apply checked_size in Hc; [|done]. eexists. split; [by apply lg_count|].
    apply (inside_rep fe env dur toBuild _ (numbered b) file bs Counted hidden); try done; [by exists b|].
    split; [done|]. split; [done|]. exact (cr_height _ _ _ _ _ Hr).
  - eexists. split; [apply lg_silent|]. apply inside_rep; try done. by left.
Qed.

Lemma numbered_simulated env dur fe toBuild bn st' b b' file bs l : sys_rep (Running fe (Inside env dur toBuild (Numbered bn)) b file bs) l ->
  j_fits (journal b) bs (e_millis env, toBuild) -> commit_step env toBuild dur (Numbered bn, b) = (st', b') ->
  exists l', ledger_step tx_getTimestamp l (stage_event (e_millis env) (Numbered bn) st') l' /\
    sys_rep (Running fe (Inside env dur toBuild st') b' file (bs ++ [(e_millis env, toBuild)])) l'.
Proof.
  intros (Hh & Hsz & d & hidden & held & saved & Hr & (-> & -> & ->) & Hsm & Hfile & ->) Hfits. cbn [given] in Hh. cbn [commit_step].
  destruct Hr as (b0 & -> & Hr). change (journal (numbered b0)) with (journal b0) in *.
  destruct (j_append_law (journal b0) bs (e_millis env, toBuild) (cr_journal _ _ _ _ _ Hr) Hfits) as (j & Ha & Hj). cbn [fst snd] in Ha.
  rewrite Ha. cbn [next]. intros [= <- <-]. eexists. split; [apply lg_append|]. specialize (Hsm eq_refl).
  apply (inside_rep fe env dur toBuild _ (set_journal (numbered b0) j) file _ (Appending (e_millis env)) (length bs :: hidden)); try done.
  - apply Forall_app. split; [done|]. by constructor.
  - by apply journalled_rep.
  - split; [done|]. split; [done|]. exists bs, hidden. split; [done|]. split; [done|]. split; [done|]. apply Hr.
Qed.

Lemma journalled_simulated env dur fe toBuild bn b file bs l : sys_rep (Running fe (Inside env dur toBuild (Journalled bn)) b file bs) l ->
  exists l', ledger_step tx_getTimestamp l TimeMoved l' /\
    sys_rep (Running fe (Inside env dur toBuild (Stamped bn))
      (set_header b {| lastBlockTimestamp := e_millis env; currentBlockHeight := currentBlockHeight (header b) |}) file bs) l'.
Proof.
  intros (Hh & Hsz & d & hidden & held & saved & Hr & (-> & -> & Hlast) & Hsm & Hfile & ->). eexists. split; [apply lg_move|].
  apply (inside_rep fe env dur toBuild (Stamped bn) (set_header b {| lastBlockTimestamp := e_millis env; currentBlockHeight := currentBlockHeight (header b) |})
    file bs (Timing (e_millis env)) hidden); try done. destruct Hr. by split.
Qed.

Lemma stamped_simulated env dur fe toBuild bn b file bs l : sys_rep (Running fe (Inside env dur toBuild (Stamped bn)) b file bs) l ->
  in_u64 (e_millis env) -> Z.of_nat (length bs) < U64_MAX ->
  exists l', ledger_step tx_getTimestamp l BlockIndexed l' /\
    sys_rep (Running fe (Inside env dur toBuild (Indexed bn))
      (set_tracker b (BlockTimestampTracker.addBlock (timestampTracker b) (e_millis env) bn)) file bs) l'.
Proof.
  intros (Hh & Hsz & d & hidden & held & saved & Hr & (-> & -> & bs0 & hidden0 & -> & -> & -> & Hh0) & Hsm & Hfile & ->) Hms Hlen.
  rewrite length_app in Hlen. cbn in Hlen. eexists. split; [apply lg_index|].
  apply (inside_rep fe env dur toBuild _ (set_tracker b (BlockTimestampTracker.addBlock (timestampTracker b) (e_millis env) (Z.of_nat (length bs0))))
    file _ (Indexing (e_millis env)) hidden0); try done.
  - apply indexed_rep; try done. lia.
  - cbn [builder_at]. rewrite length_app. cbn. split; [done|]. split; [done|]. lia.
Qed.

(** From the timestamp index on the chain stays as it is. *)
Lemma indexed_simulated env dur fe toBuild st st' b b' file bs l : sys_rep (Running fe (Inside env dur toBuild st) b file bs) l ->
  match st with Indexed _ | Sealing _ _ _ | Returned _ => True | _ => False end -> commit_step env toBuild dur (st, b) = (st', b') ->
  sys_rep (Running fe (Inside env dur toBuild st') b' file bs) l /\ stage_event (e_millis env) st st' = Silent.
Proof.
  intros (Hh & Hsz & d & hidden & held & saved & Hr & Hbd & Hsm & Hfile & ->) Hst Hstep. cbn [given] in Hh. split; [|by destruct st].
  assert (forall c, chain_rep (attached_regs iregs) oregs b bs hidden -> chain_rep (attached_regs iregs) oregs (set_catalog b c) bs hidden) as Hc by (intros; by apply set_catalog_chain).
  destruct st as [| | | |bn|bn s i|r]; try done; cbn [commit_step] in Hstep.
  - destruct Hbd as (-> & -> & Hbn). destruct (newStateOverride b) as [s0|e|u|]; cbn [next] in Hstep; injection Hstep as <- <-; apply inside_rep; try done; right; by exists bn.
  - destruct Hbd as (-> & -> & Hbn). destruct (_ <? _)%nat.
    + unfold on_catalog in Hstep. destruct (seal_one _ _ _ _ _ _) as [[[]|e|u|] c]; cbn [next] in Hstep; injection Hstep as <- <-;
        apply (inside_rep fe env dur toBuild _ (set_catalog b c)); try done; try (by apply Hc); right; by exists bn.
    + destruct (logThroughput _ dur); cbn [next] in Hstep; injection Hstep as <- <-; [|apply inside_rep; try done; right; by exists bn..].
      apply (inside_rep fe env dur toBuild _ (set_lastBlockTime b dur)); try done; [destruct Hr; by split|by right].
  - injection Hstep as <- <-. by apply inside_rep.
Qed.

Lemma stage_simulated env dur fe toBuild st st' b b' file bs l : sys_rep (Running fe (Inside env dur toBuild st) b file bs) l ->
  in_u64 (e_millis env) -> Z.of_nat (length bs) < U64_MAX -> (forall bn, st = Numbered bn -> j_fits (journal b) bs (e_millis env, toBuild)) ->
  commit_step env toBuild dur (st, b) = (st', b') ->
  exists l', ledger_step tx_getTimestamp l (stage_event (e_millis env) st st') l' /\
    sys_rep (Running fe (Inside env dur toBuild st') b' file (stage_blocks (e_millis env, toBuild) st bs)) l'.
Proof.
  intros Hl Hms Hlen Hfits Hstep. destruct st as [|bn|bn|bn|bn|bn s i|r]; cbn [stage_blocks].
  - by eapply checking_simulated.
  - eapply numbered_simulated; [done|by eapply Hfits|done].
  - cbn in Hstep. injection Hstep as <- <-. by apply journalled_simulated.
  - cbn in Hstep. injection Hstep as <- <-. by apply stamped_simulated.
  - destruct (indexed_simulated env dur fe toBuild _ st' b b' file bs l Hl I Hstep) as [Hl' ->]; exists l; split; [apply lg_silent|done].
  - destruct (indexed_simulated env dur fe toBuild _ st' b b' file bs l Hl I Hstep) as [Hl' ->]; exists l; split; [apply lg_silent|done].
  - destruct (indexed_simulated env dur fe toBuild _ st' b b' file bs l Hl I Hstep) as [Hl' ->]; exists l; split; [apply lg_silent|done].
Qed.

(** The result of the call. *)
Lemma done_simulated env dur fe toBuild n b file bs l : sys_rep (Running fe (Inside env dur toBuild (Returned (Ret n))) b file bs) l ->
  exists l', ledger_step tx_getTimestamp l (Committed (e_millis env) n) l' /\ sys_rep (Running fe (Between (Finishing toBuild n)) b file bs) l'.
Proof.
  intros (Hh & Hsz & d & hidden & held & saved & Hr & Hbd & Hsm & Hfile & ->). destruct Hbd as [(-> & -> & ->)|(-> & -> & -> & Hpos)]; eexists.
  - split; [apply lg_reject|]. split; [exact Hh|]. split; [done|]. by eexists Resting, hidden, toBuild, saved.
  - split; [apply lg_done|]. assert (in_hand (Finishing toBuild (Z.of_nat (length bs) - 1)) = []) as Hnil.
    { cbn. by destruct (Z.eqb_spec (Z.of_nat (length bs) - 1) (-1)); [lia|]. }
    split; [cbn [given]; rewrite Hnil; done|]. split; [done|]. exists Resting, hidden, [], saved. cbn [builder_at]. by rewrite Hnil.
Qed.

(** The steps of the builder thread between two calls. *)
Lemma builder_simulated s e s' l : sys_rep s l -> sys_step s e s' -> match e with Built _ | Committed _ _ | Finished => True | _ => False end ->
  exists l', ledger_step tx_getTimestamp l e l' /\ sys_rep s' l'.
Proof.
  intros Hl Hs He. destruct Hs as [|fuel now millis w fe fe' toBuild b file file' bs Hf Hb|env fe toBuild b b' n file bs Hfits Hms Hlen Ha| |
    ? ? ? ? st st' ? ? ? ? ? ? ? Hst|env dur fe toBuild n b file bs|w fe fe' toBuild b n file file' bs Hfin| | | | | | | | | | | ]; try done;
    [| |by destruct st, st'|by eapply done_simulated|]; clear He; destruct Hl as (Hh & Hsz & d & hidden & held & saved & Hr & [-> ->] & Hsm & Hfile & ->).
  - unfold io_build in Hb. apply outcome_bind_Ret_inv in Hb as ([tb fe1] & Hb & [= -> -> ->]). cbn [fst] in Hb.
    destruct (build_section_spec _ _ _ _ _ _ _ _ _ Hf Hb) as (Hp & Hsub & _ & Hlen). pose proof (u16_range (targetThroughput config)).
    eexists. split; [by apply lg_build|].
    assert (in_hand match toBuild with [] => Idle | _ => Building toBuild end = toBuild) as Hin by (by destruct toBuild).
    split; [cbn [given]; rewrite Hin; word_unfold; lia|]. split; [done|]. exists Resting, hidden, toBuild, saved. cbn [builder_at]. by rewrite Hin.
  - cbn in Hh. assert (Z.of_nat (length toBuild) < 4294967296) as Hlt by (unfold U16_MAX in Hh; lia).
    destruct (addBlock_chain env (attached_regs iregs) toBuild b bs hidden n b' Hr Hfits Hms Hlen Hlt Ha) as [[-> ->]|(-> & Hn & Hr' & Hts & _)].
    + eexists. split; [apply lg_reject|]. split; [done|]. split; [done|]. by eexists Resting, hidden, toBuild, saved.
    + cbn [in_hand]. destruct (Z.eqb_spec (Z.of_nat (length bs)) (-1)) as [|Hne]; [lia|].
      assert (in_hand (Finishing toBuild (Z.of_nat (length bs))) = []) as Hnil by (cbn; by destruct (Z.eqb_spec (Z.of_nat (length bs)) (-1)); [lia|]).
      eexists. split; [by apply lg_commit|]. split; [cbn [given]; rewrite Hnil; cbn; unfold U16_MAX; lia|].
      split; [apply Forall_app; split; [done|by constructor]|]. exists Resting, hidden, [], saved. cbn [builder_at]. rewrite Hnil, Hts. done.
  - apply outcome_bind_Ret_inv in Hfin as (fe1 & Hfin & [= -> ->]). apply finish_section_mempool in Hfin. cbn [fst] in Hfin.
    eexists. split; [apply lg_finish|]. split; [cbn; unfold U16_MAX; lia|]. split; [done|]. exists Resting, hidden, [], saved. cbn. by rewrite Hfin.
Qed.

Lemma sys_step_simulated s e s' l : sys_rep s l -> sys_step s e s' -> exists l', ledger_step tx_getTimestamp l e l' /\ sys_rep s' l'.
Proof.
  intros Hl Hs. pose proof Hs as Hs0. destruct Hs as [w tx fe bd b file bs fe' file' Hio| | |env fe toBuild b file bs|
    env dur fe toBuild st st' b b' file bs Hms Hlen Hfits Hst| | | | | | | | | | |
    os fe fe' b file file' bs Ho Ht Hm Hmax Hio|fe bd b file bs Hnc|w cat fe b file bs Hopen];
    try (by eapply answer_simulated); try (by eapply builder_simulated); [| |by eapply stage_simulated|..];
    [destruct Hl as (Hh & Hsz & d & hidden & held & saved & Hr & Hbd & Hsm & Hfile & ->)..|destruct Hl as (Hsz & hidden & saved & Hr & Hfile & ->)].
  - injection Hio as <- <-. eexists. split; [apply lg_send|]. split; [done|]. split; [done|]. by exists d, hidden, held, saved.
  - destruct Hbd as [-> ->]. eexists. split; [apply lg_silent|]. by apply inside_rep.
  - injection Hio as <- <-. destruct Hbd as [-> ->]. eexists. split; [apply lg_close|]. split; [done|]. exists hidden, (mempool fe). split; [exact Hr|].
    split; [by apply (saved_holds design)|done].
  - pose proof (not_counting _ _ _ _ _ Hbd Hnc) as Hd. eexists. split; [by apply lg_kill|]. split; [done|]. exists hidden, saved. split; [by destruct d|done].
  - eexists. split; [apply lg_open|]. split; [cbn; unfold U16_MAX; lia|]. split; [done|]. exists Resting, hidden, [], saved.
    split; [|split; [done|split; [done|split; [done|]]]].
    + apply reopen_chain; [done|by eapply openBackend_wiring|]. cbn. by rewrite (reg_types _ _ _ _ Hdesign).
    + by rewrite (open_holds design enc _ _ _ _ _ _ Hfile Hopen).
Qed.

(** mempool.bin is written by the destructor only. *)
Definition file_of (s : sys) : option (list Z) := match s with Running _ _ _ file _ => file | Stopped _ file _ => file end.

Lemma sys_step_file s e s' : sys_step s e s' -> e <> Closed -> file_of s' = file_of s.
Proof.
  destruct 1 as [w tx fe bd b file bs fe' file' Hio|fuel now millis w fe fe' toBuild b file file' bs Hf Hb| | | | |
    w fe fe' toBuild b n file file' bs Hfin| | | | | | | | | | | ]; intros Hne; try done.
  - by injection Hio as <- <-.
  - apply outcome_bind_Ret_inv in Hb as ([tb fe1] & _ & [= -> -> ->]). done.
  - by apply outcome_bind_Ret_inv in Hfin as (fe1 & _ & [= -> ->]).
Qed.

Lemma sys_run_file s es s' : run sys_step s es s' -> Closed ∉ es -> file_of s' = file_of s.
Proof.
  induction 1 as [|s1 e s2 es s3 Hs _ IH]; [done|]. intros [Hne Hin]%not_elem_of_cons. rewrite IH by done. by eapply sys_step_file.
Qed.
End System.

Section Theorems.
Context {Tx W F Ix M J C T : Type}.
Context `{!MmapHandle M, !FileMapping M, !MmapLaws M, !FileMappingLaws M}.
Context `{!IndexOverrideFamily F W Ix, !BlockchainIndex Ix, !Transaction Tx W (StateOverride F) M}.
Context `{!Journal J M Tx, !JournalLaws J M Tx, !SegmentSink C}.
Context `{!BTree BlockTimestampTracker.block_timestamp_entry_t T, !BTreeLaws BlockTimestampTracker.compare}.
Context (design : ChainDesign Tx F Ix M) (config : BlockchainConfig) (enc : Tx -> list Z).
Context `{!TransactionCodec enc (cd_registerTransactionTypes design emptyTypeRegistry)}.
Context (iregs : list (TypeKey * Ix)) (oregs : list (TypeKey * F)) (tregs : list (Z * FactoryFunc M Tx)).
Context (apply_layout : forall ks (w : W) s tx, has_layout ks s -> has_layout ks (applied (M:=M) w s tx)).
Implicit Types (s : sys (Tx:=Tx) (W:=W) (F:=F) (Ix:=Ix) (M:=M) (J:=J) (C:=C) (T:=T)).

(** C2: the library refines the ledger.  Whatever the application and the builder thread do, over
    any number of runs, with [addBlock] as a whole or stage by stage, sends and queries between
    its stages, and runs that are closed or that end anywhere, between two calls or inside a
    commit (killed, or because [addBlock] threw in its thread) but for the stage between the
    height and the append, there is a run of the abstract ledger with the same events and the
    same answers: blocks by number, transactions by id, time windows, as a whole and section by
    section, heights, the mempool, the fate of every block that is offered.  Left out is a query
    for the number that is being committed while its block is not there.  An id whose block
    does not exist is answered with the exception of [getBlock]; docs/transactions.md promises a
    null pointer. *)
Theorem ledger_refinement s es s' l :
  registers design iregs oregs tregs -> design_fits iregs oregs -> j_decodes (registerTypes emptyTypeRegistry tregs) ->
  sys_rep enc iregs oregs s l -> run (sys_step (W:=W) design config enc) s es s' ->
  exists l', run (ledger_step tx_getTimestamp) l es l' /\ sys_rep enc iregs oregs s' l'.
Proof.
  intros Hd Hfit Hdec Hr. apply run_simulation; [|done]. intros s1 e s1' l1 H1 H2.
  exact (sys_step_simulated design config enc iregs oregs tregs apply_layout Hd Hfit Hdec s1 e s1' l1 H1 H2).
Qed.

(** C10: what the application was once told stays true, in the runs of [sys_step]: queries may fall
    between the stages of a commit, other than a query for its number before its block is there,
    and a run may end anywhere but there.  A block that was read, by number or through a
    transaction of it, reads the same at every later moment, in later runs too, also after runs
    that ended inside a commit; and as long as no run is killed every transaction sent is
    pending or in exactly one block, none of them twice. *)
Theorem answers_are_final s es s' l :
  registers design iregs oregs tregs -> design_fits iregs oregs -> j_decodes (registerTypes emptyTypeRegistry tregs) ->
  sys_rep enc iregs oregs s l -> run (sys_step (W:=W) design config enc) s es s' ->
  exists l', sys_rep enc iregs oregs s' l' /\ (Killed ∉ es -> ledger_txs l ++ sent_in es ≡ₚ ledger_txs l') /\
    (forall es1 es2 es3 n txs r, es = es1 ++ GotBlock n (Ret txs) :: es2 ++ GotBlock n r :: es3 -> r = Ret txs) /\
    (forall es1 es2 es3 id tx r, es = es1 ++ GotTransaction id (Ret (Some tx)) :: es2 ++ GotTransaction id r :: es3 -> r = Ret (Some tx)).
Proof.
  intros Hd Hfit Hdec Hr Hrun.
  destruct (run_simulation _ _ _ (sys_step_simulated design config enc iregs oregs tregs apply_layout Hd Hfit Hdec) s es s' l Hr Hrun)
    as (l' & Hl & Hr'). exists l'. split; [done|]. split; [apply (ledger_run_facts _ _ _ _ Hl)|].
  split; intros es1 es2 es3 n x r ->; [exact (stable_block _ _ _ _ _ _ _ _ _ Hl)|exact (stable_transaction _ _ _ _ _ _ _ _ _ Hl)].
Qed.

(** C33: a run that ends other than by its destructor, wherever that is, leaves mempool.bin
    untouched, whatever was sent, built, committed and put back in it, so the next run starts
    with the mempool the lost one had started with.  Its blocks stay, that of a commit it was
    cut in included once it was appended: transactions it committed are pending again, to be
    committed a second time, and what was sent to it and not committed is lost; the mempool and
    its blocks together are what was pending and sent exactly when it had committed just the
    transactions sent to it. *)
Theorem killed_run b file bs txs es fe bd b' file' bs' :
  registers design iregs oregs tregs -> design_fits iregs oregs -> j_decodes (registerTypes emptyTypeRegistry tregs) ->
  (exists ch, sys_rep (W:=W) enc iregs oregs (Stopped b file bs) (Ledger ch Resting txs [] txs false)) ->
  Closed ∉ es -> Killed ∉ es ->
  run (sys_step (W:=W) design config enc) (Stopped b file bs) (Opened :: es ++ [Killed; Opened]) (Running fe bd b' file' bs') ->
  file' = file /\ mempool fe = txs /\
  exists tail pending, bs' = bs ++ tail /\ txs ++ sent_in es ≡ₚ pending ++ all_txs tail /\
    (mempool fe ++ all_txs tail ≡ₚ txs ++ sent_in es <-> all_txs tail ≡ₚ sent_in es).
Proof.
  intros Hd Hfit Hdec [ch Hr] Hc Hk Hrun.
  destruct (run_simulation _ _ _ (sys_step_simulated design config enc iregs oregs tregs apply_layout Hd Hfit Hdec) _ _ _ _ Hr Hrun)
    as (l' & Hl & Hr'). split.
  - apply (sys_run_file design config enc _ _ _ Hrun). rewrite not_elem_of_cons, not_elem_of_app, !not_elem_of_cons.
    split; [done|]. split; [done|]. split; [done|]. split; [done|apply not_elem_of_nil].
  - apply (killed_ledger _ _ _ _ _ Hc Hk) in Hl as (Hpool & tail & pending & Hb & Hp).
    destruct Hr as (_ & hidden & saved & _ & _ & [= -> ->]). destruct Hr' as (_ & _ & d & hidden2 & held & saved2 & _ & _ & _ & _ & ->).
    cbn in Hpool, Hb. split; [done|]. exists tail, pending. split; [done|]. split; [done|]. rewrite Hpool. split; [apply Permutation_app_inv_l|by intros ->].
Qed.
End Theorems.

(** ** A commit, a restart and three queries on the test design *)

#[local] Existing Instance BlockTimestampTracker.tracker_BTree.
#[local] Existing Instance BlockTimestampTracker.tracker_BTreeLaws.
#[local] Existing Instance tb_Journal.
#[local] Existing Instance tb_JournalLaws.
#[local] Existing Instance tb_Index.
#[local] Existing Instance tb_Sink.
#[local] Existing Instance tb_FileMapping.
#[local] Existing Instance tb_FileMappingLaws.

Definition lr_time : Z := 1700000600000.
Definition lr_rest : list TestTransaction := [mkTestTransaction 7 (-9) 0].
Definition lr_b1 : tb_backend (list entry_args) := (addBlock (M:=bytemap) (tb_env lr_time) tb_built tb1).2.
Definition lr_b2 : tb_backend (list entry_args) := (getBlock 1 lr_b1).2.
Definition lr_b3 : tb_backend (list entry_args) := reopen (testDesign 0) lr_b2 [].
Definition lr_b4 : tb_backend (list entry_args) := (getBlock 1 lr_b3).2.
Definition lr_b5 : tb_backend (list entry_args) := (getTransactionById (Tx:=TestTransaction) 1048577 lr_b4).2.
Definition lr_fe : Frontend TestTransaction TestSumOverrideFamily := {| fe_state := tb_after lr_rest; mempool := lr_rest |}.
Definition lr_file : option (list Z) := saveMempoolFile (M:=bytemap) all_well None lr_fe.
Definition lr_blocks : list (Z * list TestTransaction) := tb_blocks ++ [(lr_time, tb_built)].

Definition lr_events : list (event TestTransaction) :=
  [Built tb_built; Committed lr_time 1; Finished; GotBlock 1 (Ret tb_built); Closed; Opened;
   GotBlock 1 (Ret tb_built); GotTransaction 1048577 (Ret (Some (mkTestTransaction 5 1 1)))].

Abbreviation lr_sys := (sys (Tx:=TestTransaction) (W:=TestWorld) (F:=TestSumOverrideFamily) (Ix:=TestSumIndex) (M:=bytemap)
  (J:=gmap string bytemap) (C:=list entry_args) (T:=list BlockTimestampTracker.block_timestamp_entry_t)).
Definition lr_start : lr_sys := Running tb_fe (Between Idle) tb1 None tb_blocks.
Definition lr_end : lr_sys := Running lr_fe (Between Idle) lr_b5 lr_file lr_blocks.

Lemma lr_built_fits : j_fits (journal tb1) tb_blocks (lr_time, tb_built).
Proof. apply tb1_fits. cbn. lia. Qed.

Abbreviation lr_step := (sys_step (W:=TestWorld) (testDesign 0) tb_config tt_enc).

Lemma lr_build_step b file bs : newStateOverride (W:=TestWorld) b = newStateOverride (W:=TestWorld) tb1 ->
  lr_step (Running tb_fe (Between Idle) b file bs) (Built tb_built) (Running tb_fe1 (Between (Building tb_built)) b file bs).
Proof.
  intros Hs. refine (sys_build (testDesign 0) tb_config tt_enc 9 (fun _ => 0) 1700000000000 tb_world tb_fe tb_fe1 tb_built b file file bs ltac:(cbn; lia) _).
  pose proof tb_build as H. unfold io_build, build_section in *. rewrite Hs. cbn [fst snd]. by rewrite H.
Qed.

Lemma lr_commit_step : lr_step (Running tb_fe1 (Between (Building tb_built)) tb1 None tb_blocks) (Committed lr_time 1)
  (Running tb_fe1 (Between (Finishing tb_built 1)) lr_b1 None lr_blocks).
Proof.
  refine (sys_addBlock (testDesign 0) tb_config tt_enc (tb_env lr_time) tb_fe1 tb_built tb1 lr_b1 1 None tb_blocks lr_built_fits ltac:(by_compute) ltac:(by_compute) _).
  apply pair_fst; vm_compute; reflexivity.
Qed.

Lemma lr_run : run lr_step lr_start lr_events lr_end.
Proof.
  eapply run_cons; [exact (lr_build_step tb1 None tb_blocks eq_refl)|].
  eapply run_cons; [exact lr_commit_step|].
  eapply run_cons; [refine (sys_finish (testDesign 0) tb_config tt_enc tb_world tb_fe1 lr_fe tb_built lr_b1 1 None None lr_blocks _); vm_compute; reflexivity|].
  eapply run_cons; [refine (sys_getBlock (testDesign 0) tb_config tt_enc 1 (Ret tb_built) lr_fe (Between Idle) lr_b1 lr_b2 None lr_blocks ltac:(lia) ltac:(done) _); apply pair_fst; vm_compute; reflexivity|].
  eapply run_cons; [exact (sys_close (testDesign 0) tb_config tt_enc all_well lr_fe lr_fe lr_b2 None lr_file lr_blocks eq_refl eq_refl eq_refl ltac:(by_compute) eq_refl)|].
  eapply run_cons; [refine (sys_open (testDesign 0) tb_config tt_enc tb_world [] lr_fe lr_b2 lr_file lr_blocks _); vm_compute; reflexivity|].
  eapply run_cons; [refine (sys_getBlock (testDesign 0) tb_config tt_enc 1 (Ret tb_built) lr_fe (Between Idle) lr_b3 lr_b4 lr_file lr_blocks ltac:(lia) ltac:(done) _); apply pair_fst; vm_compute; reflexivity|].
  eapply run_cons; [|apply run_nil].
  refine (sys_getTransactionById (testDesign 0) tb_config tt_enc 1048577 _ lr_fe (Between Idle) lr_b4 lr_b5 lr_file lr_blocks ltac:(lia) ltac:(done) _); apply pair_fst; vm_compute; reflexivity.
Qed.

Definition lr_ledger : ledger TestTransaction := Ledger (LChain tb_blocks [] 1700000000000) Resting tb_pool [] [] true.

Lemma lr_time1 : lastBlockTimestamp (header tb1) = 1700000000000.
Proof. exact (br_last _ _ _ _ tb1_rep). Qed.

Lemma lr_sizes : block_sizes tb_blocks.
Proof. by repeat constructor. Qed.

Lemma lr_start_rep : sys_rep tt_enc tb_design_indexes tb_oregs lr_start lr_ledger.
Proof.
  split; [done|]. split; [exact lr_sizes|]. exists Resting, [], [], []. rewrite lr_time1.
  split; [exact (br_chain _ _ _ _ tb1_rep)|done].
Qed.

Lemma ledger_refinement_witness :
  exists l', run (ledger_step tx_getTimestamp) lr_ledger lr_events l' /\ sys_rep tt_enc tb_design_indexes tb_oregs lr_end l'.
Proof.
  apply (ledger_refinement (M:=bytemap) (testDesign 0) tb_config tt_enc tb_design_indexes tb_oregs _ tb_apply_layout lr_start lr_events lr_end
    lr_ledger (testDesign_registers 0) tb_design_fits tb_decodes lr_start_rep lr_run).
Defined.

Lemma answers_are_final_witness :
  exists l', sys_rep tt_enc tb_design_indexes tb_oregs lr_end l' /\
    (Killed ∉ lr_events -> ledger_txs lr_ledger ++ sent_in lr_events ≡ₚ ledger_txs l') /\
    (forall es1 es2 es3 n txs r, lr_events = es1 ++ GotBlock n (Ret txs) :: es2 ++ GotBlock n r :: es3 -> r = Ret txs) /\
    (forall es1 es2 es3 id tx r, lr_events = es1 ++ GotTransaction id (Ret (Some tx)) :: es2 ++ GotTransaction id r :: es3 -> r = Ret (Some tx)).
Proof.
  apply (answers_are_final (M:=bytemap) (testDesign 0) tb_config tt_enc tb_design_indexes tb_oregs _ tb_apply_layout lr_start lr_events lr_end
    lr_ledger (testDesign_registers 0) tb_design_fits tb_decodes lr_start_rep lr_run).
Defined.

(** ** A run that ends inside a commit

    The block is in the journal, and the program is gone before its time is in the header.  A
    transaction was sent and the first block read while the block was being committed. *)

Definition lr_env : commit_env TestWorld := tb_env lr_time.
Definition lr_open : tb_backend (list entry_args) := reopen (testDesign 0) tb1 [].
Definition lr_numbered : tb_backend (list entry_args) := numbered lr_open.
Definition lr_read : tb_backend (list entry_args) := (getBlock 0 lr_numbered).2.
Definition lr_cut : tb_backend (list entry_args) := (commit_step lr_env tb_built (duration_of lr_env lr_open) (Numbered 1, lr_read)).2.
Definition lr_late : Frontend TestTransaction TestSumOverrideFamily := sendTransaction (M:=bytemap) tb_world sample_tx tb_fe1.
Definition lr_cut_during : list (event TestTransaction) :=
  [Built tb_built; Silent; BlockCounted; GotBlock 0 (Ret tb_txs); Sent sample_tx; BlockAppended lr_time].
Definition lr_inside (st : stage TestSumOverrideFamily) : builder := Inside lr_env (duration_of lr_env lr_open) tb_built st.

Lemma lr_cut_stage : commit_step lr_env tb_built (duration_of lr_env lr_open) (Numbered 1, lr_read) = (Journalled 1, lr_cut).
Proof. apply (pair_fst (commit_step lr_env tb_built (duration_of lr_env lr_open) (Numbered 1, lr_read))). vm_compute. reflexivity. Qed.

Lemma lr_count_stage : commit_step lr_env tb_built (duration_of lr_env lr_open) (Checking, lr_open) = (Numbered 1, lr_numbered).
Proof. apply (checks_step lr_env tb_built (duration_of lr_env lr_open) lr_open true). vm_compute. reflexivity. Qed.

Lemma lr_read_fits : j_fits (journal lr_read) tb_blocks (lr_time, tb_built).
Proof. replace (journal lr_read) with (journal tb1) by (vm_compute; reflexivity). exact lr_built_fits. Qed.

Lemma lr_cut_run : run lr_step (Stopped tb1 (Some lt_file) tb_blocks) (Opened :: lr_cut_during ++ [Killed; Opened])
  (Running tb_fe (Between Idle) (reopen (testDesign 0) lr_cut []) (Some lt_file) lr_blocks).
Proof.
  eapply run_cons; [exact (sys_open (testDesign 0) tb_config tt_enc tb_world [] tb_fe tb1 (Some lt_file) tb_blocks lt_open)|].
  eapply run_cons; [exact (lr_build_step lr_open (Some lt_file) tb_blocks eq_refl)|].
  eapply run_cons; [exact (sys_begin (testDesign 0) tb_config tt_enc lr_env tb_fe1 tb_built lr_open (Some lt_file) tb_blocks)|].
  eapply run_cons; [exact (sys_stage (testDesign 0) tb_config tt_enc lr_env _ tb_fe1 tb_built Checking (Numbered 1) lr_open lr_numbered (Some lt_file) tb_blocks
    ltac:(by_compute) ltac:(by_compute) ltac:(done) lr_count_stage)|].
  eapply run_cons; [refine (sys_getBlock (testDesign 0) tb_config tt_enc 0 (Ret tb_txs) tb_fe1 (lr_inside (Numbered 1)) lr_numbered lr_read (Some lt_file) tb_blocks
    ltac:(lia) ltac:(done) _); apply pair_fst; vm_compute; reflexivity|].
  eapply run_cons; [exact (sys_send (testDesign 0) tb_config tt_enc tb_world sample_tx tb_fe1 (lr_inside (Numbered 1)) lr_read (Some lt_file) tb_blocks lr_late (Some lt_file) eq_refl)|].
  eapply run_cons; [exact (sys_stage (testDesign 0) tb_config tt_enc lr_env _ lr_late tb_built (Numbered 1) (Journalled 1) lr_read lr_cut (Some lt_file) tb_blocks
    ltac:(by_compute) ltac:(by_compute) (fun _ _ => lr_read_fits) lr_cut_stage)|].
  eapply run_cons; [exact (sys_kill (testDesign 0) tb_config tt_enc lr_late (lr_inside (Journalled 1)) lr_cut (Some lt_file) lr_blocks eq_refl)|].
  eapply run_cons; [|apply run_nil].
  refine (sys_open (testDesign 0) tb_config tt_enc tb_world [] tb_fe lr_cut (Some lt_file) lr_blocks _). vm_compute. reflexivity.
Qed.

(** The two transactions of the block are pending again, and the one sent meanwhile is lost. *)
Lemma killed_run_witness : Some lt_file = Some lt_file /\ mempool tb_fe = tb_pool /\
  exists tail pending, lr_blocks = tb_blocks ++ tail /\ tb_pool ++ [sample_tx] ≡ₚ pending ++ all_txs tail /\
    (mempool tb_fe ++ all_txs tail ≡ₚ tb_pool ++ [sample_tx] <-> all_txs tail ≡ₚ [sample_tx]).
Proof.
  apply (killed_run (M:=bytemap) (testDesign 0) tb_config tt_enc tb_design_indexes tb_oregs _ tb_apply_layout tb1 (Some lt_file) tb_blocks tb_pool
    lr_cut_during tb_fe (Between Idle) (reopen (testDesign 0) lr_cut []) (Some lt_file) lr_blocks
    (testDesign_registers 0) tb_design_fits tb_decodes).
  - exists (LChain tb_blocks [] 1700000000000). split; [exact lr_sizes|]. exists [], tb_pool. rewrite lr_time1.
    split; [exact (br_chain _ _ _ _ tb1_rep)|]. split; [exact lt_holds|done].
  - unfold lr_cut_during. rewrite !not_elem_of_cons. do 6 (split; [done|]). apply not_elem_of_nil.
  - unfold lr_cut_during. rewrite !not_elem_of_cons. do 6 (split; [done|]). apply not_elem_of_nil.
  - exact lr_cut_run.
Defined.

(** ** A window query around a commit

    The sections of one query, with a commit between the one that reads the pool and the one
    that reads the blocks: both transactions of the block are listed twice.  With the query
    while the builder thread holds them, they are not listed at all. *)

Definition lr_all_time : Z := 1800000000000.
Definition lr_window : tb_backend (list entry_args) := (Backend.getTransactionsByTimeWindow (Tx:=TestTransaction) 9 0 lr_all_time lr_b1).2.
Definition lr_window1 : tb_backend (list entry_args) := (Frontend.getTransactionsByTimeWindow (M:=bytemap) 9 0 lr_all_time tb_fe1 tb1).2.

Example window_twice :
  run lr_step lr_start [WindowBegan lr_all_time true; WindowPending 0 lr_all_time tb_pool; Built tb_built; Committed lr_time 1;
    WindowBlocks 0 lr_all_time (Ret (tb_txs ++ tb_built))] (Running tb_fe1 (Between (Finishing tb_built 1)) lr_window None lr_blocks).
Proof.
  eapply run_cons; [exact (sys_window_began (testDesign 0) tb_config tt_enc lr_all_time tb_fe (Between Idle) tb1 None tb_blocks)|].
  eapply run_cons; [exact (sys_window_pending (testDesign 0) tb_config tt_enc 0 lr_all_time tb_fe (Between Idle) tb1 None tb_blocks)|].
  eapply run_cons; [exact (lr_build_step tb1 None tb_blocks eq_refl)|].
  eapply run_cons; [exact lr_commit_step|].
  eapply run_cons; [|apply run_nil].
  refine (sys_window_blocks (testDesign 0) tb_config tt_enc 9 0 lr_all_time _ tb_fe1 (Between (Finishing tb_built 1)) lr_b1 lr_window None lr_blocks
    ltac:(by_compute) ltac:(cbn; lia) _). apply pair_fst; vm_compute; reflexivity.
Qed.

Example window_misses :
  run lr_step lr_start [Built tb_built; GotWindow 0 lr_all_time (Ret (lr_rest ++ tb_txs))]
    (Running tb_fe1 (Between (Building tb_built)) lr_window1 None tb_blocks).
Proof.
  eapply run_cons; [exact (lr_build_step tb1 None tb_blocks eq_refl)|].
  eapply run_cons; [|apply run_nil].
  refine (sys_window (testDesign 0) tb_config tt_enc 9 0 lr_all_time _ tb_fe1 (Between (Building tb_built)) tb1 lr_window1 None tb_blocks
    ltac:(by_compute) ltac:(cbn; lia) _). apply pair_fst; vm_compute; reflexivity.
Qed.
