(* ===== verification/DesignChain.v ===== *)
(** * DesignChain

    Any design on the real catalog: an application with any number of indexes and override
    families, whose blocks are sealed while the pool of the catalog works, whose writes may
    fail, and which is closed, or killed with segments still to be written, and opened again
    (src/src/blockchain/BlockchainBackend.cpp, src/src/storage/Catalog.cpp).  What an index can
    read back is what its family has sealed. *)

From S2P Require Import Prelude Excessive Memory Transaction Registry StateOverride ChainDesign TestChainDesign.
From S2P Require Import EpochFile Journal CatalogFile Catalog CatalogTasks CatalogContents CatalogStats SumIndex.
From S2P Require Import Backend BackendCorrect TestBackend Progress Crash SumChain LedgerRefinement.
From S2P Require BlockTimestampTracker.

(** ** The calls of a commit *)
Section Calls.
Context {Tx W F Ix M : Type}.
Context `{!IndexOverrideFamily F W Ix, !BlockchainIndex Ix, !Transaction Tx W (StateOverride F) M}.
Context (iregs : list (TypeKey * Ix)) (oregs : list (TypeKey * F)).

(** A block that was committed: the clock and what the indexes answered, the fresh override, the transactions. *)
Definition commit : Type := commit_env W * StateOverride F * list Tx.
Definition block_of (x : commit) : Z * list Tx := (e_millis x.1.1, x.2).
Definition calls_at (n : nat) (x : commit) : list entry_args := commit_calls (M:=M) iregs oregs x.1.1 x.1.2 x.2 (Z.of_nat n).
Definition calls_of (xs : list commit) : list entry_args := concat (imap calls_at xs).

Lemma calls_of_snoc xs x : calls_of (xs ++ [x]) = calls_of xs ++ calls_at (length xs) x.
Proof. unfold calls_of. rewrite imap_app, concat_app. cbn. by rewrite Nat.add_0_r, app_nil_r. Qed.

Lemma calls_of_elem xs a : a ∈ calls_of xs <-> exists n x, xs !! n = Some x /\ a ∈ calls_at n x.
Proof.
  unfold calls_of. rewrite list_elem_of_In, in_concat. split.
  - intros (l & Hl & Ha). apply list_elem_of_In, elem_of_lookup_imap in Hl as (n & x & -> & Hx). exists n, x.
    by rewrite list_elem_of_In.
  - intros (n & x & Hx & Ha). exists (calls_at n x). rewrite <- !list_elem_of_In. split; [|done]. apply elem_of_lookup_imap. eauto.
Qed.

Lemma seal_call_fields w s bn i a : seal_call iregs w s bn i = Some a ->
  ea_indexId a = Z.of_nat i /\ ea_startBlock a = bn /\ ea_mergeGeneration a = 0 /\ ea_endBlock a = u64 (bn + 1).
Proof.
  unfold seal_call. destruct (familyAt _ _); try done. destruct (iregs !! i) as [[? ?]|]; [|done].
  destruct (seal _ _); [done|]. by intros [= <-].
Qed.

Lemma calls_at_elem n x a : a ∈ calls_at n x -> ea_startBlock a = Z.of_nat n /\ ea_mergeGeneration a = 0 /\ 0 <= ea_endBlock a.
Proof.
  unfold calls_at, commit_calls. intros (i & _ & Ha)%list_elem_of_omap. apply seal_call_fields in Ha as (_ & H1 & H2 & H3).
  split; [done|]. split; [done|]. rewrite H3. apply u64_range.
Qed.

Lemma calls_at_keys n x : NoDup (map ea_key (calls_at n x)).
Proof.
  unfold calls_at, commit_calls. generalize (length oregs `min` length iregs)%nat as k. intros k. generalize 0%nat as i0. 
  induction k as [|k IH]; intros i0; [constructor|]. cbn [seq omap list_omap]. specialize (IH (S i0)).
  destruct (seal_call _ _ _ _ i0) as [a|] eqn:Ha; [|done]. cbn [map]. apply NoDup_cons. split; [|done].
  intros (a' & Hk & (i & Hi & Ha')%list_elem_of_omap)%list_elem_of_fmap. apply elem_of_seq in Hi.
  apply seal_call_fields in Ha as (E & _). apply seal_call_fields in Ha' as (E' & _). unfold ea_key in Hk. injection Hk as Hk _ _. lia.
Qed.

Lemma calls_of_start xs a : a ∈ calls_of xs -> ea_startBlock a < Z.of_nat (length xs).
Proof.
  intros (n & x & Hx & Ha)%calls_of_elem. apply calls_at_elem in Ha as (-> & _). apply lookup_lt_Some in Hx. lia.
Qed.

(** Every block has its own segments. *)
Lemma calls_new xs x a : a ∈ calls_at (length xs) x -> ea_key a ∉ map ea_key (calls_of xs).
Proof.
  intros (Hs & _)%calls_at_elem (a' & Hk & Ha')%list_elem_of_fmap. apply calls_of_start in Ha'.
  unfold ea_key in Hk. injection Hk as _ Hk _. lia.
Qed.

Lemma calls_of_keys xs : NoDup (map ea_key (calls_of xs)).
Proof.
  induction xs as [|x xs IH] using rev_ind; [constructor|]. rewrite calls_of_snoc, map_app. apply NoDup_app.
  split; [done|]. split; [|apply calls_at_keys]. intros k H1 (a & -> & Ha)%list_elem_of_fmap. by eapply calls_new.
Qed.
End Calls.
Arguments commit : clear implicits.

(** ** Histories of the catalog *)

#[global] Instance entry_args_eq_dec : EqDecision entry_args.
Proof. solve_decision. Defined.

Section Histories.
Context {TT CF : Type} `{!BTree catalog_contents_entry_t TT, !SegmentFile CF}.
Context `{!BTreeLaws Catalog.compare, !SegmentFileLaws CF}.
Implicit Types (c : Catalog TT CF) (ts : list task) (l : list entry_args).

Lemma log_fresh c ts l a : cat_log c ts l -> ea_key a ∉ map ea_key l -> fresh_call a c ts.
Proof.
  intros Hl Ha. split.
  - intros fid f Hf (s & Hk & Hs)%list_elem_of_fmap. destruct (cl_segments _ _ _ Hl fid f s Hf Hs) as (a' & Ha' & _ & Hd & _).
    apply Ha. rewrite Hk, (describes_key s a' Hd). by apply (list_elem_of_fmap_2 ea_key).
  - intros (t & Hk & Ht)%list_elem_of_fmap. apply Ha. rewrite Hk. apply (list_elem_of_fmap_2 ea_key). by apply (cl_tasks _ _ _ Hl).
Qed.

Lemma fresh_ts c ts ts' a : fresh_call a c (ts ++ ts') -> fresh_call a c ts.
Proof. intros [H1 H2]. split; [done|]. rewrite map_app, not_elem_of_app in H2. apply H2. Qed.

Lemma keys_elems l : NoDup (map ea_key l) -> NoDup l.
Proof. apply NoDup_fmap_1. Qed.

(** A history without one of its calls. *)
Lemma drop_call l a : NoDup (map ea_key l) -> a ∈ l -> l ≡ₚ filter (fun b => ea_key b <> ea_key a) l ++ [a].
Proof.
  intros Hk Ha. pose proof (keys_elems l Hk) as Hnd. apply NoDup_Permutation; [done| |].
  - apply NoDup_app. split; [by apply NoDup_filter|]. split; [|apply NoDup_singleton].
    intros b [Hb _]%list_elem_of_filter ->%list_elem_of_singleton. done.
  - intros b. rewrite elem_of_app, list_elem_of_filter, list_elem_of_singleton. split.
    + intros Hb. destruct (decide (ea_key b = ea_key a)) as [He|He]; [right; by eapply same_call|by left].
    + by intros [[_ Hb]| ->].
Qed.

(** And without those of some of its tasks. *)
Lemma drop_tasks l ts : NoDup (map ea_key l) -> NoDup (task_keys ts) -> (forall t, t ∈ ts -> tk_args t ∈ l) ->
  l ≡ₚ survivors ts l ++ map tk_args ts.
Proof.
  intros Hk Hd Hin. pose proof (keys_elems l Hk) as Hnd. apply NoDup_Permutation; [done| |].
  - apply NoDup_app. split; [by apply NoDup_filter|]. split.
    + intros b [Hb _]%list_elem_of_filter (t & -> & Ht)%list_elem_of_fmap. apply Hb.
      by apply (list_elem_of_fmap_2 (fun t => ea_key (tk_args t))).
    + apply (NoDup_fmap_1 ea_key). change (NoDup (map ea_key (map tk_args ts))). by rewrite map_map.
  - intros b. unfold survivors. rewrite elem_of_app, list_elem_of_filter. split.
    + intros Hb. destruct (decide (ea_key b ∈ task_keys ts)) as [Hin'|Hn]; [right|by left].
      apply list_elem_of_fmap in Hin' as (t & He & Ht). apply list_elem_of_fmap. exists t. split; [|done].
      by eapply (same_call l); [done|done|apply Hin|].
    + intros [[_ Hb]|(t & -> & Ht)%list_elem_of_fmap]; [done|]. by apply Hin.
Qed.

(** The end of a process loses the calls of the tasks that had not written. *)
Lemma drop_unwritten c ts limbo l : cat_holds c ts limbo l -> l ≡ₚ survivors (unwritten ts) l ++ map tk_args (unwritten ts).
Proof.
  intros (_ & _ & Hl). apply drop_tasks; [apply (cl_keys _ _ _ Hl)| |].
  - eapply sublist_NoDup; [apply (cl_distinct _ _ _ Hl)|]. unfold task_keys, unwritten. etrans; [apply sublist_map, sublist_filter|].
    apply sublist_map. by apply sublist_inserts_r.
  - intros t [_ Ht]%list_elem_of_filter. apply (cl_tasks _ _ _ Hl), elem_of_app. by left.
Qed.
End Histories.

(** ** What an index reads *)
Section Chain.
Context {Tx W F Ix TT TS R Fd M J T : Type}.
Context `{!BTree catalog_contents_entry_t TT, !BTree segment_btree_metadata_t TS, !FreeSpaceFile R, !MmapHandle M, !FdHandle Fd M}.
Context `{!BTreeLaws Catalog.compare, !BTreeLaws CatalogFile.compare, !FreeSpaceLaws R, !FreeSpaceHeader R, !MmapLaws M, !FdLaws Fd M}.
Context `{!IndexOverrideFamily F W Ix, !BlockchainIndex Ix, !Transaction Tx W (StateOverride F) M}.
Context `{!Journal J M Tx, !JournalLaws J M Tx}.
Context `{!BTree BlockTimestampTracker.block_timestamp_entry_t T, !BTreeLaws BlockTimestampTracker.compare}.
Context (fast_hash : list Z -> Z -> Z) (newFd : Fd) (newRegions : R).
Context (pq_sort : list (Z * Z) -> list Z) (pq_sort_law : forall l, pq_sort l ≡ₚ map fst l).

Abbreviation Cat := (Catalog TT (CatalogFile TS R Fd)).
Abbreviation Backend := (Backend Tx F Ix M J (Cat * list task) T).
Abbreviation commit := (commit Tx W F).

#[local] Instance dc_files : SegmentFile (CatalogFile TS R Fd) := CatalogFile_SegmentFile (M:=M) fast_hash newFd newRegions.
#[local] Instance dc_files_laws : SegmentFileLaws (CatalogFile TS R Fd) := CatalogFile_SegmentFileLaws (M:=M) fast_hash newFd newRegions.
Abbreviation dc_sink := (catalog_sink fast_hash newFd newRegions pq_sort).

(** The walk every reader makes: the files of a range scan, and in each the segments of the
    index.  It collects what it finds, the first block and the payload. *)
Fixpoint index_segments (fuel : nat) (c : Cat) (indexId : Z) (fileIds : list Z) (acc : list (Z * list Z)) : outcome (list (Z * list Z)) :=
  match fileIds with
  | [] => Ret acc
  | id :: fileIds =>
      match files c !! id with
      | None => index_segments fuel c indexId fileIds acc
      | Some file =>
          acc ← forEachSegment fuel (segmentIndex file) indexId 0 U64_MAX
            (fun s acc => acc ++ [(blockRangeStart s, read_segment (M:=M) file s)]) acc;
          index_segments fuel c indexId fileIds acc
      end
  end.

Definition read_index (fuel : nat) (now : Z) (c : Cat) (indexId : Z) : outcome (list (Z * list Z)) :=
  fileIds ← rangeScan fuel now c indexId 0 U64_MAX; index_segments fuel c indexId fileIds [].

Lemma index_segments_elem fuel c ix ids acc : enough_fuel fuel c -> (forall fid f, files c !! fid = Some f -> file_ok f) ->
  exists segs, index_segments fuel c ix ids acc = Ret segs /\
    forall x, x ∈ segs <-> x ∈ acc \/ exists fid f s, fid ∈ ids /\ files c !! fid = Some f /\ s ∈ bt_elems (segmentIndex f) /\
      indexId s = ix /\ 0 <= blockRangeStart s <= U64_MAX /\ 0 <= blockRangeEnd s /\ x = (blockRangeStart s, read_segment (M:=M) f s).
Proof.
  intros [Hf1 Hf2] Hok. revert acc. induction ids as [|id ids IH]; intros acc.
  - exists acc. split; [done|]. intros x. split; [by left|]. intros [|(fid & f & s & Hin & _)]; [done|]. by apply not_elem_of_nil in Hin.
  - cbn [index_segments]. destruct (files c !! id) as [f|] eqn:Hf.
    + rewrite (forEachSegment_elems fuel) by (word || (by eapply Hf2) || (by eapply fo_index, Hok)). cbn [mbind outcome_bind].
      set (l := filter _ (bt_elems (segmentIndex f))). set (acc' := foldl _ acc l).
      destruct (IH acc') as (segs & Hs & Hin). exists segs. split; [exact Hs|]. intros x. rewrite Hin.
      assert (forall y, y ∈ acc' <-> y ∈ acc \/ exists s, s ∈ l /\ 0 <= blockRangeEnd s /\ y = (blockRangeStart s, read_segment (M:=M) f s)) as Hacc.
      { unfold acc'. clear. revert acc. induction l as [|s l IHl]; intros acc y; cbn [foldl].
        - split; [by left|]. intros [|(s & Hs & _)]; [done|]. by apply not_elem_of_nil in Hs.
        - rewrite IHl. unfold visit. destruct (Z.leb_spec 0 (blockRangeEnd s)).
          + rewrite elem_of_app, list_elem_of_singleton. setoid_rewrite elem_of_cons. split.
            * intros [[Hy| ->]|(s' & Hs' & He & ->)]; [by left|right; exists s; auto|right; exists s'; auto].
            * intros [Hy|(s' & [->|Hs'] & He & ->)]; [by left; left|by left; right|right; by exists s'].
          + setoid_rewrite elem_of_cons. split; [intros [|(s' & ? & ? & ?)]; [by left|right; exists s'; auto]|].
            intros [|(s' & [->|Hs'] & He & ->)]; [by left|lia|right; by exists s']. }
      rewrite Hacc. unfold l. setoid_rewrite list_elem_of_filter. setoid_rewrite elem_of_cons. split.
      * intros [[Hx|(s & ((Hi & Hb) & Hs') & He & ->)]|(fid & g & s & H1 & H2 & H3)]; [by left|right|right].
        -- exists id, f, s. auto 10.
        -- exists fid, g, s. auto.
      * intros [Hx|(fid & g & s & [->|H1] & H2 & H3 & H4 & H5 & H6 & ->)]; [by left; left|left; right|right].
        -- assert (g = f) as -> by congruence. exists s. auto 10.
        -- exists fid, g, s. auto 10.
    + destruct (IH acc) as (segs & Hs & Hin). exists segs. split; [exact Hs|]. intros x. rewrite Hin. setoid_rewrite elem_of_cons.
      split; (intros [|(fid & g & s & H1 & H2 & H3)]; [by left|right]).
      * exists fid, g, s. auto.
      * exists fid, g, s. destruct H1 as [->|H1]; [congruence|auto].
Qed.

(** On an idle catalog the walk finds segments of the history only, and all but those of tasks
    that a process has left between their sections. *)
Lemma read_index_elem c limbo l fuel now ix : cat_holds c [] limbo l -> readable fuel now c ->
  Forall (fun a => 0 <= ea_endBlock a) l ->
  exists segs, read_index fuel now c ix = Ret segs /\
    (forall n p, (n, p) ∈ segs -> exists a, a ∈ l /\ ea_indexId a = ix /\ ea_startBlock a = n /\ ea_content a = p) /\
    (forall a, a ∈ l -> a ∉ map tk_args limbo -> ea_indexId a = ix -> (ea_startBlock a, ea_content a) ∈ segs).
Proof.
  intros (Hz & Hi & Hl) [Hfuel Hnow] Hend. cbn [app] in Hi, Hl. rewrite Forall_forall in Hend.
  destruct (rangeScan fuel now c ix 0 U64_MAX) as [ids| | |] eqn:Hscan.
  2-4: by rewrite rangeScan_elems in Hscan by apply Hi || apply Hfuel.
  assert (forall fid f, files c !! fid = Some f -> file_ok f) as Hok by apply (ci_files _ _ Hi).
  destruct (index_segments_elem fuel c ix ids [] Hfuel Hok) as (segs & Hs & Hin). exists segs.
  split; [unfold read_index; by rewrite Hscan|]. split.
  - intros n p. rewrite Hin. intros [Hn|(fid & f & s & _ & Hf & Hsg & Hix & _ & _ & [= -> ->])]; [by apply not_elem_of_nil in Hn|].
    destruct (cl_segments _ _ _ Hl fid f s Hf Hsg) as (a & Ha & _ & (E1 & E2 & _) & Hr). exists a. by rewrite <- E1, <- E2, <- Hr.
  - intros a Ha Hna <-. apply Hin. right. destruct (cl_recorded _ _ _ Hl a Ha) as [(t & Ht & Hst & _)|(fid & f & s & Hf & Hsg & Hd & Hr)].
    { rewrite Forall_forall in Hz. by rewrite (Hz t Ht) in Hst. }
    pose proof Hd as (E1 & E2 & E3 & _). exists fid, f, s.
    assert (0 <= blockRangeEnd s) as He by (rewrite E3; by apply Hend). rewrite <- Hr. split.
    { apply (covered_scanned fast_hash newFd newRegions fuel now c limbo ids fid f s); try done; [by rewrite E1|apply Hnow; eauto|].
      destruct (ci_cover _ _ Hi fid f s Hf Hsg) as [|(t & Ht & _ & _ & Hdt)]; [done|]. destruct Hna. apply list_elem_of_fmap. exists t. split; [|done].
      apply (same_call l); [apply (cl_keys _ _ _ Hl)|done|by apply (cl_tasks _ _ _ Hl)|]. by rewrite <- (describes_key s a Hd), <- (describes_key s _ Hdt). }
    destruct (ci_files _ _ Hi fid f Hf) as [[_ Hso] _ _ _ _]. rewrite Forall_forall in Hso. destruct (Hso s Hsg) as [(_ & Hst & _) _].
    rewrite E2. split; [done|]. split; [done|]. split; [done|]. rewrite E2 in Hst. done.
Qed.

(** ** The chain *)
Context (design : ChainDesign Tx F Ix M) (iregs : list (TypeKey * Ix)) (oregs : list (TypeKey * F)) (tregs : list (Z * FactoryFunc M Tx)).
Abbreviation calls_of := (calls_of (M:=M) (attached_regs iregs) oregs).
Abbreviation calls_at := (calls_at (M:=M) (attached_regs iregs) oregs).

(** The backend, the blocks it has committed, the segments that will never be written, and those
    that are written while the process ended before their task had updated the TOC.  A call of
    [addBlock] returns, whatever the pool is doing; a task runs one of its sections; a write
    fails; the process ends, wherever its tasks are, and a new one starts. *)
Inductive dc_step : Backend * list commit * list entry_args * list entry_args -> Backend * list commit * list entry_args * list entry_args -> Prop :=
| dc_addBlock os (env : commit_env W) txs s b xs lost limbo n b' :
    1 <= os_now2 os < U64_MAX -> j_fits (journal b) (map block_of xs) (e_millis env, txs) -> in_u64 (e_millis env) ->
    Z.of_nat (length xs) < U64_MAX -> Z.of_nat (length txs) < 4294967296 ->
    Backend.newStateOverride b = Ret s -> Forall args_ok (calls_at (length xs) (env, s, txs)) ->
    addBlock (M:=M) (SegmentSink0:=dc_sink os) env txs b = (Ret n, b') ->
    dc_step (b, xs, lost, limbo) (b', if n =? -1 then xs else xs ++ [(env, s, txs)], lost, limbo)
| dc_task b xs lost limbo y : task_step (catalog b) y -> dc_step (b, xs, lost, limbo) (set_catalog b y, xs, lost, limbo)
| dc_task_fail b xs lost limbo c ts i t e c' : catalog b = (c, ts) -> ts !! i = Some t -> tk_stored t = false ->
    task_store t c = (Throw e, c') -> dc_step (b, xs, lost, limbo) (set_catalog b (c', delete i ts), xs, tk_args t :: lost, limbo)
| dc_restart b xs lost limbo c ts : catalog b = (c, ts) ->
    dc_step (b, xs, lost, limbo)
      (reopen design b (crashed c, []), xs, map tk_args (unwritten ts) ++ lost, map tk_args (half_done ts) ++ limbo).

Definition dc_inv (x : Backend * list commit * list entry_args * list entry_args) : Prop :=
  let '(b, xs, lost, limbo) := x in
  backend_rep (attached_regs iregs) oregs b (map block_of xs) /\
  exists zs l, cat_holds (catalog b).1 (catalog b).2 zs l /\ limbo = map tk_args zs /\ calls_of xs ≡ₚ l ++ lost.

(** The segments of one commit. *)
Lemma submit_calls os calls (c : Cat) ts limbo l x : 1 <= os_now2 os < U64_MAX -> cat_holds c ts limbo l ->
  Forall args_ok calls -> NoDup (map ea_key calls) -> (forall a, a ∈ calls -> ea_key a ∉ map ea_key l) ->
  submit_all (SegmentSink0:=dc_sink os) calls (c, ts) = (Ret tt, x) ->
  cat_holds x.1 x.2 limbo (reverse calls ++ l).
Proof.
  intros Hnow. revert c ts l. induction calls as [|a calls IH]; intros c ts l Hh Hok Hnd Hnew; [by intros [= <-]|].
  apply Forall_cons in Hok as [Ha Hok]. cbn [map] in Hnd. apply NoDup_cons in Hnd as [Hna Hnd].
  cbn [submit_all foldr]. unfold mbind, prog_bind. cbn [cat_writeSegment catalog_sink].
  destruct (writeSegment _ _ _ _ _ _ a c) as [r c'] eqn:Hw. destruct r as [t|e|u|]; try done.
  assert (fresh_call a c ts) as Hfr by (apply (fresh_ts c ts limbo), (log_fresh c (ts ++ limbo) l a); [apply Hh|apply Hnew; left]).
  pose proof (step_submit pq_sort _ _ _ _ _ a c ts l t c' (Nat.lt_succ_diag_r _) Hnow Ha Hfr Hw) as Hstep.
  apply (holds_step pq_sort pq_sort_law _ _ limbo) in Hstep; [|exact Hh]. cbn [fst snd] in Hstep.
  intros Hs. rewrite reverse_cons, <- (assoc_L (++)). cbn [app]. apply (IH c' (ts ++ [t]) (a :: l)); try done.
  intros b Hb. cbn [map]. rewrite not_elem_of_cons. split; [|apply Hnew; by right].
  intros He. apply Hna. rewrite <- He. by apply (list_elem_of_fmap_2 ea_key).
Qed.

Context (apply_layout : forall ks (w : W) s tx, has_layout ks s -> has_layout ks (applied (M:=M) w s tx)).
Context (Hdesign : registers design iregs oregs tregs) (Hfit : design_fits iregs oregs).
Context (Hdec : j_decodes (registerTypes emptyTypeRegistry tregs)).

Lemma dc_addBlock_inv os (env : commit_env W) txs s b xs lost limbo n b' : dc_inv (b, xs, lost, limbo) ->
  1 <= os_now2 os < U64_MAX -> j_fits (journal b) (map block_of xs) (e_millis env, txs) -> in_u64 (e_millis env) ->
  Z.of_nat (length xs) < U64_MAX -> Z.of_nat (length txs) < 4294967296 ->
  Backend.newStateOverride b = Ret s -> Forall args_ok (calls_at (length xs) (env, s, txs)) ->
  addBlock (M:=M) (SegmentSink0:=dc_sink os) env txs b = (Ret n, b') ->
  dc_inv (b', if n =? -1 then xs else xs ++ [(env, s, txs)], lost, limbo).
Proof.
  intros (Hr & zs & l & Hl & Hz & Hp) Hnow Hfits Hms Hlen Htx Hs Hok Ha.
  destruct (addBlock_Ret (SegmentSink0:=dc_sink os) oregs apply_layout env (attached_regs iregs) txs b (map block_of xs) n b' Hr Hfits Hms)
    as [[-> ->]|(-> & _ & Hr' & s' & Hs' & Hsub)]; [by rewrite length_map|done|done|split; [done|]; by exists zs, l|].
  assert (s' = s) as -> by congruence. rewrite length_map in *. destruct (Z.eqb_spec (Z.of_nat (length xs)) (-1)); [lia|].
  destruct (catalog b) as [c ts] eqn:Hc. cbn [fst snd] in *.
  pose proof (submit_calls os (calls_at (length xs) (env, s, txs)) c ts zs l (catalog b') Hnow Hl Hok) as Hl'.
  split; [rewrite map_app; exact Hr'|]. eexists zs, _. split; [apply Hl'|split; [done|]].
  - apply calls_at_keys.
  - intros a Hin Hk. apply (calls_new (M:=M) (attached_regs iregs) oregs xs _ a Hin). rewrite Hp, map_app. apply elem_of_app. by left.
  - exact Hsub.
  - rewrite (calls_of_snoc (M:=M) (attached_regs iregs) oregs xs), Hp, reverse_Permutation.
    rewrite <- (assoc_L (++) _ l lost). apply Permutation_app_comm.
Qed.

Lemma dc_step_inv x y : dc_step x y -> dc_inv x -> dc_inv y.
Proof.
  intros Hs Hi. destruct Hs as [os env txs s b xs lost limbo n b' H1 H2 H3 H4 H5 H6 H7 H8|b xs lost limbo y Ht|
    b xs lost limbo c ts i t e c' Hc Ht Hst Hr|b xs lost limbo c ts Hc].
  - by eapply dc_addBlock_inv.
  - destruct Hi as (Hr & zs & l & Hl & Hz & Hp). split; [by apply (backend_rep_same _ _ b); [..|apply Hr|apply Hr| | |]|].
    exists zs, l. split; [|done]. cbn [set_catalog catalog]. destruct y as [c' ts']. destruct (catalog b) as [c ts].
    exact (holds_step pq_sort pq_sort_law _ _ zs (step_task pq_sort (c, ts) (c', ts') l Ht) Hl).
  - destruct Hi as (Hb & zs & l & Hl & Hz & Hp). rewrite Hc in Hl. cbn [fst snd] in Hl. pose proof Hl as (_ & _ & Hlog).
    pose proof (step_store_fail pq_sort c ts l i t e c' Ht Hst Hr) as Hstep.
    split; [by apply (backend_rep_same _ _ b); [..|apply Hb|apply Hb| | |]|]. cbn [set_catalog catalog fst snd].
    eexists zs, _. split; [exact (holds_step pq_sort pq_sort_law _ _ zs Hstep Hl)|]. split; [done|].
    cbn [fst snd]. rewrite Hp. rewrite (drop_call l (tk_args t)) at 1; [by rewrite <- (assoc_L (++))|apply (cl_keys _ _ _ Hlog)|].
    apply (cl_tasks _ _ _ Hlog), elem_of_app. left. by eapply list_elem_of_lookup_2.
  - destruct Hi as (Hb & zs & l & Hl & -> & Hp). rewrite Hc in Hl. cbn [fst snd] in Hl.
    split; [by eapply reopen_backend|]. exists (half_done ts ++ zs), (survivors (unwritten ts) l). split; [by apply holds_killed|].
    split; [by rewrite map_app|]. rewrite Hp, (drop_unwritten c ts zs l Hl) at 1. by rewrite <- (assoc_L (++)).
Qed.

Lemma dc_steps_inv x y : rtc dc_step x y -> dc_inv x -> dc_inv y.
Proof. induction 1; [done|]. intros Hi. apply IHrtc. by eapply dc_step_inv. Qed.

Lemma new_chain_dc cfg (j : J) : j_rep j [] ->
  dc_inv (openBackend cfg true {| lastBlockTimestamp := 0; currentBlockHeight := 0 |} j design (openCatalog bt_empty ∅, [])
    (BlockTimestampTracker.openTracker bt_empty), [], [], []).
Proof.
  intros Hj. pose proof (bt_empty_elems (cmp:=BlockTimestampTracker.compare) (T:=T)) as Ht.
  pose proof (bt_empty_elems (cmp:=Catalog.compare) (T:=TT)) as Htoc.
  split; [|exists [], []; split; [split; [constructor|split; [|apply empty_log]]|done]].
  - split; [|done]. split; cbn; try done.
    + by eapply openBackend_wiring.
    + by rewrite (reg_types _ _ _ _ Hdesign).
    + split; unfold bt_wf; cbn; rewrite Ht; constructor.
    + unfold BlockTimestampTracker.entries; cbn. by rewrite Ht.
  - apply open_inv; [split; unfold bt_wf; rewrite Htoc; constructor| |]; intros *; by rewrite lookup_empty.
Qed.

(** Of the segments sealed, the history has those that were not lost. *)
Lemma history_elem l xs lost : calls_of xs ≡ₚ l ++ lost -> forall a, a ∈ l <-> a ∈ calls_of xs /\ a ∉ lost.
Proof.
  intros Hp. pose proof (calls_of_keys (M:=M) (attached_regs iregs) oregs xs) as Hk. apply keys_elems in Hk. rewrite Hp in Hk.
  apply NoDup_app in Hk as (_ & Hd & _). intros a. rewrite Hp, elem_of_app. split; [intros Ha; split; [by left|by apply Hd]|].
  by intros [[Ha|Ha] Hn].
Qed.

(** The walk misses at most segments that were left between the sections of their tasks. *)
Lemma index_reads_history (c : Cat) zs l xs lost fuel now ix : cat_holds c [] zs l -> calls_of xs ≡ₚ l ++ lost -> readable fuel now c ->
  exists segs (missed : list entry_args), read_index fuel now c ix = Ret segs /\ (forall a, a ∈ missed -> a ∈ map tk_args zs) /\
    forall n p, (n, p) ∈ segs <->
      (exists a, a ∈ calls_of xs /\ (a ∉ lost) /\ (a ∉ missed) /\ ea_indexId a = ix /\ ea_startBlock a = n /\ ea_content a = p).
Proof.
  intros Hl Hp Hrd. pose proof (history_elem l xs lost Hp) as Hel. destruct (read_index_elem c zs l fuel now ix Hl Hrd) as (segs & Hread & H1 & H2).
  { apply Forall_forall. intros a [Ha _]%Hel. apply calls_of_elem in Ha as (n & x & _ & Ha). apply calls_at_elem in Ha as (_ & _ & He). exact He. }
  exists segs, (filter (fun a => (ea_startBlock a, ea_content a) ∉ segs) (map tk_args zs)). split; [done|].
  split; [by intros a [_ Ha]%list_elem_of_filter|]. intros n p. split.
  - intros Hin. destruct (H1 n p Hin) as (a & [Ha1 Ha2]%Hel & Hix & <- & <-). exists a. rewrite list_elem_of_filter. tauto.
  - intros (a & Ha & Hnl & Hnm & Hix & <- & <-). destruct (decide ((ea_startBlock a, ea_content a) ∈ segs)) as [|Hn]; [done|].
    apply H2; [by apply Hel| |done]. intros Hz. apply Hnm. by apply list_elem_of_filter.
Qed.

(** C4: every index can read exactly what its family has sealed.  For any design with its indexes and
    families, from a new data directory and after any run of commits (with the pool at work),
    writes that succeed or fail, ends of the process and new starts, wherever the tasks of the
    pool are then: the backend has every block; each segment of each block is waiting, on disk
    or was lost with its task; and whenever the pool is idle the walk of an index over the
    catalog ends with exactly the segments its family sealed and that were not lost, byte for
    byte, under their block, except for some of those in limbo: on disk, but written by a
    task that a process left before it had updated the TOC. *)
Theorem index_reads_sealed cfg (j : J) b xs lost limbo :
  j_rep j [] ->
  rtc dc_step (openBackend cfg true {| lastBlockTimestamp := 0; currentBlockHeight := 0 |} j design (openCatalog bt_empty ∅, [])
    (BlockTimestampTracker.openTracker bt_empty), [], [], []) (b, xs, lost, limbo) ->
  backend_rep (attached_regs iregs) oregs b (map block_of xs) /\
  (forall a, a ∈ calls_of xs -> pending (catalog b).2 a \/ stored (catalog b).1 a \/ a ∈ lost) /\
  (forall a, a ∈ limbo -> a ∈ calls_of xs /\ stored (catalog b).1 a) /\
  (forall c fuel now ix, catalog b = (c, []) -> readable fuel now c ->
     exists segs (missed : list entry_args), read_index fuel now c ix = Ret segs /\ (forall a, a ∈ missed -> a ∈ limbo) /\
       forall n p, (n, p) ∈ segs <->
         (exists a, a ∈ calls_of xs /\ (a ∉ lost) /\ (a ∉ missed) /\ ea_indexId a = ix /\ ea_startBlock a = n /\ ea_content a = p)).
Proof.
  intros Hj Hs. pose proof (dc_steps_inv _ _ Hs (new_chain_dc cfg j Hj)) as (Hr & zs & l & Hl & -> & Hp). split; [done|]. split; [|split].
  - intros a Ha. destruct (decide (a ∈ lost)) as [|Hn]; [by right; right|]. pose proof Hl as (Hz & _ & Hlog). rewrite Forall_forall in Hz.
    destruct (cl_recorded _ _ _ Hlog a) as [(t & [Ht|Ht]%elem_of_app & Hst & E)|]; [by apply (history_elem l xs lost Hp)|left; by exists t| |by right; left].
    by rewrite (Hz t Ht) in Hst.
  - intros a (z & -> & Hin)%list_elem_of_fmap. split; [|by eapply limbo_stored]. rewrite Hp. apply elem_of_app. left.
    destruct Hl as (_ & _ & Hlog). apply (cl_tasks _ _ _ Hlog), elem_of_app. by right.
  - intros c fuel now ix Hc Hrd. rewrite Hc in Hl. by apply (index_reads_history c zs l xs lost fuel now ix Hl Hp Hrd).
Qed.
End Chain.

(** ** A run of the test design: two blocks, and the process killed before the second segment is written *)
#[local] Existing Instance BlockTimestampTracker.tracker_BTree.
#[local] Existing Instance BlockTimestampTracker.tracker_BTreeLaws.
#[local] Existing Instance tb_Journal.
#[local] Existing Instance tb_JournalLaws.
#[local] Existing Instance tb_Index.
#[local] Existing Instance seg_BTree.
#[local] Existing Instance seg_BTreeLaws.
#[local] Existing Instance toc_BTree.
#[local] Existing Instance toc_BTreeLaws.

Definition dc_last : sc_chain := (sc_commit T2 sc_txs2 sc3).2.
Definition dc_killed : sc_chain := reopen (testDesign 0) dc_last (crashed (catalog dc_last).1, []).
Definition dc_commits : list (commit TestTransaction TestWorld TestSumOverrideFamily) :=
  [(sc_env T1 sc0, tb_fresh, sc_txs1); (sc_env T2 sc3, tb_fresh, sc_txs2)].
Definition dc_lost : list entry_args := map tk_args (catalog dc_last).2.

Abbreviation dc_sample_step := (dc_step no_hash (Bytemap 4096 0 ∅) [] in_order (testDesign 0) tb_design_indexes tb_oregs).

(** A commit of the test design from its premises. *)
Lemma dc_commit millis (b b' : sc_chain) xs lost limbo txs n :
  1 <= millis < U64_MAX -> j_fits (journal b) (map block_of xs) (millis, txs) -> wired tb_iregs tb_oregs b ->
  Z.of_nat (length xs) < 4294967296 -> Z.of_nat (length txs) < 4294967296 -> txs <> [] -> n <> -1 ->
  sc_commit millis txs b = (Ret n, b') ->
  dc_sample_step (b, xs, lost, limbo) (b', xs ++ [(sc_env millis b, tb_fresh, txs)], lost, limbo).
Proof.
  intros Hm Hf Hw Hx Ht Hne Hn Ha.
  pose proof (dc_addBlock no_hash (Bytemap 4096 0 ∅) [] in_order (testDesign 0) tb_design_indexes tb_oregs
    (sc_os millis) (sc_env millis b) txs tb_fresh b xs lost limbo n b') as H.
  destruct (Z.eqb_spec n (-1)) as [|_]; [done|]. apply H; try done.
  - cbn. word.
  - word.
  - by apply fresh_override.
  - unfold calls_at. cbn [fst snd]. rewrite sum_commit_calls by done. constructor; [|constructor].
    unfold args_ok, ea_length. cbn [ea_content ea_indexId ea_startBlock ea_mergeGeneration]. rewrite length_app, !length_int_bytes. word.
Qed.

Lemma sc0_wired : wired tb_iregs tb_oregs sc0.
Proof. exact (openBackend_wiring _ _ _ _ _ _ _ _ _ _ (testDesign_registers 0) tb_design_fits). Qed.

Definition dc_one : list (commit TestTransaction TestWorld TestSumOverrideFamily) := [(sc_env T1 sc0, tb_fresh, sc_txs1)].

(** The first block, and its segment written and indexed. *)
Lemma dc_indexed : rtc dc_sample_step (sc0, [], [], []) (sc3, dc_one, [], []).
Proof.
  eapply rtc_l; [apply (dc_commit T1 sc0 sc1 [] [] [] sc_txs1 0)|].
  - unfold T1. word.
  - exact sc_fits.
  - exact sc0_wired.
  - cbn. lia.
  - cbn. lia.
  - discriminate.
  - discriminate.
  - apply pair_fst. vm_compute. reflexivity.
  - eapply rtc_l; [apply (dc_task no_hash (Bytemap 4096 0 ∅) [] in_order (testDesign 0) tb_design_indexes tb_oregs sc1 _ [] [] (catalog sc2))|].
    + apply one_store. do 4 eexists. split; [vm_compute; reflexivity|]. split; [reflexivity|]. split; vm_compute; reflexivity.
    + apply rtc_once. apply (dc_task no_hash (Bytemap 4096 0 ∅) [] in_order (testDesign 0) tb_design_indexes tb_oregs sc2 _ [] [] (catalog sc3)).
      apply one_index. do 3 eexists. split; [vm_compute; reflexivity|]. split; [reflexivity|]. split; vm_compute; reflexivity.
Qed.

Lemma sc3_wired : wired tb_iregs tb_oregs sc3.
Proof.
  pose proof (dc_steps_inv no_hash (Bytemap 4096 0 ∅) [] in_order (fun _ => reflexivity _) (testDesign 0) tb_design_indexes tb_oregs _
    tb_apply_layout (testDesign_registers 0) tb_design_fits tb_decodes _ _ dc_indexed) as H.
  destruct H as (Hr & _); [|apply (cr_wired _ _ _ _ _ (br_chain _ _ _ _ Hr))].
  exact (new_chain_dc no_hash (Bytemap 4096 0 ∅) [] (testDesign 0) tb_design_indexes tb_oregs _
    (testDesign_registers 0) tb_design_fits tb_decodes defaultConfig ∅ empty_journal).
Qed.

(** The second one, and the end of the process before its segment is written. *)

Lemma dc_run : rtc dc_sample_step (sc0, [], [], []) (dc_killed, dc_commits, dc_lost, []).
Proof.
  etrans; [exact dc_indexed|].
  eapply rtc_l; [apply (dc_commit T2 sc3 dc_last dc_one [] [] sc_txs2 1)|].
  - unfold T2. word.
  - change (map block_of dc_one) with tb_blocks. replace (journal sc3) with (journal tb1) by (vm_compute; reflexivity).
    apply (tb1_fits sc_txs2). cbn. lia.
  - exact sc3_wired.
  - cbn. lia.
  - cbn. lia.
  - discriminate.
  - discriminate.
  - unfold dc_last. apply (pair_fst (sc_commit T2 sc_txs2 sc3) (Ret 1)). vm_compute. reflexivity.
  - apply rtc_once. pose proof (dc_restart no_hash (Bytemap 4096 0 ∅) [] in_order (testDesign 0) tb_design_indexes tb_oregs dc_last dc_commits [] [] _ _
      (surjective_pairing _)) as H.
    replace (map tk_args (unwritten (catalog dc_last).2) ++ []) with dc_lost in H by (vm_compute; reflexivity).
    replace (map tk_args (half_done (catalog dc_last).2) ++ []) with (@nil entry_args) in H by (vm_compute; reflexivity). exact H.
Qed.

Lemma sc_env_seal millis b i ix : e_seal (sc_env millis b) i ix = sc_world millis b ix.
Proof. reflexivity. Qed.

(** The segment of the first block, and that of the second, which was lost. *)
Definition dc_kept : entry_args :=
  {| ea_indexId := 0; ea_version := 1; ea_mergeGeneration := 0; ea_startBlock := 0; ea_endBlock := 1; ea_content := int_bytes 5 ++ int_bytes 2 |}.

Lemma dc_calls : exists a, calls_of (M:=bytemap) tb_iregs tb_oregs dc_commits = [dc_kept; a] /\ dc_lost = [a] /\ ea_startBlock a = 1.
Proof.
  eexists. split; [|split].
  - unfold calls_of, dc_commits. cbn [imap]. unfold calls_at. cbn [fst snd concat app]. rewrite !sum_commit_calls by discriminate.
    rewrite !sc_env_seal. replace (sc_world T1 sc0 0) with (0, 0) by (vm_compute; reflexivity).
    replace (sc_world T2 sc3 0) with (5, 2) by (vm_compute; reflexivity). vm_compute. reflexivity.
  - vm_compute. reflexivity.
  - reflexivity.
Qed.

(** Had the process ended between the two sections of the first task, on a new file, its segment
    would be in limbo, and the index would read nothing. *)
Example dc_half_done : exists b, dc_sample_step (sc2, dc_one, [], []) (b, dc_one, [], [dc_kept]) /\
  read_index (M:=bytemap) 9 T2 (catalog b).1 0 = Ret [].
Proof.
  exists (reopen (testDesign 0) sc2 (crashed (catalog sc2).1, [])). split; [|vm_compute; reflexivity].
  pose proof (dc_restart no_hash (Bytemap 4096 0 ∅) [] in_order (testDesign 0) tb_design_indexes tb_oregs sc2 dc_one [] [] _ _
    (surjective_pairing _)) as H.
  replace (map tk_args (unwritten (catalog sc2).2) ++ []) with (@nil entry_args) in H by (vm_compute; reflexivity).
  replace (map tk_args (half_done (catalog sc2).2) ++ []) with [dc_kept] in H by (vm_compute; reflexivity). exact H.
Qed.

(** After the new start the index reads the first block's segment, and nothing of the second's. *)
Lemma index_reads_sealed_witness :
  exists segs, read_index (M:=bytemap) 9 T2 (catalog dc_killed).1 0 = Ret segs /\
    ((0, int_bytes 5 ++ int_bytes 2) ∈ segs) /\ (forall p, ((1, p) ∉ segs)).
Proof.
  destruct (index_reads_sealed no_hash (Bytemap 4096 0 ∅) [] in_order (fun _ => reflexivity _) (testDesign 0) tb_design_indexes tb_oregs _
    tb_apply_layout (testDesign_registers 0) tb_design_fits tb_decodes defaultConfig ∅ dc_killed dc_commits dc_lost [] empty_journal dc_run)
    as (_ & _ & _ & Hread).
  assert (readable 9 T2 (catalog dc_killed).1) as Hrd by (apply sc_readable; by_compute).
  destruct (Hread (catalog dc_killed).1 9%nat T2 0 eq_refl Hrd) as (segs & missed & Hs & Hm & Hin).
  exists segs. split; [exact Hs|]. destruct dc_calls as (a & Hc & Hl & Ha).
  change (attached_regs tb_design_indexes) with tb_iregs in Hin. rewrite Hc, Hl in Hin. split.
  - apply Hin. exists dc_kept. split; [left|]. split; [|split; [|split; [reflexivity|split; reflexivity]]].
    + intros He%list_elem_of_singleton. subst a. discriminate Ha.
    + intros He%Hm. by apply not_elem_of_nil in He.
  - intros p (b & Hb & Hn & _ & _ & Hst & _)%Hin. apply elem_of_cons in Hb as [->|Hb]; [discriminate Hst|exact (Hn Hb)].
Defined.
