(* ===== verification/FullStack.v ===== *)
(** * FullStack

    All layers together, as the constructor of src/src/blockchain/BlockchainBackend.cpp wires
    them: the backend of any design over the epoch files and the catalog files, both behind
    their caches of open files (EpochCache.v, CatalogCache.v), with the pool of the catalog,
    queries and readers in between, failed writes, ends of the process and new starts.  What
    is read back is what DesignChain.v says of the files without the caches. *)

From S2P Require Import Prelude Excessive Memory Transaction Registry StateOverride ChainDesign TestChainDesign.
From S2P Require Import FileCache EpochFile Journal EpochCache CatalogFile Catalog CatalogTasks CatalogContents CatalogStats CatalogCache SumIndex.
From S2P Require Import Backend BackendCorrect TestBackend Progress Crash SumChain LedgerRefinement DesignChain.
From S2P Require BlockTimestampTracker.

(** What one call of [writeSegment] is told: two readings of the clock, and by the operating
    system for a file it finds or may create. *)
Record write_answers {H : Type} := { wa_now1 : Z; wa_now2 : Z; wa_errno : string; wa_open : string -> option H }.
Arguments write_answers : clear implicits.

Section FullStack.
Context {Tx W F Ix TT TS R Fd M H T : Type}.
Context `{!BTree catalog_contents_entry_t TT, !BTree segment_btree_metadata_t TS, !FreeSpaceFile R, !MmapHandle M, !FdHandle Fd M}.
Context `{!BTreeLaws Catalog.compare, !BTreeLaws CatalogFile.compare, !FreeSpaceLaws R, !FreeSpaceHeader R, !MmapLaws M, !FdLaws Fd M}.
Context `{!IndexOverrideFamily F W Ix, !BlockchainIndex Ix, !Transaction Tx W (StateOverride F) M}.
Context `{!BTree BlockTimestampTracker.block_timestamp_entry_t T, !BTreeLaws BlockTimestampTracker.compare}.
Context (fast_hash : list Z -> Z -> Z) (newFd : Fd) (newRegions : R).
Context (pq_sort : list (Z * Z) -> list Z) (pq_sort_law : forall l, pq_sort l ≡ₚ map fst l).

(** The handles and hash maps of both caches; of each, the clock and the pointers at its
    [n]-th call; the mappings of epoch files. *)
Context (valid : H -> bool).
Context (slots : gmap string (open_path_t (A:=nat) (H:=H)) -> list (string * open_path_t (A:=nat) (H:=H)))
  (capacity_after : gmap string (open_path_t (A:=nat) (H:=H)) -> Z -> Z).
Context (ec_clock cc_clock : nat -> Z) (ec_pointers cc_pointers : nat -> nat -> Z) (ec_os : nat -> string -> option H).
Context (newFile : string -> M) (remap : M -> M) (enc : Tx -> list Z) `{!TransactionEncoding enc}.

Hypothesis slots_law : forall m, slots m ≡ₚ map_to_list m.
Hypothesis pointers_law : forall n a, 0 <= cc_pointers n a.
Hypothesis opens_files : forall n path, exists h, ec_os n path = Some h /\ valid h = true.
Hypothesis remap_law : forall m, mm_size m <= mm_size (remap m) /\ forall i, 0 <= i < mm_size m -> mm_byte (remap m) i = mm_byte m i.

#[local] Instance fs_files : SegmentFile (CatalogFile TS R Fd) := CatalogFile_SegmentFile (M:=M) fast_hash newFd newRegions.
#[local] Instance fs_files_laws : SegmentFileLaws (CatalogFile TS R Fd) := CatalogFile_SegmentFileLaws (M:=M) fast_hash newFd newRegions.
Abbreviation Epochs := (EpochCache (M:=M) (Fd:=H)).
#[local] Instance fs_Journal : Journal Epochs M Tx := EpochCache_Journal newFile remap valid slots capacity_after ec_clock ec_pointers ec_os.
#[local] Instance fs_JournalLaws : JournalLaws Epochs M Tx :=
  EpochCache_JournalLaws newFile remap valid slots capacity_after ec_clock ec_pointers ec_os slots_law opens_files enc remap_law.

Abbreviation Cached := (CachedCatalog (T:=TT) (CF:=CatalogFile TS R Fd) (Fd:=H)).
Abbreviation Cat := (Catalog TT (CatalogFile TS R Fd)).
Abbreviation Backend := (Backend Tx F Ix M Epochs (Cached * list cc_task) T).
Abbreviation commit := (commit Tx W F).
Implicit Types (s : Cached) (ts : list cc_task) (c : Cat) (ats : list task) (b : Backend) (l lost : list entry_args).

Abbreviation cc_writeSegment := (cc_writeSegment pq_sort valid slots capacity_after cc_clock cc_pointers).
Abbreviation cc_getCatalogFile := (cc_getCatalogFile valid slots capacity_after cc_clock cc_pointers).
Abbreviation cc_step := (cc_step pq_sort valid slots capacity_after cc_clock cc_pointers).

(** ** The layers put together *)

(** The catalog over its cache as the backend's sink; the task with number [n] in the queue was
    submitted with the answers [ans n]. *)
Definition cached_sink (ans : nat -> write_answers H) : SegmentSink (Cached * list cc_task) := {|
  cat_writeSegment a := fun x =>
    let '(s, ts) := x in
    let k := ans (length ts) in
    match cc_writeSegment (S (length (bt_elems (cc_toc s)))) (wa_open k) (map ct_file ts) (wa_now1 k) (wa_now2 k) (wa_errno k) a s with
    | (Ret t, s) => (Ret tt, (s, ts ++ [t]))
    | (Throw e, s) => (Throw e, (s, ts))
    | (Undef u, s) => (Undef u, (s, ts))
    | (NoFuel, s) => (NoFuel, (s, ts))
    end;
|}.

(** The walk of a reader ([DesignChain.read_index]), each file through the cache. *)
Fixpoint cc_index_segments (fuel : nat) (os : string -> option H) (held : list nat) (indexId : Z) (fileIds : list Z) (acc : list (Z * list Z)) :
    prog Cached (list (Z * list Z)) :=
  match fileIds with
  | [] => mret acc
  | id :: fileIds =>
      file ← cc_getCatalogFile os held id;
      match file with
      | None => cc_index_segments fuel os held indexId fileIds acc
      | Some a =>
          s ← getS;
          pf ← liftO (deref NullDeref (cc_file s a));
          acc ← liftO (forEachSegment fuel (segmentIndex pf.2) indexId 0 U64_MAX
            (fun seg acc => acc ++ [(blockRangeStart seg, read_segment (M:=M) pf.2 seg)]) acc);
          cc_index_segments fuel os held indexId fileIds acc
      end
  end.

Definition cc_read_index (fuel : nat) (now : Z) (os : string -> option H) (held : list nat) (indexId : Z) : prog Cached (list (Z * list Z)) :=
  s ← getS;
  fileIds ← liftO (rangeScan_loop fuel (cc_toc s) (bloomKeyHash indexId) 0 U64_MAX (TocEntry now 0 0 0 0 0) []);
  cc_index_segments fuel os held indexId fileIds [].

(** A new process: the files are there, the caches are empty.  The calls go on being counted,
    so that the environment answers each of them anew. *)
Definition ec_restart (j : Epochs) : Epochs :=
  {| ec_cache := set_paths (ec_cache j) ∅; ec_calls := ec_calls j; ec_objects := ∅; ec_files := ec_files j |}.
Definition cc_restart s : Cached :=
  {| cc_toc := cc_toc s; cc_lastFileId := 0; cc_cache := set_paths (cc_cache s) ∅; cc_calls := cc_calls s; cc_objects := ∅;
     cc_files := cc_files s; cc_beingWritten := ∅ |}.

Context (design : ChainDesign Tx F Ix M) (iregs : list (TypeKey * Ix)) (oregs : list (TypeKey * F)) (tregs : list (Z * FactoryFunc M Tx)).

Definition fs_restart b : Backend := reopen design (set_journal b (ec_restart (journal b))) (cc_restart (catalog b).1, []).

(** A new data directory. *)
Definition fs_new (config : BlockchainConfig) (dataDir : string) : Backend :=
  openBackend config true {| lastBlockTimestamp := 0; currentBlockHeight := 0 |}
    {| ec_cache := newCache (dataDir +:+ "/epochs/") 32; ec_calls := 0; ec_objects := ∅; ec_files := ∅ |}
    design (cc_openCatalog (dataDir +:+ "/catalog") bt_empty ∅, []) (BlockTimestampTracker.openTracker bt_empty).

Abbreviation calls_of := (calls_of (M:=M) (attached_regs iregs) oregs).
Abbreviation calls_at := (calls_at (M:=M) (attached_regs iregs) oregs).

(** The tasks that have not written their segment, and those between their sections. *)
Definition cc_unwritten ts : list cc_task := filter (fun t => ct_stored t = false) ts.
Definition cc_half_done ts : list cc_task := filter (fun t => ct_stored t = true) ts.

(** The backend, the commits it has made, the segments that will never be written, and those that
    are written while the process ended before their task had updated the TOC.  A commit returns, whatever the pool is doing, or throws: before the block is in the journal, or when
    the catalog refuses one of the segments, the first that has not become a task.  A query
    opens epoch files, and a reader a catalog file; a task runs one of its sections; a write
    fails; the process ends, wherever its tasks are, and a new one starts. *)
Inductive fs_step : Backend * list commit * list entry_args * list entry_args -> Backend * list commit * list entry_args * list entry_args -> Prop :=
| fs_addBlock ans (env : commit_env W) txs st b xs lost limbo n b' :
    (forall i, 1 <= wa_now2 (ans i) < U64_MAX) -> ec_fits newFile enc (journal b) (map block_of xs) (e_millis env, txs) -> in_u64 (e_millis env) ->
    Z.of_nat (length xs) < U64_MAX -> Z.of_nat (length txs) < 4294967296 ->
    Backend.newStateOverride b = Ret st -> Forall args_ok (calls_at (length xs) (env, st, txs)) ->
    addBlock (M:=M) (SegmentSink0:=cached_sink ans) env txs b = (Ret n, b') ->
    fs_step (b, xs, lost, limbo) (b', if n =? -1 then xs else xs ++ [(env, st, txs)], lost, limbo)
| fs_addBlock_throws ans (env : commit_env W) txs st b xs lost limbo e b' :
    (forall i, 1 <= wa_now2 (ans i) < U64_MAX) -> ec_fits newFile enc (journal b) (map block_of xs) (e_millis env, txs) -> in_u64 (e_millis env) ->
    Z.of_nat (length xs) < U64_MAX -> Z.of_nat (length txs) < 4294967296 ->
    Backend.newStateOverride b = Ret st -> Forall args_ok (calls_at (length xs) (env, st, txs)) ->
    addBlock (M:=M) (SegmentSink0:=cached_sink ans) env txs b = (Throw e, b') ->
    fs_step (b, xs, lost, limbo) (if getBlockHeight b' =? getBlockHeight b then (b', xs, lost, limbo)
      else (b', xs ++ [(env, st, txs)], drop (length (catalog b').2 - length (catalog b).2) (calls_at (length xs) (env, st, txs)) ++ lost, limbo))
| fs_getBlock bn b xs lost limbo : 0 <= bn -> fs_step (b, xs, lost, limbo) ((getBlock bn b).2, xs, lost, limbo)
| fs_window fuel startMillis endMillis b xs lost limbo : in_u64 startMillis -> startMillis <= endMillis -> (length xs < fuel)%nat ->
    fs_step (b, xs, lost, limbo) ((getTransactionsByTimeWindow fuel startMillis endMillis b).2, xs, lost, limbo)
| fs_reader os id b xs lost limbo s ts r s' : catalog b = (s, ts) -> cc_getCatalogFile os (map ct_file ts) id s = (Ret r, s') ->
    fs_step (b, xs, lost, limbo) (set_catalog b (s', ts), xs, lost, limbo)
| fs_store b xs lost limbo s ts i t t' s' : catalog b = (s, ts) -> ts !! i = Some t -> ct_stored t = false -> cc_task_store t s = (Ret t', s') ->
    fs_step (b, xs, lost, limbo) (set_catalog b (s', <[i := t']> ts), xs, lost, limbo)
| fs_store_fail b xs lost limbo s ts i t e s' : catalog b = (s, ts) -> ts !! i = Some t -> ct_stored t = false -> cc_task_store t s = (Throw e, s') ->
    fs_step (b, xs, lost, limbo) (set_catalog b (s', delete i ts), xs, ct_args t :: lost, limbo)
| fs_index b xs lost limbo s ts i t s' : catalog b = (s, ts) -> ts !! i = Some t -> ct_stored t = true -> cc_task_index t s = (Ret tt, s') ->
    fs_step (b, xs, lost, limbo) (set_catalog b (s', delete i ts), xs, lost, limbo)
| fs_end b xs lost limbo s ts : catalog b = (s, ts) ->
    fs_step (b, xs, lost, limbo) (fs_restart b, xs, map ct_args (cc_unwritten ts) ++ lost, map ct_args (cc_half_done ts) ++ limbo).

(** ** The catalog *)

(** The catalog behind its cache is one by ids, with the history [l], and [limbo] what earlier
    processes have left between the sections of their tasks. *)
Definition cc_log s ts limbo l : Prop := exists c ats zs, cc_rep valid s ts c ats /\ cat_holds c ats zs l /\ limbo = map tk_args zs.

Lemma cc_rep_args s ts c ats : cc_rep valid s ts c ats ->
  map ct_args (cc_unwritten ts) = map tk_args (unwritten ats) /\ map ct_args (cc_half_done ts) = map tk_args (half_done ats).
Proof.
  intros Hr. pose proof (rep_tasks _ _ _ _ _ Hr) as Ht. unfold cc_unwritten, cc_half_done, unwritten, half_done. clear -Ht.
  induction Ht as [|t at' ts ats (E & _ & E2 & _) _ [IH1 IH2]]; [done|]. rewrite !filter_cons, E2.
  split; case_decide; cbn [map]; congruence.
Qed.

Lemma cc_log_step s ts l s' ts' limbo l' : cc_step (s, ts, l) (s', ts', l') -> cc_log s ts limbo l -> cc_log s' ts' limbo l'.
Proof.
  intros Hs (c & ats & zs & Hr & Hh & Hz). pose proof Hh as (_ & Hi & _).
  destruct (cc_step_sim pq_sort valid slots capacity_after cc_clock cc_pointers slots_law pointers_law pq_sort_law _ _ c ats Hs Hr (ci_toc _ _ Hi)) as (c' & ats' & Hrun & Hr').
  exists c', ats', zs. split; [exact Hr'|]. split; [exact (holds_steps pq_sort pq_sort_law _ _ zs Hrun Hh)|done].
Qed.

(** The segments of one commit, up to the first that is refused. *)
Lemma cached_submit ans calls s ts limbo l r x : (forall i, 1 <= wa_now2 (ans i) < U64_MAX) -> cc_log s ts limbo l ->
  Forall args_ok calls -> NoDup (map ea_key calls) -> (forall a, a ∈ calls -> ea_key a ∉ map ea_key l) ->
  submit_all (SegmentSink0:=cached_sink ans) calls (s, ts) = (r, x) ->
  exists k, length x.2 = (length ts + k)%nat /\ cc_log x.1 x.2 limbo (reverse (take k calls) ++ l) /\
    match r with Ret _ => k = length calls | Throw _ => True | _ => False end.
Proof.
  intros Hnow. revert s ts l. induction calls as [|a calls IH]; intros s ts l Hl Hok Hnd Hnew.
  { intros [= <- <-]. exists 0%nat. split; [cbn; lia|done]. }
  apply Forall_cons in Hok as [Ha Hok]. cbn [map] in Hnd. apply NoDup_cons in Hnd as [Hna Hnd].
  cbn [submit_all foldr]. unfold mbind, prog_bind. cbn [cat_writeSegment cached_sink].
  destruct Hl as (c & ats & zs & Hr & Hh & Hz). pose proof Hh as (_ & Hi & Hl). rewrite (rep_toc _ _ _ _ _ Hr). set (w := ans (length ts)).
  destruct (cc_write_rep pq_sort valid slots capacity_after cc_clock cc_pointers slots_law pointers_law pq_sort_law _ (wa_open w)
    (wa_now1 w) (wa_now2 w) (wa_errno w) a s ts c ats Hr (ci_toc _ _ Hi) (Nat.lt_succ_diag_r _))
    as (canOpen & s1 & c1 & _ & [(t & at' & -> & Hw & Hr1)|(e & -> & Hw & Hr1)]).
  - assert (fresh_call a c ats) as Hfr by (apply (fresh_ts c ats zs), (log_fresh c (ats ++ zs) l a Hl), Hnew; left).
    pose proof (step_submit pq_sort _ _ _ _ _ a c ats l at' c1 (Nat.lt_succ_diag_r _) (Hnow (length ts)) Ha Hfr Hw) as Hstep.
    apply (holds_step pq_sort pq_sort_law _ _ zs) in Hstep; [|exact Hh]. cbn [fst snd] in Hstep.
    intros Hs. destruct (IH s1 (ts ++ [t]) (a :: l)) as (k & Hk & Hlog & Hres); try done.
    + by exists c1, (ats ++ [at']), zs.
    + intros a' Hb. cbn [map]. rewrite not_elem_of_cons. split; [|apply Hnew; by right].
      intros He. apply Hna. rewrite <- He. by apply (list_elem_of_fmap_2 ea_key).
    + exists (S k). split; [rewrite Hk, length_app; cbn; lia|]. split; [|destruct r; try done; cbn; lia].
      cbn [take]. by rewrite reverse_cons, <- (assoc_L (++)).
  - pose proof (step_refuse pq_sort _ _ _ _ _ a c ats l e c1 (Nat.lt_succ_diag_r _) (Hnow (length ts)) Hw) as Hstep.
    apply (holds_step pq_sort pq_sort_law _ _ zs) in Hstep; [|exact Hh]. cbn [fst snd] in Hstep.
    intros [= <- <-]. exists 0%nat. split; [cbn; lia|]. split; [|done]. by exists c1, ats, zs.
Qed.

(** A new process finds the same catalog, without the tasks that had not written, and what those
    between their sections have stored. *)
Lemma cc_log_restart s ts limbo l : cc_log s ts limbo l ->
  exists l', cc_log (cc_restart s) [] (map ct_args (cc_half_done ts) ++ limbo) l' /\ l ≡ₚ l' ++ map ct_args (cc_unwritten ts).
Proof.
  intros (c & ats & zs & Hr & Hh & ->). destruct (cc_rep_args _ _ _ _ Hr) as [-> ->].
  exists (survivors (unwritten ats) l). split; [|by eapply drop_unwritten].
  exists (crashed c), [], (half_done ats ++ zs). split; [|split; [by apply holds_killed|by rewrite map_app]]. split; cbn.
  - apply Hr.
  - done.
  - intros id. rewrite (rep_files _ _ _ _ _ Hr). by rewrite (fullOf_root s (cc_restart s)).
  - intros f p Hp. cbn in Hp. by rewrite lookup_empty in Hp.
  - constructor.
  - intros a Ha. by apply elem_of_empty in Ha.
  - intros id. split; [by intros ?%elem_of_empty|by intros (a & ?%elem_of_empty & _)].
Qed.

(** ** Reading *)

(** Every file has fuel enough, and an id that the clock has passed. *)
Definition cc_readable (fuel : nat) (now : Z) s : Prop :=
  (length (bt_elems (cc_toc s)) < fuel)%nat /\
  forall id f, cc_files s !! fullOf s id = Some f -> (length (bt_elems (segmentIndex f)) < fuel)%nat /\ id <= now.

Lemma cc_readable_rep fuel now s ts c ats : cc_rep valid s ts c ats -> cc_readable fuel now s -> readable fuel now c.
Proof.
  intros Hr [Ht Hf]. split; [split|].
  - by rewrite <- (rep_toc _ _ _ _ _ Hr).
  - intros id f. rewrite (rep_files _ _ _ _ _ Hr). apply Hf.
  - intros id. rewrite (rep_files _ _ _ _ _ Hr). intros [f H']. by eapply Hf.
Qed.

(** The walk through the cache finds what the walk by ids does, whatever it evicts. *)
Lemma cc_index_segments_rep fuel os ix ids acc s ts c ats : cc_rep valid s ts c ats -> (forall id, os_opens valid os (fullOf s id) = true) ->
  (cc_index_segments fuel os (map ct_file ts) ix ids acc s).1 = index_segments (M:=M) fuel c ix ids acc.
Proof.
  revert acc s. induction ids as [|id ids IH]; intros acc s Hr Hos; [done|]. cbn [cc_index_segments index_segments].
  pose proof (getCatalogFile_rep valid slots capacity_after cc_clock cc_pointers slots_law pointers_law os id s ts c ats Hr (Hos id)) as Hg.
  destruct (cc_getCatalogFile os (map ct_file ts) id s) as [r s1] eqn:Ho.
  destruct (cc_open_rep _ _ _ _ _ slots_law pointers_law _ _ _ _ _ _ _ _ _ Hr Ho) as (o & -> & Hr1 & Hroot & _ & _ & _ & Hres).
  assert (created o id c = c) as Hc by (destruct o as [a|]; [|done]; destruct Hres as (_ & [|] & _); [done|by apply created_existing]).
  rewrite Hc in Hr1. assert (forall id, os_opens valid os (fullOf s1 id) = true) as Hos1 by (intros id'; rewrite (fullOf_root s s1) by done; apply Hos).
  rewrite (prog_bind_Ret _ _ _ o s1) by exact Ho. destruct (files c !! id) as [f|].
  - destruct Hg as (a & s2 & [= -> ->] & Hf). rewrite (prog_bind_Ret getS _ _ s2 s2) by done. unfold liftO, mbind, prog_bind. rewrite Hf. cbn [deref snd].
    destruct (forEachSegment _ _ _ _ _ _ _) as [acc'| | |]; [|done..]. by apply IH.
  - destruct Hg as (s2 & [= -> ->]). by apply IH.
Qed.

Lemma cc_read_index_rep fuel now os ix s ts c ats : cc_rep valid s ts c ats -> (forall id, os_opens valid os (fullOf s id) = true) ->
  (cc_read_index fuel now os (map ct_file ts) ix s).1 = read_index (M:=M) fuel now c ix.
Proof.
  intros Hr Hos. unfold cc_read_index, read_index. rewrite (prog_bind_Ret getS _ _ s s) by done. unfold rangeScan. cbn zeta.
  rewrite (rep_toc _ _ _ _ _ Hr). unfold liftO, mbind, prog_bind. destruct (rangeScan_loop _ _ _ _ _ _ _) as [ids| | |]; [|done..].
  by eapply cc_index_segments_rep.
Qed.

(** ** The chain *)

Context (apply_layout : forall ks (w : W) st tx, has_layout ks st -> has_layout ks (applied (M:=M) w st tx)).
Context (Hdesign : registers design iregs oregs tregs) (Hfit : design_fits iregs oregs).
Context (Hdec : j_decodes (J:=Epochs) (M:=M) (registerTypes emptyTypeRegistry tregs)).
Abbreviation backend_rep := (backend_rep (attached_regs iregs) oregs).

Definition fs_inv (x : Backend * list commit * list entry_args * list entry_args) : Prop :=
  let '(b, xs, lost, limbo) := x in
  backend_rep b (map block_of xs) /\ exists l, cc_log (catalog b).1 (catalog b).2 limbo l /\ calls_of xs ≡ₚ l ++ lost.

Lemma ec_restart_rep (j : Epochs) (blocks : list (Z * list Tx)) : ec_rep enc j blocks -> ec_rep enc (ec_restart j) blocks.
Proof.
  intros [_ Hr]. split; [intros f p Hp; cbn in Hp; by rewrite lookup_empty in Hp|]. destruct Hr as [H1 H2]. split; [done|].
  intros e He. rewrite (fullName_root j (ec_restart j)) by done. by apply H2.
Qed.

Lemma set_catalog_rep b y bs : backend_rep b bs -> backend_rep (set_catalog b y) bs.
Proof. intros Hr. by apply (backend_rep_same _ _ b); [..|apply Hr|apply Hr| | |]. Qed.

(** A query changes the journal only, by opening files. *)
Lemma getBlock_catalog bn b : catalog (getBlock bn b).2 = catalog b.
Proof. unfold getBlock. destruct (_ <=? _); [done|]. by destruct (j_readBlock _ _ _). Qed.

Lemma window_catalog fuel startMillis endMillis b bs : backend_rep b bs -> in_u64 startMillis -> startMillis <= endMillis -> (length bs < fuel)%nat ->
  exists j, (getTransactionsByTimeWindow fuel startMillis endMillis b).2 = set_journal b j /\ backend_rep (set_journal b j) bs.
Proof.
  intros [Hr Hl] H1 H2 H3. destruct (window_query_chain _ _ b bs [] fuel startMillis endMillis Hr H1 H2 H3) as (bns & j & -> & Hr' & _).
  exists j. split; [done|]. by split.
Qed.

(** A call of [addBlock] that throws has done nothing, or put the block into the journal and
    submitted some of its segments. *)
Lemma addBlock_Throw `{!SegmentSink (Cached * list cc_task)} (env : commit_env W) txs b bs e b' : backend_rep b bs ->
  ec_fits newFile enc (journal b) bs (e_millis env, txs) -> in_u64 (e_millis env) -> Z.of_nat (length bs) < U64_MAX ->
  addBlock env txs b = (Throw e, b') ->
  b' = b \/ backend_rep b' (bs ++ [(e_millis env, txs)]) /\
    exists st, Backend.newStateOverride b = Ret st /\
      submit_all (commit_calls (M:=M) (attached_regs iregs) oregs env st txs (Z.of_nat (length bs))) (catalog b) = (Throw e, catalog b').
Proof.
  intros Hr Hfits Hms Hlen. destruct (tooEarly (Backend.config b) (Z.of_nat (length txs)) (duration_of env b)) as [early|e'| |] eqn:He;
    [|unfold addBlock, mbind, prog_bind, getS, liftO; fold (duration_of env b); rewrite He; (done || (intros [= <- <-]; by left))..].
  destruct early; [unfold addBlock, mbind, prog_bind, getS, liftO; fold (duration_of env b); by rewrite He|].
  destruct (newStateOverride_wired (attached_regs iregs) oregs b) as (st & Hs & _); [apply (cr_wired _ _ _ _ _ (br_chain _ _ _ _ Hr))|].
  destruct (verify_loop (e_verify env) st txs) as [v|e'| |] eqn:Hv;
    [|unfold addBlock, mbind, prog_bind, getS, liftO; fold (duration_of env b); rewrite He, Hs, Hv; (done || (intros [= <- <-]; by left))..].
  destruct (submit_all (commit_calls (M:=M) (attached_regs iregs) oregs env st txs (Z.of_nat (length bs))) (catalog b)) as [r c'] eqn:Hc.
  destruct (addBlock_run (attached_regs iregs) oregs apply_layout b bs [] env txs st v r c' (br_chain _ _ _ _ Hr) He Hs Hv Hfits Hms Hlen Hc)
    as (b1 & Hr1 & Hts & Hcat & ->). destruct r as [[]|e'| |]; try done; [by destruct (duration_of env b =? 0)|]. intros [= <- <-]. right.
  split; [by apply backend_rep_snoc|]. exists st. split; [done|]. by rewrite Hcat.
Qed.

(** The segments of block [length xs] are new. *)
Lemma fs_submit ans xs lost limbo x st l s ts r y : (forall i, 1 <= wa_now2 (ans i) < U64_MAX) -> cc_log s ts limbo l -> calls_of xs ≡ₚ l ++ lost ->
  Forall args_ok (calls_at (length xs) x) -> st = calls_at (length xs) x -> submit_all (SegmentSink0:=cached_sink ans) st (s, ts) = (r, y) ->
  exists k l', length y.2 = (length ts + k)%nat /\ cc_log y.1 y.2 limbo l' /\ calls_of (xs ++ [x]) ≡ₚ l' ++ drop k st ++ lost /\
    match r with Ret _ => drop k st = [] | Throw _ => True | _ => False end.
Proof.
  intros Hnow Hl Hp Hok -> Hsub. destruct (cached_submit ans _ s ts limbo l r y Hnow Hl Hok) as (k & Hk & Hlog & Hres).
  - apply calls_at_keys.
  - intros a Hin Hk. apply (calls_new (M:=M) (attached_regs iregs) oregs xs _ a Hin). rewrite Hp, map_app. apply elem_of_app. by left.
  - exact Hsub.
  - exists k, (reverse (take k (calls_at (length xs) x)) ++ l). split; [done|]. split; [done|]. split.
    + rewrite (calls_of_snoc (M:=M) (attached_regs iregs) oregs xs), Hp, reverse_Permutation.
      rewrite <- (take_drop k (calls_at (length xs) x)) at 1. solve_Permutation.
    + destruct r; try done. apply drop_ge. lia.
Qed.

Lemma fs_addBlock_inv ans (env : commit_env W) txs st b xs lost limbo n b' : fs_inv (b, xs, lost, limbo) ->
  (forall i, 1 <= wa_now2 (ans i) < U64_MAX) -> ec_fits newFile enc (journal b) (map block_of xs) (e_millis env, txs) -> in_u64 (e_millis env) ->
  Z.of_nat (length xs) < U64_MAX -> Z.of_nat (length txs) < 4294967296 ->
  Backend.newStateOverride b = Ret st -> Forall args_ok (calls_at (length xs) (env, st, txs)) ->
  addBlock (M:=M) (SegmentSink0:=cached_sink ans) env txs b = (Ret n, b') ->
  fs_inv (b', if n =? -1 then xs else xs ++ [(env, st, txs)], lost, limbo).
Proof.
  intros (Hr & l & Hl & Hp) Hnow Hfits Hms Hlen Htx Hs Hok Ha.
  destruct (addBlock_Ret (SegmentSink0:=cached_sink ans) oregs apply_layout env (attached_regs iregs) txs b (map block_of xs) n b' Hr Hfits Hms)
    as [[-> ->]|(-> & _ & Hr' & s' & Hs' & Hsub)]; [by rewrite length_map|done|done|split; [done|]; by exists l|].
  assert (s' = st) as -> by congruence. rewrite length_map in *. destruct (Z.eqb_spec (Z.of_nat (length xs)) (-1)); [lia|].
  destruct (catalog b) as [s ts] eqn:Hc. cbn [fst snd] in *. split; [rewrite map_app; exact Hr'|].
  destruct (fs_submit ans xs lost limbo (env, st, txs) _ l s ts _ _ Hnow Hl Hp Hok eq_refl Hsub) as (k & l' & _ & Hl' & Hp' & E).
  exists l'. split; [done|]. by rewrite E in Hp'.
Qed.

Lemma fs_addBlock_throws_inv ans (env : commit_env W) txs st b xs lost limbo e b' : fs_inv (b, xs, lost, limbo) ->
  (forall i, 1 <= wa_now2 (ans i) < U64_MAX) -> ec_fits newFile enc (journal b) (map block_of xs) (e_millis env, txs) -> in_u64 (e_millis env) ->
  Z.of_nat (length xs) < U64_MAX -> Backend.newStateOverride b = Ret st -> Forall args_ok (calls_at (length xs) (env, st, txs)) ->
  addBlock (M:=M) (SegmentSink0:=cached_sink ans) env txs b = (Throw e, b') ->
  fs_inv (if getBlockHeight b' =? getBlockHeight b then (b', xs, lost, limbo)
    else (b', xs ++ [(env, st, txs)], drop (length (catalog b').2 - length (catalog b).2) (calls_at (length xs) (env, st, txs)) ++ lost, limbo)).
Proof.
  intros Hi Hnow Hfits Hms Hlen Hs Hok Ha. pose proof Hi as (Hr & l & Hl & Hp).
  destruct (addBlock_Throw (SegmentSink0:=cached_sink ans) env txs b (map block_of xs) e b' Hr Hfits Hms)
    as [->|(Hr' & s' & Hs' & Hsub)]; [by rewrite length_map|done|by rewrite Z.eqb_refl|].
  assert (s' = st) as -> by congruence. unfold getBlockHeight. rewrite (br_height _ _ b _ Hr), (br_height _ _ b' _ Hr'), length_app, length_map in *.
  destruct (Z.eqb_spec (Z.of_nat (length xs + length [(e_millis env, txs)])) (Z.of_nat (length xs))) as [E|_]; [cbn in E; lia|].
  destruct (catalog b) as [s ts] eqn:Hc. cbn [fst snd] in *. split; [rewrite map_app; exact Hr'|].
  destruct (fs_submit ans xs lost limbo (env, st, txs) _ l s ts _ _ Hnow Hl Hp Hok eq_refl Hsub) as (k & l' & Hk & Hl' & Hp' & _).
  exists l'. split; [done|]. rewrite Hk. by replace (length ts + k - length ts)%nat with k by lia.
Qed.

Lemma fs_catalog_inv b xs lost limbo y lost' : fs_inv (b, xs, lost, limbo) ->
  (forall l, cc_log (catalog b).1 (catalog b).2 limbo l -> exists l', cc_log y.1 y.2 limbo l' /\ l ++ lost ≡ₚ l' ++ lost') ->
  fs_inv (set_catalog b y, xs, lost', limbo).
Proof.
  intros (Hr & l & Hl & Hp) Hy. split; [by apply set_catalog_rep|]. destruct (Hy l Hl) as (l' & Hl' & Hp'). exists l'. split; [done|]. by rewrite Hp.
Qed.

(** The call of a task is in the history. *)
Lemma cc_log_task s ts limbo l i t : cc_log s ts limbo l -> ts !! i = Some t -> l ≡ₚ filter (fun a => ea_key a <> ea_key (ct_args t)) l ++ [ct_args t].
Proof.
  intros (c & ats & zs & Hr & (_ & _ & Hl) & _) Ht. destruct (Forall2_lookup_l _ _ _ _ _ (rep_tasks _ _ _ _ _ Hr) Ht) as (at' & Hat & Ea & _).
  apply drop_call; [apply (cl_keys _ _ _ Hl)|]. rewrite Ea. apply (cl_tasks _ _ _ Hl), elem_of_app. left. by eapply list_elem_of_lookup_2.
Qed.

Lemma fs_restart_inv b xs lost limbo s ts : fs_inv (b, xs, lost, limbo) -> catalog b = (s, ts) ->
  fs_inv (fs_restart b, xs, map ct_args (cc_unwritten ts) ++ lost, map ct_args (cc_half_done ts) ++ limbo).
Proof.
  intros (Hr & l & Hl & Hp) Hc. rewrite Hc in Hl. cbn [fst snd] in Hl. split.
  - apply (reopen_backend design iregs oregs tregs Hdesign Hfit Hdec). destruct Hr as [Hr Hlast]. split; [|done].
    apply set_journal_chain; [done|]. apply (ec_restart_rep (journal b)), Hr.
  - destruct (cc_log_restart s ts limbo l Hl) as (l' & Hl' & Hpl). exists l'. cbn. rewrite Hc. split; [done|].
    rewrite Hp, Hpl at 1. by rewrite <- (assoc_L (++)).
Qed.

Lemma fs_step_inv x y : fs_step x y -> fs_inv x -> fs_inv y.
Proof.
  intros Hs Hi. destruct Hs as [ans env txs st b xs lost limbo n b' H1 H2 H3 H4 H5 H6 H7 H8|ans env txs st b xs lost limbo e b' H1 H2 H3 H4 H5 H6 H7 H8|bn b xs lost limbo Hbn|fuel st en b xs lost limbo H1 H2 H3|
    os id b xs lost limbo s ts r s' Hc Ho|b xs lost limbo s ts i t t' s' Hc Ht Hst Hw|b xs lost limbo s ts i t e s' Hc Ht Hst Hw|b xs lost limbo s ts i t s' Hc Ht Hst Hw|
    b xs lost limbo s ts Hc].
  - by eapply fs_addBlock_inv.
  - by eapply fs_addBlock_throws_inv.
  - destruct Hi as (Hr & l & Hl & Hp). destruct (getBlock bn b) as [r b'] eqn:Hg. pose proof (getBlock_catalog bn b) as Hc. rewrite Hg in Hc.
    cbn [snd] in Hc |- *. destruct (getBlock_at _ _ b (map block_of xs) bn r b' Hr Hbn Hg) as [_ Hr']. split; [done|]. exists l. by rewrite Hc.
  - destruct Hi as (Hr & l & Hl & Hp). destruct (window_catalog fuel st en b _ Hr H1 H2) as (j & -> & Hr'); [by rewrite length_map|].
    split; [done|]. by exists l.
  - apply (fs_catalog_inv b xs lost); [done|]. intros l Hl. rewrite Hc in Hl. exists l. split; [|done].
    eapply cc_log_step; [by eapply cc_step_read|exact Hl].
  - apply (fs_catalog_inv b xs lost); [done|]. intros l Hl. rewrite Hc in Hl. exists l. split; [|done].
    eapply cc_log_step; [by eapply cc_step_store|exact Hl].
  - apply (fs_catalog_inv b xs lost); [done|]. intros l Hl. rewrite Hc in Hl. exists (filter (fun a => ea_key a <> ea_key (ct_args t)) l). split.
    + eapply cc_log_step; [by eapply cc_step_store_fail|exact Hl].
    + rewrite (cc_log_task s ts limbo l i t Hl Ht) at 1. by rewrite <- (assoc_L (++)).
  - apply (fs_catalog_inv b xs lost); [done|]. intros l Hl. rewrite Hc in Hl. exists l. split; [|done].
    eapply cc_log_step; [by eapply cc_step_index|exact Hl].
  - by eapply fs_restart_inv.
Qed.

Lemma fs_steps_inv x y : rtc fs_step x y -> fs_inv x -> fs_inv y.
Proof. induction 1; [done|]. intros Hi. apply IHrtc. by eapply fs_step_inv. Qed.

Lemma fs_new_inv cfg dataDir : fs_inv (fs_new cfg dataDir, [], [], []).
Proof.
  pose proof (bt_empty_elems (cmp:=BlockTimestampTracker.compare) (T:=T)) as Ht.
  pose proof (bt_empty_elems (cmp:=Catalog.compare) (T:=TT)) as Htoc. split.
  - split; [|done]. split; cbn; try done.
    + by eapply openBackend_wiring.
    + split; [intros f p Hp; cbn in Hp; by rewrite lookup_empty in Hp|]. split; [done|]. intros e _.
      cbn. rewrite lookup_empty. unfold epoch_of. by rewrite drop_nil, take_nil.
    + by rewrite (reg_types _ _ _ _ Hdesign).
    + split; unfold bt_wf; cbn; rewrite Ht; constructor.
    + unfold BlockTimestampTracker.entries; cbn. by rewrite Ht.
  - exists []. split; [|done]. exists (openCatalog bt_empty ∅), [], []. split; [|split; [split; [constructor|split]|done]].
    + apply cc_open_catalog_rep. intros id. by rewrite !lookup_empty.
    + apply open_inv; [split; unfold bt_wf; rewrite Htoc; constructor| |]; intros *; by rewrite lookup_empty.
    + apply empty_log.
Qed.

(** C3: the program as a whole, with every layer behind its cache of open files, does what the
    layers do on plain files.  For any design, from a new data directory and after any run of
    commits that return or throw (with the pool at work), queries, readers, writes that succeed
    or fail, ends of the process between two calls, wherever the tasks of the pool are then, and
    new starts, whatever the caches evict and reopen: every block reads back, and whenever the
    pool is idle the walk of an index over the catalog files returns exactly the segments its
    family sealed and that were not lost with a task, byte for byte, each under its block,
    except for some of those in limbo, written by a task that a process left before it had
    updated the TOC. *)
Theorem full_stack cfg dataDir b xs lost limbo :
  rtc fs_step (fs_new cfg dataDir, [], [], []) (b, xs, lost, limbo) ->
  getBlockHeight b = Z.of_nat (length xs) /\
  (forall i x, xs !! i = Some x -> (getBlock (Z.of_nat i) b).1 = Ret x.2) /\
  (forall a, a ∈ lost \/ a ∈ limbo -> a ∈ calls_of xs) /\
  (forall s fuel now os ix, catalog b = (s, []) -> cc_readable fuel now s -> (forall id, os_opens valid os (fullOf s id) = true) ->
     exists segs (missed : list entry_args), (cc_read_index fuel now os [] ix s).1 = Ret segs /\ (forall a, a ∈ missed -> a ∈ limbo) /\
       forall n p, (n, p) ∈ segs <->
         (exists a, a ∈ calls_of xs /\ (a ∉ lost) /\ (a ∉ missed) /\ ea_indexId a = ix /\ ea_startBlock a = n /\ ea_content a = p)).
Proof.
  intros Hs. pose proof (fs_steps_inv _ _ Hs (fs_new_inv cfg dataDir)) as (Hr & l & Hlog & Hp).
  split; [unfold getBlockHeight; by rewrite (br_height _ _ b _ Hr), length_map|]. split; [|split].
  - intros i x Hx. destruct (getBlock_spec _ _ b (map block_of xs) i (block_of x) Hr) as (b' & -> & _); [|done].
    exact (eq_trans (list_lookup_fmap block_of xs i) (f_equal (fmap block_of) Hx)).
  - intros a Ha. rewrite Hp. apply elem_of_app. destruct Ha as [|Ha]; [by right|left].
    destruct Hlog as (c & ats & zs & _ & (_ & _ & Hl) & ->). apply list_elem_of_fmap in Ha as (z & -> & Hz).
    apply (cl_tasks _ _ _ Hl), elem_of_app. by right.
  - intros s fuel now os ix Hc Hrd Hos. rewrite Hc in Hlog. destruct Hlog as (c & ats & zs & Hrep & Hl & ->). cbn [fst snd] in Hrep.
    assert (ats = []) as -> by (pose proof (rep_tasks _ _ _ _ _ Hrep) as Ht; by inversion Ht).
    change [] with (map ct_file []). rewrite (cc_read_index_rep fuel now os ix s [] c [] Hrep Hos).
    exact (index_reads_history fast_hash newFd newRegions iregs oregs c zs l xs lost fuel now ix Hl Hp (cc_readable_rep _ _ _ _ _ _ Hrep Hrd)).
Qed.
End FullStack.

(** ** A run of the test design: a block, its segment, a new process, and a block whose segment is lost *)
#[local] Existing Instance BlockTimestampTracker.tracker_BTree.
#[local] Existing Instance BlockTimestampTracker.tracker_BTreeLaws.
#[local] Existing Instance tb_Index.
#[local] Existing Instance seg_BTree.
#[local] Existing Instance seg_BTreeLaws.
#[local] Existing Instance toc_BTree.
#[local] Existing Instance toc_BTreeLaws.
#[local] Existing Instance sc_file_impl.

#[local] Instance fx_Journal : Journal (EpochCache (M:=bytemap) (Fd:=Z)) bytemap TestTransaction :=
  fs_Journal (W:=TestWorld) (F:=TestSumOverrideFamily) (fun _ => true) map_to_list (fun _ n => n) Z.of_nat (fun _ _ => 1) sample_os sample_newFile one_more_mb.

Definition fx_chain : Type :=
  Backend TestTransaction TestSumOverrideFamily TestSumIndex bytemap (EpochCache (M:=bytemap) (Fd:=Z))
    (CachedCatalog (T:=list catalog_contents_entry_t) (CF:=sample_file_t) (Fd:=Z) * list cc_task) (list BlockTimestampTracker.block_timestamp_entry_t).
Definition fx_answers (now : Z) (n : nat) : write_answers Z := {| wa_now1 := now; wa_now2 := now; wa_errno := ""; wa_open := cc_os |}.
Abbreviation fx_step := (fs_step (H:=Z) no_hash (Bytemap 4096 0 ∅) [] in_order (fun _ => true) map_to_list (fun _ n => n) Z.of_nat Z.of_nat
  (fun _ _ => 1) (fun _ _ => 0) sample_os sample_newFile one_more_mb tt_enc (testDesign 0) tb_design_indexes tb_oregs).

Definition fx_commit (millis : Z) (txs : list TestTransaction) (b : fx_chain) : outcome Z * fx_chain :=
  addBlock (M:=bytemap) (SegmentSink0:=cached_sink (M:=bytemap) no_hash (Bytemap 4096 0 ∅) [] in_order (fun _ => true) map_to_list (fun _ n => n) Z.of_nat
    (fun _ _ => 0) (fx_answers millis)) (tb_env millis) txs b.

(** The two sections of the only task of the pool. *)
Definition fx_store (b : fx_chain) : fx_chain :=
  match catalog b with
  | (s, t :: ts) => match cc_task_store t s with (Ret t, s) => set_catalog b (s, t :: ts) | _ => b end
  | _ => b
  end.
Definition fx_index (b : fx_chain) : fx_chain :=
  match catalog b with (s, t :: ts) => set_catalog b ((cc_task_index t s).2, ts) | _ => b end.

Definition fx0 : fx_chain := fs_new (testDesign 0) defaultConfig "data".
Definition fx1 : fx_chain := (fx_commit T1 sc_txs1 fx0).2.
Definition fx2 : fx_chain := fx_index (fx_store fx1).
Definition fx3 : fx_chain := fs_restart (testDesign 0) fx2.
Definition fx4 : fx_chain := (fx_commit T2 sc_txs2 fx3).2.
Definition fx5 : fx_chain := fs_restart (testDesign 0) fx4.

Example fx_results : (fx_commit T1 sc_txs1 fx0).1 = Ret 0 /\ (fx_commit T2 sc_txs2 fx3).1 = Ret 1 /\
  (getBlock 0 fx5).1 = Ret sc_txs1 /\ (getBlock 1 fx5).1 = Ret sc_txs2 /\
  (cc_read_index (M:=bytemap) no_hash (Bytemap 4096 0 ∅) [] (fun _ => true) map_to_list (fun _ n => n) Z.of_nat (fun _ _ => 0) 9 T2 cc_os [] 0 (catalog fx5).1).1
    = Ret [(0, int_bytes 105 ++ int_bytes 5)].
Proof. vm_compute. done. Qed.

Definition fx_one : list (commit TestTransaction TestWorld TestSumOverrideFamily) := [(tb_env T1, tb_fresh, sc_txs1)].
Definition fx_commits : list (commit TestTransaction TestWorld TestSumOverrideFamily) := fx_one ++ [(tb_env T2, tb_fresh, sc_txs2)].
Definition fx_lost : list entry_args := map ct_args (catalog fx4).2.

(** A commit of the test design from its premises. *)
Lemma fx_add millis (b b' : fx_chain) xs lost limbo txs n :
  1 <= millis < U64_MAX -> ec_fits sample_newFile tt_enc (journal b) (map block_of xs) (millis, txs) ->
  Backend.newStateOverride (W:=TestWorld) b = Ret tb_fresh ->
  Z.of_nat (length xs) < 4294967296 -> Z.of_nat (length txs) < 4294967296 -> txs <> [] -> n <> -1 ->
  fx_commit millis txs b = (Ret n, b') -> fx_step (b, xs, lost, limbo) (b', xs ++ [(tb_env millis, tb_fresh, txs)], lost, limbo).
Proof.
  intros Hm Hf Hs Hx Ht Hne Hn Ha.
  pose proof (fs_addBlock (H:=Z) no_hash (Bytemap 4096 0 ∅) [] in_order (fun _ => true) map_to_list (fun _ n => n) Z.of_nat Z.of_nat
    (fun _ _ => 1) (fun _ _ => 0) sample_os sample_newFile one_more_mb tt_enc (testDesign 0) tb_design_indexes tb_oregs
    (fx_answers millis) (tb_env millis) txs tb_fresh b xs lost limbo n b') as Hstep.
  destruct (Z.eqb_spec n (-1)) as [|_]; [done|]. apply Hstep; try done.
  - cbn. word.
  - word.
  - unfold calls_at. cbn [fst snd]. rewrite sum_commit_calls by done. constructor; [|constructor].
    unfold args_ok, ea_length. cbn [ea_content ea_indexId ea_startBlock ea_mergeGeneration]. rewrite length_app, !length_int_bytes. word.
Qed.

Lemma fx_first : fx_step (fx0, [], [], []) (fx1, fx_one, [], []).
Proof.
  apply (fx_add T1 fx0 fx1 [] [] [] sc_txs1 0).
  - unfold T1. word.
  - repeat split; by_compute.
  - vm_compute. reflexivity.
  - cbn. lia.
  - cbn. lia.
  - discriminate.
  - discriminate.
  - unfold fx1. apply (pair_fst (fx_commit T1 sc_txs1 fx0) (Ret 0)). vm_compute. reflexivity.
Qed.

(** The task of the first block, in its two sections. *)
Lemma fx_stored : fx_step (fx1, fx_one, [], []) (fx_store fx1, fx_one, [], []).
Proof.
  unfold fx_store. assert (exists s t t' s', catalog fx1 = (s, [t]) /\ ct_stored t = false /\ cc_task_store t s = (Ret t', s')) as (s & t & t' & s' & Hc & Ht & Hw).
  { do 4 eexists. split; [vm_compute; reflexivity|]. split; vm_compute; reflexivity. }
  rewrite Hc, Hw. exact (fs_store (H:=Z) no_hash (Bytemap 4096 0 ∅) [] in_order (fun _ => true) map_to_list (fun _ n => n) Z.of_nat Z.of_nat
    (fun _ _ => 1) (fun _ _ => 0) sample_os sample_newFile one_more_mb tt_enc (testDesign 0) tb_design_indexes tb_oregs
    fx1 fx_one [] [] s [t] 0 t t' s' Hc eq_refl Ht Hw).
Qed.

Lemma fx_indexed : fx_step (fx_store fx1, fx_one, [], []) (fx2, fx_one, [], []).
Proof.
  unfold fx2, fx_index. assert (exists s t s', catalog (fx_store fx1) = (s, [t]) /\ ct_stored t = true /\ cc_task_index t s = (Ret tt, s')) as (s & t & s' & Hc & Ht & Hw).
  { do 3 eexists. split; [vm_compute; reflexivity|]. split; vm_compute; reflexivity. }
  rewrite Hc, Hw. exact (fs_index (H:=Z) no_hash (Bytemap 4096 0 ∅) [] in_order (fun _ => true) map_to_list (fun _ n => n) Z.of_nat Z.of_nat
    (fun _ _ => 1) (fun _ _ => 0) sample_os sample_newFile one_more_mb tt_enc (testDesign 0) tb_design_indexes tb_oregs
    (fx_store fx1) fx_one [] [] s [t] 0 t s' Hc eq_refl Ht Hw).
Qed.

Lemma fx_second : fx_step (fx3, fx_one, [], []) (fx4, fx_commits, [], []).
Proof.
  apply (fx_add T2 fx3 fx4 fx_one [] [] sc_txs2 1).
  - unfold T2. word.
  - repeat split; by_compute.
  - vm_compute. reflexivity.
  - cbn. lia.
  - cbn. lia.
  - discriminate.
  - discriminate.
  - unfold fx4. apply (pair_fst (fx_commit T2 sc_txs2 fx3) (Ret 1)). vm_compute. reflexivity.
Qed.

Lemma fx_ends (b : fx_chain) xs lost limbo lost' limbo' : map ct_args (cc_unwritten (catalog b).2) = lost' -> map ct_args (cc_half_done (catalog b).2) = limbo' ->
  fx_step (b, xs, lost, limbo) (fs_restart (testDesign 0) b, xs, lost' ++ lost, limbo' ++ limbo).
Proof.
  intros <- <-. exact (fs_end (H:=Z) no_hash (Bytemap 4096 0 ∅) [] in_order (fun _ => true) map_to_list (fun _ n => n) Z.of_nat Z.of_nat
    (fun _ _ => 1) (fun _ _ => 0) sample_os sample_newFile one_more_mb tt_enc (testDesign 0) tb_design_indexes tb_oregs
    b xs lost limbo _ _ (surjective_pairing _)).
Qed.

Lemma fx_run : rtc fx_step (fx0, [], [], []) (fx5, fx_commits, fx_lost, []).
Proof.
  eapply rtc_l; [exact fx_first|]. eapply rtc_l; [exact fx_stored|]. eapply rtc_l; [exact fx_indexed|].
  eapply rtc_l; [exact (fx_ends fx2 fx_one [] [] [] [] ltac:(vm_compute; reflexivity) ltac:(vm_compute; reflexivity))|].
  eapply rtc_l; [exact fx_second|]. rewrite <- (app_nil_r fx_lost).
  apply rtc_once. exact (fx_ends fx4 fx_commits [] [] fx_lost [] ltac:(vm_compute; reflexivity) ltac:(vm_compute; reflexivity)).
Qed.

(** The segment of the first block, and that of the second, which was lost. *)
Definition fx_kept : entry_args :=
  {| ea_indexId := 0; ea_version := 1; ea_mergeGeneration := 0; ea_startBlock := 0; ea_endBlock := 1; ea_content := int_bytes 105 ++ int_bytes 5 |}.

Lemma fx_calls : exists a, calls_of (M:=bytemap) tb_iregs tb_oregs fx_commits = [fx_kept; a] /\ fx_lost = [a] /\ ea_startBlock a = 1.
Proof.
  eexists. split; [|split].
  - unfold calls_of, fx_commits, fx_one. cbn [app imap]. unfold calls_at. cbn [fst snd concat app]. rewrite !sum_commit_calls by discriminate.
    vm_compute. reflexivity.
  - vm_compute. reflexivity.
  - reflexivity.
Qed.

Lemma fx_readable : cc_readable 9 T2 (catalog fx5).1.
Proof.
  split; [vm_compute; lia|]. intros id f Hf.
  assert (map_Forall (fun name g => (length (bt_elems (segmentIndex g)) < 9)%nat /\ name = ("data/catalog/" +:+ idToFilename T1)%string) (cc_files (catalog fx5).1)) as Hall by by_compute.
  destruct (Hall _ _ Hf) as [Hlen Hname]. split; [exact Hlen|]. rewrite fullOf_eq in Hname.
  change (root (cc_cache (catalog fx5).1)) with "data/catalog/"%string in Hname.
  apply (inj (String.append _)), idToFilename_inj in Hname. subst id. unfold T1, T2. lia.
Qed.

Lemma one_more_law (m : bytemap) : mm_size m <= mm_size (one_more_mb m) /\ forall i, 0 <= i < mm_size m -> mm_byte (one_more_mb m) i = mm_byte m i.
Proof. cbn. split; [lia|done]. Qed.

(** Both blocks are there, and of the two segments that of the first. *)
Lemma full_stack_witness :
  getBlockHeight fx5 = 2 /\ (getBlock 0 fx5).1 = Ret sc_txs1 /\ (getBlock 1 fx5).1 = Ret sc_txs2 /\
  exists segs, (cc_read_index (M:=bytemap) no_hash (Bytemap 4096 0 ∅) [] (fun _ => true) map_to_list (fun _ n => n) Z.of_nat (fun _ _ => 0)
      9 T2 cc_os [] 0 (catalog fx5).1).1 = Ret segs /\
    ((0, int_bytes 105 ++ int_bytes 5) ∈ segs) /\ (forall p, ((1, p) ∉ segs)).
Proof.
  destruct (full_stack (H:=Z) no_hash (Bytemap 4096 0 ∅) [] in_order (fun _ => reflexivity _) (fun _ => true) map_to_list (fun _ n => n) Z.of_nat Z.of_nat
    (fun _ _ => 1) (fun _ _ => 0) sample_os sample_newFile one_more_mb tt_enc (fun _ => reflexivity _) (fun _ _ => Z.le_refl 0)
    (fun n path => ex_intro _ (Z.of_nat n) (conj eq_refl eq_refl)) one_more_law (testDesign 0) tb_design_indexes tb_oregs _ tb_apply_layout
    (testDesign_registers 0) tb_design_fits (tt_codec 0 emptyTypeRegistry) defaultConfig "data" fx5 fx_commits fx_lost [] fx_run) as (Hh & Hb & _ & Hread).
  split; [exact Hh|]. split; [exact (Hb 0%nat _ eq_refl)|]. split; [exact (Hb 1%nat _ eq_refl)|].
  destruct (Hread (catalog fx5).1 9%nat T2 cc_os 0 eq_refl fx_readable (fun _ => eq_refl)) as (segs & missed & Hs & Hm & Hin).
  exists segs. split; [exact Hs|]. destruct fx_calls as (a & Hc & Hl & Ha).
  change (attached_regs tb_design_indexes) with tb_iregs in Hin. rewrite Hc, Hl in Hin. split.
  - apply Hin. exists fx_kept. split; [left|]. split; [|split; [|split; [reflexivity|split; reflexivity]]].
    + intros He%list_elem_of_singleton. subst a. discriminate Ha.
    + intros He%Hm. by apply not_elem_of_nil in He.
  - intros p (c & Hin' & Hn & _ & _ & Hst & _)%Hin. apply elem_of_cons in Hin' as [->|Hin']; [discriminate Hst|exact (Hn Hin')].
Defined.
