(* ===== verification/Drain.v ===== *)
(** * Drain

    The builder thread over many passes (src/src/blockchain/BlockchainFrontend.cpp,
    [blockBuilderLoop]): the mempool drains.  How much room the journal needs for that is
    stated through its interface and shown for an epoch file of a given size. *)

From Stdlib Require Import SpecFloat.
From S2P Require Import Prelude Excessive Memory Transaction Registry StateOverride TestChainDesign MEVBuilder.
From S2P Require Import EpochFile EpochCapacity Journal CatalogFile Backend BackendCorrect Frontend TestBackend Progress Crash Ledger.
From S2P Require BlockTimestampTracker.

(** ** Room for what is pending *)

Section Headroom.
Context {Tx M J : Type} `{!Journal J M Tx, !JournalLaws J M Tx}.

(** The next [k] blocks find room, however they are drawn from [pool]. *)
Fixpoint headroom (k : nat) (j : J) (blocks : list (Z * list Tx)) (pool : list Tx) : Prop :=
  match k with
  | O => True
  | S k => forall ms txs rest, in_u64 ms -> txs <> [] -> pool ≡ₚ txs ++ rest ->
      j_fits j blocks (ms, txs) /\
      forall j', j_appendBlock j (Z.of_nat (length blocks)) ms txs = Ret j' -> headroom k j' (blocks ++ [(ms, txs)]) rest
  end.

Lemma headroom_perm k j blocks pool pool' : pool ≡ₚ pool' -> headroom k j blocks pool -> headroom k j blocks pool'.
Proof. destruct k as [|k]; [done|]. intros Hp H ms txs rest Hms Hne Hr. apply H; [done|done|]. by rewrite Hp. Qed.

Lemma headroom_le k n j blocks pool : (n <= k)%nat -> headroom k j blocks pool -> headroom n j blocks pool.
Proof.
  revert n j blocks pool. induction k as [|k IH]; intros [|n] j blocks pool Hn H; try (done || lia).
  intros ms txs rest Hms Hne Hp. destruct (H ms txs rest Hms Hne Hp) as [Hf Hn']. split; [done|].
  intros j' Hj. apply IH; [lia|by apply Hn'].
Qed.
End Headroom.

(** An epoch file has headroom as long as the pages of the blocks stay below its end. *)
Section EpochHeadroom.
Context {Tx W St M : Type} `{!MmapHandle M, !MmapLaws M, !Transaction Tx W St M}.
Context (newFile : string -> M) (enc : Tx -> list Z) `{!TransactionEncoding enc}.
Let opens (name : string) : bool := true.
#[local] Instance eh_Journal : Journal (gmap string M) M Tx := EpochFiles_Journal newFile opens.
#[local] Instance eh_JournalLaws : JournalLaws (gmap string M) M Tx := EpochFiles_JournalLaws newFile opens enc (fun _ => eq_refl).

Definition pool_bytes (txs : list Tx) : Z := Z.of_nat (length (enc_all enc txs)).

Lemma pool_bytes_app txs1 txs2 : pool_bytes (txs1 ++ txs2) = pool_bytes txs1 + pool_bytes txs2.
Proof. unfold pool_bytes, enc_all. rewrite map_app, concat_app, length_app. lia. Qed.

Lemma pool_bytes_perm txs1 txs2 : txs1 ≡ₚ txs2 -> pool_bytes txs1 = pool_bytes txs2.
Proof.
  induction 1 as [|x l1 l2 _ IH|x y l|l1 l2 l3 _ IH1 _ IH2]; [done| | |congruence].
  - change (x :: l1) with ([x] ++ l1). change (x :: l2) with ([x] ++ l2). by rewrite !pool_bytes_app, IH.
  - change (y :: x :: l) with ([y] ++ [x] ++ l). change (x :: y :: l) with ([x] ++ [y] ++ l). rewrite !pool_bytes_app. lia.
Qed.

Lemma block_len_bytes ms txs : block_len enc (ms, txs) = 64 + pool_bytes txs.
Proof. unfold block_len, block_bytes, pool_bytes. cbn [fst snd]. rewrite length_app, length_block_header. lia. Qed.

(** The open file of the current epoch, with its blocks packed. *)
Definition open_file (fs : gmap string M) (blocks : list (Z * list Tx)) (m : M) : Prop :=
  fs !! nameOf (length blocks / bpe) = Some m /\ packed enc m (epoch_of blocks (length blocks / bpe)).

Lemma next_same_epoch n : (n mod bpe + 1 < bpe)%nat -> (S n / bpe = n / bpe)%nat /\ (S n mod bpe = n mod bpe + 1)%nat.
Proof.
  intros H. pose proof bpe_pos. pose proof (Nat.div_mod_eq n bpe).
  split; symmetry; [apply (Nat.div_unique _ _ _ (n mod bpe + 1))|apply (Nat.mod_unique _ _ (n / bpe))]; lia.
Qed.

(** Appending a block to it. *)
Lemma open_file_append fs blocks m blk : files_rep enc fs blocks -> open_file fs blocks m ->
  (length blocks mod bpe + 1 < bpe)%nat -> Z.of_nat (S (length blocks)) < MAX_HEIGHT ->
  room enc m (boff m (length blocks mod bpe)) blk -> Z.of_nat (length blk.2) <= U16_MAX ->
  let e := (length blocks / bpe)%nat in
  let m' := appendBlock m (Z.of_nat (length blocks)) blk.1 blk.2 in
  (length (blocks ++ [blk]) / bpe = e)%nat /\ (length (blocks ++ [blk]) mod bpe = length blocks mod bpe + 1)%nat /\
  open_file (<[nameOf e := m']> fs) (blocks ++ [blk]) m' /\ mm_size m' = mm_size m /\
  used enc (epoch_of (blocks ++ [blk]) e) = used enc (epoch_of blocks e) + space enc blk.
Proof.
  intros [_ Hrep] [Hm Hp] Hmod Hmax Hroom Htx e m'. destruct (next_same_epoch _ Hmod) as [He1 He2].
  assert (length (blocks ++ [blk]) = S (length blocks)) as HS by (rewrite length_app; cbn; lia).
  assert (Z.of_nat (length blocks) < MAX_HEIGHT) as Hmax' by lia. specialize (Hrep e (bn_epoch _ Hmax')). cbn beta in Hrep. fold e in Hm.
  rewrite Hm in Hrep. assert (length (epoch_of blocks e) = (length blocks mod bpe)%nat) as Hlen by apply length_next_epoch.
  assert (Z.of_nat (length blocks) mod BLOCKS_PER_EPOCH = Z.of_nat (length (epoch_of blocks e))) as Hbn by (by rewrite mod_bpe, Hlen).
  assert (Z.of_nat (length (epoch_of blocks e)) < BLOCKS_PER_EPOCH) as Hlt by (rewrite Hlen, <- bpe_Z; lia).
  assert (0 <= Z.of_nat (length blocks) < U64_MAX) as Hbn2 by (unfold MAX_HEIGHT, BLOCKS_PER_EPOCH, U64_MAX in *; lia).
  rewrite <- Hlen in Hroom. unfold open_file. rewrite HS, He1, He2. fold e. rewrite !epoch_snoc, !decide_True by done.
  split; [done|]. split; [done|]. split; [split; [by rewrite lookup_insert_eq|by apply packed_append]|]. split; [|apply used_snoc].
  pose proof (er_offset enc m _ Hrep _ (le_n _) Hlt) as [Hoff _].
  by destruct (appendBlock_effect enc m _ _ blk Hbn Hbn2 Hoff Hroom Htx) as (Hs & _).
Qed.

Lemma epoch_headroom k fs blocks pool m : files_rep enc fs blocks -> open_file fs blocks m ->
  (length blocks mod bpe + k < bpe)%nat -> Z.of_nat (length blocks + k) < MAX_HEIGHT ->
  firstBlockOffset <= mm_size (newFile (nameOf (length blocks / bpe))) ->
  Z.of_nat (length pool) <= U16_MAX ->
  let need := used enc (epoch_of blocks (length blocks / bpe)) + 4159 * Z.of_nat k + pool_bytes pool in
  need <= mm_size m -> need <= U32_MAX - 4095 -> headroom k fs blocks pool.
Proof.
  revert fs blocks pool m. induction k as [|k IH]; intros fs blocks pool m Hr [Hm Hp] Hk Hmax Hnew Htx need Hs1 Hs2; [done|]. subst need.
  intros ms txs rest Hms Hne Hperm. set (n := length blocks) in *. set (e := (n / bpe)%nat) in *.
  pose proof bpe_pos as Hbpe. pose proof (Nat.div_mod_eq n bpe) as Hdm.
  assert (length (epoch_of blocks e) = (n mod bpe)%nat) as Hlen by apply length_next_epoch.
  assert (epochName (Z.of_nat n) = nameOf e) as Hname by (apply epochName_nameOf; lia).
  assert (Z.of_nat (length (epoch_of blocks e)) < BLOCKS_PER_EPOCH) as Hlt by (rewrite Hlen, <- bpe_Z; lia).
  rewrite (pool_bytes_perm _ _ Hperm), pool_bytes_app in Hs1, Hs2. pose proof (Permutation_length Hperm) as Hpl. rewrite length_app in Hpl.
  pose proof (space_bounds enc (ms, txs)) as Hsp. rewrite block_len_bytes in Hsp.
  assert (0 <= pool_bytes txs /\ 0 <= pool_bytes rest) as Hpos by (unfold pool_bytes; lia).
  assert (room enc m (boff m (n mod bpe)) (ms, txs)) as Hroom.
  { rewrite <- Hlen. apply (packed_room enc m _ (ms, txs) Hp Hlt). rewrite block_len_bytes. lia. }
  assert (j_fits fs blocks (ms, txs)) as Hfits.
  { cbn. unfold files_fit. fold n. rewrite Hname, Hm, getBlockOffset_nat. cbn [default from_option id snd]. split; [lia|]. split; [done|]. split; [lia|done]. }
  split; [done|]. intros fs' Ha. destruct (files_append newFile opens enc fs blocks (ms, txs) Hr Hfits) as (fs2 & Ha2 & Hr2). cbn [fst snd] in Ha2.
  fold n in Ha2. change (journal_append newFile opens fs (Z.of_nat n) ms txs = Ret fs') in Ha. rewrite Ha in Ha2. injection Ha2 as <-.
  assert (fs' = <[nameOf e := appendBlock m (Z.of_nat n) ms txs]> fs) as ->.
  { revert Ha. unfold journal_append, getEpochFile, mbind, prog_bind, getS. cbn [opens negb]. fold n. rewrite Hname, Hm. by intros [= <-]. }
  destruct (open_file_append fs blocks m (ms, txs) Hr (conj Hm Hp)) as (He & Hmod & Hopen & Hsz & Hused); [fold n; lia|fold n; lia|done|cbn; lia|].
  fold n e in He, Hmod, Hopen, Hsz, Hused. cbn [fst snd] in Hopen, Hsz.
  apply (IH _ _ _ _ Hr2 Hopen); rewrite ?He, ?Hmod, ?Hused, ?Hsz, ?length_app; cbn [length]; fold n; try done; lia.
Qed.
End EpochHeadroom.

(** ** Many passes *)

Section Drain.
Context {Tx W F Ix M J C T : Type}.
Context `{!MmapHandle M, !FileMapping M}.
Context `{!IndexOverrideFamily F W Ix, !BlockchainIndex Ix, !Transaction Tx W (StateOverride F) M}.
Context `{!Journal J M Tx, !SegmentSink C, !BTree BlockTimestampTracker.block_timestamp_entry_t T}.
Abbreviation Backend := (Backend Tx F Ix M J C T).
Abbreviation Frontend := (Frontend Tx F).

(** What a pass of the loop meets. *)
Record pass_input := { pi_now : nat -> Z; pi_millis : Z; pi_world : W; pi_env : commit_env W }.

(** [n] passes, from the [i]-th on. *)
Fixpoint builder_passes (fuel : nat) (config : BlockchainConfig) (p : nat -> pass_input) (n i : nat) (fe : Frontend) (b : Backend) :
    outcome Frontend * Backend :=
  match n with
  | O => (Ret fe, b)
  | S n =>
      match builder_pass (M:=M) fuel (pi_now (p i)) (pi_millis (p i)) (pi_world (p i)) (pi_env (p i)) config fe b with
      | (Ret fe, b) => builder_passes fuel config p n (S i) fe b
      | failed => failed
      end
  end.

Definition worthwhile (w : W) (s : StateOverride F) (tx : Tx) : bool := SFleb (S754_zero false) (value (M:=M) w s tx).

(** A commit leaves the journal that the append has made, a header that counts the block, and the
    settings. *)
Lemma addBlock_keeps (env : commit_env W) txs (b b' : Backend) n : addBlock env txs b = (Ret n, b') -> n <> -1 ->
  j_appendBlock (journal b) (currentBlockHeight (header b)) (e_millis env) txs = Ret (journal b') /\ Backend.config b' = Backend.config b /\
  header b' = {| lastBlockTimestamp := e_millis env; currentBlockHeight := currentBlockHeight (header b) + 1 |}.
Proof.
  unfold addBlock. rewrite (prog_bind_Ret getS _ _ b b) by done. cbn beta zeta. fold (duration_of env b).
  set (d := duration_of env b). unfold liftO, mbind, prog_bind.
  destruct (tooEarly (Backend.config b) (Z.of_nat (length txs)) d) as [[|]| | |]; try done; [by intros [= <- _]|].
  destruct (newStateOverride b); try done. destruct (verify_loop (e_verify env) _ txs); try done.
  rewrite writeBlock_run. destruct (j_appendBlock (journal b) _ (e_millis env) txs) as [j| | |]; try done.
  unfold getS. cbn zeta beta iota. set (b1 := indexed _ _ _ _). destruct (newStateOverride b1); try done. unfold on_catalog.
  destruct (sealOverrideToSegments b1 _ _ _ _) as [r c]. destruct r; try done. destruct (logThroughput _ d); try done.
  unfold modifyS, mret, prog_ret. intros [= _ <-] _. done.
Qed.

Lemma greedy_run_first (w : W) (s : StateOverride F) pool idxs sel : greedy_run (M:=M) w s pool idxs sel -> sel <> [] ->
  exists tx, tx ∈ pool /\ worthwhile w s tx = true.
Proof.
  induction 1 as [|idxs sel i tx Hr IH Hp]; [done|]. intros _. destruct sel as [|tx0 sel]; [|by apply IH].
  destruct Hp as (Hi & _ & Hv & _). exists tx. split; [by eapply list_elem_of_lookup_2|]. by inversion Hr; subst.
Qed.

Lemma keep_none (l : list Tx) : keep [] l = l.
Proof.
  unfold keep. generalize 0%nat. induction l as [|x l IH]; intros n; [done|]. cbn. by rewrite decide_False, IH by apply not_elem_of_nil.
Qed.

(** A pass that finds nothing worth committing does nothing. *)
Lemma builder_pass_idle fuel now millis (w : W) (env : commit_env W) config (fe : Frontend) (b : Backend) s :
  (length (mempool fe) < fuel)%nat -> newStateOverride b = Ret s -> Forall (fun tx => worthwhile w s tx = false) (mempool fe) ->
  builder_pass (M:=M) fuel now millis w env config fe b = (Ret fe, b).
Proof.
  intros Hf Hs Hw. unfold builder_pass, build_section. destruct (0 <? length (mempool fe))%nat; [|done]. rewrite Hs. cbn.
  destruct (buildBlock_spec (M:=M) fuel now w s (mempool fe) (u16 (targetThroughput config)) (u64 (millis + 10)))
    as (sel & idxs & -> & Hr & _); [apply u16_range|done|].
  destruct sel as [|tx0 sel].
  - destruct (greedy_run_facts _ _ _ _ _ Hr) as [_ ->%Forall2_nil_inv_r]. cbn. rewrite keep_none. by destruct fe.
  - destruct (greedy_run_first _ _ _ _ _ Hr) as (tx & Htx & Hv); [done|]. rewrite Forall_forall in Hw. by rewrite Hw in Hv.
Qed.

Context `{!JournalLaws J M Tx, !BTreeLaws BlockTimestampTracker.compare}.
Context (iregs : list (TypeKey * Ix)) (oregs : list (TypeKey * F)).
Context (apply_layout : forall ks (w : W) s tx, has_layout ks s -> has_layout ks (applied (M:=M) w s tx)).
Context (accepts : forall a (c : C), exists c', cat_writeSegment a c = (Ret tt, c')).
Context (fuel : nat) (config : BlockchainConfig) (p : nat -> pass_input).
Context (Hcap : 0 < u16 (targetThroughput config) <= MAX_TX_PER_BLOCK).

(** The clock at the [i]-th pass; between ten minutes and an hour go by from each to the next. *)
Definition clock (i : nat) : Z := e_millis (pi_env (p i)).
Context (last_pass : nat) (Hms : forall i, (i <= last_pass)%nat -> in_u64 (clock i)).
Context (Hclock : forall i, (i < last_pass)%nat -> 600000 <= clock (S i) - clock i <= 3600000).

(** What holds before the [i]-th pass. *)
Record ready (i : nat) (fe : Frontend) (b : Backend) (blocks : list (Z * list Tx)) : Prop := {
  rd_rep : backend_rep iregs oregs b blocks;
  rd_last : (i + length (mempool fe) <= last_pass)%nat;
  rd_fuel : (length (mempool fe) < fuel)%nat;
  rd_config : in_u32 (targetBlockTimeMs (Backend.config b)) /\ in_u32 (targetThroughput (Backend.config b));
  rd_clock : 600000 <= clock i - lastBlockTimestamp (header b) <= 3600000;
  rd_height : Z.of_nat (length blocks) + Z.of_nat (length (mempool fe)) < U64_MAX;
  rd_room : headroom (length (mempool fe)) (journal b) blocks (mempool fe);
  rd_verify : forall i s txs, txs ⊆+ mempool fe -> exists v, verify_loop (M:=M) (e_verify (pi_env (p i))) s txs = Ret v;
}.

Lemma ready_pass i fe b blocks s tx : ready i fe b blocks -> newStateOverride b = Ret s -> tx ∈ mempool fe -> worthwhile (pi_world (p i)) s tx = true ->
  exists toBuild fe' b', builder_pass (M:=M) fuel (pi_now (p i)) (pi_millis (p i)) (pi_world (p i)) (pi_env (p i)) config fe b = (Ret fe', b') /\
    toBuild <> [] /\ mempool fe ≡ₚ toBuild ++ mempool fe' /\ ready (S i) fe' b' (blocks ++ [(clock i, toBuild)]).
Proof.
  intros [Hr Hlast Hf [Hc1 Hc2] Hcl Hh Hroom Hver] Hs Htx Hv.
  assert (0 < length (mempool fe))%nat as Hpos by (destruct (mempool fe); [by apply not_elem_of_nil in Htx|cbn; lia]).
  pose proof (Hms i ltac:(lia)) as Hmsi.
  assert (duration_of (pi_env (p i)) b = clock i - lastBlockTimestamp (header b)) as Hd.
  { unfold duration_of. fold (clock i). apply u64_small. unfold in_u64, U64_MAX. lia. }
  destruct (builder_pass_commits (M:=M) iregs oregs apply_layout accepts config b blocks fe tx s fuel (pi_now (p i)) (pi_millis (p i)) (pi_world (p i)) (pi_env (p i)))
    as (sel & fe' & b' & s' & Hpass & Hne & Hperm & Hr' & Hadd & _); try done; [by rewrite Hd|lia| |].
  { intros txs Hne Hsub. split; [|by apply Hver]. apply submseteq_Permutation in Hsub as [rest Hp]. destruct (length (mempool fe)); [lia|].
    by apply (Hroom (clock i) txs rest). }
  exists sel, fe', b'. split; [done|]. split; [done|]. split; [done|].
  destruct (addBlock_keeps _ _ _ _ _ Hadd) as (Hj & Hcfg & _); [lia|]. rewrite (br_height _ _ b blocks Hr) in Hj.
  pose proof (Permutation_length Hperm) as Hl. rewrite length_app in Hl.
  assert (1 <= length sel)%nat as Hsel by (destruct sel; [done|cbn; lia]). split.
  - done.
  - lia.
  - lia.
  - by rewrite Hcfg.
  - rewrite (br_last _ _ b' _ Hr'), last_snoc. cbn. fold (clock i). pose proof (Hclock i ltac:(lia)). lia.
  - rewrite length_app. cbn. lia.
  - destruct (length (mempool fe)) as [|k] eqn:Hk; [lia|]. apply (headroom_le k); [lia|]. by eapply (Hroom (clock i)).
  - intros i' s1 txs Hsub. apply Hver. rewrite Hperm. by apply submseteq_inserts_l.
Qed.

(** Until nothing is worth committing, every pass takes something out of the mempool. *)
Lemma drains k : forall i fe b blocks, (length (mempool fe) <= k)%nat -> ready i fe b blocks ->
  exists n new fe' b' s', builder_passes fuel config p n i fe b = (Ret fe', b') /\ (n <= k)%nat /\
    length new = n /\ Forall (fun blk => blk.2 <> []) new /\ mempool fe ≡ₚ all_txs new ++ mempool fe' /\
    backend_rep iregs oregs b' (blocks ++ new) /\ newStateOverride b' = Ret s' /\
    Forall (fun tx => worthwhile (pi_world (p (i + n))) s' tx = false) (mempool fe') /\ (length (mempool fe') < fuel)%nat.
Proof.
  induction k as [|k IH]; intros i fe b blocks Hk Hrd;
    (destruct (newStateOverride_wired (W:=W) iregs oregs b) as (s & Hs & _); [apply (cr_wired _ _ _ _ _ (br_chain _ _ _ _ (rd_rep _ _ _ _ Hrd)))|]).
  - destruct (mempool fe) as [|tx l] eqn:Hm; [|cbn in Hk; lia]. exists 0%nat, [], fe, b, s. rewrite Hm, !app_nil_r.
    pose proof (rd_fuel _ _ _ _ Hrd) as Hf. rewrite Hm in Hf. do 4 (split; [done|]). split; [done|]. split; [apply Hrd|]. split; [done|]. by split.
  - destruct (decide (Exists (fun tx => worthwhile (pi_world (p i)) s tx = true) (mempool fe))) as [Hex|Hno].
    + apply Exists_exists in Hex as (tx & Htx & Hv).
      destruct (ready_pass i fe b blocks s tx Hrd Hs Htx Hv) as (sel & fe1 & b1 & Hpass & Hne & Hperm & Hrd1).
      pose proof (Permutation_length Hperm) as Hl. rewrite length_app in Hl. assert (1 <= length sel)%nat by (destruct sel; [done|cbn; lia]).
      destruct (IH (S i) fe1 b1 _ ltac:(lia) Hrd1) as (n & new & fe' & b' & s' & Hrun & Hn & Hnew & Hnes & Hp & Hr' & Hs' & Hw & Hf).
      exists (S n), ((clock i, sel) :: new), fe', b', s'. cbn [builder_passes]. rewrite Hpass. split; [done|]. split; [lia|].
      split; [cbn; by rewrite Hnew|]. split; [by constructor|]. split; [|split; [by rewrite <- app_assoc in Hr'|]].
      * rewrite Hperm, Hp. unfold all_txs. cbn. by rewrite app_assoc.
      * split; [done|]. by rewrite Nat.add_succ_r.
    + exists 0%nat, [], fe, b, s. rewrite !app_nil_r, Nat.add_0_r. split; [done|]. split; [lia|]. do 3 (split; [done|]). split; [apply Hrd|].
      split; [done|]. split; [|apply Hrd]. rewrite <- Forall_Exists_neg in Hno. eapply Forall_impl; [exact Hno|].
      intros tx Hx. by apply not_true_is_false.
Qed.
End Drain.

Section Theorems.
Context {Tx W F Ix M J C T : Type}.
Context `{!MmapHandle M, !FileMapping M}.
Context `{!IndexOverrideFamily F W Ix, !BlockchainIndex Ix, !Transaction Tx W (StateOverride F) M}.
Context `{!Journal J M Tx, !JournalLaws J M Tx, !SegmentSink C}.
Context `{!BTree BlockTimestampTracker.block_timestamp_entry_t T, !BTreeLaws BlockTimestampTracker.compare}.
Context (iregs : list (TypeKey * Ix)) (oregs : list (TypeKey * F)).
Context (apply_layout : forall ks (w : W) s tx, has_layout ks s -> has_layout ks (applied (M:=M) w s tx)).
Context (accepts : forall a (c : C), exists c', cat_writeSegment a c = (Ret tt, c')).

(** C8: the mempool drains.  With passes of the loop ten minutes to an hour apart, a journal with
    room for what is pending and transactions that verify, after at most as many passes as
    there are pending transactions nothing in the mempool is worth committing any more: every
    pass until then has committed a non-empty block, what was pending is now in these blocks
    or still pending, and from then on a pass changes nothing. *)
Theorem mempool_drains config (b : Backend Tx F Ix M J C T) blocks (fe : Frontend Tx F) fuel (p : nat -> pass_input) :
  let k := length (mempool fe) in
  backend_rep iregs oregs b blocks -> (k < fuel)%nat -> 0 < u16 (targetThroughput config) <= MAX_TX_PER_BLOCK ->
  in_u32 (targetBlockTimeMs (Backend.config b)) -> in_u32 (targetThroughput (Backend.config b)) ->
  (forall i, (i <= k)%nat -> in_u64 (clock p i)) -> (forall i, (i < k)%nat -> 600000 <= clock p (S i) - clock p i <= 3600000) ->
  600000 <= clock p 0 - lastBlockTimestamp (header b) <= 3600000 ->
  Z.of_nat (length blocks) + Z.of_nat k < U64_MAX -> headroom k (journal b) blocks (mempool fe) ->
  (forall i s txs, txs ⊆+ mempool fe -> exists v, verify_loop (M:=M) (e_verify (pi_env (p i))) s txs = Ret v) ->
  exists n new fe' b' s', (n <= k)%nat /\ builder_passes fuel config p n 0 fe b = (Ret fe', b') /\
    length new = n /\ Forall (fun blk => blk.2 <> []) new /\ mempool fe ≡ₚ all_txs new ++ mempool fe' /\
    backend_rep iregs oregs b' (blocks ++ new) /\ newStateOverride b' = Ret s' /\
    Forall (fun tx => SFleb (S754_zero false) (value (M:=M) (pi_world (p n)) s' tx) = false) (mempool fe') /\
    forall now millis env, builder_pass fuel now millis (pi_world (p n)) env config fe' b' = (Ret fe', b').
Proof.
  intros k Hr Hf Hcap Hc1 Hc2 Hms Hclock Hcl Hlen Hroom Hver.
  destruct (drains iregs oregs apply_layout accepts fuel config p Hcap k Hms Hclock k 0 fe b blocks (le_n _))
    as (n & new & fe' & b' & s' & Hrun & Hn & Hnew & Hne & Hp & Hr' & Hs' & Hw & Hf'); [by split|].
  exists n, new, fe', b', s'. do 8 (split; [done|]). intros now millis env. by apply (builder_pass_idle _ _ _ _ _ _ _ _ s').
Qed.
End Theorems.

(** ** Two passes on the test design *)

#[local] Existing Instance BlockTimestampTracker.tracker_BTree.
#[local] Existing Instance BlockTimestampTracker.tracker_BTreeLaws.
#[local] Existing Instance tb_Journal.
#[local] Existing Instance tb_JournalLaws.
#[local] Existing Instance tb_Index.
#[local] Existing Instance tb_Sink.
#[local] Existing Instance tb_FileMapping.

Definition dr_pass (i : nat) : pass_input (W:=TestWorld) :=
  {| pi_now := fun _ => 0; pi_millis := 1700000600000 + 600000 * Z.of_nat i; pi_world := tb_world;
     pi_env := tb_env (1700000600000 + 600000 * Z.of_nat i) |}.

Lemma dr_headroom : headroom 3 (journal tb1) tb_blocks tb_pool.
Proof.
  destruct (journal tb1 !! nameOf (length tb_blocks / bpe)) as [m|] eqn:Hm; [|exfalso; revert Hm; vm_compute; discriminate].
  assert (bool_decide (mm_size m = 1048576 /\ boff m 0 = 266240 /\ boff m 1 = 270336) = true) as [Hs [H0 H1]]%bool_decide_eq_true.
  { transitivity (from_option (fun m => bool_decide (mm_size m = 1048576 /\ boff m 0 = 266240 /\ boff m 1 = 270336)) false
      (journal tb1 !! nameOf (length tb_blocks / bpe))); [by rewrite Hm|vm_compute; reflexivity]. }
  assert (epoch_of tb_blocks (length tb_blocks / bpe) = tb_blocks) as He by (vm_compute; reflexivity).
  refine (epoch_headroom sample_newFile tt_enc 3 (journal tb1) tb_blocks tb_pool m tb1_files (conj Hm _) _ _ _ _ _ _); rewrite ?He, ?Hs;
    [|by_compute..]. intros [|[|i]] Hi _; cbn in Hi; [| |lia]; rewrite ?H0, ?H1; vm_compute; reflexivity.
Qed.

Lemma mempool_drains_witness :
  exists n new fe' b' s', (n <= 3)%nat /\ builder_passes (M:=bytemap) 9 tb_config dr_pass n 0 tb_fe tb1 = (Ret fe', b') /\
    length new = n /\ Forall (fun blk => blk.2 <> []) new /\ mempool tb_fe ≡ₚ all_txs new ++ mempool fe' /\
    backend_rep tb_iregs tb_oregs b' (tb_blocks ++ new) /\ newStateOverride b' = Ret s' /\
    Forall (fun tx => SFleb (S754_zero false) (value (M:=bytemap) tb_world s' tx) = false) (mempool fe') /\
    forall now millis env, builder_pass (M:=bytemap) 9 now millis tb_world env tb_config fe' b' = (Ret fe', b').
Proof.
  apply (mempool_drains (M:=bytemap) tb_iregs tb_oregs tb_apply_layout tb_accepts tb_config tb1 tb_blocks tb_fe 9 dr_pass tb1_rep).
  - cbn. lia.
  - by_compute.
  - by_compute.
  - by_compute.
  - intros i Hi. cbn in *. unfold in_u64, U64_MAX. lia.
  - intros i Hi. unfold clock. cbn. lia.
  - by_compute.
  - by_compute.
  - exact dr_headroom.
  - intros i s txs _. apply tb_verifies.
Defined.
