(* ===== verification/Upgrade.v ===== *)
(** * Upgrade

    A chain opened with a design that has grown (src/src/blockchain/BackendRegistry.h: "the
    index of the entry is the persistentTypeId recorded in the on-disk catalog: it survives
    across restarts as long as the application's ChainDesign registers indexes in the same
    order"; ChainDesign.h, BlockchainBackend.cpp). *)

From S2P Require Import Prelude Excessive Memory Transaction Registry StateOverride ChainDesign TestChainDesign.
From S2P Require Import EpochFile Journal CatalogFile Backend BackendCorrect TestBackend Crash.
From S2P Require BlockTimestampTracker.

Section Upgrade.
Context {Tx W F Ix M J C T : Type}.
Context `{!IndexOverrideFamily F W Ix, !BlockchainIndex Ix, !Transaction Tx W (StateOverride F) M}.
Context `{!Journal J M Tx, !JournalLaws J M Tx, !SegmentSink C}.
Context `{!BTree BlockTimestampTracker.block_timestamp_entry_t T, !BTreeLaws BlockTimestampTracker.compare}.
Implicit Types (b : Backend Tx F Ix M J C T) (blocks : list (Z * list Tx)) (iregs : list (TypeKey * Ix)) (oregs : list (TypeKey * F)).

Lemma attached_app iregs imore : attached_regs (iregs ++ imore) =
  attached_regs iregs ++ imap (fun n '(k, ix) => (k, ix_attach (Z.of_nat (length iregs + n)) ix)) imore.
Proof. unfold attached_regs. by rewrite imap_app. Qed.

Lemma attached_keys iregs : fst <$> attached_regs iregs = fst <$> iregs.
Proof. apply list_eq. intros n. unfold attached_regs. rewrite !list_lookup_fmap, list_lookup_imap. by destruct (iregs !! n) as [[]|]. Qed.

Lemma attached_lookup iregs n : attached_regs iregs !! n = (fun '(k, ix) => (k, ix_attach (Z.of_nat n) ix)) <$> iregs !! n.
Proof. unfold attached_regs. by rewrite list_lookup_imap. Qed.

Lemma ids_fit_app_l ks ks' : ids_fit (ks ++ ks') -> ids_fit ks.
Proof. intros H k. specialize (H k). rewrite count_key_app in H. lia. Qed.

Lemma design_fits_app iregs imore oregs omore : design_fits (iregs ++ imore) (oregs ++ omore) -> design_fits iregs oregs.
Proof.
  intros [H1 H2 H3]. rewrite fmap_app in H1. rewrite (fmap_app fst oregs) in H2. rewrite length_app in H3.
  split; [by eapply ids_fit_app_l..|lia].
Qed.

(** The indexes of an opened backend, by position. *)
Lemma opened_index cfg isNew stored (j : J) (d : ChainDesign Tx F Ix M) (c : C) (tr : BlockTimestampTracker.tracker T) iregs oregs tregs n :
  registers d iregs oregs tregs -> design_fits iregs oregs ->
  getIndexAt (indexes (openBackend cfg isNew stored j d c tr)) (Z.of_nat n) = (fun p => ix_attach (Z.of_nat n) p.2) <$> iregs !! n.
Proof.
  intros Hd Hf. destruct (openBackend_wiring cfg isNew stored j d c tr _ _ _ Hd Hf) as (-> & _ & Hfit & _).
  rewrite getIndexAt_nth, attached_lookup by done. by destruct (iregs !! n) as [[]|].
Qed.

Lemma filter_other_types {A} (tm : list (Z * A)) typeId : typeId ∉ tm.*1 -> filter (fun p => p.1 = typeId) tm = [].
Proof.
  induction tm as [|p l IH]; [done|]. rewrite fmap_cons, not_elem_of_cons. intros [Hp Hl].
  rewrite filter_cons_False; [by apply IH|]. intros H. by apply Hp.
Qed.

(** What a chain depends on, when the registrations change too. *)
Lemma chain_rep_rewire iregs oregs iregs2 oregs2 b b2 blocks hidden : chain_rep iregs oregs b blocks hidden ->
  wired iregs2 oregs2 b2 -> j_decodes (txTypes b2) -> currentBlockHeight (header b2) = currentBlockHeight (header b) ->
  journal b2 = journal b -> timestampTracker b2 = timestampTracker b -> chain_rep iregs2 oregs2 b2 blocks hidden.
Proof. intros [] Hw Ht Hh Hj Htr. split; rewrite ?Hh, ?Hj, ?Htr; done. Qed.

Context (d1 d2 : ChainDesign Tx F Ix M) (iregs imore : list (TypeKey * Ix)) (oregs omore : list (TypeKey * F)).
Context (tregs tmore : list (Z * FactoryFunc M Tx)).
Context (Hd1 : registers d1 iregs oregs tregs).

(** C32: a design may grow at the end.  Opened with a design that registers what the old one did and
    then more, a chain keeps its blocks; every index keeps its persistent id, with which its
    segments are stored, and its typed id; the family that seals into it keeps its place; and
    every transaction type not registered anew keeps its factory. *)
Theorem design_grows b blocks hidden c :
  registers d2 (iregs ++ imore) (oregs ++ omore) (tregs ++ tmore) -> design_fits (iregs ++ imore) (oregs ++ omore) ->
  j_decodes (registerTypes emptyTypeRegistry (tregs ++ tmore)) -> chain_rep (attached_regs iregs) oregs b blocks hidden ->
  let b1 := reopen d1 b c in
  let b2 := reopen d2 b c in
  chain_rep (attached_regs (iregs ++ imore)) (oregs ++ omore) b2 blocks hidden /\
  (forall n, (n < length iregs)%nat -> getIndexAt (indexes b2) (Z.of_nat n) = getIndexAt (indexes b1) (Z.of_nat n)) /\
  (forall k id ix, in_u8 id -> index b1 k id = Some ix -> index b2 k id = Some ix) /\
  (forall n s1 s2, (n < length iregs)%nat -> (n < length oregs)%nat -> newStateOverride (W:=W) b1 = Ret s1 -> newStateOverride (W:=W) b2 = Ret s2 ->
     familyAt s2 (Z.of_nat n) = familyAt s1 (Z.of_nat n)) /\
  (forall typeId, typeId ∉ tmore.*1 ->
     getFactory (getTransactionTypeRegistry b2) typeId = getFactory (getTransactionTypeRegistry b1) typeId).
Proof.
  intros Hd2 Hfit2 Hdec Hr b1 b2. pose proof (design_fits_app _ _ _ _ Hfit2) as Hfit1.
  assert (wired (attached_regs iregs) oregs b1) as Hw1 by (by eapply openBackend_wiring).
  assert (wired (attached_regs (iregs ++ imore)) (oregs ++ omore) b2) as Hw2 by (by eapply openBackend_wiring).
  split; [|split; [|split; [|split]]].
  - apply (chain_rep_rewire (attached_regs iregs) oregs _ _ b); [done|done| |done|done|cbn; by destruct (timestampTracker b)].
    cbn. by rewrite (reg_types _ _ _ _ Hd2).
  - intros n Hn. unfold b1, b2, reopen. by rewrite (opened_index _ _ _ _ d2 _ _ _ _ _ _ Hd2), (opened_index _ _ _ _ d1 _ _ _ _ _ _ Hd1), lookup_app_l by done.
  - intros k id ix Hid. unfold index. rewrite (proj1 Hw1), (proj1 Hw2), !getIndex_key, attached_app, of_key_app by done. apply lookup_app_l_Some.
  - intros n s1 s2 Hn Ho H1 H2. destruct (newStateOverride_wired (W:=W) _ _ b1 Hw1) as (s1' & Hs1 & _ & Hf1).
    destruct (newStateOverride_wired (W:=W) _ _ b2 Hw2) as (s2' & Hs2 & _ & Hf2).
    rewrite H1 in Hs1. rewrite H2 in Hs2. injection Hs1 as <-. injection Hs2 as <-.
    destruct (lookup_lt_is_Some_2 oregs n Ho) as [[k f] Hf]. rewrite (Hf1 n k f Hf), (Hf2 n k f) by (by apply lookup_app_l_Some).
    unfold fresh_family. rewrite !attached_lookup, lookup_app_l by done. done.
  - intros typeId Hnew. unfold getTransactionTypeRegistry. cbn. rewrite (reg_types _ _ _ _ Hd2), (reg_types _ _ _ _ Hd1), !registerTypes_getFactory.
    unfold factory_of. rewrite filter_app. replace (filter _ tmore) with (@nil (Z * FactoryFunc M Tx)); [by rewrite app_nil_r|].
    symmetry. by apply filter_other_types.
Qed.
End Upgrade.

(** ** The test design with a second index *)

#[local] Existing Instance BlockTimestampTracker.tracker_BTree.
#[local] Existing Instance BlockTimestampTracker.tracker_BTreeLaws.
#[local] Existing Instance tb_Journal.
#[local] Existing Instance tb_JournalLaws.
#[local] Existing Instance tb_Index.
#[local] Existing Instance tb_Sink.

Definition grownDesign : ChainDesign TestTransaction TestSumOverrideFamily TestSumIndex bytemap := {|
  cd_registerIndexes := fun r => registerIndex (cd_registerIndexes (testDesign 0) r) indexKey newTestSumIndex;
  cd_registerOverrides := fun r => registerOverride (cd_registerOverrides (testDesign 0) r) familyKey newTestSumOverrideFamily;
  cd_registerTransactionTypes := cd_registerTransactionTypes (testDesign 0);
|}.

Lemma grown_registers : registers grownDesign (tb_design_indexes ++ [(indexKey, newTestSumIndex)]) (tb_oregs ++ [(familyKey, newTestSumOverrideFamily)])
  ([(1, createFromMmap 0)] ++ []).
Proof. split; reflexivity. Qed.

Lemma design_grows_witness :
  chain_rep (attached_regs (tb_design_indexes ++ [(indexKey, newTestSumIndex)])) (tb_oregs ++ [(familyKey, newTestSumOverrideFamily)])
    (reopen grownDesign tb1 []) tb_blocks [] /\
  index (reopen grownDesign tb1 []) indexKey 0 = Some {| attachedCatalog := true; attachedIndexId := 0 |}.
Proof.
  destruct (design_grows (testDesign 0) grownDesign tb_design_indexes [(indexKey, newTestSumIndex)] tb_oregs [(familyKey, newTestSumOverrideFamily)]
    [(1, createFromMmap 0)] [] (testDesign_registers 0) tb1 tb_blocks [] [] grown_registers) as (H1 & _ & H3 & _).
  - split; [by apply ids_fit_short; cbn; lia..|cbn; lia].
  - exact (tt_codec 0 emptyTypeRegistry).
  - exact (br_chain _ _ _ _ tb1_rep).
  - split; [exact H1|]. apply H3; [by_compute|]. reflexivity.
Defined.
