(* ===== verification/CommitReads.v ===== *)
(** * CommitReads

    What the application reads while the builder thread is inside [addBlock]
    (src/src/blockchain/BlockchainBackend.cpp): the calls are not excluded from each other, so
    a query may find any of the stages of Crash.v. *)

From S2P Require Import Prelude Excessive Memory Transaction Registry StateOverride ChainDesign TestChainDesign.
From S2P Require Import EpochFile Journal TornAppend CatalogFile Backend BackendCorrect TestBackend Progress Crash Ledger.
From S2P Require BlockTimestampTracker.

Section Files.
Context {Tx W F Ix M C T : Type} `{!MmapHandle M, !MmapLaws M}.
Context `{!IndexOverrideFamily F W Ix, !BlockchainIndex Ix, !Transaction Tx W (StateOverride F) M}.
Context `{!SegmentSink C, !BTree BlockTimestampTracker.block_timestamp_entry_t T}.
Context (newFile : string -> M) (canOpen : string -> bool) (enc : Tx -> list Z) `{!TransactionEncoding enc}.
#[local] Instance cr_Journal : Journal (gmap string M) M Tx := EpochFiles_Journal newFile canOpen.
Abbreviation Backend := (Backend Tx F Ix M (gmap string M) C T).
Implicit Types (b : Backend) (blocks : list (Z * list Tx)).
Context (canOpen_all : forall name, canOpen name = true).

(** The file that the next block goes to. *)
Definition next_epoch_file (fs : gmap string M) (blocks : list (Z * list Tx)) : M :=
  default (openEpoch true (newFile (epochName (Z.of_nat (length blocks))))) (fs !! epochName (Z.of_nat (length blocks))).

(** A block whose header reads as zeros is an empty block. *)
Lemma readBlock_zero (txTypes : TransactionTypeRegistry M Tx) (m : M) bn : getBlockOffset m bn <> 0 ->
  mm_load m (getBlockOffset m bn + off_numTransactions) 2 = [0; 0] -> (readBlock bn txTypes m).1 = Ret [].
Proof.
  intros Ho Hz. unfold readBlock. rewrite (prog_bind_Ret getS _ _ m m) by done. cbn zeta. destruct (Z.eqb_spec (getBlockOffset m bn) 0); [done|].
  by rewrite Hz.
Qed.

(** The blocks in the files are read if the height counts them. *)
Lemma getBlock_files b `{!TransactionCodec enc (txTypes b)} blocks i blk : files_rep enc (journal b) blocks ->
  Z.of_nat (length blocks) <= currentBlockHeight (header b) -> blocks !! i = Some blk -> (getBlock (Z.of_nat i) b).1 = Ret blk.2.
Proof.
  intros Hr Hh Hi. destruct (files_read newFile canOpen enc canOpen_all (journal b) (txTypes b) blocks i blk Hr _ Hi) as (fs & Hrd & _).
  apply lookup_lt_Some in Hi. unfold getBlock. destruct (Z.leb_spec (currentBlockHeight (header b)) (Z.of_nat i)); [lia|].
  unfold j_readBlock, cr_Journal, EpochFiles_Journal. by rewrite Hrd.
Qed.

(** A block that is counted, but of which nothing is in the file yet, is read as an empty one. *)
Lemma getBlock_unwritten b blocks : files_rep enc (journal b) blocks -> Z.of_nat (length blocks) < MAX_HEIGHT ->
  firstBlockOffset <= mm_size (newFile (epochName (Z.of_nat (length blocks)))) -> Z.of_nat (length blocks) < currentBlockHeight (header b) ->
  let m := next_epoch_file (journal b) blocks in
  mm_load m (getBlockOffset m (Z.of_nat (length blocks)) + off_numTransactions) 2 = [0; 0] ->
  (getBlock (Z.of_nat (length blocks)) b).1 = Ret [].
Proof.
  intros Hr Hmax Hsz Hh m Hz. set (n := length blocks) in *.
  assert (epoch_rep enc m (epoch_of blocks (n / bpe))) as Hm.
  { pose proof (epochs_next enc _ blocks _ Hr Hmax Hsz) as H. cbn beta in H. by rewrite <- epochName_nameOf in H by done. }
  assert (getBlockOffset m (Z.of_nat n) <> 0) as Hne.
  { rewrite getBlockOffset_nat. pose proof (length_next_epoch blocks) as Hlen. fold n in Hlen. pose proof (Nat.mod_upper_bound n bpe) as Hmod.
    pose proof bpe_pos. pose proof bpe_Z. destruct (er_offset enc m _ Hm (n mod bpe)) as [Ho _]; [lia|lia|]. rewrite firstBlockOffset_val in Ho. lia. }
  pose proof (readBlock_zero (txTypes b) m (Z.of_nat n) Hne Hz) as Hrd.
  unfold getBlock. destruct (Z.leb_spec (currentBlockHeight (header b)) (Z.of_nat n)); [lia|].
  unfold j_readBlock, cr_Journal, EpochFiles_Journal, journal_read, getEpochFile, mbind, prog_bind, getS, putS, mret, prog_ret.
  rewrite canOpen_all. cbn [negb]. unfold m, next_epoch_file in Hrd. fold n in Hrd.
  destruct (journal b !! epochName (Z.of_nat n)) as [m0|]; cbn [default from_option id] in Hrd; by destruct (readBlock _ _ _).
Qed.
End Files.

Section Reads.
Context {Tx W F Ix M C T : Type} `{!MmapHandle M, !MmapLaws M}.
Context `{!IndexOverrideFamily F W Ix, !BlockchainIndex Ix, !Transaction Tx W (StateOverride F) M}.
Context `{!SegmentSink C, !BTree BlockTimestampTracker.block_timestamp_entry_t T, !BTreeLaws BlockTimestampTracker.compare}.
Context (newFile : string -> M) (canOpen : string -> bool) (enc : Tx -> list Z) `{!TransactionEncoding enc}.
Context (canOpen_all : forall name, canOpen name = true).
#[local] Instance rd_Journal : Journal (gmap string M) M Tx := EpochFiles_Journal newFile canOpen.
#[local] Instance rd_JournalLaws : JournalLaws (gmap string M) M Tx := EpochFiles_JournalLaws newFile canOpen enc canOpen_all.
Context (iregs : list (TypeKey * Ix)) (oregs : list (TypeKey * F)).
Context (apply_layout : forall ks (w : W) s tx, has_layout ks s -> has_layout ks (applied (M:=M) w s tx)).

Lemma chain_reads (b : Backend Tx F Ix M (gmap string M) C T) blocks hidden : chain_rep iregs oregs b blocks hidden ->
  (forall i blk, blocks !! i = Some blk -> (getBlock (Z.of_nat i) b).1 = Ret blk.2) /\ (getBlock (Z.of_nat (length blocks)) b).1 = Throw out_of_chain.
Proof.
  intros Hr. split.
  - intros i blk Hi. by destruct (getBlock_chain iregs oregs b blocks hidden i blk Hr Hi) as (j & -> & _).
  - unfold getBlock. rewrite (cr_height _ _ _ _ _ Hr). by destruct (Z.leb_spec (Z.of_nat (length blocks)) (Z.of_nat (length blocks))); [|lia].
Qed.

Lemma chain_windows (b : Backend Tx F Ix M (gmap string M) C T) blocks hidden fuel st en : chain_rep iregs oregs b blocks hidden ->
  in_u64 st -> st <= en -> (length blocks < fuel)%nat ->
  exists bns, (getTransactionsByTimeWindow fuel st en b).1 = Ret (txs_of blocks bns) /\
    forall n, n ∈ bns <-> in_window blocks st en n /\ n ∉ hidden.
Proof.
  intros Hr Hst Hle Hf. destruct (window_query_chain iregs oregs b blocks hidden fuel st en Hr Hst Hle Hf) as (bns & j & -> & _ & _ & _ & Hin).
  by exists bns.
Qed.

(** What is seen of the last block of a chain. *)
Lemma last_block_reads (b : Backend Tx F Ix M (gmap string M) C T) blocks ms txs hidden : chain_rep iregs oregs b (blocks ++ [(ms, txs)]) hidden ->
  (forall i x, blocks !! i = Some x -> (getBlock (Z.of_nat i) b).1 = Ret x.2) /\ (getBlock (Z.of_nat (length blocks)) b).1 = Ret txs /\
  forall fuel st en, in_u64 st -> st <= en -> (S (length blocks) < fuel)%nat ->
    exists bns, (getTransactionsByTimeWindow fuel st en b).1 = Ret (txs_of (blocks ++ [(ms, txs)]) bns) /\
      (length blocks ∈ bns <-> st <= ms <= en /\ length blocks ∉ hidden).
Proof.
  intros Hr. assert ((blocks ++ [(ms, txs)]) !! length blocks = Some (ms, txs)) as Hlast by (by rewrite lookup_app_r, Nat.sub_diag).
  destruct (chain_reads _ _ _ Hr) as [H _]. split; [intros i x Hi; apply H; by apply lookup_app_l_Some|]. split; [by apply (H _ (ms, txs))|].
  intros fuel st en Hst Hle Hf. destruct (chain_windows _ _ _ fuel st en Hr Hst Hle) as (bns & Hb & Hin); [rewrite length_app; cbn; lia|].
  exists bns. split; [done|]. rewrite Hin. unfold in_window. rewrite Hlast. split.
  - by intros [(blk & [= <-] & Hw) Hh].
  - intros [Hw Hh]. split; [by exists (ms, txs)|done].
Qed.

(** C13: what is read during a commit.  At every stage every block of the chain reads back as it
    was committed.  The new number throws until the height is advanced; from then until the
    append it reads as a block without transactions, which the chain never had; from the
    append on it is the new block.  The time windows have the block only after it has been
    entered in the timestamp index. *)
Theorem reads_during_commit (env : commit_env W) txs (b : Backend Tx F Ix M (gmap string M) C T) blocks hidden k st b1 :
  let n := length blocks in
  let blocks' := blocks ++ [(e_millis env, txs)] in
  chain_rep iregs oregs b blocks hidden -> j_fits (journal b) blocks (e_millis env, txs) -> in_u64 (e_millis env) ->
  Z.of_nat n < U64_MAX -> commit_steps env txs (duration_of env b) k (Checking, b) = (st, b1) ->
  (forall i blk, blocks !! i = Some blk -> (getBlock (Z.of_nat i) b1).1 = Ret blk.2) /\
  match st with
  | Checking => (getBlock (Z.of_nat n) b1).1 = Throw out_of_chain
  | Numbered _ =>
      let m := next_epoch_file newFile (journal b) blocks in
      mm_load m (getBlockOffset m (Z.of_nat n) + off_numTransactions) 2 = [0; 0] -> (getBlock (Z.of_nat n) b1).1 = Ret []
  | Journalled _ | Stamped _ =>
      (getBlock (Z.of_nat n) b1).1 = Ret txs /\
      forall fuel startMillis endMillis, in_u64 startMillis -> startMillis <= endMillis -> (S n < fuel)%nat ->
        exists bns, (getTransactionsByTimeWindow fuel startMillis endMillis b1).1 = Ret (txs_of blocks' bns) /\ n ∉ bns
  | Indexed _ | Sealing _ _ _ =>
      (getBlock (Z.of_nat n) b1).1 = Ret txs /\
      forall fuel startMillis endMillis, in_u64 startMillis -> startMillis <= e_millis env <= endMillis -> (S n < fuel)%nat ->
        exists bns, (getTransactionsByTimeWindow fuel startMillis endMillis b1).1 = Ret (txs_of blocks' bns) /\ n ∈ bns
  | Returned r => (getBlock (Z.of_nat n) b1).1 = Throw out_of_chain \/ (getBlock (Z.of_nat n) b1).1 = Ret txs
  end.
Proof.
  intros n blocks' Hr Hfits Hms Hlen Hrun.
  assert (n ∉ hidden) as Hnh by (intros Hin; pose proof (BackendCorrect.cr_hidden _ _ _ _ _ Hr) as Hh; rewrite Forall_forall in Hh; specialize (Hh _ Hin); lia).
  pose proof (stages_rep iregs oregs apply_layout env txs (duration_of env b) b blocks hidden k Hr Hfits Hms Hlen) as H. rewrite Hrun in H.
  destruct st as [| bn | bn | bn | bn | bn s i | r]; [| |destruct H as (_ & (Hold & Hnew & Hwin)%last_block_reads & _)..|].
  - cbn in H. subst b1. by apply chain_reads in Hr.
  - destruct H as [_ H]. cbn in H. subst b1. destruct Hfits as (Hmax & _ & _ & Hsz & _). pose proof (cr_height _ _ _ _ _ Hr) as Hh.
    assert (TransactionCodec enc (txTypes (numbered b))) by exact (cr_types _ _ _ _ _ Hr). split.
    + intros i blk Hi. refine (getBlock_files newFile canOpen enc canOpen_all (numbered b) blocks i blk (cr_journal _ _ _ _ _ Hr) _ Hi). cbn. lia.
    + intros m Hz. refine (getBlock_unwritten newFile canOpen enc canOpen_all (numbered b) blocks (cr_journal _ _ _ _ _ Hr) Hmax Hsz _ Hz). cbn. lia.
  - split; [done|]. split; [done|]. intros fuel st' en Hst Hle Hf. destruct (Hwin fuel st' en Hst Hle Hf) as (bns & Hb & Hin).
    exists bns. split; [done|]. intros [_ []]%Hin. left.
  - split; [done|]. split; [done|]. intros fuel st' en Hst Hle Hf. destruct (Hwin fuel st' en Hst Hle Hf) as (bns & Hb & Hin).
    exists bns. split; [done|]. intros [_ []]%Hin. left.
  - split; [done|]. split; [done|]. intros fuel st' en Hst Hle Hf. destruct (Hwin fuel st' en Hst ltac:(lia) Hf) as (bns & Hb & Hin).
    exists bns. split; [done|]. by apply Hin.
  - split; [done|]. split; [done|]. intros fuel st' en Hst Hle Hf. destruct (Hwin fuel st' en Hst ltac:(lia) Hf) as (bns & Hb & Hin).
    exists bns. split; [done|]. by apply Hin.
  - destruct H as [[H _]|H]; cbn in H.
    + subst b1. apply chain_reads in Hr as [H1 H2]. split; [done|by left].
    + apply last_block_reads in H as (H1 & H2 & _). split; [done|by right].
Qed.
End Reads.

(** ** During the second commit of the test chain *)

#[local] Existing Instance BlockTimestampTracker.tracker_BTree.
#[local] Existing Instance BlockTimestampTracker.tracker_BTreeLaws.
#[local] Existing Instance tb_Journal.
#[local] Existing Instance tb_JournalLaws.
#[local] Existing Instance tb_Index.
#[local] Existing Instance tb_Sink.

(** The block is read as an empty one first. *)
Lemma reads_during_commit_witness :
  (getBlock 0 (cr_at 1).2).1 = Ret tb_txs /\ (getBlock 1 (cr_at 1).2).1 = Ret [] /\ (getBlock 1 (cr_at 2).2).1 = Ret cr_txs.
Proof.
  destruct (reads_during_commit (M:=bytemap) sample_newFile opens_all tt_enc (fun _ => eq_refl) tb_iregs tb_oregs tb_apply_layout
    (tb_env cr_time) cr_txs tb1 tb_blocks [] 1 (Numbered 1) (cr_at 1).2 (br_chain _ _ _ _ tb1_rep) cr_fits ltac:(by_compute) ltac:(by_compute) cr_at_1)
    as [H1 H2].
  destruct (reads_during_commit (M:=bytemap) sample_newFile opens_all tt_enc (fun _ => eq_refl) tb_iregs tb_oregs tb_apply_layout
    (tb_env cr_time) cr_txs tb1 tb_blocks [] 2 (Journalled 1) (cr_at 2).2 (br_chain _ _ _ _ tb1_rep) cr_fits ltac:(by_compute) ltac:(by_compute) cr_at_2)
    as [_ [H3 _]].
  split; [exact (H1 0%nat (1700000000000, tb_txs) eq_refl)|]. split; [|exact H3]. apply H2. vm_compute. reflexivity.
Defined.
