(* ===== verification/PowerLoss.v ===== *)
(** * PowerLoss

    What is on the disk when the machine loses power.  A store through a mapping reaches the
    disk page by page, in no particular order, unless the mapping is synced; the library
    syncs the metadata header at the end of [addBlock] and no epoch file
    (src/src/blockchain/BlockchainBackend.cpp, [addBlock]; src/src/storage/EpochFile.cpp,
    [appendBlock]). *)

From S2P Require Import Prelude Excessive Memory Transaction Registry StateOverride ChainDesign TestChainDesign.
From S2P Require Import EpochFile Journal TornAppend CatalogFile Backend BackendCorrect TestBackend Progress Crash Drain CommitReads.
From S2P Require BlockTimestampTracker.

(** ** Pages *)

Section Pages.
Context {M : Type} `{!MmapHandle M}.

Definition page_of (a : Z) : Z := a / 4096.

(** [versions] are the states the file has had since it was last synced, that one included:
    each page of the disk is the page of one of them. *)
Definition after_power_loss (versions : list M) (disk : M) : Prop :=
  Forall (fun v => mm_size v = mm_size disk) versions /\
  forall p, Exists (fun v => forall a, page_of a = p -> mm_byte disk a = mm_byte v a) versions.

(** A range without a page boundary inside comes from one version. *)
Lemma power_loss_load versions disk a k : after_power_loss versions disk -> (0 < k)%nat ->
  page_of a = page_of (a + Z.of_nat k - 1) -> exists v, v ∈ versions /\ mm_load disk a k = mm_load v a k.
Proof.
  intros [_ Hp] Hk Hpage. destruct (proj1 (Exists_exists _ _) (Hp (page_of a))) as (v & Hin & Hb).
  exists v. split; [done|]. apply mem_load_ext. intros i Hi. apply Hb. unfold page_of in *. Z.div_mod_to_equations. lia.
Qed.

Lemma power_loss_size versions disk v : after_power_loss versions disk -> v ∈ versions -> mm_size v = mm_size disk.
Proof. intros [Hs _]. rewrite Forall_forall in Hs. apply Hs. Qed.

Lemma load_bytes (m1 m2 : M) a k : (forall i, a <= i < a + Z.of_nat k -> mm_load m1 i 1 = mm_load m2 i 1) -> mm_load m1 a k = mm_load m2 a k.
Proof. intros H. apply mem_load_ext. intros i Hi. specialize (H i Hi). unfold mm_load in H. cbn in H. congruence. Qed.

(** A state of the file is a possible disk. *)
Lemma power_loss_version versions v : v ∈ versions -> Forall (fun v' => mm_size v' = mm_size v) versions -> after_power_loss versions v.
Proof. intros Hin Hs. split; [done|]. intros p. apply Exists_exists. by exists v. Qed.

(** A synced file is on the disk. *)
Lemma power_loss_synced (v disk : M) : after_power_loss [v] disk -> mm_size disk = mm_size v /\ forall a, mm_byte disk a = mm_byte v a.
Proof.
  intros [Hs Hp]. split; [by apply Forall_cons in Hs as [-> _]|]. intros a. specialize (Hp (page_of a)).
  apply Exists_cons in Hp as [H|H%Exists_nil]; [by apply H|done].
Qed.
End Pages.

(** ** One epoch file *)

Section Epoch.
Context {Tx W St M : Type} `{!MmapHandle M, !MmapLaws M, !Transaction Tx W St M}.
Context (enc : Tx -> list Z) `{!TransactionEncoding enc}.
Implicit Types (blocks : list (Z * list Tx)) (m : M).

Lemma same_page_slot i : 0 <= i < BLOCKS_PER_EPOCH -> page_of (off_blockOffset i) = page_of (off_blockOffset i + Z.of_nat 4 - 1).
Proof. intros Hi. unfold page_of, off_blockOffset. Z.div_mod_to_equations. lia. Qed.

(** [v] has what [m0] has of the first [n] blocks of its epoch. *)
Definition agree (n : nat) (m0 v : M) : Prop :=
  mm_size v = mm_size m0 /\
  (Z.of_nat n < BLOCKS_PER_EPOCH -> (forall i, (i <= n)%nat -> boff v i = boff m0 i) /\
    forall a k, firstBlockOffset <= a -> a + Z.of_nat k <= boff m0 n -> mm_load v a k = mm_load m0 a k) /\
  (Z.of_nat n = BLOCKS_PER_EPOCH -> forall a, mm_byte v a = mm_byte m0 a).

Lemma agree_refl n m : agree n m m.
Proof. by repeat split. Qed.

(** Whatever pages of such versions are on the disk, the blocks are. *)
Lemma agree_power_loss m0 blocks versions disk : epoch_rep enc m0 blocks -> versions <> [] ->
  (forall v, v ∈ versions -> agree (length blocks) m0 v) -> after_power_loss versions disk -> epoch_rep enc disk blocks.
Proof.
  intros Hr Hne Hv Hd. set (n := length blocks) in *. pose proof (er_count enc m0 blocks Hr) as Hc. fold n in Hc.
  assert (mm_size disk = mm_size m0) as Hs.
  { destruct versions as [|v versions]; [done|]. rewrite <- (power_loss_size _ _ v Hd) by left. by destruct (Hv v ltac:(left)). }
  destruct (decide (Z.of_nat n < BLOCKS_PER_EPOCH)) as [Hlt|Hge].
  - apply (epoch_rep_frame enc m0 disk blocks Hr Hlt Hs).
    + intros i Hi. destruct (power_loss_load _ _ (off_blockOffset (Z.of_nat i)) 4 Hd) as (v & Hin & Hl); [lia|apply same_page_slot; lia|].
      destruct (Hv v Hin) as (_ & Ha & _). rewrite <- (proj1 (Ha Hlt) i Hi). unfold boff, load_u32. by rewrite Hl.
    + intros a k Ha Hk. apply load_bytes. intros j Hj.
      destruct (power_loss_load _ _ j 1 Hd) as (v & Hin & ->); [lia|unfold page_of; f_equal; lia|].
      destruct (Hv v Hin) as (_ & Hag & _). apply (Hag Hlt); [lia|]. fold n in Hk. lia.
  - apply (epoch_rep_ext enc m0); [done|done|]. intros a. destruct Hd as [_ Hp].
    destruct (proj1 (Exists_exists _ _) (Hp (page_of a))) as (v & Hin & Hb). rewrite Hb by done. destruct (Hv v Hin) as (_ & _ & Hag). apply Hag. lia.
Qed.

(** Every state of an append has what the file had before. *)
Lemma append_agrees m blocks n bn b v :
  epoch_rep enc m blocks -> bn mod BLOCKS_PER_EPOCH = Z.of_nat (length blocks) -> 0 <= bn < U64_MAX ->
  room enc m (boff m (length blocks)) b -> Z.of_nat (length b.2) <= U16_MAX -> (n <= length blocks)%nat ->
  v ∈ append_states m bn b.1 b.2 -> agree n m v.
Proof.
  intros Hr Hn Hbn Hfit Htx Hle Hin. set (r := length blocks) in *.
  assert (Z.of_nat r < BLOCKS_PER_EPOCH) as Hr' by (unfold BLOCKS_PER_EPOCH in *; Z.div_mod_to_equations; lia).
  pose proof (er_offset enc m blocks Hr r ltac:(done) Hr') as Hoff.
  destruct (appendBlock_effect enc m r bn b Hn Hbn (proj1 Hoff) Hfit Htx) as (Hs & _ & Hlow & Hi & _).
  assert (boff m n <= boff m r) as Hmono.
  { destruct (decide (n = r)) as [->|Hne]; [done|]. destruct (lookup_lt_is_Some_2 blocks n) as [bl Hbl]; [lia|].
    pose proof (er_before enc m blocks n r bl Hr Hbl ltac:(lia) Hr'). unfold block_len in *. lia. }
  split; [|split; [intros _|lia]].
  - by destruct (append_states_frame enc m blocks bn b v Hr Hn Hfit Hin) as [[Hsv _]| ->].
  - destruct (append_states_frame enc m blocks bn b v Hr Hn Hfit Hin) as [[_ Hl]| ->].
    + split; [|intros; apply Hl; fold r; lia]. intros i Hile. unfold boff, load_u32. f_equal. apply Hl.
      pose proof (off_blockOffset_bounds (Z.of_nat i) ltac:(lia)). fold r. lia.
    + split; [intros; apply Hi; lia|intros; apply Hlow; lia].
Qed.

Lemma agree_trans n m0 m v : Z.of_nat n < BLOCKS_PER_EPOCH -> agree n m0 m -> agree n m v -> agree n m0 v.
Proof.
  intros Hn (S1 & A1 & _) (S2 & A2 & _). destruct (A1 Hn) as [O1 B1]. destruct (A2 Hn) as [O2 B2].
  split; [congruence|]. split; [intros _|lia]. split; [intros i Hi; by rewrite O2, O1|].
  intros a k Ha Hk. rewrite B2, B1; [done..|]. by rewrite O1.
Qed.
End Epoch.

(** ** The journal of a backend *)

Section Files.
Context {Tx W St M : Type} `{!MmapHandle M, !MmapLaws M, !Transaction Tx W St M}.
Context (newFile : string -> M) (canOpen : string -> bool) (enc : Tx -> list Z) `{!TransactionEncoding enc}.
Implicit Types (blocks : list (Z * list Tx)) (fs disk : gmap string M) (vs : gmap string (list M)).

(** The file under a name, [fs] being the files there are: one that is missing is created. *)
Definition base_file fs (name : string) : M := default (openEpoch true (newFile name)) (fs !! name).

(** [vs] has the versions of each file since all of them were last on the disk; an append adds
    its own. *)
Definition synced fs : gmap string (list M) := (fun m => [m]) <$> fs.

Definition after_append vs fs blocks (blk : Z * list Tx) : gmap string (list M) :=
  let n := Z.of_nat (length blocks) in
  let m := base_file fs (epochName n) in
  <[epochName n := default [m] (vs !! epochName n) ++ append_states m n blk.1 blk.2]> vs.

(** The directory after the loss: each file has pages of its versions. *)
Definition on_disk vs disk : Prop := forall name,
  match vs !! name with
  | Some l => exists d, disk !! name = Some d /\ after_power_loss l d
  | None => disk !! name = None
  end.

(** All versions of a file have what the file had of the chain [blocks0]. *)
Record versions_ok fs0 blocks0 vs : Prop := {
  vo_kept name : is_Some (fs0 !! name) -> is_Some (vs !! name);
  vo_head name l : vs !! name = Some l -> exists l', l = base_file fs0 name :: l';
  vo_size name l v : vs !! name = Some l -> v ∈ l -> mm_size v = mm_size (base_file fs0 name);
  vo_agree e l v : vs !! nameOf e = Some l -> v ∈ l -> agree (length (epoch_of blocks0 e)) (base_file fs0 (nameOf e)) v;
}.

(** The files as they are now are the last versions. *)
Definition current fs vs : Prop := forall name,
  match fs !! name with Some m => exists l, vs !! name = Some l /\ m ∈ l | None => vs !! name = None end.

Lemma synced_ok fs0 blocks0 : versions_ok fs0 blocks0 (synced fs0) /\ current fs0 (synced fs0).
Proof.
  unfold synced. split; [split|].
  - intros name [m Hm]. rewrite lookup_fmap, Hm. by eexists.
  - intros name l. rewrite lookup_fmap. unfold base_file. destruct (fs0 !! name) as [m|]; [|done]. intros [= <-]. by exists [].
  - intros name l v. rewrite lookup_fmap. unfold base_file. destruct (fs0 !! name) as [m|]; [|done]. by intros [= <-] ->%list_elem_of_singleton.
  - intros e l v. rewrite lookup_fmap. unfold base_file. destruct (fs0 !! nameOf e) as [m|]; [|done].
    intros [= <-] ->%list_elem_of_singleton. apply agree_refl.
  - intros name. rewrite lookup_fmap. destruct (fs0 !! name) as [m|]; [|done]. exists [m]. split; [done|left].
Qed.

Hypothesis newFile_size : forall name, firstBlockOffset <= mm_size (newFile name).

Lemma base_rep fs blocks e : files_rep enc fs blocks -> Z.of_nat e < 4294967296 -> epoch_rep enc (base_file fs (nameOf e)) (epoch_of blocks e).
Proof.
  intros [_ Hr] He. specialize (Hr e He). cbn beta in Hr. unfold base_file. destruct (fs !! nameOf e); [done|]. rewrite Hr. by apply openEpoch_rep.
Qed.

Lemma app_epoch blocks0 tail e : (length (epoch_of blocks0 e) <= length (epoch_of (blocks0 ++ tail) e))%nat.
Proof. unfold epoch_of. rewrite !length_take, !length_drop, length_app. lia. Qed.

(** An append keeps what the versions agree on. *)
Lemma append_ok fs0 blocks0 fs tail vs blk :
  versions_ok fs0 blocks0 vs -> current fs vs -> files_rep enc fs (blocks0 ++ tail) -> files_fit newFile canOpen enc fs (blocks0 ++ tail) blk ->
  versions_ok fs0 blocks0 (after_append vs fs (blocks0 ++ tail) blk).
Proof.
  set (blocks := blocks0 ++ tail). intros Hvo Hcur Hr (Hmax & _ & Htx & _ & Hfit). cbn zeta in *. set (n := length blocks) in *.
  assert (epochName (Z.of_nat n) = nameOf (n / bpe)) as Hname by (by apply epochName_nameOf).
  unfold after_append. fold n. rewrite Hname in *. set (name := nameOf (n / bpe)) in *. fold (base_file fs name) in Hfit. set (m := base_file fs name) in *.
  pose proof (base_rep fs blocks (n / bpe) Hr (bn_epoch _ Hmax)) as Hm. fold name m in Hm.
  pose proof (length_next_epoch blocks) as Hlen. fold n in Hlen.
  assert (forall v, v ∈ append_states m (Z.of_nat n) blk.1 blk.2 -> agree (length (epoch_of blocks0 (n / bpe))) m v) as Happ.
  { intros v Hv. eapply (append_agrees enc m (epoch_of blocks (n / bpe))); [done|by rewrite mod_bpe, Hlen| | |done| |exact Hv].
    - unfold MAX_HEIGHT, BLOCKS_PER_EPOCH in Hmax. word.
    - by rewrite Hlen, <- getBlockOffset_nat.
    - apply app_epoch. }
  assert (Z.of_nat (length (epoch_of blocks0 (n / bpe))) < BLOCKS_PER_EPOCH) as Hlt.
  { pose proof (app_epoch blocks0 tail (n / bpe)) as Ha. fold blocks in Ha. rewrite Hlen in Ha. pose proof bpe_pos. pose proof bpe_Z.
    pose proof (Nat.mod_upper_bound n bpe). lia. }
  assert (agree (length (epoch_of blocks0 (n / bpe))) (base_file fs0 name) m /\ mm_size m = mm_size (base_file fs0 name)) as [Hbase Hbsz].
  { specialize (Hcur name). unfold m at 1 2. unfold base_file at 2 3. destruct (fs !! name) as [m1|] eqn:Hf.
    - destruct Hcur as (l & Hl & Hin). split; [by eapply vo_agree|by eapply vo_size].
    - destruct (fs0 !! name) as [m1|] eqn:Hf0; [|unfold base_file; rewrite Hf0; split; [apply agree_refl|done]].
      destruct (vo_kept _ _ _ Hvo name) as [l Hl]; [by rewrite Hf0|congruence]. }
  split.
  - intros name' Hk. apply lookup_insert_is_Some. destruct (decide (name = name')); [by left|right]. split; [done|]. by apply (vo_kept _ _ _ Hvo).
  - intros name' l [[<- <-]|[Hne Hl]]%lookup_insert_Some; [|by apply (vo_head _ _ _ Hvo)].
    destruct (vs !! name) as [l|] eqn:Hl; cbn [default from_option id].
    + destruct (vo_head _ _ _ Hvo name l Hl) as [l' ->]. eexists. cbn. done.
    + assert (m = base_file fs0 name) as <-; [|by eexists]. unfold m, base_file. specialize (Hcur name). destruct (fs !! name) as [m1|].
      { destruct Hcur as (l & Hl' & _). congruence. }
      destruct (fs0 !! name) eqn:Hf0; [|done]. destruct (vo_kept _ _ _ Hvo name) as [l' Hl']; [by rewrite Hf0|congruence].
  - intros name' l v [[<- <-]|[Hne Hl]]%lookup_insert_Some Hv; [|by eapply vo_size].
    apply elem_of_app in Hv as [Hv|Hv]; [|rewrite <- Hbsz; by apply Happ].
    destruct (vs !! name) as [l|] eqn:Hl; [by eapply vo_size|]. cbn in Hv. apply list_elem_of_singleton in Hv as ->. done.
  - intros e l v [[He <-]|[Hne Hl]]%lookup_insert_Some Hv; [|by eapply vo_agree]. apply nameOf_inj in He as <-. fold name.
    apply elem_of_app in Hv as [Hv|Hv]; [|eapply agree_trans; [done|exact Hbase|by apply Happ]].
    destruct (vs !! name) as [l|] eqn:Hl; [by eapply vo_agree|]. cbn in Hv. apply list_elem_of_singleton in Hv as ->. done.
Qed.

(** The versions of an append that has returned are current. *)
Lemma append_current fs vs blocks blk fs' : Z.of_nat (length blocks) < MAX_HEIGHT -> canOpen (epochName (Z.of_nat (length blocks))) = true -> current fs vs ->
  journal_append newFile canOpen fs (Z.of_nat (length blocks)) blk.1 blk.2 = Ret fs' -> current fs' (after_append vs fs blocks blk).
Proof.
  intros Hmax Hopen Hcur Happ name. set (n := Z.of_nat (length blocks)) in *. unfold after_append. fold n.
  assert (fs' = <[epochName n := appendBlock (base_file fs (epochName n)) n blk.1 blk.2]>
    (match fs !! epochName n with Some _ => fs | None => <[epochName n := base_file fs (epochName n)]> fs end)) as ->.
  { revert Happ. unfold journal_append, getEpochFile, mbind, prog_bind, getS, putS, base_file. rewrite Hopen. cbn [negb].
    destruct (fs !! epochName n) as [m|]; cbn; by intros [= <-]. }
  destruct (decide (name = epochName n)) as [->|Hne].
  - rewrite !lookup_insert_eq. eexists. split; [done|]. apply elem_of_app. right. unfold append_states.
    destruct (_ =? 0); rewrite !elem_of_cons, elem_of_app, list_elem_of_singleton; auto 6.
  - rewrite !(lookup_insert_ne _ (epochName n)) by done. specialize (Hcur name). destruct (fs !! epochName n); [done|]. by rewrite lookup_insert_ne.
Qed.

(** The blocks that were on the disk are there, whatever was written since. *)
Lemma versions_disk fs0 blocks0 vs disk : versions_ok fs0 blocks0 vs -> files_rep enc fs0 blocks0 -> on_disk vs disk -> files_rep enc disk blocks0.
Proof.
  intros Hvo Hr Hd. split; [apply Hr|]. intros e He. cbn beta. specialize (Hd (nameOf e)). destruct (vs !! nameOf e) as [l|] eqn:Hl.
  - destruct Hd as (d & -> & Hd). pose proof (base_rep fs0 blocks0 e Hr He) as Hb. eapply (agree_power_loss enc); [exact Hb| | |exact Hd].
    + destruct (vo_head _ _ _ Hvo _ _ Hl) as [l' ->]. done.
    + intros v Hv. by eapply vo_agree.
  - rewrite Hd. destruct Hr as [_ Hr]. specialize (Hr e He). cbn beta in Hr. destruct (fs0 !! nameOf e) eqn:Hf; [|done].
    destruct (vo_kept _ _ _ Hvo (nameOf e)); [by rewrite Hf|congruence].
Qed.

(** The disk with nothing of what was written since. *)
Definition nothing_written fs0 vs : gmap string M := map_imap (fun name _ => Some (base_file fs0 name)) vs.

Lemma nothing_written_disk fs0 blocks0 vs : versions_ok fs0 blocks0 vs -> on_disk vs (nothing_written fs0 vs).
Proof.
  intros Hvo name. unfold nothing_written. rewrite map_lookup_imap. destruct (vs !! name) as [l|] eqn:Hl; [|done].
  eexists. split; [done|]. apply power_loss_version.
  - destruct (vo_head _ _ _ Hvo _ _ Hl) as [l' ->]. left.
  - apply Forall_forall. intros v Hv. by eapply vo_size.
Qed.

Context (newFile_zero : forall name i, (0 < i)%nat -> Z.of_nat i < BLOCKS_PER_EPOCH -> boff (newFile name) i = 0).

Lemma base_unreached fs blocks e : files_rep enc fs blocks -> files_unreached fs blocks -> Z.of_nat e < 4294967296 ->
  unreached (base_file fs (nameOf e)) (length (epoch_of blocks e)).
Proof.
  intros [_ Hr] Hun He. specialize (Hr e He). specialize (Hun e). cbn beta in Hr. unfold base_file.
  destruct (fs !! nameOf e) as [m|]; [by apply Hun|]. rewrite Hr. apply openEpoch_unreached; [done|apply newFile_zero].
Qed.

(** Of the blocks past [blocks], the first of each epoch has an offset in the files, and the
    others have none. *)
Lemma base_offset fs blocks j : files_rep enc fs blocks -> files_unreached fs blocks -> (length blocks <= j)%nat -> Z.of_nat j < MAX_HEIGHT ->
  let m := base_file fs (epochName (Z.of_nat j)) in
  if decide (j = length blocks \/ (j mod bpe = 0)%nat) then getBlockOffset m (Z.of_nat j) <> 0 else getBlockOffset m (Z.of_nat j) = 0.
Proof.
  intros Hr Hun Hj Hmax. cbn zeta. rewrite epochName_nameOf, getBlockOffset_nat by done. pose proof (bn_epoch _ Hmax) as He.
  pose proof (base_rep fs blocks (j / bpe) Hr He) as Hb. pose proof (base_unreached fs blocks (j / bpe) Hr Hun He) as [Hz1 Hz2].
  set (m := base_file fs _) in *. pose proof bpe_pos as Hp. pose proof bpe_Z as Hz. pose proof (Nat.mod_upper_bound j bpe ltac:(lia)) as Hmod.
  pose proof (Nat.div_mod_eq j bpe) as Hdm.
  assert (length (epoch_of blocks (j / bpe)) = Nat.min bpe (length blocks - j / bpe * bpe)) as Hlen by (unfold epoch_of; by rewrite length_take, length_drop).
  case_decide as Hc.
  - assert (j mod bpe <= length (epoch_of blocks (j / bpe)))%nat as Hle by (rewrite Hlen; lia).
    destruct (er_offset enc m _ Hb (j mod bpe) Hle) as [Ho _]; [lia|]. rewrite firstBlockOffset_val in Ho. lia.
  - apply Hz2; [rewrite Hlen; lia|lia].
Qed.
End Files.

(** ** The chain *)

Section Chain.
Context {Tx W F Ix M C T : Type} `{!MmapHandle M, !MmapLaws M}.
Context `{!IndexOverrideFamily F W Ix, !BlockchainIndex Ix, !Transaction Tx W (StateOverride F) M}.
Context `{!SegmentSink C, !BTree BlockTimestampTracker.block_timestamp_entry_t T}.
Context (newFile : string -> M) (canOpen : string -> bool) (enc : Tx -> list Z) `{!TransactionEncoding enc}.
#[local] Instance pl_Journal : Journal (gmap string M) M Tx := EpochFiles_Journal newFile canOpen.
Abbreviation Backend := (Backend Tx F Ix M (gmap string M) C T).
Implicit Types (b : Backend) (blocks : list (Z * list Tx)) (vs : gmap string (list M)) (disk : gmap string M).

(** Commits that return their block, with the versions of the files. *)
Inductive pl_commit : Backend * list (Z * list Tx) * gmap string (list M) -> Backend * list (Z * list Tx) * gmap string (list M) -> Prop :=
| pl_addBlock (env : commit_env W) txs b blocks vs n b' :
    files_fit newFile canOpen enc (journal b) blocks (e_millis env, txs) -> addBlock env txs b = (Ret n, b') -> n <> -1 ->
    pl_commit (b, blocks, vs) (b', blocks ++ [(e_millis env, txs)], after_append newFile vs (journal b) blocks (e_millis env, txs)).

(** The power fails between two commits, the last of which has synced the header; or inside
    one, with the page of the header as it was at some point of it. *)
Inductive dark : Backend * list (Z * list Tx) * gmap string (list M) -> metadata_header -> gmap string M -> Prop :=
| dark_idle b blocks vs disk : on_disk vs disk -> dark (b, blocks, vs) (header b) disk
| dark_commit (env : commit_env W) txs b blocks vs h disk :
    files_fit newFile canOpen enc (journal b) blocks (e_millis env, txs) ->
    h ∈ [header b; {| lastBlockTimestamp := lastBlockTimestamp (header b); currentBlockHeight := currentBlockHeight (header b) + 1 |};
         {| lastBlockTimestamp := e_millis env; currentBlockHeight := currentBlockHeight (header b) + 1 |}] ->
    on_disk (after_append newFile vs (journal b) blocks (e_millis env, txs)) disk -> dark (b, blocks, vs) h disk.

(** The backend opened after the loss. *)
Definition powered_on (design : ChainDesign Tx F Ix M) b (h : metadata_header) disk (c : C) (tr : BlockTimestampTracker.tracker T) : Backend :=
  openBackend (Backend.config b) false h disk design c tr.

Hypothesis canOpen_all : forall name, canOpen name = true.
Hypothesis newFile_size : forall name, firstBlockOffset <= mm_size (newFile name).

Lemma pl_commits_ok b0 blocks0 x : files_rep enc (journal b0) blocks0 -> currentBlockHeight (header b0) = Z.of_nat (length blocks0) ->
  rtc pl_commit (b0, blocks0, synced (journal b0)) x ->
  let '(b, blocks, vs) := x in
  files_rep enc (journal b) blocks /\ currentBlockHeight (header b) = Z.of_nat (length blocks) /\
  (exists tail, blocks = blocks0 ++ tail) /\ versions_ok newFile (journal b0) blocks0 vs /\ current (journal b) vs.
Proof.
  intros Hr Hh Hs. apply (rtc_ind_r (fun x => let '(b, blocks, vs) := x in
    files_rep enc (journal b) blocks /\ currentBlockHeight (header b) = Z.of_nat (length blocks) /\
    (exists tail, blocks = blocks0 ++ tail) /\ versions_ok newFile (journal b0) blocks0 vs /\ current (journal b) vs) _) in Hs; [exact Hs| |].
  - split; [done|]. split; [done|]. split; [exists []; by rewrite app_nil_r|]. apply synced_ok.
  - intros [[b blocks] vs] z _ Hst (Hb & Hh' & [tail ->] & Hvo & Hcur). inversion Hst as [env txs ? ? ? n b' Hfits Ha Hn]; subst.
    destruct (addBlock_keeps _ _ _ _ _ Ha Hn) as (Hj & _ & Hhead). rewrite Hh' in Hj, Hhead.
    destruct (files_append newFile canOpen enc (journal b) _ _ Hb Hfits) as (fs' & Happ & Hr').
    assert (fs' = journal b') as -> by (pose proof (eq_trans (eq_sym Happ) Hj) as E; by injection E).
    split; [done|]. split; [rewrite Hhead; cbn [currentBlockHeight]; rewrite !length_app; cbn; lia|]. split; [exists (tail ++ [(e_millis env, txs)]); by rewrite app_assoc|].
    split; [exact (append_ok newFile canOpen enc newFile_size _ _ _ tail _ _ Hvo Hcur Hb Hfits)|]. eapply (append_current newFile canOpen); [apply Hfits|apply canOpen_all|done|exact Happ].
Qed.

(** What a query for a block does, its file being there. *)
Lemma getBlock_file b bn m : journal b !! epochName bn = Some m -> bn < currentBlockHeight (header b) ->
  (getBlock bn b).1 = (readBlock bn (txTypes b) m).1.
Proof.
  intros Hm Hlt. unfold getBlock. destruct (Z.leb_spec (currentBlockHeight (header b)) bn); [lia|].
  unfold j_readBlock, pl_Journal, EpochFiles_Journal, journal_read, getEpochFile, mbind, prog_bind, getS, putS, mret, prog_ret.
  rewrite canOpen_all, Hm. cbn. by destruct (readBlock bn (txTypes b) m).
Qed.

Lemma readBlock_hole (types : TransactionTypeRegistry M Tx) m bn : getBlockOffset m bn = 0 ->
  (readBlock bn types m).1 = Throw (runtime_error "Block offset is zero").
Proof. intros H. unfold readBlock. rewrite (prog_bind_Ret getS _ _ m m) by done. cbn zeta. by rewrite H. Qed.

(** C9: committed blocks can be lost.  Start from any moment at which the epoch files are on the
    disk; commit any number of blocks, each of which [addBlock] returned; the power fails, then
    or inside one more commit.  Whatever pages are on the disk, the blocks there were at the
    start read back.  Nothing else is sure: since no epoch file is synced, while the header is,
    the disk may hold none of the new blocks although all of them are counted, and then the
    first of them reads as an empty block and the others cannot be read. *)
Theorem power_loss (design : ChainDesign Tx F Ix M) b0 blocks0 b blocks vs c tr :
  TransactionCodec enc (cd_registerTransactionTypes design emptyTypeRegistry) ->
  files_rep enc (journal b0) blocks0 -> currentBlockHeight (header b0) = Z.of_nat (length blocks0) ->
  rtc pl_commit (b0, blocks0, synced (journal b0)) (b, blocks, vs) ->
  let opened h disk := powered_on design b h disk c tr in
  (forall h disk, dark (b, blocks, vs) h disk ->
     Z.of_nat (length blocks) <= getBlockHeight (opened h disk) <= Z.of_nat (length blocks) + 1 /\
     forall i blk, blocks0 !! i = Some blk -> (getBlock (Z.of_nat i) (opened h disk)).1 = Ret blk.2) /\
  (files_unreached (journal b0) blocks0 -> (forall name i, (0 < i)%nat -> Z.of_nat i < BLOCKS_PER_EPOCH -> boff (newFile name) i = 0) ->
   (forall j, (length blocks0 <= j < length blocks)%nat -> j = length blocks0 \/ (j mod bpe = 0)%nat -> let m := base_file newFile (journal b0) (epochName (Z.of_nat j)) in
      mm_load m (getBlockOffset m (Z.of_nat j) + off_numTransactions) 2 = [0; 0]) ->
   exists disk, dark (b, blocks, vs) (header b) disk /\
     forall j, (length blocks0 <= j < length blocks)%nat -> (getBlock (Z.of_nat j) (opened (header b) disk)).1 =
       if decide (j = length blocks0 \/ (j mod bpe = 0)%nat) then Ret [] else Throw (runtime_error "Block offset is zero")).
Proof.
  intros Hcodec Hr Hh Hs opened. destruct (pl_commits_ok b0 blocks0 _ Hr Hh Hs) as (Hb & Hhb & [tail ->] & Hvo & Hcur). split.
  - intros h disk Hd. assert (exists vs', versions_ok newFile (journal b0) blocks0 vs' /\ on_disk vs' disk /\
      Z.of_nat (length (blocks0 ++ tail)) <= currentBlockHeight h <= Z.of_nat (length (blocks0 ++ tail)) + 1) as (vs' & Hvo' & Hd' & Hht).
    { inversion Hd as [|env txs ? ? ? ? ? Hfits Hin Hon]; subst; [exists vs; split; [done|]; split; [done|lia]|].
      eexists. split; [exact (append_ok newFile canOpen enc newFile_size _ _ _ tail _ _ Hvo Hcur Hb Hfits)|]. split; [exact Hon|].
      repeat (apply elem_of_cons in Hin as [->|Hin]; [cbn; lia|]). by apply elem_of_nil in Hin. }
    split; [exact Hht|]. intros i blk Hi. refine (getBlock_files newFile canOpen enc canOpen_all (opened h disk) blocks0 i blk _ _ Hi).
    + exact (versions_disk newFile enc newFile_size (journal b0) blocks0 vs' disk Hvo' Hr Hd').
    + cbn. rewrite length_app in Hht. lia.
  - intros Hun Hnew Hzero. exists (nothing_written newFile (journal b0) vs). split; [constructor; exact (nothing_written_disk newFile _ _ _ Hvo)|].
    intros j [Hj1 Hj2]. assert (Z.of_nat j < MAX_HEIGHT) as Hmax by (destruct Hb; lia).
    assert (is_Some (vs !! epochName (Z.of_nat j))) as [l Hl].
    { destruct Hb as [_ Hb]. specialize (Hb _ (bn_epoch _ Hmax)). cbn beta in Hb. rewrite <- epochName_nameOf in Hb by done.
      specialize (Hcur (epochName (Z.of_nat j))). destruct (journal b !! epochName (Z.of_nat j)); [destruct Hcur as (l & -> & _); by eexists|].
      destruct (lookup_lt_is_Some_2 (blocks0 ++ tail) j Hj2) as [blk Hblk]. apply epoch_lookup in Hblk. by rewrite Hb in Hblk. }
    rewrite (getBlock_file _ _ (base_file newFile (journal b0) (epochName (Z.of_nat j)))).
    + pose proof (base_offset newFile enc newFile_size Hnew (journal b0) blocks0 j Hr Hun Hj1 Hmax) as Ho. cbn zeta in Ho.
      destruct (decide (j = length blocks0 \/ (j mod bpe = 0)%nat)) as [Hc|Hc]; [exact (readBlock_zero _ _ _ Ho (Hzero j (conj Hj1 Hj2) Hc))|exact (readBlock_hole _ _ _ Ho)].
    + cbn. unfold nothing_written. by rewrite map_lookup_imap, Hl.
    + cbn. rewrite Hhb. lia.
Qed.
End Chain.

(** ** Two blocks of the test chain, lost *)

#[local] Existing Instance BlockTimestampTracker.tracker_BTree.
#[local] Existing Instance BlockTimestampTracker.tracker_BTreeLaws.
#[local] Existing Instance tb_Journal.
#[local] Existing Instance tb_JournalLaws.
#[local] Existing Instance tb_Index.
#[local] Existing Instance tb_Sink.

Definition pl_time : Z := 1700001200000.
Definition pl_txs : list TestTransaction := [mkTestTransaction 4 1 1].
Definition pl_one : tb_backend (list entry_args) := (addBlock (M:=bytemap) (tb_env cr_time) cr_txs tb1).2.
Definition pl_two : tb_backend (list entry_args) := (addBlock (M:=bytemap) (tb_env pl_time) pl_txs pl_one).2.
Definition pl_blocks : list (Z * list TestTransaction) := (tb_blocks ++ [(cr_time, cr_txs)]) ++ [(pl_time, pl_txs)].
Definition pl_versions : gmap string (list bytemap) :=
  after_append sample_newFile (after_append sample_newFile (synced (journal tb1)) (journal tb1) tb_blocks (cr_time, cr_txs))
    (journal pl_one) (tb_blocks ++ [(cr_time, cr_txs)]) (pl_time, pl_txs).
Definition pl_tracker : BlockTimestampTracker.tracker (list BlockTimestampTracker.block_timestamp_entry_t) := BlockTimestampTracker.openTracker [].
Definition pl_opened (disk : gmap string bytemap) : tb_backend (list entry_args) := powered_on (testDesign 0) pl_two (header pl_two) disk [] pl_tracker.

Lemma pl_fits : files_fit sample_newFile opens_all tt_enc (journal pl_one) (tb_blocks ++ [(cr_time, cr_txs)]) (pl_time, pl_txs).
Proof. by_compute. Qed.

Lemma pl_first : addBlock (M:=bytemap) (tb_env cr_time) cr_txs tb1 = (Ret 1, pl_one).
Proof. unfold pl_one. apply (pair_fst (addBlock (M:=bytemap) (tb_env cr_time) cr_txs tb1) (Ret 1)). vm_compute. reflexivity. Qed.

Lemma pl_second : addBlock (M:=bytemap) (tb_env pl_time) pl_txs pl_one = (Ret 2, pl_two).
Proof. unfold pl_two. apply (pair_fst (addBlock (M:=bytemap) (tb_env pl_time) pl_txs pl_one) (Ret 2)). vm_compute. reflexivity. Qed.

Lemma pl_run : rtc (pl_commit sample_newFile opens_all tt_enc) (tb1, tb_blocks, synced (journal tb1)) (pl_two, pl_blocks, pl_versions).
Proof.
  pose proof cr_fits as F1. pose proof pl_fits as F2. pose proof pl_first as A1. pose proof pl_second as A2. unfold pl_blocks, pl_versions.
  generalize dependent pl_two. generalize dependent pl_one. generalize dependent tb1. intros b0 F1 b1 F2 A1 b2 A2.
  eapply rtc_l; [exact (pl_addBlock _ _ _ (tb_env cr_time) cr_txs b0 tb_blocks (synced (journal b0)) 1 b1 F1 A1 ltac:(lia))|].
  apply rtc_once. exact (pl_addBlock _ _ _ (tb_env pl_time) pl_txs b1 _ _ 2 b2 F2 A2 ltac:(lia)).
Qed.

Lemma pl_size name : firstBlockOffset <= mm_size (sample_newFile name).
Proof. by_compute. Qed.

Lemma pl_zero j : (length tb_blocks <= j < length pl_blocks)%nat -> j = length tb_blocks \/ (j mod bpe = 0)%nat ->
  let m := base_file sample_newFile (journal tb1) (epochName (Z.of_nat j)) in
  mm_load m (getBlockOffset m (Z.of_nat j) + off_numTransactions) 2 = [0; 0].
Proof.
  cbn [length tb_blocks pl_blocks app]. intros Hj Hc. assert (j = 1%nat) as ->.
  { destruct Hc as [|Hc]; [done|]. rewrite Nat.mod_small in Hc; [lia|]. pose proof bpe_Z as Hb. unfold BLOCKS_PER_EPOCH in Hb. lia. }
  vm_compute. reflexivity.
Qed.

Lemma pl_second_hole : ~ (2%nat = length tb_blocks \/ (2 mod bpe = 0)%nat).
Proof.
  intros [H|H]; [discriminate H|]. rewrite Nat.mod_small in H; [discriminate H|].
  pose proof bpe_Z as Hb. unfold BLOCKS_PER_EPOCH in Hb. lia.
Qed.

Lemma power_loss_witness :
  exists disk, dark sample_newFile opens_all tt_enc (pl_two, pl_blocks, pl_versions) (header pl_two) disk /\
    (getBlock 0 (pl_opened disk)).1 = Ret tb_txs /\ (getBlock 1 (pl_opened disk)).1 = Ret [] /\
    (getBlock 2 (pl_opened disk)).1 = Throw (runtime_error "Block offset is zero").
Proof.
  destruct (power_loss (M:=bytemap) sample_newFile opens_all tt_enc (fun _ => eq_refl) pl_size (testDesign 0) tb1 tb_blocks pl_two pl_blocks pl_versions []
    pl_tracker (tt_codec 0 emptyTypeRegistry) tb1_files eq_refl pl_run) as [H1 H2].
  destruct (H2 tb1_unreached sample_zero pl_zero) as (disk & Hd & Hlost). exists disk. split; [exact Hd|].
  split; [exact (proj2 (H1 _ disk Hd) 0%nat (1700000000000, tb_txs) eq_refl)|]. split.
  - pose proof (Hlost 1%nat ltac:(cbn; lia)) as E. destruct (decide _) as [_|n] in E; [exact E|]. exfalso. apply n. left. reflexivity.
  - pose proof (Hlost 2%nat ltac:(cbn; lia)) as E. destruct (decide _) as [n|_] in E; [|exact E]. exfalso. exact (pl_second_hole n).
Defined.
