(* ===== verification/TestSuite.v ===== *)
(** * TestSuite

    The unit tests of the repository (src/src/blockchain/tests, src/src/storage/tests), run on the
    model: the body of a test is a definition that computes what the test observes, and a
    closed lemma of the same name states the values it expects.  Where a test waits for a
    background thread, the model runs the steps of that thread. *)

From S2P Require Import Prelude Excessive Memory Transaction Registry StateOverride ChainDesign TestChainDesign MEVBuilder.
From S2P Require Import EpochFile Journal CatalogFile Catalog CatalogTasks CatalogStats SumIndex Backend BackendCorrect Frontend TestBackend Progress.
From S2P Require Import Crash Lifetime SumChain Sharing.
From S2P Require BlockTimestampTracker.

Definition ProbeA : TypeKey := 1%positive.
Definition ProbeB : TypeKey := 2%positive.

(** ** tests/test_BackendRegistry.cpp

    The object behind a registered pointer is its payload. *)
Section BackendRegistryTest.

Lemma RegisterAndRetrieveIdentity : getIndex (registerIndexes [(ProbeA, 7)]) ProbeA 0 = Some 7.
Proof. reflexivity. Qed.

Lemma MultipleInstancesSameTypeIndependent : let reg := registerIndexes [(ProbeA, 1); (ProbeA, 2)] in
  instanceCount reg ProbeA = 2 /\ getIndex reg ProbeA 0 = Some 1 /\ getIndex reg ProbeA 1 = Some 2.
Proof. by vm_compute. Qed.

Lemma DifferentTypesDoNotCollide : let reg := registerIndexes [(ProbeA, 11); (ProbeB, 22)] in
  instanceCount reg ProbeA = 1 /\ instanceCount reg ProbeB = 1 /\ getIndex reg ProbeA 0 = Some 11 /\ getIndex reg ProbeB 0 = Some 22.
Proof. by vm_compute. Qed.

Lemma OutOfRangeIdReturnsNull : getIndex (registerIndexes [(ProbeA, 0)]) ProbeA 5 = None.
Proof. reflexivity. Qed.

Lemma UnregisteredTypeReturnsNull : let reg := registerIndexes [(ProbeA, 0)] in
  getIndex reg ProbeB 0 = None /\ instanceCount reg ProbeB = 0.
Proof. by vm_compute. Qed.

Lemma EmptyRegistry : instanceCount (emptyBackendRegistry (Ix:=Z)) ProbeA = 0 /\ getIndex (emptyBackendRegistry (Ix:=Z)) ProbeA 0 = None.
Proof. by vm_compute. Qed.

Definition five_instances : BackendRegistry Z := registerIndexes (map (fun i => (ProbeA, 10 * i)) [0; 1; 2; 3; 4]).

Lemma IdsAreDenseAndPreserveRegistrationOrder :
  instanceCount five_instances ProbeA = 5 /\ map (getIndex five_instances ProbeA) [0; 1; 2; 3; 4] = map Some [0; 10; 20; 30; 40].
Proof. by vm_compute. Qed.
End BackendRegistryTest.

(** ** tests/test_BlockchainIndex.cpp *)
Section BlockchainIndexTest.

(** An index that is not attached answers zero whatever the disk holds. *)
Lemma AttachStoresStorageHandles (w : TestWorld) : latestSum w newTestSumIndex = 0 /\ latestCount w newTestSumIndex = 0.
Proof. done. Qed.

Lemma MergeSegmentsWithNoInputsReturnsEmpty : mergeSegments newTestSumIndex [] = [].
Proof. done. Qed.
End BlockchainIndexTest.

(** ** tests/test_StateOverrideRegistry.cpp *)
Section StateOverrideRegistryTest.

Definition three_entries : StateOverrideRegistry Z := registerOverrides [(ProbeA, 0); (ProbeB, 0); (ProbeA, 0)].
Definition entry_names (reg : StateOverrideRegistry Z) : list (TypeKey * Z) := map (fun e => (oe_key e, oe_id e)) (sr_entries reg).

Lemma RegistrationOrderIsPreserved : entry_names three_entries = [(ProbeA, 0); (ProbeB, 0); (ProbeA, 1)].
Proof. by vm_compute. Qed.

Lemma MultipleSameTypeSuccessiveIds : map snd (entry_names (registerOverrides (replicate 4 (ProbeA, 0)))) = [0; 1; 2; 3].
Proof. by vm_compute. Qed.

(** Two typed writes and the two values read back. *)
Definition write_both (reg : StateOverrideRegistry Z) (a b : TypeKey * Z) (x y : Z) : outcome (Z * Z) :=
  s ← overrideUpd (StateOverride.newStateOverride reg) a.1 a.2 (fun _ => x);
  s ← overrideUpd s b.1 b.2 (fun _ => y);
  v ← override s a.1 a.2; w ← override s b.1 b.2; mret (v, w).

Lemma StateOverrideMaterializesRegisteredFamilies :
  write_both (registerOverrides [(ProbeA, 0); (ProbeB, 0)]) (ProbeA, 0) (ProbeB, 0) 42 314 = Ret (42, 314).
Proof. by vm_compute. Qed.

Lemma StateOverrideRepeatedAccessReturnsSameInstance :
  (s ← overrideUpd (StateOverride.newStateOverride (registerOverrides [(ProbeA, 0)])) ProbeA 0 (fun _ => 99); override s ProbeA 0) = Ret 99.
Proof. by vm_compute. Qed.

Lemma MultipleIdsAreIndependent :
  write_both (registerOverrides [(ProbeA, 0); (ProbeA, 0)]) (ProbeA, 0) (ProbeA, 1) 1 2 = Ret (1, 2).
Proof. by vm_compute. Qed.

(** The walk that records the keys and ids it is called with. *)
Definition trace (s : StateOverride Z) : outcome (list (TypeKey * Z)) :=
  snd <$> forEachFamily (fun key id f ctx => (f, ctx ++ [(key, id)])) s [].

Lemma EmptyStateOverride : trace (StateOverride.newStateOverride emptyOverrideRegistry) = Ret [].
Proof. by vm_compute. Qed.

Lemma ForEachFamilyWalksInRegistrationOrder : trace (StateOverride.newStateOverride three_entries) = Ret [(ProbeA, 0); (ProbeB, 0); (ProbeA, 1)].
Proof. by vm_compute. Qed.
End StateOverrideRegistryTest.

(** ** tests/test_StateOverride.cpp

    On the pointers of Sharing.v; handle 0 is the parent. *)
Section StateOverrideTest.

Definition mem : Type := memory (F:=Z) (P:=plain_pointer).
Definition parent : mem := newShared [(ProbeA, 0); (ProbeB, 0)].
Definition set_value (x : Z) : Z -> Z := fun _ => x.
Definition look_all (keys : list (nat * TypeKey)) (m : mem) : outcome (list Z) :=
  foldr (fun k r => v ← look k.1 k.2 0 m; vs ← r; mret (v :: vs)) (mret []) keys.

Definition forked_child : outcome mem :=
  m ← write 0 ProbeA 0 (set_value 1) parent; m ← fork 0 m; write 1 ProbeA 0 (set_value 99) m.

Lemma ForkDoesNotLeakToParent : forked_child ≫= look_all [(0%nat, ProbeA); (1%nat, ProbeA)] = Ret [1; 99].
Proof. by vm_compute. Qed.

Definition one_family_written : outcome mem :=
  m ← write 0 ProbeA 0 (set_value 7) parent; m ← write 0 ProbeB 0 (set_value 13) m;
  m ← fork 0 m; write 1 ProbeA 0 (set_value 70) m.

Lemma UntouchedFamilyStaysSharedAfterFork :
  one_family_written ≫= look_all [(0%nat, ProbeA); (0%nat, ProbeB); (1%nat, ProbeA); (1%nat, ProbeB)] = Ret [7; 13; 70; 13].
Proof. by vm_compute. Qed.

Definition siblings : outcome mem :=
  m ← write 0 ProbeA 0 (set_value 5) parent; m ← fork 0 m; m ← fork 0 m;
  m ← write 1 ProbeA 0 (set_value 11) m; write 2 ProbeA 0 (set_value 22) m.

Lemma SiblingsDivergeIndependently : siblings ≫= look_all [(0%nat, ProbeA); (1%nat, ProbeA); (2%nat, ProbeA)] = Ret [5; 11; 22].
Proof. by vm_compute. Qed.

(** The test that is commented out, with plain copies instead of [getWritableCopy]: it fails
    as its comment says. *)
Definition fork_of_fork : outcome mem :=
  m ← write 0 ProbeA 0 (set_value 1) parent; m ← fork 0 m; m ← write 1 ProbeA 0 (set_value 2) m;
  m ← fork 1 m; write 2 ProbeA 0 (set_value 3) m.

Lemma ForkOfForkDetachesAtEachLevel : fork_of_fork ≫= look_all [(0%nat, ProbeA); (1%nat, ProbeA); (2%nat, ProbeA)] = Ret [1; 3; 3].
Proof. by vm_compute. Qed.

Definition copied_override : outcome mem :=
  m ← write 0 ProbeA 0 (set_value 50) parent; m ← clone 0 m; write 1 ProbeA 0 (set_value 60) m.

Lemma CopyConstructorIsCheapAndCorrect : copied_override ≫= look_all [(0%nat, ProbeA); (1%nat, ProbeA)] = Ret [50; 60].
Proof. by vm_compute. Qed.

Lemma FreshlyConstructedOverridesAreEqual : look 0 ProbeA 0 parent = Ret 0 /\ look 0 ProbeB 0 parent = Ret 0.
Proof. by vm_compute. Qed.

Lemma FamilyOrderPreservedThroughFork :
  copyOverride (StateOverride.newStateOverride three_entries) ≫= trace = Ret [(ProbeA, 0); (ProbeB, 0); (ProbeA, 1)].
Proof. by vm_compute. Qed.
End StateOverrideTest.

(** ** tests/test_TransactionTypeRegistry.cpp

    Two factories that are told apart by what they make. *)
Section TransactionTypeRegistryTest.

Definition make (n : Z) : FactoryFunc bytemap Z := mret (Some n).
Definition makes (r : TransactionTypeRegistry bytemap Z) (id : Z) : option (outcome (option Z)) :=
  (fun f => (f (blank 0)).1) <$> getFactory r id.

Lemma RegisterAndLookupFactory : makes (registerType emptyTypeRegistry 119 (make 42)) 119 = Some (Ret (Some 42)).
Proof. by vm_compute. Qed.

Lemma UnknownTypeReturnsNullFactory : makes emptyTypeRegistry 0 = None /\ makes emptyTypeRegistry 255 = None.
Proof. by vm_compute. Qed.

Lemma ReRegisterReplacesFactory :
  makes (registerType (registerType emptyTypeRegistry 119 (make 42)) 119 (make 99)) 119 = Some (Ret (Some 99)).
Proof. by vm_compute. Qed.

Lemma RegistriesAreIndependent :
  makes (registerType emptyTypeRegistry 119 (make 42)) 119 <> None /\ makes emptyTypeRegistry 119 = None.
Proof. split; [discriminate|reflexivity]. Qed.
End TransactionTypeRegistryTest.

(** ** storage/tests/test_BlockTimestampTracker.cpp *)
Section BlockTimestampTrackerTest.
#[local] Existing Instance BlockTimestampTracker.tracker_BTree.

Definition track (blocks : list (Z * Z)) : BlockTimestampTracker.tracker (list BlockTimestampTracker.block_timestamp_entry_t) :=
  foldl (fun tr b => BlockTimestampTracker.addBlock tr b.1 b.2) (BlockTimestampTracker.openTracker []) blocks.
Definition five_blocks := track [(1000, 0); (2000, 1); (3000, 2); (3000, 3); (4000, 4)].

Lemma AddAndQuery : map (fun w => BlockTimestampTracker.getBlocksInWindow 9 five_blocks w.1 w.2) [(1500, 3500); (1000, 1000); (4000, 5000); (5000, 6000)] =
  [Ret [1; 2; 3]; Ret [0]; Ret [4]; Ret []].
Proof. by vm_compute. Qed.

Lemma Persistent :
  BlockTimestampTracker.getBlocksInWindow 9 (BlockTimestampTracker.openTracker (BlockTimestampTracker.index (track [(1000, 0); (2000, 1)]))) 0 3000 = Ret [0; 1].
Proof. by vm_compute. Qed.
End BlockTimestampTrackerTest.

(** ** A backend with the test design

    Its catalog records the segments; [committed] is what the indexes answer from disk. *)
#[local] Existing Instance BlockTimestampTracker.tracker_BTree.
#[local] Existing Instance tb_Journal.
#[local] Existing Instance tb_Index.
#[local] Existing Instance tb_Sink.
#[local] Existing Instance tb_FileMapping.

Definition a_config (blockTime throughput : Z) : BlockchainConfig :=
  {| targetBlockTimeMs := blockTime; targetThroughput := throughput; maxSegmentsPerIndex := 64; maxMergeableSegmentBytes := 536870912 |}.
Definition a_backend (config : BlockchainConfig) : tb_backend (list entry_args) :=
  openBackend config true {| lastBlockTimestamp := 0; currentBlockHeight := 0 |} ∅ (testDesign 0) [] (BlockTimestampTracker.openTracker []).
Definition on_disk (sum count : Z) : TestWorld := fun _ => (sum, count).
Definition at_time (millis : Z) : commit_env TestWorld :=
  {| e_millis := millis; e_verify := on_disk 0 0; e_apply := on_disk 0 0; e_seal := fun _ => on_disk 0 0 |}.
Definition create (val : Z) : TestTransaction := mkTestTransaction 0 val 0.
Definition with_id (id : Z) : TestTransaction := mkTestTransaction 0 0 id.
Definition values (txs : list TestTransaction) : list Z := map tt_value txs.
Definition answer {S A} (x : outcome A * S) : outcome A := x.1.

(** ** tests/test_MEVBuilder.cpp *)
Section MEVBuilderTest.

(** The fields of the block and of what is left of the mempool. *)
Definition build (field : TestTransaction -> Z) (mempool : list TestTransaction) (maxTransactions : Z) : outcome (list Z * list Z) :=
  fresh ← newStateOverride (a_backend defaultConfig);
  '(block, rest) ← buildBlock (M:=bytemap) 20 (fun _ => 0) (on_disk 0 0) fresh mempool maxTransactions 0;
  mret (map field block, map field rest).

Lemma BasicSelection : build tt_value (map create [1; 5; 3]) 2 = Ret ([5; 3], [1]).
Proof. by vm_compute. Qed.

Lemma RespectMaxTransactions : build tt_value (map create [0; 1; 2; 3; 4; 5; 6; 7; 8; 9]) 5 = Ret ([9; 8; 7; 6; 5], [0; 1; 2; 3; 4]).
Proof. by vm_compute. Qed.

Lemma EmptyMempool : build tt_value [] 10 = Ret ([], []).
Proof. by vm_compute. Qed.

Lemma ComplexExecutionOrderDependency : build tt_id (map with_id [1; 2; 3]) 2 = Ret ([3; 2], [1]).
Proof. by vm_compute. Qed.

Lemma StartsFromBackendNotFrontendState : build tt_id (map with_id [3; 1]) 1 = Ret ([3], [1]).
Proof. by vm_compute. Qed.

Lemma ExecutionOrderDependency : build tt_id (map with_id [2; 1]) 10 = Ret ([1; 2], []).
Proof. by vm_compute. Qed.
End MEVBuilderTest.

(** ** tests/test_ChainDesign.cpp *)
Section ChainDesignTest.

Lemma BackendExposesRegisteredIndex : (latestSum (on_disk 0 0) <$> index (a_backend defaultConfig) indexKey 0) = Some 0.
Proof. by vm_compute. Qed.

Lemma BackendStateOverrideHasRegisteredFamily :
  (s ← newStateOverride (a_backend defaultConfig); fam ← override s familyKey 0; mret (fam_sum (on_disk 0 0) fam, fam_count (on_disk 0 0) fam)) = Ret (0, 0).
Proof. by vm_compute. Qed.

Definition has_factory (id : Z) : bool :=
  match getFactory (getTransactionTypeRegistry (a_backend defaultConfig)) id with Some _ => true | None => false end.

Lemma TransactionTypeIsRegistered : map has_factory [1; 0; 2] = [true; false; false].
Proof. by vm_compute. Qed.

Definition EmptyChainDesign : ChainDesign TestTransaction TestSumOverrideFamily TestSumIndex bytemap :=
  {| cd_registerIndexes := id; cd_registerOverrides := id; cd_registerTransactionTypes := id |}.

Lemma EmptyDesignBackendConstructs :
  getBlockHeight (openBackend defaultConfig true {| lastBlockTimestamp := 0; currentBlockHeight := 0 |} (∅ : gmap string bytemap)
    EmptyChainDesign ([] : list entry_args) (BlockTimestampTracker.openTracker ([] : list BlockTimestampTracker.block_timestamp_entry_t))) = 0.
Proof. by vm_compute. Qed.
End ChainDesignTest.

(** ** tests/test_BlockchainBackend.cpp *)
Section BlockchainBackendTest.
Abbreviation backend := (tb_backend (list entry_args)).

(** What the calls of a test answer, one after the other. *)
Definition block_values (n : Z) : prog backend (list Z) := txs ← getBlock n; mret (values txs).
Definition height : prog backend Z := b ← getS; mret (getBlockHeight b).
Definition commit_at (millis : Z) (vals : list Z) : prog backend Z := addBlock (M:=bytemap) (at_time millis) (map create vals).

Lemma InitialState : getBlockHeight (a_backend defaultConfig) = 0 /\ getLastBlockTimestamp (a_backend defaultConfig) = 0.
Proof. by vm_compute. Qed.

Lemma AddAndGetBlock :
  answer ((n ← commit_at T1 [100; 200]; h ← height; v ← block_values 0; mret (n, h, v)) (a_backend (a_config 100 1))) = Ret (0, 1, [100; 200]).
Proof. by vm_compute. Qed.

Lemma MiningTooEarly :
  answer ((_ ← commit_at T1 [1]; h ← height; n ← commit_at (T1 + 1) [1]; h' ← height; mret (h, n, h')) (a_backend (a_config 1000 10))) = Ret (1, -1, 1).
Proof. by vm_compute. Qed.

(** The second backend opens the files of the first. *)
Definition persisted : backend := reopen (testDesign 0) (commit_at T1 [42] (a_backend (a_config 100 180))).2 [].

Lemma Persistence :
  getBlockHeight persisted = 1 /\ answer (block_values 0 persisted) = Ret [42] /\
  (s ← newStateOverride persisted; fam ← override s familyKey 0; mret (fam_sum (on_disk 42 1) fam)) = Ret 42.
Proof. by vm_compute. Qed.

Lemma InvalidBlockRange : map (fun n => answer (block_values n (a_backend defaultConfig))) [0; 1] =
  [Throw (range_error "Block number out of range"); Throw (range_error "Block number out of range")].
Proof. by vm_compute. Qed.

Definition window (t1 t2 : Z) : prog backend (list Z) := txs ← Backend.getTransactionsByTimeWindow 9 t1 t2; mret (values txs).
Definition two_blocks : backend := ((_ ← commit_at (T1 + 1) [1]; commit_at (T1 + 112) [2]) (a_backend (a_config 100 1))).2.

Lemma TimeWindowQuery : map (fun w => answer (window w.1 w.2 two_blocks)) [(T1, T1 + 111); (T1 + 111, T1 + 113); (T1, T1 + 113)] =
  [Ret [1]; Ret [2]; Ret [1; 2]].
Proof. by vm_compute. Qed.

Lemma TypedIndexAccessorReachable : index (commit_at T1 [7; 11] (a_backend (a_config 10 180))).2 indexKey 0 <> None.
Proof. vm_compute. discriminate. Qed.

(** The sum shown by a first override, then, after a write to it, by a second one. *)
Definition fresh_sums (b : backend) : outcome (Z * Z) :=
  s ← newStateOverride b; fam ← override s familyKey 0;
  _ ← overrideUpd s familyKey 0 (fun fam => tt_bump (create 999) fam);
  s' ← newStateOverride b; fam' ← override s' familyKey 0;
  mret (fam_sum (on_disk 5 1) fam, fam_sum (on_disk 5 1) fam').

Lemma NewStateOverrideIsFreshAndIsolated : fresh_sums (commit_at T1 [5] (a_backend (a_config 10 180))).2 = Ret (5, 5).
Proof. by vm_compute. Qed.

(** The blocks 1 ... 10.  The test retries until a block is accepted, which is after 100 ms. *)
Definition ten_blocks : prog backend (list Z) :=
  foldr (fun i rest => n ← commit_at (T1 + 100 * i) [i]; ns ← rest; mret (n :: ns)) (mret []) [1; 2; 3; 4; 5; 6; 7; 8; 9; 10].

Lemma MultipleBlocksInOneEpoch :
  answer ((ns ← ten_blocks; h ← height; first ← block_values 0; last ← block_values 9; mret (ns, h, first, last)) (a_backend (a_config 10 1))) =
  Ret ([0; 1; 2; 3; 4; 5; 6; 7; 8; 9], 10, [1], [10]).
Proof. by vm_compute. Qed.

(** A transaction type that never verifies. *)
#[local] Instance InvalidTestTransaction : Transaction TestTransaction TestWorld TestState bytemap := {|
  tx_verify := fun _ _ _ => false;
  tx_apply := tt_apply;
  tx_computeValue := tt_computeValue;
  tx_write := tt_write;
  tx_size := fun _ => 17;
  tx_getTypeId := fun _ => tt_getTypeId;
  tx_getTimestamp := tt_timestamp;
|}.

Lemma RejectInvalidTransaction : let r := addBlock (M:=bytemap) (at_time T1) [create 100] (a_backend defaultConfig) in
  r.1 = Throw (runtime_error "Transaction verification failed") /\ getBlockHeight r.2 = 0.
Proof. by vm_compute. Qed.
End BlockchainBackendTest.

(** ** tests/test_BlockchainFrontend.cpp

    A frontend and its backend; [current_sum] reads the speculative state over what is on
    disk. *)
Section BlockchainFrontendTest.
Abbreviation backend := (tb_backend (list entry_args)).
Abbreviation frontend := (Frontend TestTransaction TestSumOverrideFamily).

Definition current_sum (sum count : Z) (fe : frontend) : outcome Z := fam_sum (on_disk sum count) <$> override (fe_state fe) familyKey 0.
Definition fresh_frontend (b : backend) : outcome frontend := openFrontend (M:=bytemap) (on_disk 0 0) b None.
Definition send_all (txs : list TestTransaction) (fe : frontend) : frontend :=
  foldl (fun fe tx => sendTransaction (M:=bytemap) (on_disk 0 0) tx fe) fe txs.
Definition pass (config : BlockchainConfig) (millis : Z) (fe : frontend) (b : backend) : outcome frontend * backend :=
  builder_pass (M:=bytemap) 40 (fun _ => 0) 0 (on_disk 0 0) (at_time millis) config fe b.

(** The transactions are sent, then the builder thread runs once. *)
Definition sent_and_built (config : BlockchainConfig) (txs : list TestTransaction) : outcome (frontend * backend) :=
  fe ← fresh_frontend (a_backend config);
  let '(r, b) := pass config T1 (send_all txs fe) (a_backend config) in
  fe ← r; mret (fe, b).

Lemma BasicInitialState : (fe ← fresh_frontend (a_backend defaultConfig); s ← current_sum 0 0 fe; mret (getMempoolSize fe, s)) = Ret (0, 0).
Proof. by vm_compute. Qed.

Lemma AddTransactionToMempool :
  (fe ← fresh_frontend (a_backend defaultConfig); let fe := send_all [create 10] fe in s ← current_sum 0 0 fe; mret (getMempoolSize fe, s)) = Ret (1, 10).
Proof. by vm_compute. Qed.

(** Ten of the thirty transactions are in the block, and the segment with their sum is on disk. *)
Lemma BuildBlockOnTransactionCount :
  ('(fe, b) ← sent_and_built (a_config 1000 10) (replicate 30 (create 1)); s ← current_sum 10 10 fe; mret (getBlockHeight b, getMempoolSize fe, s)) = Ret (1, 20, 30).
Proof. by vm_compute. Qed.

(** The two lifetimes of a recovery test: what the second one shows. *)
Definition reloaded (first later : list TestTransaction) (sum count : Z) : outcome (Z * Z * Z) :=
  '(fe, b) ← sent_and_built (a_config 100 10) first;
  let file := saveMempoolFile (M:=bytemap) all_well None (send_all later fe) in
  let b := reopen (testDesign 0) b [] in
  fe ← openFrontend (on_disk sum count) b file;
  s ← current_sum sum count fe;
  mret (getBlockHeight b, getMempoolSize fe, s).

Lemma BasicStateRecovery : reloaded (replicate 30 (create 2)) [] 20 10 = Ret (1, 20, 60).
Proof. by vm_compute. Qed.

Lemma AdvancedStateRecovery : reloaded (replicate 30 (create 1)) [create 10; create 20] 10 10 = Ret (1, 22, 60).
Proof. by vm_compute. Qed.

Lemma TimeQueryFeature :
  (fe ← fresh_frontend (a_backend defaultConfig);
   answer (Frontend.getTransactionsByTimeWindow (M:=bytemap) 9 T1 (T1 + 20) (send_all [mkTestTransaction (T1 + 10) 500 0] fe) (a_backend defaultConfig))) =
  Ret [mkTestTransaction (T1 + 10) 500 0].
Proof. by vm_compute. Qed.

Definition query_by_id (id : Z) : outcome (option Z) :=
  r ← sent_and_built (a_config 10 10) (map (fun n => create (Z.of_nat n)) (seq 0 20));
  let b : backend := r.2 in
  tx ← answer (getTransactionById (Tx:=TestTransaction) id b); mret (match tx with Some tx => Some (tt_value tx) | None => None end).

Lemma TransactionQueryById : query_by_id (Z.lor (Z.shiftl 0 20) 3) = Ret (Some 16).
Proof. by vm_compute. Qed.

(** The first block at once; the second one not before the target time has passed. *)
Definition timing (elapsed : Z) : outcome (Z * Z) :=
  '(fe, b) ← sent_and_built (a_config 1000 10) (map create [0; 1; 2; 3; 4]);
  let '(r, b) := pass (a_config 1000 10) (T1 + elapsed) (send_all (map create [0; 1; 2; 3; 4; 5; 6; 7; 8; 9]) fe) b in
  _ ← r; mret (getBlockHeight b, getLastBlockTime b).

Lemma BlockBuilderTiming : timing 999 = Ret (1, T1) /\ timing 1000 = Ret (2, 1000).
Proof. by vm_compute. Qed.
End BlockchainFrontendTest.

(** ** storage/tests/test_Catalog.cpp

    A write is accepted, then both sections of its task run. *)
Section CatalogTest.
#[local] Existing Instance seg_BTree.
#[local] Existing Instance toc_BTree.
#[local] Existing Instance sc_file_impl.
Abbreviation catalog := (sample_catalog_t).

Definition makePayload (marker : Z) (size : nat) : list Z := map (fun i => u8 (marker + Z.of_nat i)) (seq 0 size).
Definition call (indexId startBlock marker : Z) (size : nat) : entry_args :=
  {| ea_indexId := indexId; ea_version := 1; ea_mergeGeneration := 0; ea_startBlock := startBlock; ea_endBlock := startBlock + 1;
     ea_content := makePayload marker size |}.
Definition write_done (now : Z) (a : entry_args) (c : catalog) : outcome catalog :=
  let '(r, c) := writeSegment in_order 20 (fun _ => true) now now "" a c in
  t ← r;
  let '(r, c) := task_store t c in
  t ← r;
  let '(r, c) := task_index t c in
  _ ← r; mret c.
Definition write_all (calls : list entry_args) : outcome catalog :=
  foldl (fun c a => c ← c; write_done 1000 a c) (mret cat0) calls.

Definition countSegments (indexId st en : Z) (c : catalog) : outcome Z :=
  fileIds ← rangeScan 20 5000 c indexId st en;
  foldl (fun total fileId =>
    total ← total;
    match files c !! fileId with
    | None => mret total
    | Some file => forEachSegment 20 (segmentIndex file) indexId st en (fun _ n => n + 1) total
    end) (mret 0) fileIds.

Lemma EmptyCatalogReturnsNoFiles : rangeScan 20 5000 cat0 0 0 U64_MAX = Ret [].
Proof. by vm_compute. Qed.

Lemma WrittenSegmentIsRetrievable : (write_all [call 0 0 7 8] ≫= countSegments 0 0 U64_MAX) = Ret 1.
Proof. by vm_compute. Qed.

Lemma MultipleSegmentsRetrievable : (write_all (map (fun b => call 0 b b 8) [0; 1; 2; 3; 4]) ≫= countSegments 0 0 U64_MAX) = Ret 5.
Proof. by vm_compute. Qed.

Definition cross_index : outcome (list Z) :=
  c ← write_all [call 0 0 1 8; call 1 0 2 8; call 2 0 3 8];
  foldr (fun ix r => n ← countSegments ix 0 U64_MAX c; ns ← r; mret (n :: ns)) (mret []) [0; 1; 2; 99].

Lemma CrossIndexIsolation : cross_index = Ret [1; 1; 1; 0].
Proof. by vm_compute. Qed.

Definition by_range : outcome (Z * Z) :=
  c ← write_all (map (fun b => call 0 b b 8) [0; 1; 2; 3; 4; 5; 6; 7; 8; 9]);
  total ← countSegments 0 0 U64_MAX c; windowed ← countSegments 0 3 5 c; mret (total, windowed).

Lemma RangeScanFiltersByBlockRange : by_range = Ret (10, 3).
Proof. by vm_compute. Qed.

Lemma SegmentsSurviveReopen :
  (c ← write_all [call 0 0 1 8; call 0 1 2 8]; countSegments 0 0 U64_MAX (crashed c)) = Ret 2.
Proof. by vm_compute. Qed.

(** What the reader maps for each segment of the index. *)
Definition payloads (indexId : Z) (c : catalog) : outcome (list (list Z)) :=
  fileIds ← rangeScan 20 5000 c indexId 0 U64_MAX;
  foldl (fun acc fileId =>
    acc ← acc;
    match files c !! fileId with
    | None => mret acc
    | Some file => forEachSegment 20 (segmentIndex file) indexId 0 U64_MAX (fun s acc => acc ++ [read_segment (M:=bytemap) file s]) acc
    end) (mret []) fileIds.

Lemma PayloadRoundTripsThroughReader : (write_all [call 7 100 66 16] ≫= payloads 7) = Ret [makePayload 66 16].
Proof. by vm_compute. Qed.
End CatalogTest.

(** ** tests/test_SegmentOrchestration.cpp

    On the chain of SumChain.v, whose catalog is the real one; after each block the pool
    runs until it is idle. *)
Section SegmentOrchestrationTest.

Definition write_block (millis : Z) (numTxs : nat) (value : Z) (b : sc_chain) : sc_chain :=
  sc_index (sc_store (sc_commit millis (replicate numTxs (create value)) b).2).
Definition index_state (b : sc_chain) : outcome (Z * Z) := '(_, sum, count) ← sc_read (T1 + 36000000) b; mret (sum, count).
Definition sc_reopened (b : sc_chain) : sc_chain := restart b (catalog b).1.

Lemma BlockCommitCreatesSegmentAndCatalogEntry :
  let b := write_block T1 3 5 sc0 in getBlockHeight b = 1 /\ index_state b = Ret (15, 3) /\ length (tocBTree (catalog b).1) = 1%nat.
Proof. by vm_compute. Qed.

Definition two_block_chain : sc_chain := write_block T2 4 2 (write_block T1 2 3 sc0).

Lemma ReopenProvidesIndexStateFromSegments :
  index_state two_block_chain = Ret (14, 6) /\ getBlockHeight (sc_reopened two_block_chain) = 2 /\ index_state (sc_reopened two_block_chain) = Ret (14, 6).
Proof. by vm_compute. Qed.

(** Six blocks of two transactions of value 1 ... 6; nothing is merged. *)
Definition six_blocks : sc_chain := foldl (fun b i => write_block (T1 + 600000 * i) 2 i b) sc0 [1; 2; 3; 4; 5; 6].

Lemma CompactionMergesWhenAboveThreshold : index_state six_blocks = Ret (42, 12).
Proof. by vm_compute. Qed.

Definition eight_blocks : sc_chain := foldl (fun b i => write_block (T1 + 600000 * i) 1 10 b) sc0 [1; 2; 3; 4; 5; 6; 7; 8].

Lemma ChainReopensWithCorrectState : index_state eight_blocks = Ret (80, 8) /\ index_state (sc_reopened eight_blocks) = Ret (80, 8).
Proof. by vm_compute. Qed.

Lemma JournalAndSegmentsCoexist : let b := write_block T1 5 7 sc0 in
  index_state b = Ret (35, 5) /\ map fst (map_to_list (journal b)) = ["0.bin"%string] /\
  answer ((txs ← getBlock (Tx:=TestTransaction) 0; mret (length txs)) b) = Ret 5%nat.
Proof. by vm_compute. Qed.
End SegmentOrchestrationTest.
